(* ===== verification/_CoqProject ===== *)
-Q . S2P
Prelude.v
Wire.v
Pad.v
RelayEnvelope.v
Crypto.v
Handshake.v
Payload.v
Ratchet.v
Skipped.v
Blob.v
Engine.v
Toy.v
EngineInv.v
EngineWf.v
ReplayWindow.v
Delivery.v
EndToEnd.v
Duplex.v
Restart.v
EngineProps.v
EnginePanic.v
Rekey.v
Limits.v
HandshakeProps.v
Bundle.v
Wal.v
TrustedMeta.v
Store.v
Device.v
Handle.v
Ffi.v
Fuzz.v
FfiProps.v
FfiHeap.v
Hub.v
HubLive.v
Conversation.v
