(* ===== verification/Prelude.v ===== *)
(** * A verification of libgary

    libgary is an end-to-end encrypted messenger library written in Rust. This
    library models its crates definition by definition and proves the properties
    that make them correct. The program's parts, under src/crates, are:

    - libgary-wire: byte formats. A 63-byte header, handshake bodies, the
      length-prefixed outer record, bucket padding, the relay envelope.
    - libgary-core: key derivation, X3DH, the handshake's inner AEADs, DATA and
      control payloads, and the session engine: symmetric chains, a DH ratchet, a
      cache of skipped message keys, a replay window, a RESET mode machine, export
      and import with a state commitment; SessionHandle wraps the engine.
    - libgary-storage: a session as a bundle inside a checksummed envelope, written
      atomically, checked against a commitment and a monotonic line on load.
    - libgary-ffi: a C interface around SessionHandle.
    - libgary-relay: a WebSocket server that pairs a host and a guest per room and
      forwards their binary messages.
    - src/fuzz/fuzz_targets: harnesses that feed arbitrary bytes to the decoders and
      to the inbound handler.

    A text travels down these layers (C interface, inner plaintext, ratchet, outer
    record, relay envelope, padding), through the relay, and up again; the session
    is saved by the store between runs.

    ** Files

    - Prelude.v (this file): bytes, slices and fixed-width integers; [outcome] for
      Result plus panics; [ST], the state and error monad in which an error keeps
      the mutations made before it; Hoare triples and [preserves] for it; the
      rewrite database [len] and the tactics [len], [len_goal], [fill_array],
      [cut_fields], [join_fields].
    - Wire.v, Pad.v, RelayEnvelope.v: libgary-wire (lib.rs, outer.rs, pad.rs,
      relay.rs, error.rs, constants.rs).
    - Crypto.v: aead.rs, kdf.rs, nonce.rs, x3dh.rs, constants.rs of libgary-core.
      The primitives are third-party: methods of the class [Crypto], with their
      documented behaviour (AEAD round trip and exactness, Diffie-Hellman
      agreement) as the class [CryptoLaws].
    - Handshake.v: transcript.rs, session.rs, handshake.rs, reset_handshake.rs,
      identity.rs. Payload.v: data.rs, control.rs. Ratchet.v: ratchet.rs and the
      engine's enumerations. Skipped.v: engine/skipped.rs. Blob.v: engine/anchor.rs
      and engine/blob.rs. HandshakeProps.v: theorems about these.
    - Engine.v: engine/session.rs, one definition per method of [Session], in [ST]
      over the session and the caller's generator.
    - Toy.v: an executable instance of [Crypto] (satisfying [CryptoLaws]), of the
      generator and of the build mode, used by witnesses and concrete runs.
    - EngineInv.v: calls as data ([op], [exec]) and runs of them; no counter twice.
      ReplayWindow.v: the window against a reference that keeps the whole history.
      EngineWf.v: well-formedness of every reachable session. Delivery.v and
      EndToEnd.v: an abstract one-way channel and the proof that two engines
      implement it. Duplex.v: the same for both directions interleaved. Restart.v:
      export, import and the commitment. EngineProps.v: send counters, epoch policy,
      RESET modes. EnginePanic.v: which calls panic, and how much work one inbound
      record causes. Rekey.v: the receive paths as equations, and REKEY records.
      Limits.v: what the engine does not protect against.
    - Bundle.v, Wal.v, TrustedMeta.v, Store.v: libgary-storage. Store.v runs the
      system calls of atomic_write.rs and store.rs against a file system in which
      each call may succeed, fail, or lose power. TrustedMeta.v has the trait
      SessionWalSource as a class; sessions and handles are its instances. Device.v
      composes engine and store: each call is saved before its result is used, and
      the machine restarts from the store whenever a save does not succeed.
    - Handle.v: engine/session_handle.rs.
    - Ffi.v: libgary-ffi (lib.rs, fixture.rs); FfiProps.v its theorems. FfiHeap.v: the
      heap of boxed handles behind the C pointers, with [gary_session_free], and C
      programs as strategies that choose the next call from the results so far.
    - Fuzz.v: the fuzz targets.
    - Hub.v: libgary-relay (main.rs): admission, the room table as a transition
      system whose events are a new connection, one step of one connection task, and
      one round of the forwarding loop of a pair. HubLive.v: progress of the tasks;
      the port and the plain routes. Conversation.v: two C clients and the relay together.

    ** What is proved

    - Formats: a byte string decodes to a value exactly when that value encodes to
      it (outer record, relay envelope, bundle, storage envelope); padding and
      handshake payloads round trip; decoders never panic on any input.
    - Engine, for every sequence of calls and hostile inputs: no counter is accepted
      twice, send counters strictly increase between resets (and a reset leaves no key
      behind), memory is bounded, every reachable
      session is well formed, foreign and replayed records are refused without
      effect; the bounded replay window decides like the unbounded history; the calls
      that panic are characterised exactly, and the work per record is bounded. For
      an honest pair: the engines refine a pair of abstract channels, one for each
      direction, under any interleaving, loss, duplication and reordering; up to
      [MAX_SKIP + 1] records arrive exactly once in any order.
    - Persistence: export and import round trip, the commitment binds the state, no
      DATA record is replayed across restarts; saving is crash safe, loading fails
      closed, and rollback detection is characterised exactly. A device that saves
      before it acts releases no DATA record and no send counter twice, over any
      sequence of calls, I/O errors and power losses. Both statements about restarts
      exclude one thing: that a record with the counter [u64::MAX], which exports
      reserve, has been accepted; what happens then is a theorem of Device.v.
    - C interface: on a live handle and memory of the announced size every call is
      defined; a null pointer or an empty output buffer is refused without effect, and
      otherwise the code is latched, strings are terminated, writes are bounded, no
      replay; a C program that respects ownership of the handles never makes an
      undefined call; a dialogue through the relay is read back in order, through
      every layer at once. No fuzz target crashes.
    - Relay: under every interleaving a pair is one host and one guest of one room
      and tag, and no socket is in two pairs; a host and a guest of a quiet room whose
      sends succeed end up forwarded to each other; after three steps every task has
      returned, waits for a peer, or forwards until a round ends its loop; forwarding
      is exact.
    - Limits, behaviour a user of the library should know about: the theorems of
      Limits.v; REKEY records replayed after a restart, reflected, or lost (Rekey.v); an
      older copy of the whole file accepted by the store (Store.v); the reserved counter
      that locks a session out of its store (Device.v); a ratchet secret known
      in advance (FfiProps.v); a relay task that is never woken (Hub.v).

    ** Conventions and bounds

    Integers are [N], with ranges ([fits]) and overflow written where the code can
    overflow; [usize] has 64 bits. Arrays are byte lists; indexing a slice out of
    range is [Panic]. Debug assertions are modelled as enabled; overflow checks are
    a parameter ([Build]). External functions that return arrays are read through
    [fit n], which fixes the length their type promises. Loops are structural
    recursions: over the list of entries, or over the number of missing counters,
    which [fill_recv_gap_to_counter] bounds by [MAX_SKIP] before it starts (where that
    check wraps, the full cache ends the loop); nothing needs fuel, except the C programs of FfiHeap.v, whose fuel is the number of calls
    they make and is arbitrary. The end-to-end theorems assume that counters stay [MAX_SKIP] below
    [U64_MAX], which leaves 2^64 - 2001 messages.

    ** What is not modelled

    Zeroization of memory and constant-time comparison (not observable in the
    model); listening, logging, Ctrl-C and JSON serialisation in the relay; the
    contents of a path (the store works on one envelope and its temporary); the
    inside of third-party crates (cryptography, generators, hex, JSON and UUID
    parsing, WebSocket framing, the allocator), which are parameters; the crates
    libgary-attach and libgary-testvec, which are empty; tests. *)

From Stdlib Require Export NArith Strings.Byte.
From stdpp Require Export prelude gmap list sorting strings.

#[export] Set Default Goal Selector "!".
#[export] Set Default Proof Using "Type*".
#[global] Open Scope N_scope.

(** * Bytes and byte strings *)

Abbreviation byte := Byte.byte.
Abbreviation bytes := (list Byte.byte).

#[global] Instance byte_eq_dec : EqDecision byte := Byte.byte_eq_dec.

(** [b as uN] and [n as u8] (the latter truncates). *)
Definition byte_of_N (n : N) : byte :=
  match Byte.of_N (n mod 256) with Some b => b | None => x00 end.

Lemma to_N_lt (b : byte) : Byte.to_N b < 256.
Proof. pose proof (Byte.to_N_bounded b). lia. Qed.

Lemma to_N_of_N n : Byte.to_N (byte_of_N n) = n mod 256.
Proof.
  unfold byte_of_N. destruct (Byte.of_N (n mod 256)) as [b|] eqn:E.
  - by apply Byte.to_of_N.
  - apply Byte.of_N_None_iff in E.
    assert (n mod 256 < 256) by (apply N.mod_lt; lia). lia.
Qed.

Lemma of_N_to_N b : byte_of_N (Byte.to_N b) = b.
Proof.
  unfold byte_of_N. rewrite N.mod_small by apply to_N_lt.
  by rewrite Byte.of_to_N.
Qed.

#[global] Instance to_N_inj : Inj (=) (=) Byte.to_N.
Proof. intros a b H. by rewrite <- (of_N_to_N a), H, of_N_to_N. Qed.

#[global] Instance byte_countable : Countable byte :=
  inj_countable' Byte.to_N byte_of_N of_N_to_N.

(** [usize] lengths are kept as [N]; [len b] is [b.len()]. *)
Definition len {A} (b : list A) : N := N.of_nat (length b).

Definition take_N {A} (n : N) (b : list A) : list A := take (N.to_nat n) b.
Definition drop_N {A} (n : N) (b : list A) : list A := drop (N.to_nat n) b.

Definition zeros (n : N) : bytes := replicate (N.to_nat n) x00.

(** A byte-string literal [b"..."]. *)
Definition bs (s : string) : bytes := String.list_byte_of_string s.

(** [len] and friends are normalised by rewriting with the [len] database, so
    that length side conditions reach [lia] as linear goals over [N]. *)
Create Rewrite HintDb len.

Lemma len_nil {A} : len (@nil A) = 0.
Proof. done. Qed.

Lemma len_cons {A} (a : A) l : len (a :: l) = 1 + len l.
Proof. unfold len. simpl. lia. Qed.

Lemma len_app {A} (a b : list A) : len (a ++ b) = len a + len b.
Proof. unfold len. rewrite length_app. lia. Qed.

Lemma len_take {A} n (b : list A) : len (take_N n b) = N.min n (len b).
Proof. unfold len, take_N. rewrite length_take. lia. Qed.

Lemma len_drop {A} n (b : list A) : len (drop_N n b) = len b - n.
Proof. unfold len, drop_N. rewrite length_drop. lia. Qed.

Lemma len_zeros n : len (zeros n) = n.
Proof. unfold len, zeros. rewrite length_replicate. lia. Qed.

#[export] Hint Rewrite @len_nil @len_cons @len_app @len_take @len_drop
  len_zeros : len.

(** Closes goals about lengths: rewrite with the database, then [lia]. *)
Ltac len := autorewrite with len in *; lia.

Lemma take_app_len {A} n (a b : list A) : len a = n → take_N n (a ++ b) = a.
Proof.
  intros <-. unfold take_N, len. rewrite Nat2N.id. apply take_app_length.
Qed.

Lemma drop_app_len {A} n (a b : list A) : len a = n → drop_N n (a ++ b) = b.
Proof.
  intros <-. unfold drop_N, len. rewrite Nat2N.id. apply drop_app_length.
Qed.

Lemma take_drop_N {A} n (b : list A) : take_N n b ++ drop_N n b = b.
Proof. apply take_drop. Qed.

Lemma drop_drop_N {A} n m (b : list A) : drop_N n (drop_N m b) = drop_N (m + n) b.
Proof. unfold drop_N. rewrite drop_drop. f_equal. lia. Qed.

Lemma take_all_N {A} n (b : list A) : len b <= n → take_N n b = b.
Proof. intros. apply take_ge. unfold len in *. lia. Qed.

Lemma drop_all_N {A} n (b : list A) : len b <= n → drop_N n b = [].
Proof. intros. apply drop_ge. unfold len in *. lia. Qed.

Lemma len_0_nil {A} (b : list A) : len b = 0 → b = [].
Proof. by destruct b. Qed.

(** * Arrays and slices

    A Rust array [[u8; n]] is a byte string of length [n]. [sub b lo hi] is
    [b[lo..hi]] on an array whose length is known statically to be at least
    [hi]; [put out lo src] is [out[lo..lo+src.len()].copy_from_slice(src)].
    Both are total because the compiler has fixed the lengths. Indexing into
    a run-time sized slice goes through [slice] below, which panics when the
    range is out of bounds. *)
Definition sub {A} (b : list A) (lo hi : N) : list A :=
  take_N (hi - lo) (drop_N lo b).

Definition put (out : bytes) (lo : N) (src : bytes) : bytes :=
  take_N lo out ++ src ++ drop_N (lo + len src) out.

(** An external function whose Rust result type is [[u8; n]], or that fills a
    buffer of [n] bytes, is read through [fit n]: the length promised by the
    type holds by construction and [fit n] is the identity on such results. *)
Definition fit (n : N) (b : bytes) : bytes := take_N n (b ++ zeros n).

Lemma len_sub {A} (b : list A) lo hi :
  len (sub b lo hi) = N.min (hi - lo) (len b - lo).
Proof. unfold sub. by rewrite len_take, len_drop. Qed.

Lemma len_fit n b : len (fit n b) = n.
Proof. unfold fit. len. Qed.

#[export] Hint Rewrite @len_sub len_fit : len.

Lemma fit_id n b : len b = n → fit n b = b.
Proof. intros. unfold fit. by apply take_app_len. Qed.

(** Consuming a byte string field by field. *)
Lemma sub_app_l {A} (a b : list A) hi : len a = hi → sub (a ++ b) 0 hi = a.
Proof.
  intros <-. unfold sub. rewrite N.sub_0_r. by apply take_app_len.
Qed.

Lemma sub_app_r {A} (a b : list A) lo hi :
  len a <= lo → sub (a ++ b) lo hi = sub b (lo - len a) (hi - len a).
Proof.
  intros H. unfold sub.
  replace (hi - len a - (lo - len a)) with (hi - lo) by lia. f_equal.
  replace lo with (len a + (lo - len a)) at 1 by lia.
  rewrite <- drop_drop_N. by rewrite drop_app_len.
Qed.

Lemma sub_all {A} (b : list A) hi : len b = hi → sub b 0 hi = b.
Proof. intros H. rewrite <- (app_nil_r b) at 1. by apply sub_app_l. Qed.

Lemma sub_split {A} (b : list A) lo mid hi :
  lo <= mid → mid <= hi → sub b lo mid ++ sub b mid hi = sub b lo hi.
Proof.
  intros. unfold sub.
  rewrite <- (take_drop_N (mid - lo) (take_N (hi - lo) (drop_N lo b))).
  f_equal.
  - unfold take_N. rewrite take_take. f_equal. lia.
  - unfold take_N, drop_N. rewrite skipn_firstn_comm, drop_drop. f_equal; [lia|].
    f_equal. lia.
Qed.

(** Rewriting with the comparisons the code makes. *)
Lemma ltb_true x y : x < y → (x <? y) = true.
Proof. apply N.ltb_lt. Qed.
Lemma ltb_false x y : y <= x → (x <? y) = false.
Proof. apply N.ltb_ge. Qed.
Lemma leb_true x y : x <= y → (x <=? y) = true.
Proof. apply N.leb_le. Qed.
Lemma leb_false x y : y < x → (x <=? y) = false.
Proof. apply N.leb_gt. Qed.
Lemma eqb_true x y : x = y → (x =? y) = true.
Proof. apply N.eqb_eq. Qed.
Lemma eqb_false x y : x ≠ y → (x =? y) = false.
Proof. apply N.eqb_neq. Qed.

(** ** Filling an array front to back, and cutting it up again *)

Lemma put_app pre b lo src :
  len pre = lo → put (pre ++ b) lo src = (pre ++ src) ++ drop_N (len src) b.
Proof.
  intros <-. unfold put. rewrite take_app_len by done.
  by rewrite <- drop_drop_N, drop_app_len, app_assoc by done.
Qed.

Lemma drop_zeros n k : drop_N n (zeros k) = zeros (k - n).
Proof. unfold drop_N, zeros. rewrite drop_replicate. f_equal. lia. Qed.

Lemma zeros_succ n : 0 < n → zeros n = x00 :: zeros (n - 1).
Proof.
  intros Hn. unfold zeros. replace (N.to_nat n) with (S (N.to_nat (n - 1))) by lia. done.
Qed.

Lemma put_zeros pre k lo src :
  len pre = lo → len src <= k →
  put (pre ++ zeros k) lo src = (pre ++ src) ++ zeros (k - len src).
Proof. intros Hp Hk. by rewrite put_app, drop_zeros. Qed.

Lemma put_zeros_nil k src :
  len src <= k → put (zeros k) 0 src = src ++ zeros (k - len src).
Proof. intros. by rewrite <- (app_nil_l (zeros k)), put_zeros. Qed.

Lemma zeros_0 n : n = 0 → zeros n = [].
Proof. by intros ->. Qed.

Lemma sub_hd {A} (a b : list A) lo hi :
  lo = 0 → len a = hi → sub (a ++ b) lo hi = a.
Proof. intros ->. apply sub_app_l. Qed.

Lemma sub_last {A} (a : list A) lo hi : lo = 0 → len a = hi → sub a lo hi = a.
Proof. intros ->. apply sub_all. Qed.

(** A range that falls into the middle block of three. *)
Lemma sub_mid {A} (a e b : list A) n lo hi lo' hi' :
  len a = n → lo' = n + lo → hi' = n + hi → hi <= len e →
  sub (a ++ e ++ b) lo' hi' = sub e lo hi.
Proof.
  intros Ha -> -> He. rewrite sub_app_r by lia. rewrite Ha.
  replace (n + lo - n) with lo by lia. replace (n + hi - n) with hi by lia.
  unfold sub, take_N, drop_N, len in *.
  destruct (Nat.le_ge_cases (N.to_nat lo) (length e)) as [Hlo|Hlo].
  - rewrite drop_app_le by done. rewrite take_app_le; [done|].
    rewrite length_drop. lia.
  - replace (N.to_nat (hi - lo)) with 0%nat by lia. done.
Qed.

(** [fill_array] turns a chain of [put]s that writes every byte of a zeroed
    array in order into a concatenation; [cut_fields] evaluates [sub] on such
    a concatenation; [join_fields] glues adjacent [sub]s back together. *)
Ltac len_goal := autorewrite with len; lia.
Ltac fill_array :=
  rewrite ?put_zeros_nil by len_goal;
  repeat rewrite put_zeros by len_goal;
  rewrite ?zeros_0, ?app_nil_r, <- ?app_assoc by len_goal.
Ltac cut_fields :=
  repeat first [ rewrite sub_hd by len_goal
               | rewrite sub_last by len_goal
               | rewrite sub_app_r by len_goal ].
Ltac join_fields :=
  repeat rewrite sub_split by lia; rewrite ?sub_all by (len_goal || assumption).

(** * Fixed-width integers and their big-endian encodings *)

(** Range of the unsigned type of [w] bytes: [u8 = 1], [u16 = 2], [u32 = 4],
    [u64 = usize = 8]. *)
Definition fits (w : nat) (n : N) : Prop := n < 2 ^ (8 * N.of_nat w).
Abbreviation u8_ok := (fits 1).
Abbreviation u16_ok := (fits 2).
Abbreviation u32_ok := (fits 4).
Abbreviation u64_ok := (fits 8).

Definition U32_MAX : N := 2 ^ 32 - 1.
Definition U64_MAX : N := 2 ^ 64 - 1.
Definition USIZE_MAX : N := U64_MAX.

#[global] Instance fits_dec w n : Decision (fits w n).
Proof. unfold fits. apply _. Defined.

(** [x.checked_add(y)], [x.saturating_add(y)] and [x as u32] at a given
    maximum. [saturating_sub] is [N.sub]. *)
Definition checked_add (mx x y : N) : option N :=
  if x + y <=? mx then Some (x + y) else None.
Definition saturating_add (mx x y : N) : N := N.min (x + y) mx.
Definition as_u32 (n : N) : N := n mod 2 ^ 32.

(** [n.to_be_bytes()] for the type of [w] bytes, and [from_be_bytes]. *)
Fixpoint be_bytes (w : nat) (n : N) : bytes :=
  match w with
  | O => []
  | S w => be_bytes w (n / 256) ++ [byte_of_N n]
  end.

Definition from_be (b : bytes) : N :=
  foldl (λ acc x, acc * 256 + Byte.to_N x) 0 b.

Lemma len_be_bytes w n : len (be_bytes w n) = N.of_nat w.
Proof.
  revert n; induction w as [|w IH]; intros n; [done|].
  cbn [be_bytes]. rewrite len_app, IH. unfold len. simpl. lia.
Qed.
#[export] Hint Rewrite len_be_bytes : len.

Lemma from_be_snoc b x : from_be (b ++ [x]) = from_be b * 256 + Byte.to_N x.
Proof. unfold from_be. by rewrite foldl_app. Qed.

Lemma pow256_succ w : 2 ^ (8 * N.of_nat (S w)) = 256 * 2 ^ (8 * N.of_nat w).
Proof.
  replace (8 * N.of_nat (S w)) with (8 + 8 * N.of_nat w) by lia.
  by rewrite N.pow_add_r.
Qed.

Lemma from_be_bytes w n : fits w n → from_be (be_bytes w n) = n.
Proof.
  revert n; induction w as [|w IH]; intros n Hn.
  - unfold fits in Hn. simpl in Hn. by replace n with 0 by lia.
  - unfold fits in Hn. rewrite pow256_succ in Hn.
    cbn [be_bytes]. rewrite from_be_snoc, IH, to_N_of_N.
    + pose proof (N.div_mod n 256 ltac:(lia)). lia.
    + apply N.Div0.div_lt_upper_bound. lia.
Qed.

Lemma from_be_bound b : from_be b < 2 ^ (8 * len b).
Proof.
  induction b as [|x b IH] using rev_ind; [by vm_compute|].
  rewrite from_be_snoc. unfold len in *. rewrite length_app, Nat.add_1_r, pow256_succ.
  pose proof (to_N_lt x). lia.
Qed.

Lemma from_be_fits w b : len b = N.of_nat w → fits w (from_be b).
Proof. intros H. unfold fits. rewrite <- H. apply from_be_bound. Qed.

Lemma be_bytes_from_be w b : len b = N.of_nat w → be_bytes w (from_be b) = b.
Proof.
  revert b; induction w as [|w IH]; intros b Hb.
  - by rewrite (len_0_nil b) by done.
  - destruct b as [|x b _] using rev_ind; [done|].
    rewrite len_app, len_cons, len_nil in Hb.
    cbn [be_bytes]. rewrite from_be_snoc. pose proof (to_N_lt x). f_equal.
    + replace ((from_be b * 256 + Byte.to_N x) / 256) with (from_be b).
      * apply IH. lia.
      * rewrite N.div_add_l, N.div_small; lia.
    + f_equal. apply (inj Byte.to_N). rewrite to_N_of_N.
      rewrite N.add_comm, N.Div0.mod_add. by apply N.mod_small.
Qed.

Lemma be_bytes_inj w m n :
  fits w m → fits w n → be_bytes w m = be_bytes w n → m = n.
Proof.
  intros Hm Hn H. by rewrite <- (from_be_bytes w m), H, from_be_bytes.
Qed.

Lemma app_inj_len {A} (a b c d : list A) :
  len a = len c → a ++ b = c ++ d → a = c ∧ b = d.
Proof. intros H. apply app_inj_1. unfold len in H. lia. Qed.

(** * Lexicographic order on byte strings ([Ord] on slices and arrays) *)

Fixpoint bytes_cmp (a b : bytes) : comparison :=
  match a, b with
  | [], [] => Eq
  | [], _ :: _ => Lt
  | _ :: _, [] => Gt
  | x :: a, y :: b =>
      match Byte.to_N x ?= Byte.to_N y with
      | Eq => bytes_cmp a b
      | c => c
      end
  end.

Definition bytes_ltb (a b : bytes) : bool :=
  match bytes_cmp a b with Lt => true | _ => false end.

Lemma bytes_cmp_eq a b : bytes_cmp a b = Eq ↔ a = b.
Proof.
  revert b; induction a as [|x a IH]; intros [|y b]; try done. simpl.
  destruct (N.compare_spec (Byte.to_N x) (Byte.to_N y)) as [Hxy|Hxy|Hxy].
  - apply (inj Byte.to_N) in Hxy as ->. rewrite IH. split; congruence.
  - split; [done|]. intros [= -> ->]. lia.
  - split; [done|]. intros [= -> ->]. lia.
Qed.

Lemma bytes_cmp_antisym a b : bytes_cmp b a = CompOpp (bytes_cmp a b).
Proof.
  revert b; induction a as [|x a IH]; intros [|y b]; try done. simpl.
  rewrite (N.compare_antisym (Byte.to_N x) (Byte.to_N y)), IH.
  by destruct (Byte.to_N x ?= Byte.to_N y).
Qed.

Lemma bytes_cmp_trans a b c o :
  bytes_cmp a b = o → bytes_cmp b c = o → bytes_cmp a c = o.
Proof.
  revert b c; induction a as [|x a IH]; intros [|y b] [|z c]; simpl; try congruence.
  destruct (N.compare_spec (Byte.to_N x) (Byte.to_N y)),
    (N.compare_spec (Byte.to_N y) (Byte.to_N z));
    destruct (N.compare_spec (Byte.to_N x) (Byte.to_N z));
    try lia; try congruence.
  apply IH.
Qed.

(** [a <= b] in the derived order. *)
Definition bytes_le (a b : bytes) : Prop := bytes_cmp a b ≠ Gt.

#[global] Instance bytes_le_dec : RelDecision bytes_le.
Proof. intros a b. unfold bytes_le. apply _. Defined.

Lemma bytes_le_alt a b : bytes_le a b ↔ bytes_cmp a b = Lt ∨ a = b.
Proof.
  rewrite <- bytes_cmp_eq. unfold bytes_le.
  destruct (bytes_cmp a b); split; auto; intros; intuition congruence.
Qed.

#[global] Instance bytes_le_trans : Transitive bytes_le.
Proof.
  intros a b c. rewrite !bytes_le_alt. intros [?| ->] [?| ->]; auto.
  left. by eapply bytes_cmp_trans.
Qed.

#[global] Instance bytes_le_total : Total bytes_le.
Proof.
  intros a b. unfold bytes_le. rewrite (bytes_cmp_antisym a b).
  destruct (bytes_cmp a b); simpl; [by left|by left|by right].
Qed.

#[global] Instance bytes_le_antisymm : AntiSymm (=) bytes_le.
Proof.
  intros a b. rewrite !bytes_le_alt. intros [H1|?] [H2|?]; try done.
  pose proof (bytes_cmp_antisym a b) as H3. rewrite H1, H2 in H3. done.
Qed.

(** * Results and panics

    [outcome E A] is the result of Rust code of type [Result<A, E>]; [Panic]
    stands for an unwinding panic (an out-of-range slice index, a failed
    [unwrap] or [expect], an arithmetic overflow when the build checks it). *)
Inductive outcome (E A : Type) :=
  | Ok (a : A)
  | Err (e : E)
  | Panic.
Arguments Ok {E A} _.
Arguments Err {E A} _.
Arguments Panic {E A}.

#[global] Instance outcome_ret {E} : MRet (outcome E) := λ A a, Ok a.
#[global] Instance outcome_bind {E} : MBind (outcome E) := λ A B f m,
  match m with Ok a => f a | Err e => Err e | Panic => Panic end.
#[global] Instance outcome_fmap {E} : FMap (outcome E) := λ A B f m,
  match m with Ok a => Ok (f a) | Err e => Err e | Panic => Panic end.

(** [r.map_err(f)], [o.ok_or(e)] and [if cond { return Err(e) }]. *)
Definition map_err {E F A} (f : E → F) (r : outcome E A) : outcome F A :=
  match r with Ok a => Ok a | Err e => Err (f e) | Panic => Panic end.
Definition ok_or {E A} (e : E) (o : option A) : outcome E A :=
  match o with Some a => Ok a | None => Err e end.
Definition reject_if {E} (c : bool) (e : E) : outcome E () :=
  if c then Err e else Ok tt.

Definition no_panic {E A} (r : outcome E A) : Prop :=
  match r with Panic => False | _ => True end.

Lemma bind_Ok_inv {E A B} (m : outcome E A) (f : A → outcome E B) b :
  m ≫= f = Ok b → ∃ a, m = Ok a ∧ f a = Ok b.
Proof. destruct m; simpl; naive_solver. Qed.

(** Evaluate the monadic plumbing, leaving the data-level terms alone. *)
Tactic Notation "oc" :=
  cbn [mbind outcome_bind mret outcome_ret fmap outcome_fmap reject_if ok_or
       map_err negb andb orb no_panic fst snd].
Tactic Notation "oc" "in" hyp(H) :=
  cbn [mbind outcome_bind mret outcome_ret fmap outcome_fmap reject_if ok_or
       map_err negb andb orb no_panic fst snd] in H.

(** [&b[lo..hi]] on a run-time sized slice. *)
Definition slice {E} (b : bytes) (lo hi : N) : outcome E bytes :=
  if (lo <=? hi) && (hi <=? len b) then Ok (sub b lo hi) else Panic.

Lemma slice_ok {E} b lo hi :
  lo <= hi → hi <= len b → slice (E:=E) b lo hi = Ok (sub b lo hi).
Proof.
  intros. unfold slice. by rewrite !leb_true.
Qed.

(** [b[i]] on an array, read as an integer. *)
Definition byte_at (b : bytes) (i : N) : N :=
  default 0 (Byte.to_N <$> b !! N.to_nat i).

Lemma byte_at_hd x b i : i = 0 → byte_at ([x] ++ b) i = Byte.to_N x.
Proof. by intros ->. Qed.

Lemma byte_at_app_r a b i :
  len a <= i → byte_at (a ++ b) i = byte_at b (i - len a).
Proof.
  intros. unfold byte_at, len in *. rewrite lookup_app_r by lia.
  do 3 f_equal. lia.
Qed.

Ltac cut_bytes :=
  repeat first [ rewrite byte_at_hd by len_goal
               | rewrite byte_at_app_r by len_goal ].

Lemma byte_at_sub b i j :
  i < len b → j = i + 1 → [byte_of_N (byte_at b i)] = sub b i j.
Proof.
  intros Hi ->. unfold byte_at, sub, take_N, drop_N, len in *.
  destruct (lookup_lt_is_Some_2 b (N.to_nat i)) as [x Hx]; [lia|].
  rewrite Hx. simpl. rewrite of_N_to_N.
  rewrite (drop_S _ _ _ Hx). by replace (N.to_nat (i + 1 - i)) with 1%nat by lia.
Qed.

Lemma byte_at_lt b i : byte_at b i < 256.
Proof. unfold byte_at. destruct (b !! _); simpl; [apply to_N_lt|lia]. Qed.

Lemma byte_at_fits b i : fits 1 (byte_at b i).
Proof. apply byte_at_lt. Qed.

Lemma to_N_of_N_small n : fits 1 n → Byte.to_N (byte_of_N n) = n.
Proof. intros. rewrite to_N_of_N. by apply N.mod_small. Qed.

(** [debug_assert!(c)]. It is modelled as enabled, as in debug builds; release
    builds skip it. *)
Definition debug_assert {E} (c : bool) : outcome E () :=
  if c then Ok tt else Panic.

(** [&b[lo..]] and [b[i]] on a run-time sized slice. *)
Definition slice_from {E} (b : bytes) (lo : N) : outcome E bytes :=
  slice b lo (len b).
Definition index {E} (b : bytes) (i : N) : outcome E byte :=
  match b !! N.to_nat i with Some x => Ok x | None => Panic end.

Lemma index_byte_at {E} b i :
  i < len b → ∃ x, index (E:=E) b i = Ok x ∧ Byte.to_N x = byte_at b i.
Proof.
  intros Hi. unfold index, byte_at.
  destruct (lookup_lt_is_Some_2 b (N.to_nat i)) as [x Hx]; [unfold len in Hi; lia|].
  rewrite Hx. eauto.
Qed.

Lemma sub_to_end {A} (b : list A) lo : sub b lo (len b) = drop_N lo b.
Proof. unfold sub. apply take_all_N. len. Qed.

(** * Stateful fallible code

    A method [fn f(&mut self, ..) -> Result<A, E>] is a function from the
    state to an outcome and the state it leaves behind. The final state is
    returned on every path: mutations made before an early return or a panic
    persist, as they do in Rust. *)
Definition ST (S E A : Type) : Type := S → outcome E A * S.

#[global] Instance st_ret {S E} : MRet (ST S E) := λ A a s, (Ok a, s).
#[global] Instance st_bind {S E} : MBind (ST S E) := λ A B f m s,
  match m s with
  | (Ok a, s') => f a s'
  | (Err e, s') => (Err e, s')
  | (Panic, s') => (Panic, s')
  end.

Section st.
Context {S E : Type}.

Definition st_get : ST S E S := λ s, (Ok s, s).
Definition st_modify (f : S → S) : ST S E () := λ s, (Ok tt, f s).
Definition st_lift {A} (r : outcome E A) : ST S E A := λ s, (r, s).
Definition st_fail {A} (e : E) : ST S E A := λ s, (Err e, s).

(** Run a method of a component on a part of the state (a lens given by a
    getter and a setter). *)
Definition st_zoom {T A} (g : S → T) (p : T → S → S) (m : ST T E A) : ST S E A :=
  λ s, let '(r, t) := m (g s) in (r, p t s).

Lemma st_bind_eq {A B} (m : ST S E A) (f : A → ST S E B) s :
  (m ≫= f) s =
    match m s with
    | (Ok a, s') => f a s'
    | (Err e, s') => (Err e, s')
    | (Panic, s') => (Panic, s')
    end.
Proof. done. Qed.

Lemma st_bind_Ok {A B} (m : ST S E A) (f : A → ST S E B) s a s' :
  m s = (Ok a, s') → (m ≫= f) s = f a s'.
Proof. intros H. by rewrite st_bind_eq, H. Qed.

Lemma st_bind_Ok_inv {A B} (m : ST S E A) (f : A → ST S E B) s b s' :
  (m ≫= f) s = (Ok b, s') → ∃ a s1, m s = (Ok a, s1) ∧ f a s1 = (Ok b, s').
Proof.
  rewrite st_bind_eq. destruct (m s) as [[a|e|] s1] eqn:E1; naive_solver.
Qed.

(** Hoare triples with a separate postcondition for early exits: [P] before,
    [Q] with the result on success, [X] on an error or a panic. *)
Definition triple {A} (P : S → Prop) (m : ST S E A) (Q : A → S → Prop) (X : S → Prop)
    : Prop :=
  ∀ s, P s → match m s with (Ok a, s') => Q a s' | (_, s') => X s' end.

Lemma triple_bind {A B} P (m : ST S E A) (f : A → ST S E B) Q R X :
  triple P m Q X → (∀ a, triple (Q a) (f a) R X) → triple P (m ≫= f) R X.
Proof.
  intros Hm Hf s Hs. rewrite st_bind_eq. specialize (Hm s Hs).
  destruct (m s) as [[a|e|] s1]; [by apply Hf|done..].
Qed.

Lemma triple_ret {A} (P : S → Prop) (a : A) (Q : A → S → Prop) X :
  (∀ s, P s → Q a s) → triple P (mret a) Q X.
Proof. intros HQ s Hs. by apply HQ. Qed.

Lemma triple_lift {A} (P : S → Prop) (r : outcome E A) (Q : A → S → Prop) (X : S → Prop) :
  (∀ a s, r = Ok a → P s → Q a s) → (∀ s, P s → X s) → triple P (st_lift r) Q X.
Proof. intros HQ HX s Hs. unfold st_lift. destruct r; auto. Qed.

Lemma triple_fail {A} (P : S → Prop) (e : E) (Q : A → S → Prop) (X : S → Prop) :
  (∀ s, P s → X s) → triple P (st_fail e) Q X.
Proof. intros HX s Hs. by apply HX. Qed.

Lemma triple_get (P : S → Prop) (Q : S → S → Prop) X :
  (∀ s, P s → Q s s) → triple P st_get Q X.
Proof. intros HQ s Hs. by apply HQ. Qed.

Lemma triple_modify (P : S → Prop) f (Q : () → S → Prop) X :
  (∀ s, P s → Q tt (f s)) → triple P (st_modify f) Q X.
Proof. intros HQ s Hs. by apply HQ. Qed.

Lemma triple_conseq {A} (P P' : S → Prop) (m : ST S E A) (Q Q' : A → S → Prop)
    (X X' : S → Prop) :
  triple P' m Q' X' →
  (∀ s, P s → P' s) → (∀ a s, Q' a s → Q a s) → (∀ s, X' s → X s) →
  triple P m Q X.
Proof.
  intros Hm HP HQ HX s Hs. specialize (Hm s (HP _ Hs)).
  destruct (m s) as [[a|e|] s']; auto.
Qed.

Lemma triple_pure {A} (φ : Prop) (P : S → Prop) (m : ST S E A) Q X :
  (φ → triple P m Q X) → triple (λ s, φ ∧ P s) m Q X.
Proof. intros Hm s [Hφ Hs]. by apply Hm. Qed.

(** [preserves I m]: the invariant [I] holds after [m] on every path. *)
Definition preserves {A} (I : S → Prop) (m : ST S E A) : Prop :=
  triple I m (λ _, I) I.

Lemma preserves_snd {A} I (m : ST S E A) s : preserves I m → I s → I (snd (m s)).
Proof. intros Hm Hs. specialize (Hm s Hs). by destruct (m s) as [[a|e|] s']. Qed.

Lemma preserves_ret {A} I (a : A) : preserves I (mret a).
Proof. by apply triple_ret. Qed.

Lemma preserves_lift {A} I (r : outcome E A) : preserves I (st_lift r).
Proof. by apply triple_lift. Qed.

Lemma preserves_fail {A} I (e : E) : preserves I (st_fail (A:=A) e).
Proof. by apply triple_fail. Qed.

Lemma preserves_get I : preserves I st_get.
Proof. by apply triple_get. Qed.

Lemma preserves_modify I f : (∀ s, I s → I (f s)) → preserves I (st_modify f).
Proof. intros Hf. by apply triple_modify. Qed.

Lemma preserves_bind {A B} I (m : ST S E A) (f : A → ST S E B) :
  preserves I m → (∀ a, preserves I (f a)) → preserves I (m ≫= f).
Proof. intros. by eapply triple_bind. Qed.

End st.

(** An invariant of the component lifts to the whole state. *)
Lemma preserves_zoom {S T E A} (g : S → T) (p : T → S → S) (m : ST T E A)
    (I : S → Prop) (J : S → T → Prop) :
  (∀ s, I s → J s (g s)) → (∀ s, I s → preserves (J s) m) →
  (∀ s t, I s → J s t → I (p t s)) →
  preserves I (st_zoom g p m).
Proof.
  intros Hg Hm Hp s Hs. unfold st_zoom. specialize (Hm s Hs (g s) (Hg s Hs)).
  destruct (m (g s)) as [[a|e|] t]; auto.
Qed.

(** ** Steps through a method body: reads, checks and calls *)

Lemma preserves_bind_get {S E B} I (f : S → ST S E B) :
  (∀ s, I s → preserves I (f s)) → preserves I (st_get ≫= f).
Proof. intros Hf s Hs. by apply Hf. Qed.

Lemma preserves_bind_lift {S E A B} I (r : outcome E A) (f : A → ST S E B) :
  (∀ a, r = Ok a → preserves I (f a)) → preserves I (st_lift r ≫= f).
Proof. intros Hf s Hs. rewrite st_bind_eq. unfold st_lift. destruct r; [by apply Hf|done..]. Qed.

(** The same steps for triples: a read, a check that leaves the state alone, a
    call that preserves the precondition. *)
Lemma triple_bind_get {S E B} (P : S → Prop) (f : S → ST S E B) Q X :
  (∀ s, P s → triple (λ s', s' = s) (f s) Q X) → triple P (st_get ≫= f) Q X.
Proof. intros Hf s Hs. by apply (Hf s Hs). Qed.

Lemma triple_bind_lift {S E A B} (P : S → Prop) (r : outcome E A) (f : A → ST S E B) Q
    (X : S → Prop) :
  (∀ s, P s → X s) → (∀ a, r = Ok a → triple P (f a) Q X) →
  triple P (st_lift r ≫= f) Q X.
Proof.
  intros HX Hf s Hs. rewrite st_bind_eq. unfold st_lift.
  destruct r; [by apply Hf|by apply HX..].
Qed.

Lemma triple_bind_pres {S E A B} (P : S → Prop) (m : ST S E A) (f : A → ST S E B) Q
    (X : S → Prop) :
  preserves P m → (∀ s, P s → X s) → (∀ a, triple P (f a) Q X) →
  triple P (m ≫= f) Q X.
Proof.
  intros Hm HX Hf s Hs. rewrite st_bind_eq. specialize (Hm s Hs).
  destruct (m s) as [[a|e|] s']; [by apply Hf|by apply HX..].
Qed.

Lemma triple_bind_get_keep {S E B} (P : S → Prop) (f : S → ST S E B) Q X :
  (∀ s, P s → triple P (f s) Q X) → triple P (st_get ≫= f) Q X.
Proof. intros Hf s Hs. by apply (Hf s Hs). Qed.

Lemma preserves_and {S E A} (I J : S → Prop) (m : ST S E A) :
  preserves I m → preserves J m → preserves (λ s, I s ∧ J s) m.
Proof.
  intros HI HJ s [Hi Hj]. specialize (HI s Hi). specialize (HJ s Hj).
  by destruct (m s) as [[a|e|] s'].
Qed.

Create HintDb preserves discriminated.
#[export] Hint Resolve preserves_ret preserves_lift preserves_fail preserves_get
  preserves_bind preserves_modify : preserves.

(** * The two ends of a connection *)

Inductive side := SideA | SideB.
Definition other (x : side) : side := match x with SideA => SideB | SideB => SideA end.

Definition swap {X} (st : X * X) : X * X := (st.2, st.1).

Lemma swap_swap {X} (st : X * X) : swap (swap st) = st.
Proof. by destruct st. Qed.

(** Run an action of one side, which sees itself first and its peer second. *)
Definition from_side {X O} (who : side) (f : X * X → O * (X * X)) (st : X * X) : O * (X * X) :=
  match who with
  | SideA => f st
  | SideB => let '(o, st') := f (swap st) in (o, swap st')
  end.

(** The data-level functions are kept folded by [simpl]; proofs rewrite with
    their lemmas instead. *)
#[global] Arguments be_bytes : simpl never.
#[global] Arguments from_be : simpl never.
#[global] Arguments byte_at : simpl never.
#[global] Arguments len : simpl never.
#[global] Arguments sub : simpl never.
#[global] Arguments put : simpl never.
#[global] Arguments fit : simpl never.
#[global] Arguments zeros : simpl never.
#[global] Arguments slice : simpl never.
#[global] Arguments take_N : simpl never.
#[global] Arguments drop_N : simpl never.
#[global] Arguments bs : simpl never.
#[global] Arguments N.ltb : simpl never.
#[global] Arguments N.leb : simpl never.
#[global] Arguments N.eqb : simpl never.
#[global] Arguments N.add : simpl never.
#[global] Arguments N.sub : simpl never.
#[global] Arguments N.mul : simpl never.
