(* ===== verification/Wire.v ===== *)
(** Wire structs of [libgary-wire]: constants, the framing errors, the outer
    record header, the handshake bodies and [OuterRecord]
    (src/crates/libgary-wire/src/{constants,error,lib,outer}.rs), with the
    round-trip and canonicity theorems of each codec. *)

From S2P Require Import Prelude.

(** * Constants and errors *)

Definition RELAY_VERSION_V0 : N := 1.
Definition HEADER_VERSION_V0 : N := 1.
Definition MAX_RECORD_BODY_LEN : N := 1048576.
Definition MAX_ROUTE_TOKEN_LEN : N := 512.
Definition MAX_OUTER_RECORD_SERIALIZED : N := 4 + MAX_RECORD_BODY_LEN.

Inductive WireError :=
  | Truncated
  | RecordLengthMismatch
  | RecordTooLarge
  | InitReservedNonZero
  | LogicalTooLarge
  | PaddingBucketMismatch
  | PaddingLogicalMismatch
  | InvalidHeaderVersion
  | InvalidHeaderType
  | InvalidHeaderFlags
  | InvalidRelayVersion
  | RouteTokenTooLong
  | OpaqueLengthMismatch
  | OpaqueTooLarge.

#[global] Instance WireError_eq_dec : EqDecision WireError.
Proof. solve_decision. Defined.

(** * The 63-byte outer-record header *)

Module Header.

Record t := mk {
  version : N;
  typ : N;
  flags : N;
  epoch_be : N;
  session_id : bytes;
  counter_be : N;
  ratchet_pub : bytes;
}.

Definition LEN : N := 63.

Definition encode (h : t) : bytes :=
  let out := zeros LEN in
  let out := put out 0 [byte_of_N (version h)] in
  let out := put out 1 [byte_of_N (typ h)] in
  let out := put out 2 [byte_of_N (flags h)] in
  let out := put out 3 (be_bytes 4 (epoch_be h)) in
  let out := put out 7 (session_id h) in
  let out := put out 23 (be_bytes 8 (counter_be h)) in
  let out := put out 31 (ratchet_pub h) in
  out.

Definition decode (b : bytes) : t :=
  {| version := byte_at b 0;
     typ := byte_at b 1;
     flags := byte_at b 2;
     epoch_be := from_be (sub b 3 7);
     session_id := sub b 7 23;
     counter_be := from_be (sub b 23 31);
     ratchet_pub := sub b 31 63 |}.

Definition validate_v0 (h : t) : outcome WireError () :=
  _ ← reject_if (negb (version h =? HEADER_VERSION_V0)) InvalidHeaderVersion;
  _ ← reject_if (negb (flags h =? 0)) InvalidHeaderFlags;
  if existsb (N.eqb (typ h)) [1; 2; 3; 5; 6; 7; 8] then Ok tt
  else Err InvalidHeaderType.

Definition parse_checked (b : bytes) : outcome WireError t :=
  _ ← reject_if (len b <? LEN) Truncated;
  arr ← slice b 0 LEN;
  let h := decode arr in
  _ ← validate_v0 h;
  Ok h.

(** The ranges the Rust field types impose. *)
Definition wf (h : t) : Prop :=
  u8_ok (version h) ∧ u8_ok (typ h) ∧ u8_ok (flags h) ∧ u32_ok (epoch_be h) ∧
  len (session_id h) = 16 ∧ u64_ok (counter_be h) ∧ len (ratchet_pub h) = 32.

End Header.

(** The layout [encode] produces, field after field. *)
Definition Header_layout (h : Header.t) : bytes :=
  [byte_of_N (Header.version h)] ++ [byte_of_N (Header.typ h)] ++
  [byte_of_N (Header.flags h)] ++ be_bytes 4 (Header.epoch_be h) ++
  Header.session_id h ++ be_bytes 8 (Header.counter_be h) ++ Header.ratchet_pub h.

Lemma Header_encode_layout h :
  len (Header.session_id h) = 16 → len (Header.ratchet_pub h) = 32 →
  Header.encode h = Header_layout h.
Proof.
  intros Hs Hr. unfold Header.encode, Header_layout, Header.LEN. cbv zeta.
  fill_array. done.
Qed.

Lemma Header_encode_len h : Header.wf h → len (Header.encode h) = Header.LEN.
Proof.
  intros (_&_&_&_&Hs&_&Hr). rewrite Header_encode_layout by done.
  unfold Header_layout, Header.LEN. len.
Qed.

Lemma Header_decode_encode h : Header.wf h → Header.decode (Header.encode h) = h.
Proof.
  intros (Hv&Ht&Hf&He&Hs&Hc&Hr). rewrite Header_encode_layout by done.
  unfold Header_layout, Header.decode. cut_bytes. cut_fields.
  rewrite !to_N_of_N_small, !from_be_bytes by done. by destruct h.
Qed.

Lemma Header_encode_decode b :
  len b = Header.LEN → Header.encode (Header.decode b) = b.
Proof.
  unfold Header.LEN. intros Hb.
  rewrite Header_encode_layout by (simpl; len_goal).
  unfold Header_layout, Header.decode.
  cbn [Header.version Header.typ Header.flags Header.epoch_be
       Header.session_id Header.counter_be Header.ratchet_pub].
  rewrite !be_bytes_from_be by len_goal.
  rewrite (byte_at_sub b 0 1), (byte_at_sub b 1 2), (byte_at_sub b 2 3) by lia.
  rewrite !app_assoc. by join_fields.
Qed.

Lemma Header_decode_wf b : len b = Header.LEN → Header.wf (Header.decode b).
Proof.
  unfold Header.LEN. intros Hb. unfold Header.wf, Header.decode. simpl.
  repeat split; try apply byte_at_fits; try (apply from_be_fits); len_goal.
Qed.

(** * Handshake bodies *)

Module InitBody.

Record t := mk {
  initiator_sig_pk : bytes;
  initiator_dh_pk : bytes;
  ephemeral_ek_pub : bytes;
  otp_index_be : N;
  reserved_be : N;
}.

Definition LEN : N := 100.

Definition encode (x : t) : bytes :=
  let out := zeros LEN in
  let out := put out 0 (initiator_sig_pk x) in
  let out := put out 32 (initiator_dh_pk x) in
  let out := put out 64 (ephemeral_ek_pub x) in
  let out := put out 96 (be_bytes 2 (otp_index_be x)) in
  let out := put out 98 (be_bytes 2 (reserved_be x)) in
  out.

Definition decode (b : bytes) : outcome WireError t :=
  _ ← reject_if (negb (from_be (sub b 98 100) =? 0)) InitReservedNonZero;
  Ok {| initiator_sig_pk := sub b 0 32;
        initiator_dh_pk := sub b 32 64;
        ephemeral_ek_pub := sub b 64 96;
        otp_index_be := from_be (sub b 96 98);
        reserved_be := from_be (sub b 98 100) |}.

Definition wf (x : t) : Prop :=
  len (initiator_sig_pk x) = 32 ∧ len (initiator_dh_pk x) = 32 ∧
  len (ephemeral_ek_pub x) = 32 ∧ u16_ok (otp_index_be x) ∧ u16_ok (reserved_be x).

End InitBody.

Module InitAckCore.

Record t := mk {
  responder_sig_pk : bytes;
  responder_dh_pk : bytes;
  ack_nonce_be : N;
}.

Definition LEN : N := 72.

Definition encode (x : t) : bytes :=
  let out := zeros LEN in
  let out := put out 0 (responder_sig_pk x) in
  let out := put out 32 (responder_dh_pk x) in
  let out := put out 64 (be_bytes 8 (ack_nonce_be x)) in
  out.

Definition decode (b : bytes) : t :=
  {| responder_sig_pk := sub b 0 32;
     responder_dh_pk := sub b 32 64;
     ack_nonce_be := from_be (sub b 64 72) |}.

Definition wf (x : t) : Prop :=
  len (responder_sig_pk x) = 32 ∧ len (responder_dh_pk x) = 32 ∧
  u64_ok (ack_nonce_be x).

End InitAckCore.

Module InitAckWire.

Record t := mk {
  core : InitAckCore.t;
  confirm_mac : bytes;
}.

Definition LEN : N := 88.

Definition encode (x : t) : bytes :=
  let out := zeros LEN in
  let core := InitAckCore.encode (core x) in
  let out := put out 0 core in
  let out := put out 72 (confirm_mac x) in
  out.

Definition decode (b : bytes) : t :=
  {| core := InitAckCore.decode (sub b 0 72);
     confirm_mac := sub b 72 88 |}.

Definition wf (x : t) : Prop :=
  InitAckCore.wf (core x) ∧ len (confirm_mac x) = 16.

End InitAckWire.

Definition InitBody_layout (x : InitBody.t) : bytes :=
  InitBody.initiator_sig_pk x ++ InitBody.initiator_dh_pk x ++
  InitBody.ephemeral_ek_pub x ++ be_bytes 2 (InitBody.otp_index_be x) ++
  be_bytes 2 (InitBody.reserved_be x).

Lemma InitBody_encode_layout x :
  InitBody.wf x → InitBody.encode x = InitBody_layout x.
Proof.
  intros (?&?&?&_). unfold InitBody.encode, InitBody_layout, InitBody.LEN.
  cbv zeta. by fill_array.
Qed.

Lemma InitBody_encode_len x : InitBody.wf x → len (InitBody.encode x) = 100.
Proof.
  intros Hx. rewrite InitBody_encode_layout by done. destruct Hx as (?&?&?&_).
  unfold InitBody_layout. len.
Qed.

Lemma InitBody_decode_encode x :
  InitBody.wf x →
  InitBody.decode (InitBody.encode x) =
    if InitBody.reserved_be x =? 0 then Ok x else Err InitReservedNonZero.
Proof.
  intros Hx. rewrite InitBody_encode_layout by done. destruct Hx as (?&?&?&?&?).
  unfold InitBody_layout, InitBody.decode. cut_fields.
  rewrite !from_be_bytes by done.
  destruct (N.eqb_spec (InitBody.reserved_be x) 0); [by destruct x|done].
Qed.

Lemma InitBody_encode_decode b x :
  len b = InitBody.LEN → InitBody.decode b = Ok x →
  InitBody.encode x = b ∧ InitBody.wf x ∧ InitBody.reserved_be x = 0.
Proof.
  unfold InitBody.LEN, InitBody.decode. intros Hb.
  destruct (N.eqb_spec (from_be (sub b 98 100)) 0) as [H0|]; [|done].
  intros [= <-].
  assert (InitBody.wf {| InitBody.initiator_sig_pk := sub b 0 32;
    InitBody.initiator_dh_pk := sub b 32 64; InitBody.ephemeral_ek_pub := sub b 64 96;
    InitBody.otp_index_be := from_be (sub b 96 98);
    InitBody.reserved_be := from_be (sub b 98 100) |}) as Hwf.
  { repeat split; simpl; try apply from_be_fits; len_goal. }
  split_and!; [|done|done].
  rewrite InitBody_encode_layout by done. unfold InitBody_layout.
  cbn [InitBody.initiator_sig_pk InitBody.initiator_dh_pk
       InitBody.ephemeral_ek_pub InitBody.otp_index_be InitBody.reserved_be].
  rewrite !be_bytes_from_be by len_goal. rewrite !app_assoc. by join_fields.
Qed.

Lemma InitAckCore_encode_layout x :
  InitAckCore.wf x →
  InitAckCore.encode x = InitAckCore.responder_sig_pk x ++
    InitAckCore.responder_dh_pk x ++ be_bytes 8 (InitAckCore.ack_nonce_be x).
Proof.
  intros (?&?&_). unfold InitAckCore.encode, InitAckCore.LEN. cbv zeta.
  by fill_array.
Qed.

Lemma InitAckCore_encode_len x :
  InitAckCore.wf x → len (InitAckCore.encode x) = InitAckCore.LEN.
Proof.
  intros Hx. rewrite InitAckCore_encode_layout by done. destruct Hx as (?&?&_).
  unfold InitAckCore.LEN. len.
Qed.

Lemma InitAckCore_decode_encode x :
  InitAckCore.wf x → InitAckCore.decode (InitAckCore.encode x) = x.
Proof.
  intros Hx. rewrite InitAckCore_encode_layout by done. destruct Hx as (?&?&?).
  unfold InitAckCore.decode. cut_fields. rewrite from_be_bytes by done.
  by destruct x.
Qed.

Lemma InitAckCore_encode_decode b :
  len b = InitAckCore.LEN → InitAckCore.encode (InitAckCore.decode b) = b.
Proof.
  unfold InitAckCore.LEN. intros Hb. rewrite InitAckCore_encode_layout.
  - unfold InitAckCore.decode. cbn [InitAckCore.responder_sig_pk
      InitAckCore.responder_dh_pk InitAckCore.ack_nonce_be].
    rewrite be_bytes_from_be by len_goal. rewrite !app_assoc. by join_fields.
  - repeat split; simpl; try apply from_be_fits; len_goal.
Qed.

Lemma InitAckWire_encode_layout x :
  InitAckWire.wf x →
  InitAckWire.encode x =
    InitAckCore.encode (InitAckWire.core x) ++ InitAckWire.confirm_mac x.
Proof.
  intros [Hc ?]. apply InitAckCore_encode_len in Hc. unfold InitAckCore.LEN in Hc.
  unfold InitAckWire.encode, InitAckWire.LEN. cbv zeta. by fill_array.
Qed.

Lemma InitAckWire_encode_len x :
  InitAckWire.wf x → len (InitAckWire.encode x) = InitAckWire.LEN.
Proof.
  intros Hx. rewrite InitAckWire_encode_layout by done. destruct Hx as [Hc ?].
  apply InitAckCore_encode_len in Hc. unfold InitAckWire.LEN, InitAckCore.LEN in *.
  len.
Qed.

Lemma InitAckWire_decode_encode x :
  InitAckWire.wf x → InitAckWire.decode (InitAckWire.encode x) = x.
Proof.
  intros Hx. rewrite InitAckWire_encode_layout by done. destruct Hx as [Hc ?].
  pose proof (InitAckCore_encode_len _ Hc) as Hl. unfold InitAckCore.LEN in Hl.
  unfold InitAckWire.decode. cut_fields. rewrite InitAckCore_decode_encode by done.
  by destruct x.
Qed.

Lemma InitAckWire_encode_decode b :
  len b = InitAckWire.LEN → InitAckWire.encode (InitAckWire.decode b) = b.
Proof.
  unfold InitAckWire.LEN. intros Hb. rewrite InitAckWire_encode_layout.
  - simpl. rewrite InitAckCore_encode_decode by (unfold InitAckCore.LEN; len_goal).
    by join_fields.
  - repeat split; simpl; try apply from_be_fits; len_goal.
Qed.

(** * [OuterRecord]: [record_length_be ‖ Header ‖ payload] *)

Module OuterRecord.

Record t := mk {
  header : Header.t;
  payload : bytes;
}.

Definition record_body_len (r : t) : N := Header.LEN + len (payload r).

Definition encode (r : t) : outcome WireError bytes :=
  _ ← Header.validate_v0 (header r);
  let rl := record_body_len r in
  _ ← reject_if (MAX_RECORD_BODY_LEN <? rl) RecordTooLarge;
  rl_u32 ← (if rl <=? U32_MAX then Ok rl else Err RecordTooLarge);
  let out := [] in
  let out := out ++ be_bytes 4 rl_u32 in
  let out := out ++ Header.encode (header r) in
  let out := out ++ payload r in
  Ok out.

Definition decode (b : bytes) : outcome WireError t :=
  _ ← reject_if (len b <? 4) Truncated;
  prefix ← slice b 0 4;
  let rl := from_be prefix in
  _ ← reject_if (MAX_RECORD_BODY_LEN <? rl) RecordTooLarge;
  total ← ok_or RecordLengthMismatch (checked_add USIZE_MAX 4 rl);
  _ ← reject_if (negb (len b =? total)) RecordLengthMismatch;
  _ ← reject_if (rl <? Header.LEN) Truncated;
  header_bytes ← slice b 4 (4 + Header.LEN);
  let header := Header.decode header_bytes in
  _ ← Header.validate_v0 header;
  payload ← slice_from b (4 + Header.LEN);
  _ ← debug_assert (rl =? Header.LEN + len payload);
  Ok {| header := header; payload := payload |}.

Definition wf (r : t) : Prop := Header.wf (header r).

End OuterRecord.

(** ** Validation *)

Definition legal_types : list N := [1; 2; 3; 5; 6; 7; 8].

Lemma validate_v0_Ok h u :
  Header.validate_v0 h = Ok u ↔
    Header.version h = 1 ∧ Header.flags h = 0 ∧ Header.typ h ∈ legal_types.
Proof.
  destruct u. unfold Header.validate_v0, HEADER_VERSION_V0.
  destruct (N.eqb_spec (Header.version h) 1); [|by split; [|intros [? _]]].
  destruct (N.eqb_spec (Header.flags h) 0); [|by split; [|intros (?&?&_)]].
  cbn [reject_if negb mbind outcome_bind].
  destruct (existsb _ _) eqn:E.
  - apply existsb_exists in E as (x&Hx&->%N.eqb_eq).
    split; [|done]. intros _. split_and!; [done..|]. by apply list_elem_of_In.
  - split; [done|]. intros (_&_&Hin%list_elem_of_In).
    assert (existsb (N.eqb (Header.typ h)) legal_types = true) as E'.
    { apply existsb_exists. eexists. split; [done|]. apply N.eqb_refl. }
    unfold legal_types in E'. congruence.
Qed.

Lemma validate_v0_no_panic h : no_panic (Header.validate_v0 h).
Proof.
  unfold Header.validate_v0, reject_if.
  destruct (Header.version h =? _); [|exact I].
  destruct (Header.flags h =? _); [|exact I].
  cbn. destruct (_ || _); exact I.
Qed.

Lemma OuterRecord_decode_slices b :
  4 <= len b →
  from_be (sub b 0 4) <= MAX_RECORD_BODY_LEN →
  len b = 4 + from_be (sub b 0 4) →
  Header.LEN <= from_be (sub b 0 4) →
  OuterRecord.decode b =
    (_ ← Header.validate_v0 (Header.decode (sub b 4 67));
     Ok {| OuterRecord.header := Header.decode (sub b 4 67);
           OuterRecord.payload := drop_N 67 b |}).
Proof.
  unfold MAX_RECORD_BODY_LEN, Header.LEN. intros H4 Hmax Hlen Hmin.
  unfold OuterRecord.decode, MAX_RECORD_BODY_LEN, Header.LEN, slice_from.
  change (4 + 63) with 67.
  rewrite ltb_false by lia. rewrite !slice_ok by lia. oc.
  unfold checked_add, USIZE_MAX, U64_MAX.
  rewrite ltb_false, leb_true by lia. oc.
  rewrite (eqb_true (len b)), ltb_false by lia. oc.
  rewrite sub_to_end. unfold debug_assert. rewrite eqb_true by len_goal. done.
Qed.

(** The decoder reaches its slicing code only in the situation of the lemma
    above; every other input is refused with an error. *)
Lemma OuterRecord_decode_cases b :
  (4 <= len b ∧ from_be (sub b 0 4) <= MAX_RECORD_BODY_LEN ∧
   len b = 4 + from_be (sub b 0 4) ∧ Header.LEN <= from_be (sub b 0 4)) ∨
  ∃ e, OuterRecord.decode b = Err e.
Proof.
  unfold OuterRecord.decode.
  destruct (N.ltb_spec (len b) 4); [by right; eexists|].
  rewrite (slice_ok b 0 4) by lia. oc.
  destruct (N.ltb_spec MAX_RECORD_BODY_LEN (from_be (sub b 0 4))); [by right; eexists|].
  oc. unfold checked_add. destruct (N.leb_spec (4 + from_be (sub b 0 4)) USIZE_MAX);
    [|by right; eexists]. oc.
  destruct (N.eqb_spec (len b) (4 + from_be (sub b 0 4))); [|by right; eexists]. oc.
  destruct (N.ltb_spec (from_be (sub b 0 4)) Header.LEN); [by right; eexists|].
  by left.
Qed.

(** The serialised form of a record. *)
Definition OuterRecord_layout (r : OuterRecord.t) : bytes :=
  be_bytes 4 (OuterRecord.record_body_len r) ++
  Header.encode (OuterRecord.header r) ++ OuterRecord.payload r.

Lemma OuterRecord_encode_Ok r b :
  OuterRecord.encode r = Ok b ↔
    Header.validate_v0 (OuterRecord.header r) = Ok tt ∧
    OuterRecord.record_body_len r <= MAX_RECORD_BODY_LEN ∧
    b = OuterRecord_layout r.
Proof.
  unfold OuterRecord.encode.
  destruct (Header.validate_v0 _) as [[]|e|]; [|by split; [|intros [? _]]..]. oc.
  destruct (N.ltb_spec MAX_RECORD_BODY_LEN (OuterRecord.record_body_len r)); oc.
  - split; [done|]. intros (_&?&_). lia.
  - unfold MAX_RECORD_BODY_LEN, U32_MAX in *. rewrite leb_true by lia. oc.
    rewrite app_nil_l, <- app_assoc. split; [by intros [= <-]|by intros (_&_&->)].
Qed.

Lemma OuterRecord_decode_layout r :
  OuterRecord.wf r →
  Header.validate_v0 (OuterRecord.header r) = Ok tt →
  OuterRecord.record_body_len r <= MAX_RECORD_BODY_LEN →
  OuterRecord.decode (OuterRecord_layout r) = Ok r.
Proof.
  intros Hwf Hv Hmax. pose proof (Header_encode_len _ Hwf) as Hh.
  unfold OuterRecord.record_body_len, Header.LEN, MAX_RECORD_BODY_LEN in *.
  set (b := OuterRecord_layout r).
  assert (from_be (sub b 0 4) = 63 + len (OuterRecord.payload r)) as Hrl.
  { subst b. unfold OuterRecord_layout. cut_fields. apply from_be_bytes.
    unfold fits, OuterRecord.record_body_len, Header.LEN. simpl. lia. }
  assert (len b = 4 + (63 + len (OuterRecord.payload r))) as Hl.
  { subst b. unfold OuterRecord_layout. len_goal. }
  rewrite OuterRecord_decode_slices;
    rewrite ?Hrl; unfold MAX_RECORD_BODY_LEN, Header.LEN; try lia.
  assert (sub b 4 67 = Header.encode (OuterRecord.header r)) as ->
    by (subst b; unfold OuterRecord_layout; by cut_fields).
  rewrite Header_decode_encode, Hv by done. oc. f_equal.
  subst b. unfold OuterRecord_layout. rewrite app_assoc, drop_app_len by len_goal.
  by destruct r.
Qed.

Lemma OuterRecord_decode_Ok b r :
  OuterRecord.decode b = Ok r →
  OuterRecord.wf r ∧ Header.validate_v0 (OuterRecord.header r) = Ok tt ∧
  OuterRecord.record_body_len r <= MAX_RECORD_BODY_LEN ∧ b = OuterRecord_layout r.
Proof.
  intros Hd. destruct (OuterRecord_decode_cases b) as [(H1&H2&H3&H4)|[e He]];
    [|congruence].
  rewrite (OuterRecord_decode_slices b) in Hd by done.
  apply bind_Ok_inv in Hd as ([]&Hv&[= <-]).
  unfold OuterRecord_layout, OuterRecord.record_body_len, Header.LEN in *.
  cbn [OuterRecord.header OuterRecord.payload] in *.
  split_and!; [|done|len|].
  - apply Header_decode_wf. unfold Header.LEN. len_goal.
  - rewrite Header_encode_decode by (unfold Header.LEN; len_goal).
    replace (63 + len (drop_N 67 b)) with (from_be (sub b 0 4)) by len.
    rewrite be_bytes_from_be by len_goal.
    rewrite <- sub_to_end, app_assoc. by join_fields.
Qed.

(** * Properties *)

(** The 63-byte header codec is a bijection between well-formed headers and
    63-byte arrays: encoding a header gives an array that decodes to exactly
    that header, and a decoded array re-encodes to itself, byte for byte. *)
Lemma header_codec_bijection h b :
  Header.wf h → len b = Header.LEN → Header.encode h = b ↔ Header.decode b = h.
Proof.
  intros Hh Hb. split.
  - intros <-. by apply Header_decode_encode.
  - intros <-. by apply Header_encode_decode.
Qed.

Definition sample_header : Header.t :=
  {| Header.version := 1; Header.typ := 3; Header.flags := 0; Header.epoch_be := 7;
     Header.session_id := replicate 16 x01; Header.counter_be := 258;
     Header.ratchet_pub := replicate 32 x02 |}.

Lemma sample_header_wf : Header.wf sample_header.
Proof. vm_compute. by repeat split. Qed.

(** A byte string decodes as an [InitBody] exactly when it is the encoding of
    a well-formed body whose [reserved_be] is zero, which is then the result. *)
Lemma init_body_codec b x :
  len b = InitBody.LEN →
  InitBody.decode b = Ok x ↔
    InitBody.wf x ∧ InitBody.reserved_be x = 0 ∧ InitBody.encode x = b.
Proof.
  intros Hb. split.
  - intros Hd. apply InitBody_encode_decode in Hd as (?&?&?); done.
  - intros (Hwf&H0&<-). rewrite InitBody_decode_encode, H0 by done. done.
Qed.

(** C23: [OuterRecord::decode] and [OuterRecord::encode] are inverse to each other:
    a byte string decodes to [r] exactly when [r] is well formed and encodes to
    that byte string. Accepted frames are therefore canonical: no two byte
    strings decode to the same record. *)
Theorem outer_record_codec b r :
  OuterRecord.decode b = Ok r ↔ OuterRecord.wf r ∧ OuterRecord.encode r = Ok b.
Proof.
  rewrite OuterRecord_encode_Ok. split.
  - intros (?&?&?&?)%OuterRecord_decode_Ok. done.
  - intros (?&?&?&->). by apply OuterRecord_decode_layout.
Qed.

(** No byte string makes [OuterRecord::decode] panic: every slice it takes is
    in bounds and its debug assertion holds on every path. *)
Lemma outer_decode_no_panic b : no_panic (OuterRecord.decode b).
Proof.
  destruct (OuterRecord_decode_cases b) as [(H1&H2&H3&H4)|[e ->]]; [|done].
  rewrite OuterRecord_decode_slices by done.
  pose proof (validate_v0_no_panic (Header.decode (sub b 4 67))).
  by destruct (Header.validate_v0 _).
Qed.
