(* ===== verification/Pad.v ===== *)
(** The universal [PAD()] of src/crates/libgary-wire/src/pad.rs: bucket
    selection, random padding to the bucket and stripping. The random number
    generator is a parameter. *)

From S2P Require Import Prelude Wire.

(** A caller-supplied [impl RngCore + CryptoRng]: its state and the bytes
    [fill_bytes] writes into a buffer of the given length. *)
Class Rng := {
  rng_state : Type;
  rng_fill : N → rng_state → bytes * rng_state;
}.

(** [rng.fill_bytes(buf)] on a buffer of [n] bytes. *)
Definition fill_bytes `{Rng} {E} (n : N) : ST rng_state E bytes := λ g,
  let '(b, g') := rng_fill n g in (Ok (fit n b), g').

Definition PADDING_BUCKETS : list N :=
  [256; 512; 1024; 2048; 4096; 8192; 16384; 32768].

Definition smallest_padding_bucket (n : N) : option N :=
  find (λ b, n <=? b) PADDING_BUCKETS.

Definition pad_outer `{Rng} (logical : bytes) : ST rng_state WireError bytes :=
  bucket ← st_lift (ok_or LogicalTooLarge (smallest_padding_bucket (len logical)));
  let pad_len := bucket - len logical in
  let out := logical in
  let out := out ++ zeros pad_len in
  let start := len logical in
  tail ← fill_bytes (len out - start);
  mret (put out start tail).

Definition strip_outer_pad (padded : bytes) (logical_len : N) : outcome WireError bytes :=
  bucket ← ok_or LogicalTooLarge (smallest_padding_bucket logical_len);
  _ ← reject_if (negb (len padded =? bucket)) PaddingBucketMismatch;
  ok_or PaddingLogicalMismatch
    (if logical_len <=? len padded then Some (sub padded 0 logical_len) else None).

(** ** Bucket selection *)

Local Ltac case_leb n :=
  match goal with |- context [n <=? ?k] => destruct (N.leb_spec n k) end.

Lemma bucket_spec n b :
  smallest_padding_bucket n = Some b →
  b ∈ PADDING_BUCKETS ∧ n <= b ∧ ∀ b', b' ∈ PADDING_BUCKETS → n <= b' → b <= b'.
Proof.
  unfold smallest_padding_bucket, PADDING_BUCKETS. cbn [find].
  repeat (case_leb n;
    [intros [= <-]; split_and!; [set_solver|done|intros b' Hb' ?; set_unfold in Hb'; lia]|]).
  done.
Qed.

Lemma bucket_none n : smallest_padding_bucket n = None ↔ 32768 < n.
Proof.
  unfold smallest_padding_bucket, PADDING_BUCKETS. cbn [find].
  repeat (case_leb n; [split; [done|lia]|]). split; [lia|done].
Qed.

Lemma bucket_some n : n <= 32768 → ∃ b, smallest_padding_bucket n = Some b.
Proof.
  intros Hn. destruct (smallest_padding_bucket n) eqn:E; [eauto|].
  apply bucket_none in E. lia.
Qed.

Section pad.
Context `{Rng}.

(** What [pad_outer] does, on each branch: the tail is whatever the generator
    produced, cut to the exact length. *)
Lemma pad_outer_eq logical g :
  pad_outer logical g =
    match smallest_padding_bucket (len logical) with
    | None => (Err LogicalTooLarge, g)
    | Some b =>
        let n := b - len logical in
        (Ok (logical ++ fit n (fst (rng_fill n g))), snd (rng_fill n g))
    end.
Proof.
  unfold pad_outer. rewrite st_bind_eq. unfold st_lift.
  destruct (smallest_padding_bucket (len logical)) as [b|] eqn:E; [|done].
  oc. cbv zeta. rewrite st_bind_eq. unfold fill_bytes.
  replace (len (logical ++ zeros (b - len logical)) - len logical)
    with (b - len logical) by len.
  destruct (rng_fill _ g) as [tail g']. oc. unfold mret, st_ret. f_equal. f_equal.
  rewrite put_zeros by len_goal. rewrite zeros_0, app_nil_r by len_goal. done.
Qed.

Lemma pad_outer_len logical g out g' :
  pad_outer logical g = (Ok out, g') →
  smallest_padding_bucket (len logical) = Some (len out) ∧
  take_N (len logical) out = logical.
Proof.
  rewrite pad_outer_eq. destruct (smallest_padding_bucket _) as [b|] eqn:E; [|done].
  cbv zeta. intros [= <- _]. apply bucket_spec in E as (_&?&_).
  rewrite take_app_len by done. split; [|done]. f_equal. len.
Qed.

Lemma pad_outer_strip logical g out g' :
  pad_outer logical g = (Ok out, g') → strip_outer_pad out (len logical) = Ok logical.
Proof.
  rewrite pad_outer_eq. destruct (smallest_padding_bucket _) as [b|] eqn:Hb; [|done].
  cbv zeta. intros [= <- _]. pose proof (bucket_spec _ _ Hb) as (?&?&?).
  unfold strip_outer_pad. rewrite Hb. oc.
  rewrite eqb_true, leb_true by len_goal. oc. by rewrite sub_app_l.
Qed.

Lemma pad_outer_total logical g :
  len logical <= 32768 → ∃ out g', pad_outer logical g = (Ok out, g').
Proof.
  intros Hl. destruct (bucket_some _ Hl) as [b Hb]. rewrite pad_outer_eq, Hb. eauto.
Qed.

End pad.

(** * Round trip *)

(** Padding always succeeds on at most 32768 logical bytes, produces exactly
    the smallest bucket that holds them, and stripping with the logical length
    gives the logical bytes back; longer inputs are refused. *)
Lemma pad_strip_roundtrip `{Rng} logical g :
  len logical <= 32768 →
  ∃ out g', pad_outer logical g = (Ok out, g') ∧
    strip_outer_pad out (len logical) = Ok logical ∧
    len out ∈ PADDING_BUCKETS ∧
    ∀ b, b ∈ PADDING_BUCKETS → len logical <= b → len out <= b.
Proof.
  intros Hl. destruct (pad_outer_total logical g Hl) as (out&g'&Hp).
  exists out, g'. split; [done|]. split; [by eapply pad_outer_strip|].
  apply pad_outer_len in Hp as [Hb _]. by apply bucket_spec in Hb as (?&?&?).
Qed.
