(* ===== verification/RelayEnvelope.v ===== *)
(** The relay outer envelope of src/crates/libgary-wire/src/relay.rs:
    [relay_version ‖ route_token_len ‖ route_token ‖ opaque_len ‖ opaque],
    plain and padded. *)

From S2P Require Import Prelude Wire Pad.

Module RelayOuterEnvelope.

Record t := mk {
  route_token : bytes;
  opaque_bytes : bytes;
}.

Definition encode_logical (e : t) : outcome WireError bytes :=
  _ ← reject_if (MAX_ROUTE_TOKEN_LEN <? len (route_token e)) RouteTokenTooLong;
  let ol := len (opaque_bytes e) in
  ol_u32 ← (if ol <=? U32_MAX then Ok ol else Err OpaqueTooLarge);
  _ ← reject_if (MAX_OUTER_RECORD_SERIALIZED <? ol) OpaqueTooLarge;
  logical_len ← ok_or OpaqueTooLarge
    (x ← checked_add USIZE_MAX 1 2;
     x ← checked_add USIZE_MAX x (len (route_token e));
     x ← checked_add USIZE_MAX x 4;
     checked_add USIZE_MAX x ol);
  let out := [byte_of_N RELAY_VERSION_V0] in
  let out := out ++ be_bytes 2 (len (route_token e) mod 2 ^ 16) in
  let out := out ++ route_token e in
  let out := out ++ be_bytes 4 ol_u32 in
  let out := out ++ opaque_bytes e in
  _ ← debug_assert (len out =? logical_len);
  Ok out.

Definition decode_logical (b : bytes) : outcome WireError t :=
  _ ← reject_if (len b <? 1 + 2 + 4) Truncated;
  b0 ← index b 0;
  _ ← reject_if (negb (Byte.to_N b0 =? RELAY_VERSION_V0)) InvalidRelayVersion;
  rtl ← slice b 1 3;
  let route_token_len := from_be rtl in
  _ ← reject_if (MAX_ROUTE_TOKEN_LEN <? route_token_len) RouteTokenTooLong;
  header_end ← ok_or Truncated (checked_add USIZE_MAX 3 route_token_len);
  _ ← reject_if (len b <? saturating_add USIZE_MAX header_end 4) Truncated;
  route_token ← slice b 3 header_end;
  ol ← slice b header_end (header_end + 4);
  let opaque_len := from_be ol in
  logical_total ← ok_or OpaqueTooLarge
    (x ← checked_add USIZE_MAX header_end 4; checked_add USIZE_MAX x opaque_len);
  _ ← reject_if (negb (logical_total =? len b)) OpaqueLengthMismatch;
  _ ← reject_if (MAX_OUTER_RECORD_SERIALIZED <? opaque_len) OpaqueTooLarge;
  opaque_bytes ← slice_from b (header_end + 4);
  _ ← debug_assert (len opaque_bytes =? opaque_len);
  Ok {| route_token := route_token; opaque_bytes := opaque_bytes |}.

Definition logical_len_from_prefix (padded : bytes) : outcome WireError N :=
  _ ← reject_if (len padded <? 1 + 2 + 4) Truncated;
  b0 ← index padded 0;
  _ ← reject_if (negb (Byte.to_N b0 =? RELAY_VERSION_V0)) InvalidRelayVersion;
  rtl ← slice padded 1 3;
  let route_token_len := from_be rtl in
  _ ← reject_if (MAX_ROUTE_TOKEN_LEN <? route_token_len) RouteTokenTooLong;
  ol_pos ← ok_or Truncated (checked_add USIZE_MAX 3 route_token_len);
  _ ← reject_if (len padded <? saturating_add USIZE_MAX ol_pos 4) Truncated;
  ol ← slice padded ol_pos (ol_pos + 4);
  let opaque_len := from_be ol in
  total ← ok_or OpaqueTooLarge
    (x ← checked_add USIZE_MAX ol_pos 4; checked_add USIZE_MAX x opaque_len);
  Ok total.

Definition encode_padded_wire `{Rng} (e : t) : ST rng_state WireError bytes :=
  logical ← st_lift (encode_logical e);
  pad_outer logical.

Definition decode_padded_wire (padded : bytes) : outcome WireError t :=
  logical_total ← logical_len_from_prefix padded;
  _ ← reject_if (len padded <? logical_total) Truncated;
  bucket ← ok_or LogicalTooLarge (smallest_padding_bucket logical_total);
  _ ← reject_if (negb (len padded =? bucket)) PaddingBucketMismatch;
  logical ← slice padded 0 logical_total;
  decode_logical logical.

End RelayOuterEnvelope.

Import RelayOuterEnvelope.

(** ** The framing both decoders parse *)

Definition rt_len (b : bytes) : N := from_be (sub b 1 3).
Definition op_len (b : bytes) : N := from_be (sub b (3 + rt_len b) (3 + rt_len b + 4)).

(** The prefix checks shared by [decode_logical] and [logical_len_from_prefix]. *)
Definition prefix_ok (b : bytes) : Prop :=
  7 <= len b ∧ byte_at b 0 = RELAY_VERSION_V0 ∧
  rt_len b <= MAX_ROUTE_TOKEN_LEN ∧ 3 + rt_len b + 4 <= len b.

Lemma op_len_bound b : op_len b < 2 ^ 32.
Proof.
  unfold op_len. eapply N.lt_le_trans; [apply from_be_bound|].
  apply N.pow_le_mono_r; [lia|len_goal].
Qed.

Lemma checked_add_ok x y : x + y <= USIZE_MAX → checked_add USIZE_MAX x y = Some (x + y).
Proof. intros. unfold checked_add. by rewrite leb_true. Qed.

Lemma prefix_cases b :
  prefix_ok b ∨
  (∃ e, decode_logical b = Err e) ∧ (∃ e, logical_len_from_prefix b = Err e).
Proof.
  unfold prefix_ok, decode_logical, logical_len_from_prefix. change (1 + 2 + 4) with 7.
  destruct (N.ltb_spec (len b) 7); [right; oc; eauto|]. oc.
  destruct (index_byte_at (E:=WireError) b 0) as (x&->&Hx); [lia|]. oc. rewrite Hx.
  destruct (N.eqb_spec (byte_at b 0) RELAY_VERSION_V0); [|right; oc; eauto]. oc.
  rewrite (slice_ok b 1 3) by lia. oc. fold (rt_len b).
  destruct (N.ltb_spec MAX_ROUTE_TOKEN_LEN (rt_len b)); [right; oc; eauto|]. oc.
  unfold MAX_ROUTE_TOKEN_LEN in *.
  rewrite checked_add_ok by (unfold USIZE_MAX, U64_MAX; lia). oc.
  unfold saturating_add. rewrite N.min_l by (unfold USIZE_MAX, U64_MAX; lia).
  destruct (N.ltb_spec (len b) (3 + rt_len b + 4)); [right; oc; eauto|].
  left. done.
Qed.

Lemma logical_len_ok b :
  prefix_ok b → logical_len_from_prefix b = Ok (3 + rt_len b + 4 + op_len b).
Proof.
  intros (H1&H2&H3&H4). pose proof (op_len_bound b) as Ho.
  unfold logical_len_from_prefix. change (1 + 2 + 4) with 7.
  rewrite ltb_false by lia. oc.
  destruct (index_byte_at (E:=WireError) b 0) as (x&->&Hx); [lia|]. oc. rewrite Hx.
  rewrite (eqb_true (byte_at b 0)) by done. rewrite (slice_ok b 1 3) by lia.
  oc. fold (rt_len b). rewrite ltb_false by lia. oc.
  unfold MAX_ROUTE_TOKEN_LEN in *. unfold saturating_add.
  rewrite checked_add_ok by (unfold USIZE_MAX, U64_MAX; lia). oc.
  rewrite N.min_l by (unfold USIZE_MAX, U64_MAX; lia).
  rewrite ltb_false by lia. oc. rewrite slice_ok by lia. oc. fold (op_len b).
  rewrite checked_add_ok by (unfold USIZE_MAX, U64_MAX; lia). simpl.
  by rewrite checked_add_ok by (unfold USIZE_MAX, U64_MAX; lia).
Qed.

Lemma decode_logical_eq b :
  prefix_ok b →
  decode_logical b =
    if 3 + rt_len b + 4 + op_len b =? len b then
      if MAX_OUTER_RECORD_SERIALIZED <? op_len b then Err OpaqueTooLarge
      else Ok {| route_token := sub b 3 (3 + rt_len b);
                 opaque_bytes := drop_N (3 + rt_len b + 4) b |}
    else Err OpaqueLengthMismatch.
Proof.
  intros (H1&H2&H3&H4). pose proof (op_len_bound b) as Ho.
  unfold decode_logical. change (1 + 2 + 4) with 7.
  rewrite ltb_false by lia. oc.
  destruct (index_byte_at (E:=WireError) b 0) as (x&->&Hx); [lia|]. oc. rewrite Hx.
  rewrite (eqb_true (byte_at b 0)) by done. rewrite (slice_ok b 1 3) by lia.
  oc. fold (rt_len b). rewrite ltb_false by lia. oc.
  unfold MAX_ROUTE_TOKEN_LEN in *. unfold saturating_add.
  rewrite checked_add_ok by (unfold USIZE_MAX, U64_MAX; lia). oc.
  rewrite N.min_l by (unfold USIZE_MAX, U64_MAX; lia).
  rewrite (ltb_false (len b)) by lia. oc. unfold slice_from.
  rewrite !slice_ok by lia. oc. fold (op_len b).
  rewrite checked_add_ok by (unfold USIZE_MAX, U64_MAX; lia). simpl.
  rewrite checked_add_ok by (unfold USIZE_MAX, U64_MAX; lia). oc.
  destruct (N.eqb_spec (3 + rt_len b + 4 + op_len b) (len b)) as [Hl|]; [|done]. oc.
  destruct (_ <? op_len b); [done|]. oc. unfold debug_assert.
  rewrite eqb_true by len_goal. oc. by rewrite sub_to_end.
Qed.

(** ** The encoded form *)

Definition env_ok (e : t) : Prop :=
  len (route_token e) <= MAX_ROUTE_TOKEN_LEN ∧
  len (opaque_bytes e) <= MAX_OUTER_RECORD_SERIALIZED.

Definition env_layout (e : t) : bytes :=
  [x01] ++ be_bytes 2 (len (route_token e)) ++ route_token e ++
  be_bytes 4 (len (opaque_bytes e)) ++ opaque_bytes e.

Lemma env_layout_len e :
  len (env_layout e) = 3 + len (route_token e) + 4 + len (opaque_bytes e).
Proof. unfold env_layout. len_goal. Qed.

Lemma encode_logical_Ok e b :
  encode_logical e = Ok b ↔ env_ok e ∧ b = env_layout e.
Proof.
  unfold encode_logical, env_ok.
  destruct (N.ltb_spec MAX_ROUTE_TOKEN_LEN (len (route_token e))); oc.
  { split; [done|]. intros [[? _] _]. lia. }
  unfold MAX_OUTER_RECORD_SERIALIZED, MAX_RECORD_BODY_LEN, MAX_ROUTE_TOKEN_LEN, U32_MAX in *.
  destruct (N.leb_spec (len (opaque_bytes e)) (2 ^ 32 - 1)); oc.
  2: { split; [done|]. intros [[_ ?] _]. lia. }
  destruct (N.ltb_spec (4 + 1048576) (len (opaque_bytes e))); oc.
  { split; [done|]. intros [[_ ?] _]. lia. }
  rewrite checked_add_ok by (unfold USIZE_MAX, U64_MAX; lia). simpl.
  rewrite checked_add_ok by (unfold USIZE_MAX, U64_MAX; lia). simpl.
  rewrite checked_add_ok by (unfold USIZE_MAX, U64_MAX; lia). simpl.
  rewrite checked_add_ok by (unfold USIZE_MAX, U64_MAX; lia). oc.
  unfold debug_assert. rewrite eqb_true by len_goal. oc.
  rewrite N.mod_small by lia. change (byte_of_N RELAY_VERSION_V0) with x01.
  rewrite <- !app_assoc. fold (env_layout e).
  split; [by intros [= <-]|by intros [_ ->]].
Qed.

Lemma env_ok_fits e :
  env_ok e → fits 2 (len (route_token e)) ∧ fits 4 (len (opaque_bytes e)).
Proof.
  intros [H1 H2]. unfold fits.
  unfold MAX_OUTER_RECORD_SERIALIZED, MAX_RECORD_BODY_LEN, MAX_ROUTE_TOKEN_LEN in *.
  simpl. lia.
Qed.

Section with_tail.
Variables (e : t) (tail : bytes).
Hypothesis Hok : env_ok e.

Lemma rt_len_layout : rt_len (env_layout e ++ tail) = len (route_token e).
Proof.
  unfold rt_len, env_layout. rewrite <- !app_assoc. cut_fields.
  by apply from_be_bytes, env_ok_fits.
Qed.

Lemma op_len_layout : op_len (env_layout e ++ tail) = len (opaque_bytes e).
Proof.
  unfold op_len. rewrite rt_len_layout. unfold env_layout. rewrite <- !app_assoc.
  cut_fields. by apply from_be_bytes, env_ok_fits.
Qed.

Lemma prefix_ok_layout : prefix_ok (env_layout e ++ tail).
Proof.
  unfold prefix_ok. rewrite rt_len_layout. rewrite len_app, env_layout_len.
  split_and!; [lia| |apply Hok|lia].
  unfold env_layout. rewrite <- !app_assoc. by rewrite byte_at_hd.
Qed.

End with_tail.

Lemma decode_logical_layout e : env_ok e → decode_logical (env_layout e) = Ok e.
Proof.
  intros He. rewrite <- (app_nil_r (env_layout e)).
  rewrite decode_logical_eq by by apply prefix_ok_layout.
  rewrite op_len_layout, rt_len_layout by done. rewrite app_nil_r.
  rewrite eqb_true by by rewrite env_layout_len.
  destruct He as [? ?]. rewrite ltb_false by done. f_equal. destruct e as [rt op].
  unfold env_layout. cbn [route_token opaque_bytes]. f_equal.
  - by cut_fields.
  - rewrite !app_assoc, drop_app_len by len_goal. done.
Qed.

Lemma decode_logical_Ok_inv b e :
  decode_logical b = Ok e → env_ok e ∧ b = env_layout e.
Proof.
  intros Hd. destruct (prefix_cases b) as [Hp|[[x Hx] _]]; [|congruence].
  rewrite decode_logical_eq in Hd by done. destruct Hp as (H1&H2&H3&H4).
  destruct (N.eqb_spec (3 + rt_len b + 4 + op_len b) (len b)) as [Hl|]; [|done].
  destruct (N.ltb_spec MAX_OUTER_RECORD_SERIALIZED (op_len b)); [done|].
  injection Hd as <-. unfold env_ok, env_layout. cbn [route_token opaque_bytes].
  split; [len|].
  replace (len (sub b 3 (3 + rt_len b))) with (rt_len b) by len.
  replace (len (drop_N (3 + rt_len b + 4) b)) with (op_len b) by len.
  replace [x01] with (sub b 0 1).
  2: { rewrite <- (byte_at_sub b 0 1) by lia. by rewrite H2. }
  unfold rt_len at 1, op_len. rewrite !be_bytes_from_be by len_goal.
  rewrite <- sub_to_end, !app_assoc. by join_fields.
Qed.

Lemma decode_padded_layout e tail :
  env_ok e → smallest_padding_bucket (len (env_layout e)) = Some (len (env_layout e ++ tail)) →
  decode_padded_wire (env_layout e ++ tail) = Ok e.
Proof.
  intros He Hk. unfold decode_padded_wire.
  rewrite logical_len_ok by by apply prefix_ok_layout.
  rewrite rt_len_layout, op_len_layout, <- env_layout_len by done. oc.
  rewrite ltb_false by len_goal. oc. rewrite Hk. oc.
  rewrite eqb_true by done. oc. rewrite slice_ok by len_goal. oc.
  rewrite sub_app_l by done. by apply decode_logical_layout.
Qed.

(** What a sender pads, the receiver unwraps. *)
Lemma encode_padded_decodes `{Rng} e g :
  env_ok e → len (env_layout e) <= 32768 →
  ∃ w g', encode_padded_wire e g = (Ok w, g') ∧ decode_padded_wire w = Ok e ∧
    smallest_padding_bucket (len (env_layout e)) = Some (len w).
Proof.
  intros He Hl. destruct (pad_outer_total (env_layout e) g Hl) as (w&g'&Hw).
  exists w, g'. unfold encode_padded_wire.
  rewrite (st_bind_Ok _ _ _ (env_layout e) g)
    by (unfold st_lift; by rewrite (proj2 (encode_logical_Ok e _) (conj He eq_refl))).
  split; [done|]. apply pad_outer_len in Hw as [Hb Htk].
  split; [|done]. rewrite <- (take_drop_N (len (env_layout e)) w), Htk in Hb |- *.
  by apply decode_padded_layout.
Qed.

(** * Properties *)

(** The relay envelope's logical codec is exact in both directions: bytes
    decode to [e] if and only if [e] encodes to those bytes. *)
Lemma relay_logical_codec b e :
  decode_logical b = Ok e ↔ encode_logical e = Ok b.
Proof.
  rewrite encode_logical_Ok. split; [apply decode_logical_Ok_inv|].
  intros [? ->]. by apply decode_logical_layout.
Qed.

(** C26: a padded relay frame decodes to [e] exactly when it is [e]'s logical
    encoding followed by padding up to the smallest bucket; whatever the
    generator puts in the tail, the receiver recovers the same envelope. *)
Theorem relay_padded_decode_exact w e :
  decode_padded_wire w = Ok e ↔
    ∃ logical tail, encode_logical e = Ok logical ∧ w = logical ++ tail ∧
      smallest_padding_bucket (len logical) = Some (len w).
Proof.
  split.
  - unfold decode_padded_wire. intros Hd. destruct (prefix_cases w) as [Hp|[_ [x Hx]]].
    2: { rewrite Hx in Hd. done. }
    rewrite logical_len_ok in Hd by done. oc in Hd.
    set (n := 3 + rt_len w + 4 + op_len w) in *.
    destruct (N.ltb_spec (len w) n); [done|]. oc in Hd.
    destruct (smallest_padding_bucket n) as [k|] eqn:Hk; [|done]. oc in Hd.
    destruct (N.eqb_spec (len w) k) as [Hlk|]; [|done]. oc in Hd.
    rewrite slice_ok in Hd by lia. oc in Hd.
    apply decode_logical_Ok_inv in Hd as [He Hb].
    exists (env_layout e), (drop_N n w). rewrite encode_logical_Ok, <- Hb.
    split_and!; [done..| |].
    + unfold sub. by rewrite N.sub_0_r, take_drop_N.
    + rewrite len_sub, N.sub_0_r, N.sub_0_r, N.min_l, Hk by lia. by rewrite Hlk.
  - intros (b&tail&[He ->]%encode_logical_Ok&->&Hk).
    by apply decode_padded_layout.
Qed.

(** No byte string makes the relay decoders panic. *)
Lemma relay_decode_no_panic b :
  no_panic (decode_logical b) ∧ no_panic (decode_padded_wire b).
Proof.
  assert (∀ b, no_panic (decode_logical b)) as Hl.
  { intros b'. destruct (prefix_cases b') as [Hp|[[x ->] _]]; [|done].
    rewrite decode_logical_eq by done. by repeat case_match. }
  split; [apply Hl|]. unfold decode_padded_wire.
  destruct (prefix_cases b) as [Hp|[_ [x ->]]]; [|done].
  rewrite logical_len_ok by done. oc.
  destruct (N.ltb_spec (len b) (3 + rt_len b + 4 + op_len b)); [done|]. oc.
  destruct (smallest_padding_bucket _); [|done]. oc.
  destruct (len b =? _); [|done]. oc. rewrite slice_ok by lia. oc. apply Hl.
Qed.
