(* ===== verification/Crypto.v ===== *)
(** The cryptographic primitives the program takes from third-party crates, as
    an interface, and the wrappers of src/crates/libgary-core/src that call
    them: constants.rs, kdf.rs, nonce.rs, aead.rs, x3dh.rs. *)

From S2P Require Import Prelude.

(** * The external primitives

    [sha2], [hkdf], [hmac], [chacha20poly1305] and [x25519-dalek] are not part
    of the repository. Their operations are the fields of [Crypto]; what the
    proofs rely on is stated separately in [CryptoLaws]. *)
Class Crypto := {
  sha256 : bytes → bytes;
  hmac_sha256 : bytes → bytes → bytes;
  (** salt, ikm, info, output length *)
  hkdf_expand : bytes → bytes → bytes → N → bytes;
  (** key, nonce, message, associated data; [None] is the crate's [Error] *)
  aead_encrypt : bytes → bytes → bytes → bytes → option bytes;
  aead_decrypt : bytes → bytes → bytes → bytes → option bytes;
  (** [PublicKey::from(&sk)] and [sk.diffie_hellman(&pk)] *)
  x25519_public : bytes → bytes;
  x25519_dh : bytes → bytes → bytes;
}.

(** Documented behaviour of XChaCha20-Poly1305 (encryption succeeds far beyond
    the sizes used here and appends a 16-byte tag; decryption inverts it and
    accepts nothing but its outputs) and of X25519 (both sides of an exchange
    obtain the same secret). *)
Class CryptoLaws `(Crypto) : Prop := {
  aead_encrypt_total k n pt ad :
    len pt <= 2 ^ 20 →
    ∃ ct, aead_encrypt k n pt ad = Some ct ∧ len ct = len pt + 16;
  aead_decrypt_encrypt k n pt ad ct :
    aead_encrypt k n pt ad = Some ct → aead_decrypt k n ct ad = Some pt;
  aead_encrypt_decrypt k n pt ad ct :
    aead_decrypt k n ct ad = Some pt → aead_encrypt k n pt ad = Some ct;
  x25519_agree a b :
    x25519_dh a (fit 32 (x25519_public b)) = x25519_dh b (fit 32 (x25519_public a));
}.

(** * Labels (constants.rs) *)

Definition ZERO32 : bytes := zeros 32.

Definition SALT_HANDSHAKE_LABEL : bytes := bs "libgary-v0-handshake".
Definition INFO_ROOT_KEY_V1 : bytes := bs "libgary-v0/root-key-v1".
Definition INFO_CONFIRM_V1 : bytes := bs "libgary-v0/confirm-v1".
Definition INFO_INIT_AEAD_V1 : bytes := bs "libgary-v0/init-aead-v1".
Definition INFO_ACK_AEAD_V1 : bytes := bs "libgary-v0/ack-aead-v1".
Definition INFO_CONTROL_AEAD_V1 : bytes := bs "libgary-v0/control-aead-v1".
Definition INFO_INIT_INNER_V1 : bytes := bs "libgary-v0/init-inner-v1".
Definition INFO_ACK_INNER_V1 : bytes := bs "libgary-v0/ack-inner-v1".
Definition INFO_NONCE_V1 : bytes := bs "libgary-v0/nonce-v1".
Definition INFO_CHAIN : bytes := bs "libgary-v0/libgary-chain".
Definition INFO_ROOT_MIX : bytes := bs "libgary-v0/libgary-root".
Definition INFO_MSG_PREFIX : bytes := bs "libgary-v0/libgary-msg".
Definition INFO_DATA_INNER_PAD_V1 : bytes := bs "libgary-v0/data-inner-pad-v1".
Definition INFO_CTRL_PAD_V1 : bytes := bs "libgary-v0/ctrl-pad-v1".

Definition TH0_PREFIX : bytes := bs "libgary-v0/th0-v1".
Definition TH1_PREFIX : bytes := bs "libgary-v0/th1-v1".
Definition TH0_RESET_PREFIX : bytes := bs "libgary-v0/th0-reset-v1".
Definition TH1_RESET_PREFIX : bytes := bs "libgary-v0/th1-reset-v1".

Definition AAD_INIT_PREFIX : bytes := bs "libgary-v0/init-aad-v1".
Definition AAD_ACK_PREFIX : bytes := bs "libgary-v0/ack-aad-v1".
Definition AAD_RESET_INIT_PREFIX : bytes := bs "libgary-v0/reset-init-aad-v1".
Definition AAD_RESET_ACK_PREFIX : bytes := bs "libgary-v0/reset-ack-aad-v1".

Definition SAFETY_NUMBER_PREFIX : bytes := bs "libgary-v0/safety-number-v1".

Definition DATA_INNER_FIXED : N := 512.
Definition MAX_SKIP : N := 2000.

(** * Wrappers *)

Inductive AeadError := Cipher.

Section wrappers.
Context `{Crypto}.

(** kdf.rs. [Hkdf::expand] fails only when more than [255 * 32] bytes are asked
    for, and the [expect] turns that into a panic. *)
Definition HKDF_MAX_LEN : N := 255 * 32.

Definition hkdf_sha256 {E} (salt ikm info : bytes) (out_len : N) : outcome E bytes :=
  if out_len <=? HKDF_MAX_LEN then Ok (fit out_len (hkdf_expand salt ikm info out_len))
  else Panic.

Definition hkdf_zero32 {E} (ikm info : bytes) (out_len : N) : outcome E bytes :=
  hkdf_sha256 ZERO32 ikm info out_len.

(** [Sha256::new()], one [update] per part, [finalize]. *)
Definition sha256_parts (parts : list bytes) : bytes := fit 32 (sha256 (concat parts)).

Definition sha256_label (prefix body : bytes) : bytes := sha256_parts [prefix; body].

(** nonce.rs *)
Definition nonce24 {E} (i_core label_dist : bytes) : outcome E bytes :=
  let ikm := i_core ++ label_dist in
  hkdf_sha256 ZERO32 ikm INFO_NONCE_V1 24.

(** aead.rs *)
Definition xencrypt (key nonce plaintext aad : bytes) : outcome AeadError bytes :=
  ok_or Cipher (aead_encrypt key nonce plaintext aad).

Definition xdecrypt (key nonce ciphertext aad : bytes) : outcome AeadError bytes :=
  ok_or Cipher (aead_decrypt key nonce ciphertext aad).

(** x3dh.rs *)
Definition dh (secret peer : bytes) : bytes := fit 32 (x25519_dh secret peer).

Definition km_with_otp (ik_a ek_a ik_b_pub spk_b_pub otp_b_pub : bytes) : bytes :=
  let dh1 := dh ik_a spk_b_pub in
  let dh2 := dh ek_a ik_b_pub in
  let dh3 := dh ek_a spk_b_pub in
  let dh4 := dh ek_a otp_b_pub in
  let km := zeros 128 in
  let km := put km 0 dh1 in
  let km := put km 32 dh2 in
  let km := put km 64 dh3 in
  let km := put km 96 dh4 in
  km.

(** The key material an HKDF call with a legal length returns. *)
Definition hkdf (salt ikm info : bytes) (n : N) : bytes :=
  fit n (hkdf_expand salt ikm info n).

Lemma hkdf_sha256_ok {E} salt ikm info n :
  n <= HKDF_MAX_LEN → hkdf_sha256 (E:=E) salt ikm info n = Ok (hkdf salt ikm info n).
Proof. intros. unfold hkdf_sha256. by rewrite leb_true. Qed.

Lemma hkdf_zero32_ok {E} ikm info n :
  n <= HKDF_MAX_LEN → hkdf_zero32 (E:=E) ikm info n = Ok (hkdf ZERO32 ikm info n).
Proof. apply hkdf_sha256_ok. Qed.

Lemma nonce24_ok {E} i_core label :
  nonce24 (E:=E) i_core label = Ok (hkdf ZERO32 (i_core ++ label) INFO_NONCE_V1 24).
Proof. unfold nonce24. by rewrite hkdf_sha256_ok. Qed.

Lemma len_hkdf salt ikm info n : len (hkdf salt ikm info n) = n.
Proof. apply len_fit. Qed.

Lemma len_sha256_parts l : len (sha256_parts l) = 32.
Proof. apply len_fit. Qed.

Lemma len_dh a b : len (dh a b) = 32.
Proof. apply len_fit. Qed.

End wrappers.

#[export] Hint Rewrite @len_hkdf @len_sha256_parts @len_dh : len.
