(* ===== verification/Handshake.v ===== *)
(** Handshake cryptography of src/crates/libgary-core/src: transcript.rs,
    session.rs (OKM, key confirmation), handshake.rs, reset_handshake.rs and
    identity.rs. *)

From S2P Require Import Prelude Wire Crypto.

Section handshake.
Context `{Crypto}.

(** * Transcripts (transcript.rs) *)

Definition th0 (init_body : bytes) : bytes := sha256_label TH0_PREFIX init_body.

Definition th1 (th0_digest : bytes) (init_ack_core : InitAckCore.t) : bytes :=
  let core := InitAckCore.encode init_ack_core in
  let buf := th0_digest ++ core in
  sha256_label TH1_PREFIX buf.

Definition th0_reset (reset_init_body : bytes) : bytes :=
  sha256_label TH0_RESET_PREFIX reset_init_body.

Definition th1_reset (th0_r : bytes) (reset_ack_core : InitAckCore.t) : bytes :=
  let core := InitAckCore.encode reset_ack_core in
  let buf := th0_r ++ core in
  sha256_label TH1_RESET_PREFIX buf.

(** * Session key material and key confirmation (session.rs) *)

Definition salt_handshake : bytes := sha256_label SALT_HANDSHAKE_LABEL [].

Definition ikm_session (km th0 th1 : bytes) : bytes := km ++ th0 ++ th1.

Definition okm_root_bootstrap {E} (ikm_session : bytes) : outcome E bytes :=
  let salt := salt_handshake in
  hkdf_sha256 salt ikm_session INFO_ROOT_KEY_V1 64.

Definition confirm_key {E} (okm : bytes) : outcome E bytes :=
  hkdf_zero32 okm INFO_CONFIRM_V1 32.

Definition confirm_mac (confirm_key th1 : bytes) : bytes :=
  let full := fit 32 (hmac_sha256 confirm_key th1) in
  sub full 0 16.

Definition verify_confirm_mac (confirm_key th1 mac : bytes) : bool :=
  let expected := confirm_mac confirm_key th1 in
  bool_decide (mac = expected).

(** * INIT / INIT_ACK inner AEAD (handshake.rs) *)

Definition k_init {E} (km th0 : bytes) : outcome E bytes :=
  let ikm := km ++ th0 in
  hkdf_zero32 ikm INFO_INIT_AEAD_V1 32.

Definition nonce_init {E} (km th0 : bytes) (epoch_be : N) (session_id : bytes)
    : outcome E bytes :=
  let label := bs "INIT" ++ be_bytes 4 epoch_be ++ session_id in
  let i_core := km ++ th0 in
  nonce24 i_core label.

Definition aad_init (epoch_be : N) (session_id init_body : bytes) : bytes :=
  AAD_INIT_PREFIX ++ be_bytes 4 epoch_be ++ session_id ++ init_body.

Definition plain_inner_init {E} (th0 : bytes) : outcome E bytes :=
  hkdf_zero32 th0 INFO_INIT_INNER_V1 256.

Definition encrypt_init_inner (km th0 : bytes) (epoch_be : N)
    (session_id init_body : bytes) : outcome AeadError bytes :=
  key ← k_init km th0;
  nonce ← nonce_init km th0 epoch_be session_id;
  let aad := aad_init epoch_be session_id init_body in
  pt ← plain_inner_init th0;
  xencrypt key nonce pt aad.

Definition k_ack {E} (okm : bytes) : outcome E bytes :=
  hkdf_zero32 okm INFO_ACK_AEAD_V1 32.

Definition nonce_ack {E} (okm : bytes) (epoch_be : N) (session_id : bytes)
    : outcome E bytes :=
  let label := bs "ACK" ++ be_bytes 4 epoch_be ++ session_id in
  nonce24 okm label.

Definition aad_ack (epoch_be : N) (session_id init_ack_wire : bytes) : bytes :=
  AAD_ACK_PREFIX ++ be_bytes 4 epoch_be ++ session_id ++ init_ack_wire.

Definition plain_inner_ack {E} (th1 : bytes) : outcome E bytes :=
  hkdf_zero32 th1 INFO_ACK_INNER_V1 256.

Definition encrypt_ack_inner (okm th1 : bytes) (epoch_be : N)
    (session_id init_ack_wire : bytes) : outcome AeadError bytes :=
  key ← k_ack okm;
  nonce ← nonce_ack okm epoch_be session_id;
  let aad := aad_ack epoch_be session_id init_ack_wire in
  pt ← plain_inner_ack th1;
  xencrypt key nonce pt aad.

(** [pt.try_into().map_err(|_| AeadError::Cipher)] into a fixed-size array. *)
Definition try_array (n : N) (pt : bytes) : outcome AeadError bytes :=
  if len pt =? n then Ok pt else Err Cipher.

Definition decrypt_ack_inner (okm : bytes) (epoch_be : N)
    (session_id init_ack_wire ciphertext : bytes) : outcome AeadError bytes :=
  key ← k_ack okm;
  nonce ← nonce_ack okm epoch_be session_id;
  let aad := aad_ack epoch_be session_id init_ack_wire in
  pt ← xdecrypt key nonce ciphertext aad;
  try_array 256 pt.

Definition decrypt_init_inner (km th0 : bytes) (epoch_be : N)
    (session_id init_body ciphertext : bytes) : outcome AeadError bytes :=
  key ← k_init km th0;
  nonce ← nonce_init km th0 epoch_be session_id;
  let aad := aad_init epoch_be session_id init_body in
  pt ← xdecrypt key nonce ciphertext aad;
  try_array 256 pt.

(** * RESET_INIT / RESET_ACK inner AEAD (reset_handshake.rs) *)

Definition nonce_reset_init {E} (km th0_r : bytes) (epoch_be : N) (session_id : bytes)
    : outcome E bytes :=
  let label := bs "RINIT" ++ be_bytes 4 epoch_be ++ session_id in
  let i_core := km ++ th0_r in
  nonce24 i_core label.

Definition nonce_reset_ack {E} (okm : bytes) (epoch_be : N) (session_id : bytes)
    : outcome E bytes :=
  let label := bs "RACK" ++ be_bytes 4 epoch_be ++ session_id in
  nonce24 okm label.

Definition aad_reset_init (epoch_be : N) (session_id reset_init_body : bytes) : bytes :=
  AAD_RESET_INIT_PREFIX ++ be_bytes 4 epoch_be ++ session_id ++ reset_init_body.

Definition aad_reset_ack (epoch_be : N) (session_id reset_ack_wire : bytes) : bytes :=
  AAD_RESET_ACK_PREFIX ++ be_bytes 4 epoch_be ++ session_id ++ reset_ack_wire.

Definition encrypt_reset_init_inner (km th0_r : bytes) (epoch_be : N)
    (session_id reset_init_body : bytes) : outcome AeadError bytes :=
  key ← k_init km th0_r;
  nonce ← nonce_reset_init km th0_r epoch_be session_id;
  let aad := aad_reset_init epoch_be session_id reset_init_body in
  pt ← plain_inner_init th0_r;
  xencrypt key nonce pt aad.

Definition decrypt_reset_init_inner (km th0_r : bytes) (epoch_be : N)
    (session_id reset_init_body ciphertext : bytes) : outcome AeadError bytes :=
  key ← k_init km th0_r;
  nonce ← nonce_reset_init km th0_r epoch_be session_id;
  let aad := aad_reset_init epoch_be session_id reset_init_body in
  pt ← xdecrypt key nonce ciphertext aad;
  try_array 256 pt.

Definition encrypt_reset_ack_inner (okm th1_r : bytes) (epoch_be : N)
    (session_id reset_ack_wire : bytes) : outcome AeadError bytes :=
  key ← k_ack okm;
  nonce ← nonce_reset_ack okm epoch_be session_id;
  let aad := aad_reset_ack epoch_be session_id reset_ack_wire in
  pt ← plain_inner_ack th1_r;
  xencrypt key nonce pt aad.

Definition decrypt_reset_ack_inner (okm : bytes) (epoch_be : N)
    (session_id reset_ack_wire ciphertext : bytes) : outcome AeadError bytes :=
  key ← k_ack okm;
  nonce ← nonce_reset_ack okm epoch_be session_id;
  let aad := aad_reset_ack epoch_be session_id reset_ack_wire in
  pt ← xdecrypt key nonce ciphertext aad;
  try_array 256 pt.

(** * Identity fingerprints (identity.rs) *)

Definition min_max_32 (a b : bytes) : bytes * bytes :=
  if bytes_ltb a b then (a, b) else (b, a).

Definition safety_number (ik_a ik_b spk_a spk_b : bytes) : bytes :=
  let '(ik_lo, ik_hi) := min_max_32 ik_a ik_b in
  let '(spk_lo, spk_hi) := min_max_32 spk_a spk_b in
  sha256_parts [SAFETY_NUMBER_PREFIX; ik_lo; ik_hi; spk_lo; spk_hi].

Definition account_id (ed25519_pk : bytes) : bytes := sha256_parts [ed25519_pk].

End handshake.
