(* ===== verification/Payload.v ===== *)
(** Record payload encryption of src/crates/libgary-core/src: data.rs (DATA inner
    plaintext, nonce, AEAD) and control.rs (REKEY / CLOSE control AEAD). *)

From S2P Require Import Prelude Wire Crypto Handshake.

Inductive DataInnerError := ContentTooLarge.
Inductive CtrlPadError := TooLong.

Section payload.
Context `{Crypto}.

(** * DATA (data.rs) *)

Definition data_inner_plaintext (inner_version content_type : N) (content : bytes)
    : outcome DataInnerError bytes :=
  let semantic := be_bytes 2 inner_version in
  let semantic := semantic ++ be_bytes 2 content_type in
  let semantic := semantic ++ be_bytes 4 (as_u32 (len content)) in
  let semantic := semantic ++ content in
  let need := DATA_INNER_FIXED - len semantic in
  _ ← reject_if (DATA_INNER_FIXED <? len semantic) ContentTooLarge;
  pad ← hkdf_zero32 semantic INFO_DATA_INNER_PAD_V1 need;
  let out := zeros DATA_INNER_FIXED in
  let out := put out 0 semantic in
  let out := put out (len semantic) pad in
  Ok out.

(** The distinguishing label of a DATA nonce. *)
Definition data_label (hdr : Header.t) : bytes :=
  bs "DATA" ++ be_bytes 4 (Header.epoch_be hdr) ++ be_bytes 8 (Header.counter_be hdr) ++
  Header.session_id hdr ++ Header.ratchet_pub hdr.

Definition nonce_data {E} (mk : bytes) (hdr : Header.t) : outcome E bytes :=
  nonce24 mk (data_label hdr).

Definition encrypt_data_payload (mk : bytes) (hdr : Header.t) (inner_plaintext512 : bytes)
    : outcome AeadError bytes :=
  nonce ← nonce_data mk hdr;
  let aad := Header.encode hdr in
  xencrypt mk nonce inner_plaintext512 aad.

(** * Control plane (control.rs) *)

Definition k_control {E} (okm : bytes) : outcome E bytes :=
  hkdf_zero32 okm INFO_CONTROL_AEAD_V1 32.

(** The distinguishing label of a control nonce. *)
Definition ctrl_label (typ epoch_be counter_be : N) (session_id : bytes) : bytes :=
  bs "CTRL" ++ [byte_of_N typ] ++ be_bytes 4 epoch_be ++ be_bytes 8 counter_be ++
  session_id.

Definition nonce_ctrl {E} (okm : bytes) (typ epoch_be counter_be : N) (session_id : bytes)
    : outcome E bytes :=
  nonce24 okm (ctrl_label typ epoch_be counter_be session_id).

Definition ctrl_inner_padded256 (body_leading : bytes) : outcome CtrlPadError bytes :=
  _ ← reject_if (256 <? len body_leading) TooLong;
  let pad_len := 256 - len body_leading in
  pad ← hkdf_zero32 body_leading INFO_CTRL_PAD_V1 pad_len;
  let out := zeros 256 in
  let out := put out 0 body_leading in
  let out := put out (len body_leading) pad in
  Ok out.

Definition encrypt_ctrl_payload (okm : bytes) (hdr : Header.t) (inner_plaintext256 : bytes)
    : outcome AeadError bytes :=
  key ← k_control okm;
  nonce ← nonce_ctrl okm (Header.typ hdr) (Header.epoch_be hdr) (Header.counter_be hdr)
            (Header.session_id hdr);
  let aad := Header.encode hdr in
  xencrypt key nonce inner_plaintext256 aad.

Definition decrypt_ctrl_payload (okm : bytes) (hdr : Header.t) (ciphertext : bytes)
    : outcome AeadError bytes :=
  key ← k_control okm;
  nonce ← nonce_ctrl okm (Header.typ hdr) (Header.epoch_be hdr) (Header.counter_be hdr)
            (Header.session_id hdr);
  let aad := Header.encode hdr in
  pt ← xdecrypt key nonce ciphertext aad;
  try_array 256 pt.

(** * Lemmas *)

Definition data_nonce (mk : bytes) (hdr : Header.t) : bytes :=
  hkdf ZERO32 (mk ++ data_label hdr) INFO_NONCE_V1 24.
Definition ctrl_key (okm : bytes) : bytes := hkdf ZERO32 okm INFO_CONTROL_AEAD_V1 32.
Definition ctrl_nonce (okm : bytes) (hdr : Header.t) : bytes :=
  hkdf ZERO32 (okm ++ ctrl_label (Header.typ hdr) (Header.epoch_be hdr)
    (Header.counter_be hdr) (Header.session_id hdr)) INFO_NONCE_V1 24.

Lemma nonce_data_ok {E} mk hdr : nonce_data (E:=E) mk hdr = Ok (data_nonce mk hdr).
Proof. apply nonce24_ok. Qed.

Lemma nonce_ctrl_ok {E} okm hdr :
  nonce_ctrl (E:=E) okm (Header.typ hdr) (Header.epoch_be hdr) (Header.counter_be hdr)
    (Header.session_id hdr) = Ok (ctrl_nonce okm hdr).
Proof. apply nonce24_ok. Qed.

Lemma k_control_ok {E} okm : k_control (E:=E) okm = Ok (ctrl_key okm).
Proof. by apply hkdf_zero32_ok. Qed.

Lemma encrypt_ctrl_payload_eq okm hdr pt :
  encrypt_ctrl_payload okm hdr pt =
    ok_or Cipher (aead_encrypt (ctrl_key okm) (ctrl_nonce okm hdr) pt (Header.encode hdr)).
Proof.
  unfold encrypt_ctrl_payload. rewrite k_control_ok. oc. by rewrite nonce_ctrl_ok.
Qed.

Lemma decrypt_ctrl_payload_eq okm hdr ct :
  decrypt_ctrl_payload okm hdr ct =
    (pt ← ok_or Cipher
       (aead_decrypt (ctrl_key okm) (ctrl_nonce okm hdr) ct (Header.encode hdr));
     try_array 256 pt).
Proof.
  unfold decrypt_ctrl_payload. rewrite k_control_ok. oc. by rewrite nonce_ctrl_ok.
Qed.

Lemma encrypt_data_payload_eq mk hdr pt :
  encrypt_data_payload mk hdr pt =
    ok_or Cipher (aead_encrypt mk (data_nonce mk hdr) pt (Header.encode hdr)).
Proof. unfold encrypt_data_payload. by rewrite nonce_data_ok. Qed.

(** The HKDF padding fills the inner plaintext up to its fixed length. *)
Lemma ctrl_inner_padded256_ok body :
  len body <= 256 →
  ctrl_inner_padded256 body =
    Ok (body ++ hkdf ZERO32 body INFO_CTRL_PAD_V1 (256 - len body)).
Proof.
  intros Hb. unfold ctrl_inner_padded256. rewrite ltb_false by lia. oc.
  rewrite hkdf_zero32_ok by (unfold HKDF_MAX_LEN; lia). oc. f_equal.
  by fill_array.
Qed.

Lemma ctrl_inner_padded256_too_long body :
  256 < len body → ctrl_inner_padded256 body = Err TooLong.
Proof. intros Hb. unfold ctrl_inner_padded256. by rewrite ltb_true. Qed.

Lemma ctrl_inner_padded256_len body out :
  ctrl_inner_padded256 body = Ok out → len out = 256.
Proof.
  destruct (N.le_gt_cases (len body) 256) as [Hb|Hb].
  - rewrite ctrl_inner_padded256_ok by done. intros [= <-]. len.
  - by rewrite ctrl_inner_padded256_too_long.
Qed.

Definition data_semantic (inner_version content_type : N) (content : bytes) : bytes :=
  be_bytes 2 inner_version ++ be_bytes 2 content_type ++ be_bytes 4 (len content) ++ content.

Lemma len_data_semantic v t c : len (data_semantic v t c) = 8 + len c.
Proof. unfold data_semantic. len_goal. Qed.

Lemma data_inner_plaintext_ok v t c :
  len c <= 504 →
  data_inner_plaintext v t c =
    Ok (data_semantic v t c ++
        hkdf ZERO32 (data_semantic v t c) INFO_DATA_INNER_PAD_V1 (504 - len c)).
Proof.
  intros Hc. unfold data_inner_plaintext, DATA_INNER_FIXED, as_u32.
  rewrite N.mod_small by lia. rewrite <- !app_assoc.
  fold (data_semantic v t c). rewrite len_data_semantic, ltb_false by lia. oc.
  replace (512 - (8 + len c)) with (504 - len c) by lia.
  rewrite hkdf_zero32_ok by (unfold HKDF_MAX_LEN; lia). oc. f_equal.
  pose proof (len_data_semantic v t c). by fill_array.
Qed.

Lemma data_inner_plaintext_too_large v t c :
  504 < len c → data_inner_plaintext v t c = Err ContentTooLarge.
Proof.
  intros Hc. unfold data_inner_plaintext, DATA_INNER_FIXED.
  rewrite ltb_true; [done|len_goal].
Qed.

End payload.

#[export] Hint Rewrite @len_data_semantic : len.
