(* ===== verification/Ratchet.v ===== *)
(** Symmetric chain stepping and DH mixing of
    src/crates/libgary-core/src/ratchet.rs, with the shared engine types of
    engine/error.rs, engine/types.rs and engine/mode.rs. *)

From S2P Require Import Prelude Crypto.

(** * Engine errors, roles and ingress modes *)

Inductive SessionError :=
  | ReplayRejected
  | StaleEpochRejected
  | DecryptionFailed
  | MaxSkipExceeded
  | InvalidHeader
  | UnknownSession
  | StateIntegrity
  | ResetRequired
  | LateDataAfterReset
  | FutureEpoch.

#[global] Instance SessionError_eq_dec : EqDecision SessionError.
Proof. solve_decision. Defined.

Inductive Role := Initiator | Responder.

#[global] Instance Role_eq_dec : EqDecision Role.
Proof. solve_decision. Defined.

Definition role_flag (r : Role) : N :=
  match r with Initiator => 0 | Responder => 1 end.

Definition from_role_flag (b : N) : outcome SessionError Role :=
  if b =? 0 then Ok Initiator
  else if b =? 1 then Ok Responder
  else Err InvalidHeader.

(** The drain interval offered to callers of [enter_reset_pending_after_rebootstrap],
    in the caller's own clock. *)
Definition RESET_HALF_OPEN_DEFAULT_DRAIN_TICKS : N := 86400.

Inductive SessionMode :=
  | Active (epoch : N)
  | ResetPending (old_epoch new_epoch : N) (drain_until_ticks : option N)
  | Bootstrapping (epoch : N).

#[global] Instance SessionMode_eq_dec : EqDecision SessionMode.
Proof. solve_decision. Defined.

Section ratchet.
Context `{Crypto}.

(** * Chain functions (ratchet.rs) *)

Definition chain_bootstrap {E} (bootstrap_key : bytes) : outcome E (bytes * bytes) :=
  okm ← hkdf_zero32 bootstrap_key INFO_CHAIN 64;
  cks ← slice okm 0 32;
  ckr ← slice okm 32 64;
  Ok (cks, ckr).

Definition msg_step {E} (ck : bytes) (m : N) : outcome E (bytes * bytes) :=
  let info := INFO_MSG_PREFIX ++ be_bytes 8 m in
  okm ← hkdf_zero32 ck info 64;
  mk ← slice okm 0 32;
  ck_next ← slice okm 32 64;
  Ok (mk, ck_next).

Definition dh_mix {E} (root_key_old dh_out : bytes) : outcome E (bytes * bytes * bytes) :=
  okm ← hkdf_sha256 root_key_old dh_out INFO_ROOT_MIX 96;
  rk_new ← slice okm 0 32;
  a ← slice okm 32 64;
  b ← slice okm 64 96;
  Ok (rk_new, a, b).

(** ** What they compute *)

Definition boot_okm (boot : bytes) : bytes := hkdf ZERO32 boot INFO_CHAIN 64.
Definition boot_cks (boot : bytes) : bytes := sub (boot_okm boot) 0 32.
Definition boot_ckr (boot : bytes) : bytes := sub (boot_okm boot) 32 64.

Definition step_okm (ck : bytes) (m : N) : bytes :=
  hkdf ZERO32 ck (INFO_MSG_PREFIX ++ be_bytes 8 m) 64.
Definition step_mk (ck : bytes) (m : N) : bytes := sub (step_okm ck m) 0 32.
Definition step_ck (ck : bytes) (m : N) : bytes := sub (step_okm ck m) 32 64.

Definition mix_okm (rk dh_out : bytes) : bytes := hkdf rk dh_out INFO_ROOT_MIX 96.

Lemma chain_bootstrap_ok {E} boot :
  chain_bootstrap (E:=E) boot = Ok (boot_cks boot, boot_ckr boot).
Proof.
  unfold chain_bootstrap. rewrite hkdf_zero32_ok by done. oc.
  by rewrite !slice_ok by len_goal.
Qed.

Lemma msg_step_ok {E} ck m : msg_step (E:=E) ck m = Ok (step_mk ck m, step_ck ck m).
Proof.
  unfold msg_step. rewrite hkdf_zero32_ok by done. oc.
  by rewrite !slice_ok by len_goal.
Qed.

Lemma dh_mix_ok {E} rk dh_out :
  dh_mix (E:=E) rk dh_out =
    Ok (sub (mix_okm rk dh_out) 0 32, sub (mix_okm rk dh_out) 32 64,
        sub (mix_okm rk dh_out) 64 96).
Proof.
  unfold dh_mix. rewrite hkdf_sha256_ok by done. oc.
  by rewrite !slice_ok by len_goal.
Qed.

Lemma len_boot_cks boot : len (boot_cks boot) = 32.
Proof. unfold boot_cks, boot_okm. len. Qed.
Lemma len_boot_ckr boot : len (boot_ckr boot) = 32.
Proof. unfold boot_ckr, boot_okm. len. Qed.
Lemma len_step_mk ck m : len (step_mk ck m) = 32.
Proof. unfold step_mk, step_okm. len. Qed.
Lemma len_step_ck ck m : len (step_ck ck m) = 32.
Proof. unfold step_ck, step_okm. len. Qed.
Lemma len_mix_okm rk d : len (mix_okm rk d) = 96.
Proof. apply len_hkdf. Qed.

(** The chain key and message key of a chain after [n] steps from [ck], the
    symmetric index starting at [m]. *)
Fixpoint chain_ck (ck : bytes) (m : N) (n : nat) : bytes :=
  match n with
  | O => ck
  | S n => chain_ck (step_ck ck m) (m + 1) n
  end.

Definition chain_mk (ck : bytes) (m : N) (n : nat) : bytes :=
  step_mk (chain_ck ck m n) (m + N.of_nat n).

Lemma chain_ck_add ck m n k :
  chain_ck ck m (n + k) = chain_ck (chain_ck ck m n) (m + N.of_nat n) k.
Proof.
  revert ck m; induction n as [|n IH]; intros ck m; simpl.
  - by rewrite N.add_0_r.
  - rewrite IH. f_equal. lia.
Qed.

Lemma chain_ck_S ck m n :
  chain_ck ck m (S n) = step_ck (chain_ck ck m n) (m + N.of_nat n).
Proof. replace (S n) with (n + 1)%nat by lia. by rewrite chain_ck_add. Qed.

Lemma len_chain_mk ck m n : len (chain_mk ck m n) = 32.
Proof. apply len_step_mk. Qed.

Lemma from_role_flag_roundtrip r : from_role_flag (role_flag r) = Ok r.
Proof. by destruct r. Qed.

End ratchet.

#[export] Hint Rewrite @len_boot_cks @len_boot_ckr @len_step_mk @len_step_ck
  @len_mix_okm @len_chain_mk : len.
