(* ===== verification/Skipped.v ===== *)
(** The skipped-message key cache of
    src/crates/libgary-core/src/engine/skipped.rs. *)

From S2P Require Import Prelude Crypto Ratchet.

Definition cache_key (peer_ratchet_pub : bytes) (counter_be : N) : bytes :=
  let k := zeros 40 in
  let k := put k 0 peer_ratchet_pub in
  let k := put k 32 (be_bytes 8 counter_be) in
  k.

Module SkippedKeyCache.

(** [HashMap<[u8; 40], Zeroizing<[u8; 32]>>]. *)
Record t := make { map : gmap bytes bytes }.

Definition new : t := {| map := ∅ |}.

Definition length (c : t) : N := N.of_nat (size (map c)).

Definition insert (peer_ratchet_pub : bytes) (counter_be : N) (mk : bytes)
    : ST t SessionError () :=
  c ← st_get;
  _ ← st_lift (reject_if (MAX_SKIP <=? length c) MaxSkipExceeded);
  let key := cache_key peer_ratchet_pub counter_be in
  _ ← st_lift (reject_if (bool_decide (is_Some (map c !! key))) ReplayRejected);
  st_modify (λ c, {| map := <[key := mk]> (map c) |}).

Definition take (peer_ratchet_pub : bytes) (counter_be : N) (c : t) : option bytes * t :=
  let key := cache_key peer_ratchet_pub counter_be in
  (map c !! key, {| map := delete key (map c) |}).

Definition clear (c : t) : t := {| map := ∅ |}.

(** Order of the exported entries: [a.0.cmp(&b.0)]. *)
Definition key_le (a b : bytes * bytes) : Prop := bytes_le a.1 b.1.

#[global] Instance key_le_dec : RelDecision key_le.
Proof. intros a b. unfold key_le. apply _. Defined.

Definition encode_sorted_entries (c : t) : list (bytes * bytes) :=
  merge_sort key_le (map_to_list (map c)).

Fixpoint restore_loop (entries : list (bytes * bytes)) : ST t SessionError () :=
  match entries with
  | [] => mret tt
  | (key, mk) :: rest =>
      let peer := sub key 0 32 in
      let ctr := from_be (sub key 32 40) in
      _ ← insert peer ctr mk;
      restore_loop rest
  end.

Definition restore_sorted_entries (entries : list (bytes * bytes))
    : outcome SessionError t :=
  let '(r, s) := restore_loop entries new in
  _ ← r; Ok s.

End SkippedKeyCache.

Abbreviation cache_map := SkippedKeyCache.map.
Abbreviation cache_len := SkippedKeyCache.length.

(** * Lemmas *)

Lemma cache_key_layout peer c :
  len peer = 32 → cache_key peer c = peer ++ be_bytes 8 c.
Proof. intros. unfold cache_key. cbv zeta. by fill_array. Qed.

Lemma cache_key_len peer c : len peer = 32 → len (cache_key peer c) = 40.
Proof. intros. rewrite cache_key_layout by done. len. Qed.

Lemma cache_key_inj p1 c1 p2 c2 :
  len p1 = 32 → len p2 = 32 → u64_ok c1 → u64_ok c2 →
  cache_key p1 c1 = cache_key p2 c2 → p1 = p2 ∧ c1 = c2.
Proof.
  intros Hp1 Hp2 Hc1 Hc2. rewrite !cache_key_layout by done.
  intros [-> Hb]%app_inj_len; [|congruence]. split; [done|].
  by eapply be_bytes_inj.
Qed.

Lemma cache_key_split key :
  len key = 40 → cache_key (sub key 0 32) (from_be (sub key 32 40)) = key.
Proof.
  intros. rewrite cache_key_layout by len_goal.
  rewrite be_bytes_from_be by len_goal. by join_fields.
Qed.

Definition cache_wf (c : SkippedKeyCache.t) : Prop :=
  cache_len c <= MAX_SKIP ∧
  map_Forall (λ k mk, len k = 40 ∧ len mk = 32) (cache_map c).

Lemma cache_ext (c1 c2 : SkippedKeyCache.t) : cache_map c1 = cache_map c2 → c1 = c2.
Proof. destruct c1, c2. simpl. by intros ->. Qed.

Lemma cache_new_wf : cache_wf SkippedKeyCache.new.
Proof. split; [by vm_compute|apply map_Forall_empty]. Qed.

Lemma cache_insert_eq peer ctr mk c :
  SkippedKeyCache.insert peer ctr mk c =
    if MAX_SKIP <=? cache_len c then (Err MaxSkipExceeded, c)
    else if bool_decide (is_Some (cache_map c !! cache_key peer ctr))
    then (Err ReplayRejected, c)
    else (Ok tt, {| SkippedKeyCache.map := <[cache_key peer ctr := mk]> (cache_map c) |}).
Proof.
  unfold SkippedKeyCache.insert. rewrite st_bind_eq. simpl. rewrite st_bind_eq.
  unfold st_lift, reject_if. destruct (MAX_SKIP <=? cache_len c); [done|].
  rewrite st_bind_eq. by destruct (bool_decide _).
Qed.

Lemma cache_insert_Ok peer ctr mk c :
  cache_len c < MAX_SKIP → cache_map c !! cache_key peer ctr = None →
  SkippedKeyCache.insert peer ctr mk c =
    (Ok tt, {| SkippedKeyCache.map := <[cache_key peer ctr := mk]> (cache_map c) |}).
Proof.
  intros Hl Hn. rewrite cache_insert_eq, leb_false, Hn by done.
  by rewrite bool_decide_eq_false_2 by by intros [? ?].
Qed.

Lemma cache_insert_wf peer ctr mk :
  len peer = 32 → len mk = 32 → preserves cache_wf (SkippedKeyCache.insert peer ctr mk).
Proof.
  intros Hp Hmk c Hc. rewrite cache_insert_eq.
  destruct (N.leb_spec MAX_SKIP (cache_len c)); [done|].
  case_bool_decide as Hn; [done|]. simpl. destruct Hc as [_ Hc].
  apply eq_None_not_Some in Hn. split.
  - unfold cache_len in *. simpl. rewrite map_size_insert_None by done. lia.
  - apply map_Forall_insert_2; [|done]. split; [by apply cache_key_len|done].
Qed.

Lemma cache_take_wf peer ctr c : cache_wf c → cache_wf (SkippedKeyCache.take peer ctr c).2.
Proof.
  intros [Hl Hc]. split; simpl.
  - unfold cache_len in *. simpl.
    rewrite map_size_delete. destruct (cache_map c !! _); simpl; lia.
  - by apply map_Forall_delete.
Qed.

(** ** Export and restore *)

Lemma sorted_entries_perm c :
  SkippedKeyCache.encode_sorted_entries c ≡ₚ map_to_list (cache_map c).
Proof. apply merge_sort_Permutation. Qed.

#[global] Instance key_le_total : Total SkippedKeyCache.key_le.
Proof. intros a b. apply (total bytes_le). Qed.

#[global] Instance key_le_trans : Transitive SkippedKeyCache.key_le.
Proof. intros a b c. apply (transitivity (R:=bytes_le)). Qed.

Lemma len_sorted_entries c :
  len (SkippedKeyCache.encode_sorted_entries c) = cache_len c.
Proof.
  unfold len, cache_len. rewrite sorted_entries_perm.
  by rewrite length_map_to_list.
Qed.

Lemma restore_loop_ok l c :
  NoDup l.*1 → Forall (λ e, len e.1 = 40) l →
  (∀ e, e ∈ l → cache_map c !! e.1 = None) →
  cache_len c + len l <= MAX_SKIP →
  SkippedKeyCache.restore_loop l c =
    (Ok tt, {| SkippedKeyCache.map := list_to_map l ∪ cache_map c |}).
Proof.
  revert c; induction l as [|[key mk] l IH]; intros c Hnd Hlen Hnone Hmax; simpl.
  - rewrite (left_id_L ∅ (∪)). by destruct c.
  - apply NoDup_cons in Hnd as [Hk Hnd]. apply Forall_cons in Hlen as [Hkl Hlen].
    simpl in *. rewrite len_cons in Hmax.
    assert (cache_map c !! key = None) as Hkn by (apply (Hnone (key, mk)); left).
    erewrite st_bind_Ok.
    2: { apply cache_insert_Ok; [lia|]. by rewrite cache_key_split. }
    rewrite cache_key_split by done. rewrite IH; [|done|done| |].
    + simpl. rewrite <- insert_union_r, insert_union_l; [done|].
      by apply not_elem_of_list_to_map_1.
    + intros e He. simpl. rewrite lookup_insert_ne.
      * apply Hnone. by right.
      * intros ->. apply Hk. by apply list_elem_of_fmap_2.
    + unfold cache_len in *. simpl. rewrite map_size_insert_None by done. lia.
Qed.

Lemma restore_sorted_entries_roundtrip c :
  cache_wf c →
  SkippedKeyCache.restore_sorted_entries (SkippedKeyCache.encode_sorted_entries c) = Ok c.
Proof.
  intros [Hl Hc]. unfold SkippedKeyCache.restore_sorted_entries.
  set (l := SkippedKeyCache.encode_sorted_entries c).
  assert (l ≡ₚ map_to_list (cache_map c)) as Hperm by apply sorted_entries_perm.
  assert (NoDup l.*1) as Hnd by (rewrite Hperm; apply NoDup_fst_map_to_list).
  rewrite restore_loop_ok; [|done| | |].
  - oc. f_equal. apply cache_ext. simpl. rewrite (right_id_L ∅ (∪)).
    rewrite <- (list_to_map_to_list (cache_map c)).
    by apply list_to_map_proper.
  - apply Forall_forall. intros [k mk] Hin. rewrite Hperm in Hin.
    apply elem_of_map_to_list in Hin. by apply Hc in Hin as [? _].
  - done.
  - subst l. rewrite len_sorted_entries. done.
Qed.

Lemma sorted_entries_unique l1 l2 :
  NoDup l1.*1 → l1 ≡ₚ l2 →
  StronglySorted SkippedKeyCache.key_le l1 → StronglySorted SkippedKeyCache.key_le l2 →
  l1 = l2.
Proof.
  intros Hnd Hp Hs1 Hs2. eapply StronglySorted_unique_strong; [|done..].
  intros [k1 v1] [k2 v2] H1 H2 Hle1 Hle2.
  assert (k1 = k2) as <- by by apply (anti_symm bytes_le).
  rewrite <- Hp in H2.
  apply (elem_of_list_to_map_1 (M:=gmap bytes)) in H1, H2; congruence.
Qed.

(** * Independence of the iteration order *)

(** The exported entry list does not depend on the [HashMap]'s iteration
    order: sorting any enumeration of the entries gives the same list, which is
    sorted by key. *)
Lemma skipped_export_deterministic c l :
  l ≡ₚ map_to_list (cache_map c) →
  merge_sort SkippedKeyCache.key_le l = SkippedKeyCache.encode_sorted_entries c ∧
  StronglySorted SkippedKeyCache.key_le (SkippedKeyCache.encode_sorted_entries c).
Proof.
  intros Hl.
  assert (∀ l', StronglySorted SkippedKeyCache.key_le (merge_sort SkippedKeyCache.key_le l'))
    as Hs by (intros; apply StronglySorted_merge_sort; apply _).
  split; [|apply Hs]. apply sorted_entries_unique; [| |apply Hs..].
  - rewrite merge_sort_Permutation, Hl. apply NoDup_fst_map_to_list.
  - by rewrite sorted_entries_perm, merge_sort_Permutation.
Qed.
