(* ===== verification/Blob.v ===== *)
(** Persisted ratchet data of src/crates/libgary-core/src/engine: the integrity
    anchor (anchor.rs) and [RatchetStateBlob] v2 (blob.rs). *)

From S2P Require Import Prelude Crypto Ratchet Skipped.

(** * [DeviceStateAnchorV1] (anchor.rs) *)

Module DeviceStateAnchorV1.

Record t := make {
  anchor_version_be : N;
  protocol_version_be : N;
  kdf_suite_id_be : N;
  global_epoch_be : N;
  highest_wire_seen_be : N;
  ratchet_blob_scheme_be : N;
  state_commitment : bytes;
}.

Definition LEN : N := 2 + 2 + 4 + 8 + 8 + 4 + 32.

Definition new_v0 (global_epoch_be : N) : t :=
  {| anchor_version_be := 1;
     protocol_version_be := 1;
     kdf_suite_id_be := 1;
     global_epoch_be := global_epoch_be;
     highest_wire_seen_be := 0;
     ratchet_blob_scheme_be := 2;
     state_commitment := zeros 32 |}.

Definition encode (a : t) : bytes :=
  let out := zeros LEN in
  let out := put out 0 (be_bytes 2 (anchor_version_be a)) in
  let out := put out 2 (be_bytes 2 (protocol_version_be a)) in
  let out := put out 4 (be_bytes 4 (kdf_suite_id_be a)) in
  let out := put out 8 (be_bytes 8 (global_epoch_be a)) in
  let out := put out 16 (be_bytes 8 (highest_wire_seen_be a)) in
  let out := put out 24 (be_bytes 4 (ratchet_blob_scheme_be a)) in
  let out := put out 28 (state_commitment a) in
  out.

Definition decode (b : bytes) : t :=
  {| anchor_version_be := from_be (sub b 0 2);
     protocol_version_be := from_be (sub b 2 4);
     kdf_suite_id_be := from_be (sub b 4 8);
     global_epoch_be := from_be (sub b 8 16);
     highest_wire_seen_be := from_be (sub b 16 24);
     ratchet_blob_scheme_be := from_be (sub b 24 28);
     state_commitment := sub b 28 60 |}.

Definition wf (a : t) : Prop :=
  u16_ok (anchor_version_be a) ∧ u16_ok (protocol_version_be a) ∧
  u32_ok (kdf_suite_id_be a) ∧ u64_ok (global_epoch_be a) ∧
  u64_ok (highest_wire_seen_be a) ∧ u32_ok (ratchet_blob_scheme_be a) ∧
  len (state_commitment a) = 32.

(** Field updates made by the engine. *)
Definition with_highest (n : N) (a : t) : t :=
  {| anchor_version_be := anchor_version_be a;
     protocol_version_be := protocol_version_be a;
     kdf_suite_id_be := kdf_suite_id_be a;
     global_epoch_be := global_epoch_be a;
     highest_wire_seen_be := n;
     ratchet_blob_scheme_be := ratchet_blob_scheme_be a;
     state_commitment := state_commitment a |}.

Definition with_commitment (c : bytes) (a : t) : t :=
  {| anchor_version_be := anchor_version_be a;
     protocol_version_be := protocol_version_be a;
     kdf_suite_id_be := kdf_suite_id_be a;
     global_epoch_be := global_epoch_be a;
     highest_wire_seen_be := highest_wire_seen_be a;
     ratchet_blob_scheme_be := ratchet_blob_scheme_be a;
     state_commitment := c |}.

End DeviceStateAnchorV1.

Definition compute_state_commitment `{Crypto} (active_sessions_canonical : bytes)
    (global_epoch_be : N) : bytes :=
  sha256_parts [bs "libgary-v0/state-commit-v1"; be_bytes 2 1; be_bytes 4 1;
                active_sessions_canonical; be_bytes 8 global_epoch_be].

Definition anchor_layout (a : DeviceStateAnchorV1.t) : bytes :=
  be_bytes 2 (DeviceStateAnchorV1.anchor_version_be a) ++
  be_bytes 2 (DeviceStateAnchorV1.protocol_version_be a) ++
  be_bytes 4 (DeviceStateAnchorV1.kdf_suite_id_be a) ++
  be_bytes 8 (DeviceStateAnchorV1.global_epoch_be a) ++
  be_bytes 8 (DeviceStateAnchorV1.highest_wire_seen_be a) ++
  be_bytes 4 (DeviceStateAnchorV1.ratchet_blob_scheme_be a) ++
  DeviceStateAnchorV1.state_commitment a.

Lemma anchor_encode_layout a :
  len (DeviceStateAnchorV1.state_commitment a) = 32 →
  DeviceStateAnchorV1.encode a = anchor_layout a.
Proof.
  intros. unfold DeviceStateAnchorV1.encode, anchor_layout, DeviceStateAnchorV1.LEN.
  cbv zeta. change (2 + 2 + 4 + 8 + 8 + 4 + 32) with 60. by fill_array.
Qed.

Lemma anchor_encode_len a :
  DeviceStateAnchorV1.wf a → len (DeviceStateAnchorV1.encode a) = 60.
Proof.
  intros (_&_&_&_&_&_&?). rewrite anchor_encode_layout by done.
  unfold anchor_layout. len.
Qed.

Lemma anchor_decode_encode a :
  DeviceStateAnchorV1.wf a →
  DeviceStateAnchorV1.decode (DeviceStateAnchorV1.encode a) = a.
Proof.
  intros (?&?&?&?&?&?&?). rewrite anchor_encode_layout by done.
  unfold anchor_layout, DeviceStateAnchorV1.decode. cut_fields.
  rewrite !from_be_bytes by done. by destruct a.
Qed.

Lemma anchor_decode_wf b :
  len b = 60 → DeviceStateAnchorV1.wf (DeviceStateAnchorV1.decode b).
Proof.
  intros. repeat split; simpl; try apply from_be_fits; len_goal.
Qed.

Lemma anchor_encode_decode b :
  len b = 60 → DeviceStateAnchorV1.encode (DeviceStateAnchorV1.decode b) = b.
Proof.
  intros Hb. rewrite anchor_encode_layout by (simpl; len_goal).
  unfold anchor_layout, DeviceStateAnchorV1.decode.
  cbn [DeviceStateAnchorV1.anchor_version_be DeviceStateAnchorV1.protocol_version_be
       DeviceStateAnchorV1.kdf_suite_id_be DeviceStateAnchorV1.global_epoch_be
       DeviceStateAnchorV1.highest_wire_seen_be DeviceStateAnchorV1.ratchet_blob_scheme_be
       DeviceStateAnchorV1.state_commitment].
  rewrite !be_bytes_from_be by len_goal. rewrite !app_assoc. by join_fields.
Qed.

(** * [RatchetStateBlob] v2 (blob.rs) *)

Definition BLOB_V2_PREFIX_LEN : N := 2 + 32 * 6 + 8 * 4 + 4.

Definition encode_entries (entries : list (bytes * bytes)) : bytes :=
  concat (map (λ '(key, mk), sub key 0 32 ++ drop_N 32 key ++ mk) entries).

Definition encode_blob_v2 (role : Role)
    (rk cks ckr dh_ratchet_sk dh_ratchet_pk peer_ratchet_pub : bytes)
    (send_count_be recv_high_water_be send_sym_idx_be recv_sym_idx_be : N)
    (skipped : SkippedKeyCache.t) : bytes :=
  let entries := SkippedKeyCache.encode_sorted_entries skipped in
  let skipped_count := len entries in
  let out := [byte_of_N 2] in
  let out := out ++ [byte_of_N (role_flag role)] in
  let out := out ++ rk in
  let out := out ++ cks in
  let out := out ++ ckr in
  let out := out ++ dh_ratchet_sk in
  let out := out ++ dh_ratchet_pk in
  let out := out ++ peer_ratchet_pub in
  let out := out ++ be_bytes 8 send_count_be in
  let out := out ++ be_bytes 8 recv_high_water_be in
  let out := out ++ be_bytes 8 send_sym_idx_be in
  let out := out ++ be_bytes 8 recv_sym_idx_be in
  let out := out ++ be_bytes 4 (as_u32 skipped_count) in
  let out := out ++ encode_entries entries in
  out.

Record ParsedRatchetBlobV2 := {
  p_role : Role;
  p_rk : bytes;
  p_cks : bytes;
  p_ckr : bytes;
  p_dh_ratchet_sk : bytes;
  p_dh_ratchet_pk : bytes;
  p_peer_ratchet_pub : bytes;
  p_send_count_be : N;
  p_recv_high_water_be : N;
  p_send_sym_idx_be : N;
  p_recv_sym_idx_be : N;
  p_skipped : SkippedKeyCache.t;
}.

(** The [for i in 0..skipped_count] loop over the 72-byte entries. *)
Fixpoint decode_entries (body : bytes) (i : N) (n : nat)
    : outcome SessionError (list (bytes * bytes)) :=
  match n with
  | O => Ok []
  | S n =>
      let base := i * 72 in
      peer ← slice body base (base + 32);
      ctr ← slice body (base + 32) (base + 40);
      mk ← slice body (base + 40) (base + 72);
      let key := zeros 40 in
      let key := put key 0 peer in
      let key := put key 32 (be_bytes 8 (from_be ctr)) in
      rest ← decode_entries body (i + 1) n;
      Ok ((key, mk) :: rest)
  end.

Definition decode_blob_v2 (b : bytes) : outcome SessionError ParsedRatchetBlobV2 :=
  _ ← reject_if (len b <? BLOB_V2_PREFIX_LEN) InvalidHeader;
  b0 ← index b 0;
  _ ← reject_if (negb (Byte.to_N b0 =? 2)) InvalidHeader;
  b1 ← index b 1;
  role ← from_role_flag (Byte.to_N b1);
  rk ← slice b 2 34;
  cks ← slice b 34 66;
  ckr ← slice b 66 98;
  dh_sk ← slice b 98 130;
  dh_pk ← slice b 130 162;
  peer_pk ← slice b 162 194;
  send_count ← slice b 194 202;
  recv_hw ← slice b 202 210;
  send_sym ← slice b 210 218;
  recv_sym ← slice b 218 226;
  sc ← slice b 226 230;
  let skipped_count := from_be sc in
  body ← slice_from b 230;
  _ ← reject_if (negb (len body =? skipped_count * 72)) InvalidHeader;
  pairs ← decode_entries body 0 (N.to_nat skipped_count);
  skipped ← SkippedKeyCache.restore_sorted_entries pairs;
  Ok {| p_role := role;
        p_rk := rk;
        p_cks := cks;
        p_ckr := ckr;
        p_dh_ratchet_sk := dh_sk;
        p_dh_ratchet_pk := dh_pk;
        p_peer_ratchet_pub := peer_pk;
        p_send_count_be := from_be send_count;
        p_recv_high_water_be := from_be recv_hw;
        p_send_sym_idx_be := from_be send_sym;
        p_recv_sym_idx_be := from_be recv_sym;
        p_skipped := skipped |}.

(** ** Entry codec *)

Definition entry_wf (e : bytes * bytes) : Prop := len e.1 = 40 ∧ len e.2 = 32.

Definition entry_bytes (e : bytes * bytes) : bytes := e.1 ++ e.2.

Lemma len_entry_bytes e : entry_wf e → len (entry_bytes e) = 72.
Proof. intros [? ?]. unfold entry_bytes. len. Qed.

Lemma encode_entries_eq l :
  encode_entries l = concat (map entry_bytes l).
Proof.
  unfold encode_entries. f_equal. apply map_ext. intros [key mk].
  unfold sub, entry_bytes. change (drop_N 0 key) with key. rewrite N.sub_0_r.
  by rewrite app_assoc, take_drop_N.
Qed.

Lemma encode_entries_app l1 l2 :
  encode_entries (l1 ++ l2) = encode_entries l1 ++ encode_entries l2.
Proof. rewrite !encode_entries_eq, map_app. apply concat_app. Qed.

Lemma len_encode_entries l : Forall entry_wf l → len (encode_entries l) = len l * 72.
Proof.
  rewrite encode_entries_eq. induction 1 as [|e l He Hl IH]; [done|].
  simpl. rewrite len_app, len_cons, IH, len_entry_bytes by done. lia.
Qed.

(** One round of the loop, on the entry that starts at its base offset. *)
Lemma decode_entries_step a e b i n :
  len a = i * 72 → entry_wf e →
  decode_entries (a ++ entry_bytes e ++ b) i (S n) =
    (rest ← decode_entries (a ++ entry_bytes e ++ b) (i + 1) n; Ok (e :: rest)).
Proof.
  intros Ha He. pose proof (len_entry_bytes e He) as Hl. destruct He as [Hk Hm].
  cbn [decode_entries]. cbv zeta. rewrite !slice_ok by len_goal. oc.
  rewrite (sub_mid a _ b (i * 72) 0 32), (sub_mid a _ b (i * 72) 32 40),
    (sub_mid a _ b (i * 72) 40 72) by lia.
  fold (cache_key (sub (entry_bytes e) 0 32) (from_be (sub (entry_bytes e) 32 40))).
  replace (sub (entry_bytes e) 0 32) with (sub e.1 0 32).
  2: { symmetry. apply (sub_mid [] e.1 e.2 0 0 32); [done|lia..]. }
  replace (sub (entry_bytes e) 32 40) with (sub e.1 32 40).
  2: { symmetry. apply (sub_mid [] e.1 e.2 0 32 40); [done|lia..]. }
  rewrite cache_key_split by done. unfold entry_bytes at 1. cut_fields.
  by destruct e.
Qed.

Lemma decode_entries_ok l1 l2 :
  Forall entry_wf l1 → Forall entry_wf l2 →
  decode_entries (encode_entries (l1 ++ l2)) (len l1) (length l2) = Ok l2.
Proof.
  revert l1; induction l2 as [|e l2 IH]; intros l1 H1 H2; [done|].
  apply Forall_cons in H2 as [He H2].
  pose proof (len_encode_entries l1 H1) as Hl1.
  rewrite encode_entries_app, (encode_entries_eq (e :: l2)).
  simpl concat. simpl length. rewrite decode_entries_step by done.
  rewrite <- encode_entries_eq.
  replace (encode_entries l1 ++ entry_bytes e ++ encode_entries l2)
    with (encode_entries ((l1 ++ [e]) ++ l2)).
  2: { rewrite !encode_entries_app, <- app_assoc. do 2 f_equal.
       rewrite encode_entries_eq. simpl. by rewrite app_nil_r. }
  replace (len l1 + 1) with (len (l1 ++ [e])) by len_goal.
  rewrite IH; [done| |done]. apply Forall_app_2; [done|]. by apply Forall_singleton.
Qed.

(** ** Blob round trip *)

Definition blob_wf (p : ParsedRatchetBlobV2) : Prop :=
  len (p_rk p) = 32 ∧ len (p_cks p) = 32 ∧ len (p_ckr p) = 32 ∧
  len (p_dh_ratchet_sk p) = 32 ∧ len (p_dh_ratchet_pk p) = 32 ∧
  len (p_peer_ratchet_pub p) = 32 ∧
  u64_ok (p_send_count_be p) ∧ u64_ok (p_recv_high_water_be p) ∧
  u64_ok (p_send_sym_idx_be p) ∧ u64_ok (p_recv_sym_idx_be p) ∧
  cache_wf (p_skipped p).

Definition encode_parsed (p : ParsedRatchetBlobV2) : bytes :=
  encode_blob_v2 (p_role p) (p_rk p) (p_cks p) (p_ckr p) (p_dh_ratchet_sk p)
    (p_dh_ratchet_pk p) (p_peer_ratchet_pub p) (p_send_count_be p)
    (p_recv_high_water_be p) (p_send_sym_idx_be p) (p_recv_sym_idx_be p) (p_skipped p).

Lemma sorted_entries_wf c :
  cache_wf c → Forall entry_wf (SkippedKeyCache.encode_sorted_entries c).
Proof.
  intros [_ Hc]. apply Forall_forall. intros [k mk] Hin.
  rewrite sorted_entries_perm in Hin. apply elem_of_map_to_list in Hin.
  by apply Hc in Hin.
Qed.

Lemma index_0 {E} x b : index (E:=E) ([x] ++ b) 0 = Ok x.
Proof. done. Qed.

Lemma index_1 {E} x y b : index (E:=E) ([x] ++ [y] ++ b) 1 = Ok y.
Proof. done. Qed.

Lemma decode_blob_v2_encode p :
  blob_wf p → decode_blob_v2 (encode_parsed p) = Ok p.
Proof.
  intros (Hrk&Hcks&Hckr&Hsk&Hpk&Hpeer&Hsc&Hhw&Hss&Hrs&Hc).
  pose proof (sorted_entries_wf _ Hc) as Hwf.
  pose proof (len_encode_entries _ Hwf) as Hbody.
  pose proof (decode_entries_ok [] _ (Forall_nil_2 _) Hwf) as Hdec.
  pose proof (restore_sorted_entries_roundtrip _ Hc) as Hrest.
  assert (len (SkippedKeyCache.encode_sorted_entries (p_skipped p)) <= 2000) as Hn.
  { rewrite len_sorted_entries. apply Hc. }
  unfold decode_blob_v2, encode_parsed, encode_blob_v2, BLOB_V2_PREFIX_LEN, as_u32.
  set (l := SkippedKeyCache.encode_sorted_entries (p_skipped p)) in *.
  rewrite N.mod_small by lia. rewrite <- !app_assoc.
  rewrite ltb_false by len_goal. rewrite index_0, index_1. oc. unfold slice_from.
  rewrite !to_N_of_N_small by (unfold fits; destruct (p_role p); simpl; lia).
  rewrite eqb_true, from_role_flag_roundtrip by done. oc.
  rewrite !slice_ok by len_goal. oc. cut_fields.
  rewrite !from_be_bytes by (done || (unfold fits; simpl; lia)).
  rewrite eqb_true by done. oc.
  replace (N.to_nat (len l)) with (length l) by (unfold len; lia).
  rewrite app_nil_l in Hdec. rewrite len_nil in Hdec. rewrite Hdec. oc.
  rewrite Hrest. oc. by destruct p.
Qed.

(** ** The decoder on arbitrary bytes *)

Lemma decode_entries_total body i n :
  len body = (i + N.of_nat n) * 72 →
  ∃ l, decode_entries body i n = Ok l ∧ Forall entry_wf l.
Proof.
  revert i; induction n as [|n IH]; intros i Hb.
  { eexists. split; [done|]. constructor. }
  cbn [decode_entries]. cbv zeta. rewrite !slice_ok by lia. oc.
  destruct (IH (i + 1)) as (l&->&Hl); [lia|]. oc.
  eexists. split; [done|]. apply Forall_cons. split; [|done].
  split; cbn [fst snd]; [|len_goal].
  fold (cache_key (sub body (i * 72) (i * 72 + 32))
                  (from_be (sub body (i * 72 + 32) (i * 72 + 40)))).
  apply cache_key_len. len_goal.
Qed.

Lemma cache_insert_no_panic peer ctr mk c :
  no_panic (SkippedKeyCache.insert peer ctr mk c).1.
Proof. rewrite cache_insert_eq. by repeat case_match. Qed.

Lemma restore_loop_wf l c :
  Forall entry_wf l → cache_wf c →
  no_panic (SkippedKeyCache.restore_loop l c).1 ∧
  cache_wf (SkippedKeyCache.restore_loop l c).2.
Proof.
  intros Hl. revert c; induction Hl as [|[key mk] l [Hk Hm] Hl IH]; intros c Hc; [done|].
  cbn [SkippedKeyCache.restore_loop]. cbv zeta. rewrite st_bind_eq.
  pose proof (cache_insert_no_panic (sub key 0 32) (from_be (sub key 32 40)) mk c) as Hnp.
  pose proof (cache_insert_wf (sub key 0 32) (from_be (sub key 32 40)) mk
    ltac:(simpl in *; len_goal) ltac:(done) c Hc) as Hwf.
  destruct (SkippedKeyCache.insert _ _ _ c) as [[[]|e|] c']; [by apply IH|done..].
Qed.

(** With at least the fixed prefix present, decoding is the checks and the two
    loops on in-range fields. *)
Lemma decode_blob_v2_eq b :
  BLOB_V2_PREFIX_LEN <= len b →
  decode_blob_v2 b =
    (_ ← reject_if (negb (byte_at b 0 =? 2)) InvalidHeader;
     role ← from_role_flag (byte_at b 1);
     _ ← reject_if (negb (len b - 230 =? from_be (sub b 226 230) * 72)) InvalidHeader;
     pairs ← decode_entries (drop_N 230 b) 0 (N.to_nat (from_be (sub b 226 230)));
     skipped ← SkippedKeyCache.restore_sorted_entries pairs;
     Ok {| p_role := role;
           p_rk := sub b 2 34;
           p_cks := sub b 34 66;
           p_ckr := sub b 66 98;
           p_dh_ratchet_sk := sub b 98 130;
           p_dh_ratchet_pk := sub b 130 162;
           p_peer_ratchet_pub := sub b 162 194;
           p_send_count_be := from_be (sub b 194 202);
           p_recv_high_water_be := from_be (sub b 202 210);
           p_send_sym_idx_be := from_be (sub b 210 218);
           p_recv_sym_idx_be := from_be (sub b 218 226);
           p_skipped := skipped |}).
Proof.
  unfold BLOB_V2_PREFIX_LEN. intros Hb. unfold decode_blob_v2, BLOB_V2_PREFIX_LEN.
  rewrite ltb_false by lia. unfold slice_from. rewrite !slice_ok by lia. oc.
  destruct (index_byte_at (E:=SessionError) b 0) as (x0&->&Hx0); [lia|]. oc. rewrite Hx0.
  destruct (_ =? 2); [|done]. oc.
  destruct (index_byte_at (E:=SessionError) b 1) as (x1&->&Hx1); [lia|]. oc. rewrite Hx1.
  destruct (from_role_flag _); [|done..]. oc. rewrite sub_to_end, len_drop. done.
Qed.

Lemma decode_blob_v2_spec b :
  no_panic (decode_blob_v2 b) ∧ ∀ p, decode_blob_v2 b = Ok p → blob_wf p.
Proof.
  destruct (N.lt_ge_cases (len b) BLOB_V2_PREFIX_LEN) as [Hb|Hb].
  { unfold decode_blob_v2. by rewrite ltb_true. }
  rewrite decode_blob_v2_eq by done. unfold BLOB_V2_PREFIX_LEN in Hb.
  destruct (byte_at b 0 =? 2); [|done]. oc.
  destruct (from_role_flag _) as [role|e|] eqn:Hr; [|done|].
  2: { unfold from_role_flag in Hr. by repeat case_match. }
  oc. destruct (N.eqb_spec (len b - 230) (from_be (sub b 226 230) * 72)) as [Hl|]; [|done].
  oc. destruct (decode_entries_total (drop_N 230 b) 0 (N.to_nat (from_be (sub b 226 230))))
    as (l&->&Hwf); [rewrite len_drop; lia|]. oc.
  unfold SkippedKeyCache.restore_sorted_entries.
  pose proof (restore_loop_wf l SkippedKeyCache.new Hwf cache_new_wf) as [Hnp Hc].
  destruct (SkippedKeyCache.restore_loop _ _) as [[[]|e|] c]; [|done..]. oc.
  split; [done|]. intros p [= <-]. unfold blob_wf. simpl in *.
  split_and!; try (apply (from_be_fits 8)); (done || len_goal).
Qed.
