(* ===== verification/Engine.v ===== *)
(** The stateful session engine of
    src/crates/libgary-core/src/engine/session.rs, translated method by method.
    The error paths keep every mutation made before the early return. *)

From S2P Require Import Prelude Wire Pad Crypto Handshake Payload Ratchet Skipped Blob.

(** Whether the build checks integer overflow: debug builds panic, release
    builds wrap around. *)
Class Build := { overflow_checks : bool }.

(** [x + y] on [usize]. *)
Definition usize_add `{Build} {E} (x y : N) : outcome E N :=
  if x + y <=? USIZE_MAX then Ok (x + y)
  else if overflow_checks then Panic
  else Ok ((x + y) mod 2 ^ 64).

Definition RECV_HIGH_WATER_NONE_SENTINEL : N := U64_MAX.

(** [SessionExport] and [InboundInner]. *)
Record SessionExport := {
  e_ratchet_blob : bytes;
  e_okm : bytes;
  e_anchor : DeviceStateAnchorV1.t;
  e_session_id : bytes;
  e_epoch : N;
}.

Inductive InboundInner :=
  | Data (pt : bytes)
  | RekeyPlain (pt : bytes).

Module Session.

(** The [Session] struct. *)
Record t := make {
  session_id : bytes;
  epoch : N;
  mode : SessionMode;
  okm : bytes;
  root_key : bytes;
  send_ck : bytes;
  recv_ck : bytes;
  send_wire_counter : N;
  recv_high_water : option N;
  send_sym_idx : N;
  recv_sym_idx : N;
  ratchet_sk : bytes;
  my_ratchet_pub : bytes;
  peer_ratchet_pub : option bytes;
  skipped : SkippedKeyCache.t;
  role : Role;
  anchor : DeviceStateAnchorV1.t;
  decrypted_counters : gset N;
}.

(** Assignments to single fields. *)
Definition set_mode (x : SessionMode) (s : t) : t :=
  make
    (session_id s) (epoch s) x (okm s) (root_key s) (send_ck s) (recv_ck s)
    (send_wire_counter s) (recv_high_water s) (send_sym_idx s) (recv_sym_idx s)
    (ratchet_sk s) (my_ratchet_pub s) (peer_ratchet_pub s) (skipped s) (role s)
    (anchor s) (decrypted_counters s).
Definition set_okm (x : bytes) (s : t) : t :=
  make
    (session_id s) (epoch s) (mode s) x (root_key s) (send_ck s) (recv_ck s)
    (send_wire_counter s) (recv_high_water s) (send_sym_idx s) (recv_sym_idx s)
    (ratchet_sk s) (my_ratchet_pub s) (peer_ratchet_pub s) (skipped s) (role s)
    (anchor s) (decrypted_counters s).
Definition set_root_key (x : bytes) (s : t) : t :=
  make
    (session_id s) (epoch s) (mode s) (okm s) x (send_ck s) (recv_ck s)
    (send_wire_counter s) (recv_high_water s) (send_sym_idx s) (recv_sym_idx s)
    (ratchet_sk s) (my_ratchet_pub s) (peer_ratchet_pub s) (skipped s) (role s)
    (anchor s) (decrypted_counters s).
Definition set_send_ck (x : bytes) (s : t) : t :=
  make
    (session_id s) (epoch s) (mode s) (okm s) (root_key s) x (recv_ck s)
    (send_wire_counter s) (recv_high_water s) (send_sym_idx s) (recv_sym_idx s)
    (ratchet_sk s) (my_ratchet_pub s) (peer_ratchet_pub s) (skipped s) (role s)
    (anchor s) (decrypted_counters s).
Definition set_recv_ck (x : bytes) (s : t) : t :=
  make
    (session_id s) (epoch s) (mode s) (okm s) (root_key s) (send_ck s) x
    (send_wire_counter s) (recv_high_water s) (send_sym_idx s) (recv_sym_idx s)
    (ratchet_sk s) (my_ratchet_pub s) (peer_ratchet_pub s) (skipped s) (role s)
    (anchor s) (decrypted_counters s).
Definition set_send_wire_counter (x : N) (s : t) : t :=
  make
    (session_id s) (epoch s) (mode s) (okm s) (root_key s) (send_ck s) (recv_ck s) x
    (recv_high_water s) (send_sym_idx s) (recv_sym_idx s) (ratchet_sk s)
    (my_ratchet_pub s) (peer_ratchet_pub s) (skipped s) (role s) (anchor s)
    (decrypted_counters s).
Definition set_recv_high_water (x : option N) (s : t) : t :=
  make
    (session_id s) (epoch s) (mode s) (okm s) (root_key s) (send_ck s) (recv_ck s)
    (send_wire_counter s) x (send_sym_idx s) (recv_sym_idx s) (ratchet_sk s)
    (my_ratchet_pub s) (peer_ratchet_pub s) (skipped s) (role s) (anchor s)
    (decrypted_counters s).
Definition set_send_sym_idx (x : N) (s : t) : t :=
  make
    (session_id s) (epoch s) (mode s) (okm s) (root_key s) (send_ck s) (recv_ck s)
    (send_wire_counter s) (recv_high_water s) x (recv_sym_idx s) (ratchet_sk s)
    (my_ratchet_pub s) (peer_ratchet_pub s) (skipped s) (role s) (anchor s)
    (decrypted_counters s).
Definition set_recv_sym_idx (x : N) (s : t) : t :=
  make
    (session_id s) (epoch s) (mode s) (okm s) (root_key s) (send_ck s) (recv_ck s)
    (send_wire_counter s) (recv_high_water s) (send_sym_idx s) x (ratchet_sk s)
    (my_ratchet_pub s) (peer_ratchet_pub s) (skipped s) (role s) (anchor s)
    (decrypted_counters s).
Definition set_ratchet_sk (x : bytes) (s : t) : t :=
  make
    (session_id s) (epoch s) (mode s) (okm s) (root_key s) (send_ck s) (recv_ck s)
    (send_wire_counter s) (recv_high_water s) (send_sym_idx s) (recv_sym_idx s) x
    (my_ratchet_pub s) (peer_ratchet_pub s) (skipped s) (role s) (anchor s)
    (decrypted_counters s).
Definition set_my_ratchet_pub (x : bytes) (s : t) : t :=
  make
    (session_id s) (epoch s) (mode s) (okm s) (root_key s) (send_ck s) (recv_ck s)
    (send_wire_counter s) (recv_high_water s) (send_sym_idx s) (recv_sym_idx s)
    (ratchet_sk s) x (peer_ratchet_pub s) (skipped s) (role s) (anchor s)
    (decrypted_counters s).
Definition set_peer_ratchet_pub (x : option bytes) (s : t) : t :=
  make
    (session_id s) (epoch s) (mode s) (okm s) (root_key s) (send_ck s) (recv_ck s)
    (send_wire_counter s) (recv_high_water s) (send_sym_idx s) (recv_sym_idx s)
    (ratchet_sk s) (my_ratchet_pub s) x (skipped s) (role s) (anchor s)
    (decrypted_counters s).
Definition set_skipped (x : SkippedKeyCache.t) (s : t) : t :=
  make
    (session_id s) (epoch s) (mode s) (okm s) (root_key s) (send_ck s) (recv_ck s)
    (send_wire_counter s) (recv_high_water s) (send_sym_idx s) (recv_sym_idx s)
    (ratchet_sk s) (my_ratchet_pub s) (peer_ratchet_pub s) x (role s) (anchor s)
    (decrypted_counters s).
Definition set_anchor (x : DeviceStateAnchorV1.t) (s : t) : t :=
  make
    (session_id s) (epoch s) (mode s) (okm s) (root_key s) (send_ck s) (recv_ck s)
    (send_wire_counter s) (recv_high_water s) (send_sym_idx s) (recv_sym_idx s)
    (ratchet_sk s) (my_ratchet_pub s) (peer_ratchet_pub s) (skipped s) (role s) x
    (decrypted_counters s).
Definition set_decrypted_counters (x : gset N) (s : t) : t :=
  make
    (session_id s) (epoch s) (mode s) (okm s) (root_key s) (send_ck s) (recv_ck s)
    (send_wire_counter s) (recv_high_water s) (send_sym_idx s) (recv_sym_idx s)
    (ratchet_sk s) (my_ratchet_pub s) (peer_ratchet_pub s) (skipped s) (role s)
    (anchor s) x.

Section engine.
Context `{Crypto} `{Rng} `{Build}.

Abbreviation M := (ST t SessionError).
(** Methods that also draw from the caller's generator. *)
Abbreviation MR := (ST (t * rng_state) SessionError).

Definition on_session {A} (m : M A) : MR A := st_zoom fst (λ s st, (s, st.2)) m.
Definition on_rng {A} (m : ST rng_state SessionError A) : MR A :=
  st_zoom snd (λ g st, (st.1, g)) m.
Definition st_map_err {S E F A} (f : E → F) (m : ST S E A) : ST S F A := λ s,
  let '(r, s') := m s in (map_err f r, s').

Definition random_static_secret {E} : ST rng_state E bytes := fill_bytes 32.

(** ** Construction *)

Definition bootstrap_initiator {E} (okm session_id : bytes) (epoch : N)
    (ratchet_sk : bytes) (initial_peer_ratchet_pub : option bytes)
    (anchor : DeviceStateAnchorV1.t) : outcome E t :=
  let root_key := sub okm 0 32 in
  let boot := sub okm 32 64 in
  '(cks, ckr) ← chain_bootstrap boot;
  let my_ratchet_pub := fit 32 (x25519_public ratchet_sk) in
  Ok {| session_id := session_id;
        epoch := epoch;
        mode := Active epoch;
        okm := okm;
        root_key := root_key;
        send_ck := cks;
        recv_ck := ckr;
        send_wire_counter := 0;
        recv_high_water := None;
        send_sym_idx := 0;
        recv_sym_idx := 0;
        ratchet_sk := ratchet_sk;
        my_ratchet_pub := my_ratchet_pub;
        peer_ratchet_pub := initial_peer_ratchet_pub;
        skipped := SkippedKeyCache.new;
        role := Initiator;
        anchor := anchor;
        decrypted_counters := ∅ |}.

Definition bootstrap_responder {E} (okm session_id : bytes) (epoch : N)
    (ratchet_sk : bytes) (initial_peer_ratchet_pub : option bytes)
    (anchor : DeviceStateAnchorV1.t) : outcome E t :=
  let root_key := sub okm 0 32 in
  let boot := sub okm 32 64 in
  '(cks, ckr) ← chain_bootstrap boot;
  let my_ratchet_pub := fit 32 (x25519_public ratchet_sk) in
  Ok {| session_id := session_id;
        epoch := epoch;
        mode := Active epoch;
        okm := okm;
        root_key := root_key;
        send_ck := ckr;
        recv_ck := cks;
        send_wire_counter := 0;
        recv_high_water := None;
        send_sym_idx := 0;
        recv_sym_idx := 0;
        ratchet_sk := ratchet_sk;
        my_ratchet_pub := my_ratchet_pub;
        peer_ratchet_pub := initial_peer_ratchet_pub;
        skipped := SkippedKeyCache.new;
        role := Responder;
        anchor := anchor;
        decrypted_counters := ∅ |}.

(** ** RESET modes *)

Definition enter_reset_pending_after_rebootstrap (prior_epoch : N)
    (drain_until_ticks : option N) : M () :=
  s ← st_get;
  expected ← st_lift (ok_or InvalidHeader (checked_add U32_MAX prior_epoch 1));
  _ ← st_lift (reject_if (negb (epoch s =? expected)) InvalidHeader);
  st_modify (set_mode (ResetPending prior_epoch (epoch s) drain_until_ticks)).

Definition reset_pending_to_bootstrapping : M () :=
  s ← st_get;
  match mode s with
  | ResetPending _ new_epoch _ =>
      if new_epoch =? epoch s then st_modify (set_mode (Bootstrapping (epoch s)))
      else st_fail InvalidHeader
  | _ => st_fail InvalidHeader
  end.

Definition finish_reset_half_open_to_active : M () :=
  s ← st_get;
  match mode s with
  | ResetPending _ new_epoch _ =>
      if new_epoch =? epoch s then st_modify (set_mode (Active (epoch s)))
      else st_fail InvalidHeader
  | Bootstrapping e =>
      if e =? epoch s then st_modify (set_mode (Active (epoch s)))
      else st_fail InvalidHeader
  | Active _ => st_fail InvalidHeader
  end.

Definition enter_bootstrapping_for_epoch (e : N) : M () :=
  s ← st_get;
  _ ← st_lift (reject_if (negb (e =? epoch s)) InvalidHeader);
  st_modify (set_mode (Bootstrapping e)).

Definition maybe_expire_reset_pending (now_ticks : N) (s : t) : t :=
  let expire :=
    match mode s with
    | ResetPending _ _ (Some limit) => limit <? now_ticks
    | _ => false
    end in
  if expire then set_mode (Active (epoch s)) s else s.

Definition check_inbound_epoch_policy (s : t) (hdr : Header.t) : outcome SessionError () :=
  let e := Header.epoch_be hdr in
  _ ← reject_if (saturating_add U32_MAX (epoch s) 1 <? e) FutureEpoch;
  _ ← match mode s with
      | ResetPending old_epoch _ _ =>
          reject_if ((Header.typ hdr =? 3) && (e =? old_epoch)) LateDataAfterReset
      | _ => Ok tt
      end;
  _ ← reject_if (e <? epoch s) StaleEpochRejected;
  _ ← reject_if (negb (e =? epoch s)) StaleEpochRejected;
  Ok tt.

(** ** Chain stepping *)

Definition send_step_mk : M bytes :=
  s ← st_get;
  '(mk, ck2) ← st_lift (msg_step (send_ck s) (send_sym_idx s));
  _ ← st_modify (set_send_ck ck2);
  idx ← st_lift (ok_or ReplayRejected (checked_add U64_MAX (send_sym_idx s) 1));
  _ ← st_modify (set_send_sym_idx idx);
  mret mk.

Definition recv_step_mk : M bytes :=
  s ← st_get;
  '(mk, ck2) ← st_lift (msg_step (recv_ck s) (recv_sym_idx s));
  _ ← st_modify (set_recv_ck ck2);
  idx ← st_lift (ok_or ReplayRejected (checked_add U64_MAX (recv_sym_idx s) 1));
  _ ← st_modify (set_recv_sym_idx idx);
  mret mk.

Definition on_skipped {A} (m : ST SkippedKeyCache.t SessionError A) : M A :=
  st_zoom skipped set_skipped m.

(** The [for cnt in base..target] loop of [fill_recv_gap_to_counter], [n] rounds
    from [cnt]. *)
Fixpoint fill_gap_loop (sender_pub : bytes) (cnt : N) (n : nat) : M () :=
  match n with
  | O => mret tt
  | S n =>
      mk ← recv_step_mk;
      _ ← on_skipped (SkippedKeyCache.insert sender_pub cnt mk);
      fill_gap_loop sender_pub (cnt + 1) n
  end.

Definition fill_recv_gap_to_counter (sender_pub : bytes) (base target : N) : M () :=
  if target <=? base then mret tt
  else
    let additional_skips := target - base in
    s ← st_get;
    total ← st_lift (usize_add (SkippedKeyCache.length (skipped s)) additional_skips);
    _ ← st_lift (reject_if (MAX_SKIP <? total) MaxSkipExceeded);
    fill_gap_loop sender_pub base (N.to_nat (target - base)).

(** ** Replay window *)

Definition replay_precheck (s : t) (c : N) : outcome SessionError () :=
  _ ← reject_if (bool_decide (c ∈ decrypted_counters s)) ReplayRejected;
  match recv_high_water s with
  | Some hw => reject_if (c <? hw - MAX_SKIP) ReplayRejected
  | None => Ok tt
  end.

Definition prune_decrypted_cache (s : t) : t :=
  match recv_high_water s with
  | None => s
  | Some hw =>
      let floor := hw - MAX_SKIP in
      set_decrypted_counters (filter (λ x, floor <= x) (decrypted_counters s)) s
  end.

(** ** DH ratchet *)

Definition apply_inbound_dh_ratchet (p_new : bytes) : MR () :=
  '(s, _) ← st_get;
  let dh_bytes := dh (ratchet_sk s) p_new in
  '(rk_new, mix_a, mix_b) ← st_lift (dh_mix (root_key s) dh_bytes);
  _ ← on_session (st_modify (set_root_key rk_new));
  _ ← match role s with
      | Initiator => on_session (st_modify (λ s, set_recv_ck mix_b (set_send_ck mix_a s)))
      | Responder => on_session (st_modify (λ s, set_recv_ck mix_a (set_send_ck mix_b s)))
      end;
  _ ← on_session (st_modify (set_send_sym_idx 0));
  _ ← on_session (st_modify (set_recv_sym_idx 0));
  _ ← on_session (st_modify (set_peer_ratchet_pub (Some p_new)));
  new_sk ← on_rng random_static_secret;
  _ ← on_session (st_modify (set_ratchet_sk new_sk));
  on_session (st_modify (set_my_ratchet_pub (fit 32 (x25519_public new_sk)))).

Definition bind_or_dh_ratchet (sender_pub : bytes) : MR () :=
  '(s, _) ← st_get;
  match peer_ratchet_pub s with
  | None => on_session (st_modify (set_peer_ratchet_pub (Some sender_pub)))
  | Some p =>
      if bool_decide (p = sender_pub) then mret tt
      else apply_inbound_dh_ratchet sender_pub
  end.

Definition dh_ratchet (new_peer_pub : bytes) : MR () :=
  apply_inbound_dh_ratchet new_peer_pub.

(** ** Sending *)

Definition bump_send_counter : M () :=
  s ← st_get;
  let ctr := send_wire_counter s in
  next ← st_lift (ok_or ReplayRejected (checked_add U64_MAX (send_wire_counter s) 1));
  _ ← st_modify (set_send_wire_counter next);
  st_modify (λ s, set_anchor (DeviceStateAnchorV1.with_highest
    (N.max (DeviceStateAnchorV1.highest_wire_seen_be (anchor s)) ctr) (anchor s)) s).

(** The header of the next outbound record of the given type. *)
Definition out_header (typ : N) (s : t) : Header.t :=
  {| Header.version := HEADER_VERSION_V0;
     Header.typ := typ;
     Header.flags := 0;
     Header.epoch_be := epoch s;
     Header.session_id := session_id s;
     Header.counter_be := send_wire_counter s;
     Header.ratchet_pub := my_ratchet_pub s |}.

Definition encrypt_data_plain512 (plaintext512 : bytes) : M (Header.t * bytes) :=
  mk ← send_step_mk;
  s ← st_get;
  let hdr := out_header 3 s in
  ct ← st_lift (map_err (λ _, DecryptionFailed) (encrypt_data_payload mk hdr plaintext512));
  _ ← bump_send_counter;
  mret (hdr, ct).

Definition encrypt_rekey_ctrl (rekey_body_leading_4 : bytes) : M (Header.t * bytes) :=
  plain ← st_lift (map_err (λ _, InvalidHeader) (ctrl_inner_padded256 rekey_body_leading_4));
  s ← st_get;
  let hdr := out_header 5 s in
  ct ← st_lift (map_err (λ _, DecryptionFailed) (encrypt_ctrl_payload (okm s) hdr plain));
  _ ← bump_send_counter;
  mret (hdr, ct).

Definition encrypt_data_plain512_outer (plaintext512 : bytes) : MR (Header.t * bytes) :=
  mk ← on_session send_step_mk;
  '(s, _) ← st_get;
  let hdr := out_header 3 s in
  ct ← st_lift (map_err (λ _, DecryptionFailed) (encrypt_data_payload mk hdr plaintext512));
  nonce ← st_lift (nonce_data mk hdr);
  let logical := nonce ++ ct in
  _ ← on_session bump_send_counter;
  payload ← on_rng (st_map_err (λ _, InvalidHeader) (pad_outer logical));
  mret (hdr, payload).

Definition encrypt_rekey_ctrl_outer (rekey_body_leading_4 : bytes) : MR (Header.t * bytes) :=
  plain ← st_lift (map_err (λ _, InvalidHeader) (ctrl_inner_padded256 rekey_body_leading_4));
  '(s, _) ← st_get;
  let hdr := out_header 5 s in
  ct ← st_lift (map_err (λ _, DecryptionFailed) (encrypt_ctrl_payload (okm s) hdr plain));
  nonce ← st_lift (nonce_ctrl (okm s) (Header.typ hdr) (Header.epoch_be hdr)
                     (Header.counter_be hdr) (Header.session_id hdr));
  let logical := nonce ++ ct in
  _ ← on_session bump_send_counter;
  payload ← on_rng (st_map_err (λ _, InvalidHeader) (pad_outer logical));
  mret (hdr, payload).

(** ** Receiving *)

(** Bookkeeping after a successful decryption of counter [c]. *)
Definition accept_counter (c : N) (s : t) : t :=
  let s := set_decrypted_counters ({[c]} ∪ decrypted_counters s) s in
  let s := set_recv_high_water
    (Some (match recv_high_water s with Some h => N.max h c | None => c end)) s in
  let s := prune_decrypted_cache s in
  set_anchor (DeviceStateAnchorV1.with_highest
    (N.max (DeviceStateAnchorV1.highest_wire_seen_be (anchor s)) c) (anchor s)) s.

Definition decrypt_rekey_ctrl_outer (header : Header.t) (padded_logical : bytes) : MR bytes :=
  '(s, _) ← st_get;
  _ ← st_lift (reject_if (negb (Header.version header =? HEADER_VERSION_V0) ||
                          negb (Header.typ header =? 5)) InvalidHeader);
  _ ← st_lift (reject_if (negb (bool_decide (Header.session_id header = session_id s)) ||
                          negb (Header.epoch_be header =? epoch s)) StaleEpochRejected);
  let c := Header.counter_be header in
  _ ← st_lift (replay_precheck s c);
  _ ← bind_or_dh_ratchet (Header.ratchet_pub header);
  let CTRL_LOGICAL := 24 + 256 + 16 in
  logical ← st_lift (map_err (λ _, InvalidHeader) (strip_outer_pad padded_logical CTRL_LOGICAL));
  ct ← st_lift (slice_from logical 24);
  '(s, _) ← st_get;
  pt ← st_lift (map_err (λ _, DecryptionFailed) (decrypt_ctrl_payload (okm s) header ct));
  _ ← on_session (st_modify (accept_counter c));
  mret pt.

(** The message key for counter [c]: a skipped key, or the receive chain advanced
    to [c]. *)
Definition recv_message_key (sender_pub : bytes) (c : N) : M bytes :=
  s ← st_get;
  let '(found, rest) := SkippedKeyCache.take sender_pub c (skipped s) in
  _ ← st_modify (set_skipped rest);
  match found with
  | Some mk => mret mk
  | None =>
      match recv_high_water s with
      | Some hw =>
          if c <=? hw then st_fail ReplayRejected
          else
            let base := saturating_add U64_MAX hw 1 in
            _ ← fill_recv_gap_to_counter sender_pub base c;
            recv_step_mk
      | None =>
          _ ← fill_recv_gap_to_counter sender_pub 0 c;
          recv_step_mk
      end
  end.

Definition decrypt_data (header : Header.t) (ciphertext : bytes) : MR bytes :=
  '(s, _) ← st_get;
  _ ← st_lift (reject_if (negb (Header.version header =? HEADER_VERSION_V0) ||
                          negb (Header.typ header =? 3)) InvalidHeader);
  _ ← st_lift (reject_if (negb (bool_decide (Header.session_id header = session_id s)) ||
                          negb (Header.epoch_be header =? epoch s)) StaleEpochRejected);
  let c := Header.counter_be header in
  _ ← st_lift (replay_precheck s c);
  let sender_pub := Header.ratchet_pub header in
  _ ← bind_or_dh_ratchet sender_pub;
  mk ← on_session (recv_message_key sender_pub c);
  nonce ← st_lift (nonce_data mk header);
  pt ← st_lift (map_err (λ _, DecryptionFailed)
         (xdecrypt mk nonce ciphertext (Header.encode header)));
  pt_arr ← st_lift (if len pt =? DATA_INNER_FIXED then Ok pt else Err InvalidHeader);
  _ ← on_session (st_modify (accept_counter c));
  mret pt_arr.

Definition decrypt_data_outer (header : Header.t) (padded_logical : bytes) : MR bytes :=
  let DATA_LOGICAL := 24 + DATA_INNER_FIXED + 16 in
  logical ← st_lift (map_err (λ _, InvalidHeader) (strip_outer_pad padded_logical DATA_LOGICAL));
  ct ← st_lift (slice_from logical 24);
  decrypt_data header ct.

(** ** The ingress gate *)

Definition handle_inbound_outer (record : OuterRecord.t) (now_ticks : N) : MR InboundInner :=
  _ ← on_session (st_modify (maybe_expire_reset_pending now_ticks));
  _ ← st_lift (map_err (λ _, InvalidHeader) (Header.validate_v0 (OuterRecord.header record)));
  '(s, _) ← st_get;
  _ ← st_lift (reject_if (negb (bool_decide
         (Header.session_id (OuterRecord.header record) = session_id s))) UnknownSession);
  _ ← st_lift (check_inbound_epoch_policy s (OuterRecord.header record));
  let header := OuterRecord.header record in
  let payload := OuterRecord.payload record in
  if Header.typ header =? 3 then
    pt ← decrypt_data_outer header payload; mret (Data pt)
  else if Header.typ header =? 5 then
    pt ← decrypt_rekey_ctrl_outer header payload; mret (RekeyPlain pt)
  else st_fail InvalidHeader.

(** ** Teardown, commitment, export and import *)

Definition reset_local (s : t) : t :=
  let s := set_okm (zeros 64) s in
  let s := set_root_key (zeros 32) s in
  let s := set_send_ck (zeros 32) s in
  let s := set_recv_ck (zeros 32) s in
  let s := set_skipped (SkippedKeyCache.clear (skipped s)) s in
  let s := set_decrypted_counters ∅ s in
  let s := set_recv_high_water None s in
  let s := set_send_wire_counter 0 s in
  let s := set_send_sym_idx 0 s in
  let s := set_recv_sym_idx 0 s in
  let s := set_peer_ratchet_pub None s in
  set_mode (Active (epoch s)) s.

Definition reset (s : t) : t := reset_local s.

Definition recv_hw_or_sentinel (s : t) : N :=
  default RECV_HIGH_WATER_NONE_SENTINEL (recv_high_water s).

Definition session_snapshot_preimage (s : t) : bytes :=
  let peer := default (zeros 32) (peer_ratchet_pub s) in
  session_id s ++ be_bytes 4 (epoch s) ++ root_key s ++ send_ck s ++ recv_ck s ++
  my_ratchet_pub s ++ peer ++ be_bytes 8 (send_wire_counter s) ++
  be_bytes 8 (recv_hw_or_sentinel s) ++ be_bytes 8 (send_sym_idx s) ++
  be_bytes 8 (recv_sym_idx s).

Definition recompute_anchor_commitment (s : t) : t :=
  let snap := session_snapshot_preimage s in
  set_anchor (DeviceStateAnchorV1.with_commitment
    (compute_state_commitment snap (DeviceStateAnchorV1.global_epoch_be (anchor s)))
    (anchor s)) s.

Definition verify_anchor_commitment (s : t) : bool :=
  let snap := session_snapshot_preimage s in
  let candidate :=
    compute_state_commitment snap (DeviceStateAnchorV1.global_epoch_be (anchor s)) in
  bool_decide (candidate = DeviceStateAnchorV1.state_commitment (anchor s)).

Definition export_state (s : t) : SessionExport :=
  let peer := default (zeros 32) (peer_ratchet_pub s) in
  let recv_hw := recv_hw_or_sentinel s in
  let blob := encode_blob_v2 (role s) (root_key s) (send_ck s) (recv_ck s) (ratchet_sk s)
    (my_ratchet_pub s) peer (send_wire_counter s) recv_hw (send_sym_idx s)
    (recv_sym_idx s) (skipped s) in
  {| e_ratchet_blob := blob;
     e_okm := okm s;
     e_anchor := anchor s;
     e_session_id := session_id s;
     e_epoch := epoch s |}.

Definition persistence_equivalence_digest (s : t) : bytes :=
  let export := export_state s in
  sha256_parts [bs "libgary.session.persistence-equiv.v0"; be_bytes 4 (e_epoch export);
    e_session_id export; e_okm export; be_bytes 8 (len (e_ratchet_blob export));
    e_ratchet_blob export; DeviceStateAnchorV1.encode (e_anchor export)].

Definition import_state (export : SessionExport) : outcome SessionError t :=
  parsed ← decode_blob_v2 (e_ratchet_blob export);
  let recv_high_water :=
    if p_recv_high_water_be parsed =? RECV_HIGH_WATER_NONE_SENTINEL then None
    else Some (p_recv_high_water_be parsed) in
  Ok {| session_id := e_session_id export;
        epoch := e_epoch export;
        mode := Active (e_epoch export);
        okm := e_okm export;
        root_key := p_rk parsed;
        send_ck := p_cks parsed;
        recv_ck := p_ckr parsed;
        send_wire_counter := p_send_count_be parsed;
        recv_high_water := recv_high_water;
        send_sym_idx := p_send_sym_idx_be parsed;
        recv_sym_idx := p_recv_sym_idx_be parsed;
        ratchet_sk := p_dh_ratchet_sk parsed;
        my_ratchet_pub := p_dh_ratchet_pk parsed;
        peer_ratchet_pub :=
          if bool_decide (p_peer_ratchet_pub parsed = zeros 32) then None
          else Some (p_peer_ratchet_pub parsed);
        skipped := p_skipped parsed;
        role := p_role parsed;
        anchor := e_anchor export;
        decrypted_counters := ∅ |}.

Definition skipped_cache_len (s : t) : N := SkippedKeyCache.length (skipped s).

End engine.
End Session.
