(* ===== verification/Toy.v ===== *)
(** A small executable instance of the [Crypto], [Rng] and [Build] parameters.
    It is not secure; it satisfies [CryptoLaws], so that theorems with that
    hypothesis can be instantiated and the engine can be run inside the kernel. *)

From S2P Require Import Prelude Crypto Pad Ratchet Skipped Blob Engine.

(** A 64-bit multiplicative hash and the byte stream it seeds. *)
Definition toy_hash (seed : N) (b : bytes) : N :=
  foldl (λ h x, ((h + Byte.to_N x + 1) * 6364136223846793005) mod 2 ^ 64) seed b.

Fixpoint toy_stream (n : nat) (h : N) : bytes :=
  match n with
  | O => []
  | S n =>
      let h := (h * 6364136223846793005 + 1442695040888963407) mod 2 ^ 64 in
      byte_of_N (h / 2 ^ 56) :: toy_stream n h
  end.

Definition toy_tag (k n pt ad : bytes) : bytes :=
  be_bytes 16 (toy_hash (toy_hash (toy_hash (toy_hash 1 k) n) ad) pt).

(** The prime of the exchange group: scalars act by multiplication. *)
Definition toy_p : N := 2 ^ 255 - 19.

#[global] Instance toy_crypto : Crypto := {|
  sha256 b := toy_stream 32 (toy_hash 2 b);
  hmac_sha256 k m := toy_stream 32 (toy_hash (toy_hash 3 k) m);
  hkdf_expand salt ikm info n :=
    toy_stream (N.to_nat n) (toy_hash (toy_hash (toy_hash 4 salt) ikm) info);
  aead_encrypt k n pt ad := Some (pt ++ toy_tag k n pt ad);
  aead_decrypt k n ct ad :=
    if 16 <=? len ct then
      let pt := take_N (len ct - 16) ct in
      if bool_decide (drop_N (len ct - 16) ct = toy_tag k n pt ad) then Some pt else None
    else None;
  x25519_public sk := be_bytes 32 ((from_be sk * 9) mod toy_p);
  x25519_dh sk pk := be_bytes 32 ((from_be sk * from_be pk) mod toy_p);
|}.

Lemma len_toy_tag k n pt ad : len (toy_tag k n pt ad) = 16.
Proof. apply len_be_bytes. Qed.

Lemma toy_dh_pub a b :
  x25519_dh a (fit 32 (x25519_public b)) = be_bytes 32 ((from_be a * from_be b * 9) mod toy_p).
Proof.
  simpl. rewrite fit_id by apply len_be_bytes. rewrite from_be_bytes.
  - f_equal. rewrite N.Div0.mul_mod_idemp_r. f_equal. lia.
  - eapply N.lt_trans; [apply N.mod_lt; by vm_compute|by vm_compute].
Qed.

#[global] Instance toy_crypto_laws : CryptoLaws toy_crypto.
Proof.
  split.
  - intros k n pt ad _. eexists. split; [done|]. rewrite len_app, len_toy_tag. done.
  - intros k n pt ad ct [= <-]. simpl. rewrite len_app, len_toy_tag.
    rewrite leb_true by lia. replace (len pt + 16 - 16) with (len pt) by lia.
    rewrite take_app_len, drop_app_len by done. by rewrite bool_decide_eq_true_2.
  - intros k n pt ad ct. simpl. destruct (16 <=? len ct); [|done].
    case_bool_decide as Htag; [|done]. intros [= <-]. f_equal.
    rewrite <- Htag. apply take_drop_N.
  - intros a b. rewrite !toy_dh_pub. do 2 f_equal. lia.
Qed.

(** A generator whose state is the stream seed. *)
#[global] Instance toy_rng : Rng := {|
  rng_state := N;
  rng_fill n g := (toy_stream (N.to_nat n) g, g + 1);
|}.

Definition toy_seed (n : N) : rng_state (Rng:=toy_rng) := n.

#[global] Instance release_build : Build := {| overflow_checks := false |}.

(** ** A paired initiator and responder *)

Definition toy_okm : bytes := toy_stream 64 77.
Definition toy_sid : bytes := replicate 16 x01.
Definition toy_alice_sk : bytes := toy_stream 32 5.
Definition toy_bob_sk : bytes := toy_stream 32 6.
Definition toy_pub (sk : bytes) : bytes := fit 32 (x25519_public sk).

Definition unwrap (r : outcome SessionError Session.t) : Session.t :=
  match r with
  | Ok s => s
  | _ => Session.make [] 0 (Active 0) [] [] [] [] 0 None 0 0 [] [] None
           SkippedKeyCache.new Initiator (DeviceStateAnchorV1.new_v0 0) ∅
  end.

Definition toy_alice : Session.t :=
  unwrap (Session.bootstrap_initiator toy_okm toy_sid 7 toy_alice_sk
            (Some (toy_pub toy_bob_sk)) (DeviceStateAnchorV1.new_v0 901)).
Definition toy_bob : Session.t :=
  unwrap (Session.bootstrap_responder toy_okm toy_sid 7 toy_bob_sk
            (Some (toy_pub toy_alice_sk)) (DeviceStateAnchorV1.new_v0 901)).
