(* ===== verification/EngineInv.v ===== *)
(** Invariants of the session engine: what each method preserves, on success
    and on every error path. The well-formedness invariant [session_wf] collects
    the array lengths, the integer ranges, the bounds on the two replay
    structures and the agreement of the RESET mode with the epoch; [fixed] and
    [window] say which methods leave the identity of the session and its replay
    window alone. *)

From S2P Require Import Prelude Wire Pad Crypto Handshake Payload Ratchet Skipped Blob.
From S2P Require Import Engine Toy.
Import Session.

(** * Automation *)

Section lift.
Context `{Crypto} `{Rng} `{Build}.

(** A session predicate read on the pair of a session and a generator. *)
Definition on_sess (I : t → Prop) (st : t * rng_state) : Prop := I st.1.

Lemma preserves_on_session {A} I (m : ST t SessionError A) :
  preserves I m → preserves (on_sess I) (on_session m).
Proof.
  intros Hm [s g] Hs. unfold on_session, st_zoom. simpl.
  specialize (Hm s Hs). by destruct (m s) as [[a|e|] s'].
Qed.

Lemma preserves_on_rng {A} I (m : ST rng_state SessionError A) :
  preserves (on_sess I) (on_rng m).
Proof. intros [s g] Hs. unfold on_rng, st_zoom. simpl. by destruct (m g) as [[a|e|] g']. Qed.

(** A freshly drawn secret has 32 bytes. *)
Lemma preserves_bind_secret {B} I (f : bytes → ST (t * rng_state) SessionError B) :
  (∀ sk, len sk = 32 → preserves (on_sess I) (f sk)) →
  preserves (on_sess I) (on_rng random_static_secret ≫= f).
Proof.
  intros Hf [s g] Hs. rewrite st_bind_eq.
  unfold on_rng, st_zoom, random_static_secret, fill_bytes. simpl.
  destruct (rng_fill 32 g) as [b g']. apply Hf; [apply len_fit|done].
Qed.

End lift.

(** Walk through a method body, keeping what the reads and checks reveal. *)
Ltac pres_step :=
  lazymatch goal with
  | |- preserves _ (mbind _ st_get) => apply preserves_bind_get; intros ? ?
  | |- preserves _ (mbind _ (st_lift _)) => apply preserves_bind_lift; intros ? ?
  | |- preserves _ (mbind _ (on_rng random_static_secret)) =>
      apply preserves_bind_secret; intros ? ?
  | |- preserves _ (mbind _ _) => apply preserves_bind; [|intros ?]
  | |- preserves _ (mret _) => apply preserves_ret
  | |- preserves _ (st_fail _) => apply preserves_fail
  | |- preserves _ (st_lift _) => apply preserves_lift
  | |- preserves _ (st_modify _) => apply preserves_modify; intros ? ?
  | |- preserves _ (on_session _) => apply preserves_on_session
  | |- preserves _ (on_rng _) => apply preserves_on_rng
  | |- preserves _ (match ?x with _ => _ end) => destruct x eqn:?
  | |- preserves _ (let _ := _ in _) => cbv zeta
  end.
Ltac pres := repeat first [pres_step | solve [eauto with preserves]].

(** * The fixed part of a session and its replay window

    [fixed] is what no receive or send operation may change; [window] is the
    replay state, changed only by accepting a record. *)
Definition fixed (s : t) : bytes * N * Role * bytes :=
  (session_id s, epoch s, role s, okm s).
Definition window (s : t) : gset N * option N :=
  (decrypted_counters s, recv_high_water s).
Definition frame (s : t) : bytes * N * Role * bytes * SessionMode * (gset N * option N) :=
  (fixed s, mode s, window s).

Section frames.
Context `{Crypto} `{Rng} `{Build}.

Lemma send_step_mk_frame v : preserves (λ s, frame s = v) send_step_mk.
Proof. unfold send_step_mk. pres; simpl; done. Qed.

Lemma recv_step_mk_frame v : preserves (λ s, frame s = v) recv_step_mk.
Proof. unfold recv_step_mk. pres; simpl; done. Qed.

Lemma on_skipped_frame {A} (m : ST SkippedKeyCache.t SessionError A) v :
  preserves (λ s, frame s = v) (on_skipped m).
Proof.
  intros s Hs. unfold on_skipped, st_zoom. by destruct (m (skipped s)) as [[a|e|] c].
Qed.

Lemma fill_gap_loop_frame pub cnt n v : preserves (λ s, frame s = v) (fill_gap_loop pub cnt n).
Proof.
  revert cnt; induction n as [|n IH]; intros cnt; simpl; pres;
    auto using recv_step_mk_frame, on_skipped_frame.
Qed.

Lemma fill_recv_gap_frame pub base target v :
  preserves (λ s, frame s = v) (fill_recv_gap_to_counter pub base target).
Proof. unfold fill_recv_gap_to_counter. pres; apply fill_gap_loop_frame. Qed.

Lemma recv_message_key_frame pub c v :
  preserves (λ s, frame s = v) (recv_message_key pub c).
Proof.
  unfold recv_message_key. apply preserves_bind_get. intros s Hs.
  destruct (SkippedKeyCache.take _ _ _) as [found rest].
  pres; auto using recv_step_mk_frame, fill_recv_gap_frame.
Qed.

Lemma apply_inbound_dh_ratchet_frame p v :
  preserves (on_sess (λ s, frame s = v)) (apply_inbound_dh_ratchet p).
Proof. unfold apply_inbound_dh_ratchet. pres; done. Qed.

Lemma bind_or_dh_ratchet_frame p v :
  preserves (on_sess (λ s, frame s = v)) (bind_or_dh_ratchet p).
Proof.
  unfold bind_or_dh_ratchet. pres; auto using apply_inbound_dh_ratchet_frame.
Qed.

(** ** Accepting a record

    [window_admits w c] is what [replay_precheck] tests, [window_accept] the
    effect of [accept_counter] on the window. *)
Definition window_admits (w : gset N * option N) (c : N) : Prop :=
  (c ∉ w.1) ∧ match w.2 with Some hw => hw - MAX_SKIP <= c | None => True end.
Definition window_high (w : gset N * option N) (c : N) : N :=
  match w.2 with Some hw => N.max hw c | None => c end.
Definition window_accept (c : N) (w : gset N * option N) : gset N * option N :=
  (filter (λ x, window_high w c - MAX_SKIP <= x) ({[c]} ∪ w.1), Some (window_high w c)).

Lemma replay_precheck_Ok s c u : replay_precheck s c = Ok u → window_admits (window s) c.
Proof.
  unfold replay_precheck, window_admits. simpl. case_bool_decide; [done|]. oc.
  destruct (recv_high_water s) as [hw|]; [|done].
  destruct (N.ltb_spec c (hw - MAX_SKIP)); done.
Qed.

Lemma replay_precheck_Err s c :
  ¬ window_admits (window s) c → replay_precheck s c = Err ReplayRejected.
Proof.
  unfold replay_precheck, window_admits. simpl. intros Hn. case_bool_decide; [done|]. oc.
  destruct (recv_high_water s) as [hw|]; [|by destruct Hn].
  destruct (N.ltb_spec c (hw - MAX_SKIP)); [done|by destruct Hn].
Qed.

Lemma replay_precheck_admits s c : window_admits (window s) c → replay_precheck s c = Ok tt.
Proof.
  unfold replay_precheck. intros [Hn Hf]. simpl in *. rewrite bool_decide_eq_false_2 by done. oc.
  destruct (recv_high_water s) as [hw|]; [|done]. by rewrite ltb_false.
Qed.

Lemma accept_counter_frame c s :
  frame (accept_counter c s) = (fixed s, mode s, window_accept c (window s)).
Proof. done. Qed.

(** The headers a receive path of record type [typ] lets through. *)
Definition header_matches (typ : N) (fx : bytes * N * Role * bytes) (h : Header.t) : Prop :=
  Header.version h = HEADER_VERSION_V0 ∧ Header.typ h = typ ∧
  Header.session_id h = fx.1.1.1 ∧ Header.epoch_be h = fx.1.1.2.

Lemma reject_header_Ok typ h u :
  reject_if (negb (Header.version h =? HEADER_VERSION_V0) ||
             negb (Header.typ h =? typ)) InvalidHeader = Ok u →
  Header.version h = HEADER_VERSION_V0 ∧ Header.typ h = typ.
Proof.
  destruct (N.eqb_spec (Header.version h) HEADER_VERSION_V0); [|done].
  by destruct (N.eqb_spec (Header.typ h) typ).
Qed.

Lemma reject_session_Ok s h u :
  reject_if (negb (bool_decide (Header.session_id h = session_id s)) ||
             negb (Header.epoch_be h =? epoch s)) StaleEpochRejected = Ok u →
  Header.session_id h = session_id s ∧ Header.epoch_be h = epoch s.
Proof.
  case_bool_decide; [|done]. by destruct (N.eqb_spec (Header.epoch_be h) (epoch s)).
Qed.

(** A receive path accepts only a matching header whose counter the window
    admits, moves the window by exactly that counter, and otherwise leaves the
    frame alone. *)
Definition accepts_one (typ : N) (h : Header.t) {A}
    (m : ST (t * rng_state) SessionError A) : Prop :=
  ∀ fx md w, triple (on_sess (λ s, frame s = (fx, md, w))) m
    (λ _ st, header_matches typ fx h ∧ window_admits w (Header.counter_be h) ∧
             frame st.1 = (fx, md, window_accept (Header.counter_be h) w))
    (on_sess (λ s, frame s = (fx, md, w))).

(** The checks both receive paths make first. *)
Lemma receive_checks {A} typ h (k : t * rng_state → ST (t * rng_state) SessionError A)
    fx md w (Q : A → t * rng_state → Prop) :
  (∀ st, header_matches typ fx h → window_admits w (Header.counter_be h) →
    triple (on_sess (λ s, frame s = (fx, md, w))) (k st) Q
      (on_sess (λ s, frame s = (fx, md, w)))) →
  triple (on_sess (λ s, frame s = (fx, md, w)))
    (st ← st_get;
     let '(s, _) := st in
     _ ← st_lift (reject_if (negb (Header.version h =? HEADER_VERSION_V0) ||
                             negb (Header.typ h =? typ)) InvalidHeader);
     _ ← st_lift (reject_if (negb (bool_decide (Header.session_id h = session_id s)) ||
                             negb (Header.epoch_be h =? epoch s)) StaleEpochRejected);
     _ ← st_lift (replay_precheck s (Header.counter_be h));
     k st) Q
    (on_sess (λ s, frame s = (fx, md, w))).
Proof.
  intros Hk. apply triple_bind_get. intros [s g] Hs.
  eapply (triple_conseq _ (on_sess (λ s, frame s = (fx, md, w))));
    [|by intros ? ->|by intros ?? HQ; exact HQ|by intros ? HX; exact HX].
  apply triple_bind_lift; [done|]. intros _ [Hv Ht]%reject_header_Ok.
  apply triple_bind_lift; [done|]. intros _ [Hid He]%reject_session_Ok.
  apply triple_bind_lift; [done|]. intros _ Hw%replay_precheck_Ok.
  unfold on_sess in Hs. simpl in Hs. injection Hs as <- <- <-. by apply Hk.
Qed.

Lemma receive_checks_replay {A} typ h (k : t * rng_state → ST (t * rng_state) SessionError A)
    s g :
  header_matches typ (fixed s) h → ¬ window_admits (window s) (Header.counter_be h) →
  (st ← st_get;
   let '(s, _) := st in
   _ ← st_lift (reject_if (negb (Header.version h =? HEADER_VERSION_V0) ||
                           negb (Header.typ h =? typ)) InvalidHeader);
   _ ← st_lift (reject_if (negb (bool_decide (Header.session_id h = session_id s)) ||
                           negb (Header.epoch_be h =? epoch s)) StaleEpochRejected);
   _ ← st_lift (replay_precheck s (Header.counter_be h));
   k st) (s, g) = (Err ReplayRejected, (s, g)).
Proof.
  intros (Hv&Ht&Hid&He) Hw. simpl in Hid, He. erewrite st_bind_Ok by done.
  rewrite Hv, Ht, Hid, He, !N.eqb_refl, bool_decide_eq_true_2 by done.
  do 2 (erewrite st_bind_Ok by done). rewrite st_bind_eq. unfold st_lift.
  by rewrite replay_precheck_Err.
Qed.

(** The bookkeeping both end with. *)
Lemma decrypt_tail {A} fx md w c (x : A) (φ ψ : Prop) :
  φ → ψ → triple (on_sess (λ s, frame s = (fx, md, w)))
    (_ ← on_session (st_modify (accept_counter c)); mret x)
    (λ _ st, φ ∧ ψ ∧ frame st.1 = (fx, md, window_accept c w))
    (on_sess (λ s, frame s = (fx, md, w))).
Proof.
  intros Hφ Hψ [s g] [= <- <- <-]. rewrite st_bind_eq. simpl. split_and!; [done..|].
  apply accept_counter_frame.
Qed.

Lemma decrypt_data_accepts h ct : accepts_one 3 h (decrypt_data h ct).
Proof.
  intros fx md w. apply (receive_checks 3 h (λ _, _)). intros _ Hh Hw.
  apply triple_bind_pres; [apply bind_or_dh_ratchet_frame|done|]. intros _.
  apply triple_bind_pres; [apply preserves_on_session, recv_message_key_frame|done|].
  intros mk. apply triple_bind_lift; [done|]. intros nonce _.
  apply triple_bind_lift; [done|]. intros pt _.
  apply triple_bind_lift; [done|]. intros pt' _. by apply decrypt_tail.
Qed.

Lemma decrypt_data_outer_accepts h p : accepts_one 3 h (decrypt_data_outer h p).
Proof.
  intros fx md w. unfold decrypt_data_outer.
  apply triple_bind_lift; [done|]. intros logical _.
  apply triple_bind_lift; [done|]. intros ct _. apply decrypt_data_accepts.
Qed.

Lemma decrypt_rekey_accepts h p : accepts_one 5 h (decrypt_rekey_ctrl_outer h p).
Proof.
  intros fx md w. apply (receive_checks 5 h (λ _, _)). intros _ Hh Hw.
  apply triple_bind_pres; [apply bind_or_dh_ratchet_frame|done|]. intros _.
  apply triple_bind_lift; [done|]. intros logical _.
  apply triple_bind_lift; [done|]. intros ct _.
  apply triple_bind_pres; [apply preserves_get|done|]. intros [s' g'].
  apply triple_bind_lift; [done|]. intros pt _. by apply decrypt_tail.
Qed.

Lemma bump_send_counter_frame v : preserves (λ s, frame s = v) bump_send_counter.
Proof. unfold bump_send_counter. pres; done. Qed.

(** ** The sending methods keep the frame *)

Lemma encrypt_data_plain512_frame pt v :
  preserves (λ s, frame s = v) (encrypt_data_plain512 pt).
Proof.
  unfold encrypt_data_plain512. pres; auto using send_step_mk_frame, bump_send_counter_frame.
Qed.

Lemma encrypt_rekey_ctrl_frame b v : preserves (λ s, frame s = v) (encrypt_rekey_ctrl b).
Proof. unfold encrypt_rekey_ctrl. pres; auto using bump_send_counter_frame. Qed.

Lemma encrypt_data_outer_frame pt v :
  preserves (on_sess (λ s, frame s = v)) (encrypt_data_plain512_outer pt).
Proof.
  unfold encrypt_data_plain512_outer.
  pres; auto using send_step_mk_frame, bump_send_counter_frame.
Qed.

Lemma encrypt_rekey_outer_frame b v :
  preserves (on_sess (λ s, frame s = v)) (encrypt_rekey_ctrl_outer b).
Proof. unfold encrypt_rekey_ctrl_outer. pres; auto using bump_send_counter_frame. Qed.

(** ** The ingress gate *)

(** The mode after the RESET drain deadline has been checked at [now]. *)
Definition expire_mode (now e : N) (md : SessionMode) : SessionMode :=
  match md with
  | ResetPending _ _ (Some limit) => if limit <? now then Active e else md
  | _ => md
  end.

Lemma maybe_expire_frame now s :
  frame (maybe_expire_reset_pending now s) =
    (fixed s, expire_mode now (epoch s) (mode s), window s).
Proof.
  unfold maybe_expire_reset_pending, expire_mode, frame.
  destruct (mode s) as [?|?? [limit|]|?] eqn:Hm;
    [|destruct (limit <? now)|..]; cbv zeta; by rewrite ?Hm.
Qed.

Lemma handle_inbound_accepts rec now fx md w :
  let h := OuterRecord.header rec in
  triple (on_sess (λ s, frame s = (fx, md, w))) (handle_inbound_outer rec now)
    (λ _ st, (header_matches 3 fx h ∨ header_matches 5 fx h) ∧
             window_admits w (Header.counter_be h) ∧
             frame st.1 = (fx, expire_mode now fx.1.1.2 md,
                           window_accept (Header.counter_be h) w))
    (on_sess (λ s, frame s = (fx, expire_mode now fx.1.1.2 md, w))).
Proof.
  intros h. unfold handle_inbound_outer.
  set (I := on_sess (λ s, frame s = (fx, expire_mode now fx.1.1.2 md, w))).
  eapply (triple_bind _ _ _ (λ _, I)).
  { intros [s g] [= <- <- <-]. unfold on_session, st_zoom, I, on_sess. simpl.
    apply maybe_expire_frame. }
  intros _. apply triple_bind_lift; [done|]. intros _ _.
  apply triple_bind_pres; [apply preserves_get|done|]. intros [s g].
  apply triple_bind_lift; [done|]. intros _ _.
  apply triple_bind_lift; [done|]. intros _ _. cbv zeta. fold h.
  destruct (_ =? 3).
  { eapply triple_bind; [apply decrypt_data_outer_accepts|]. intros pt.
    apply triple_ret. intros st (?&?&?). auto. }
  destruct (_ =? 5).
  { eapply triple_bind; [apply decrypt_rekey_accepts|]. intros pt.
    apply triple_ret. intros st (?&?&?). auto. }
  by apply triple_fail.
Qed.

End frames.

(** * Runs of the engine *)

(** The methods a client, the network or a test may call on a live session, in
    any order and with any arguments. [reset], which ends the session by wiping its
    keys and counters, is not among them: properties that hold across it say so
    themselves. *)
Inductive op :=
  | EncryptDataPlain512 (plaintext512 : bytes)
  | EncryptRekeyCtrl (body : bytes)
  | EncryptDataPlain512Outer (plaintext512 : bytes)
  | EncryptRekeyCtrlOuter (body : bytes)
  | DecryptData (header : Header.t) (ciphertext : bytes)
  | DecryptDataOuter (header : Header.t) (padded_logical : bytes)
  | DecryptRekeyCtrlOuter (header : Header.t) (padded_logical : bytes)
  | HandleInboundOuter (record : OuterRecord.t) (now_ticks : N)
  | EnterResetPending (prior_epoch : N) (drain_until_ticks : option N)
  | ResetPendingToBootstrapping
  | FinishResetHalfOpenToActive
  | EnterBootstrappingForEpoch (e : N)
  | MaybeExpireResetPending (now_ticks : N)
  | DhRatchet (new_peer_pub : bytes)
  | RecomputeAnchorCommitment.

Section runs.
Context `{Crypto} `{Rng} `{Build}.

(** One call; the result is the header of the record it accepted, if any. *)
Definition exec (o : op) : ST (t * rng_state) SessionError (option Header.t) :=
  match o with
  | EncryptDataPlain512 pt => _ ← on_session (encrypt_data_plain512 pt); mret None
  | EncryptRekeyCtrl b => _ ← on_session (encrypt_rekey_ctrl b); mret None
  | EncryptDataPlain512Outer pt => _ ← encrypt_data_plain512_outer pt; mret None
  | EncryptRekeyCtrlOuter b => _ ← encrypt_rekey_ctrl_outer b; mret None
  | DecryptData h ct => _ ← decrypt_data h ct; mret (Some h)
  | DecryptDataOuter h p => _ ← decrypt_data_outer h p; mret (Some h)
  | DecryptRekeyCtrlOuter h p => _ ← decrypt_rekey_ctrl_outer h p; mret (Some h)
  | HandleInboundOuter rec now =>
      _ ← handle_inbound_outer rec now; mret (Some (OuterRecord.header rec))
  | EnterResetPending e d =>
      _ ← on_session (enter_reset_pending_after_rebootstrap e d); mret None
  | ResetPendingToBootstrapping => _ ← on_session reset_pending_to_bootstrapping; mret None
  | FinishResetHalfOpenToActive =>
      _ ← on_session finish_reset_half_open_to_active; mret None
  | EnterBootstrappingForEpoch e =>
      _ ← on_session (enter_bootstrapping_for_epoch e); mret None
  | MaybeExpireResetPending now =>
      _ ← on_session (st_modify (maybe_expire_reset_pending now)); mret None
  | DhRatchet p => _ ← dh_ratchet p; mret None
  | RecomputeAnchorCommitment =>
      _ ← on_session (st_modify recompute_anchor_commitment); mret None
  end.

(** A run collects the accepted headers, oldest first; a failed call leaves the
    state it reached and the run goes on. *)
Fixpoint run (ops : list op) (st : t * rng_state) : list Header.t * (t * rng_state) :=
  match ops with
  | [] => ([], st)
  | o :: ops =>
      let '(r, st1) := exec o st in
      let '(acc, st2) := run ops st1 in
      (match r with Ok (Some h) => h :: acc | _ => acc end, st2)
  end.

Definition core (s : t) : bytes * N * Role * bytes * (gset N * option N) :=
  (fixed s, window s).

Lemma core_of_frame s fx md w : frame s = (fx, md, w) → core s = (fx, w).
Proof. by intros [= <- <- <-]. Qed.

(** What one call can do to the identity and the window. *)
Definition call_spec (fx : bytes * N * Role * bytes) (w : gset N * option N)
    (r : option Header.t) (st : t * rng_state) : Prop :=
  match r with
  | None => core st.1 = (fx, w)
  | Some h =>
      (header_matches 3 fx h ∨ header_matches 5 fx h) ∧
      window_admits w (Header.counter_be h) ∧
      core st.1 = (fx, window_accept (Header.counter_be h) w)
  end.

(** From a frame-preserving method, and from an accepting one. *)
Lemma call_keeps {A} (m : ST (t * rng_state) SessionError A) fx w :
  (∀ v, preserves (on_sess (λ s, frame s = v)) m) →
  triple (on_sess (λ s, core s = (fx, w))) (_ ← m; mret None) (call_spec fx w)
    (on_sess (λ s, core s = (fx, w))).
Proof.
  intros Hm [s g] [= <- <-]. rewrite st_bind_eq.
  specialize (Hm (frame s) (s, g) eq_refl). unfold on_sess in *.
  destruct (m (s, g)) as [[a|e|] [s' g']]; simpl in *; by apply core_of_frame in Hm.
Qed.

Lemma call_accepts {A} typ h (m : ST (t * rng_state) SessionError A) fx w :
  typ = 3 ∨ typ = 5 → accepts_one typ h m →
  triple (on_sess (λ s, core s = (fx, w))) (_ ← m; mret (Some h)) (call_spec fx w)
    (on_sess (λ s, core s = (fx, w))).
Proof.
  intros Ht Hm [s g] [= <- <-]. rewrite st_bind_eq.
  specialize (Hm (fixed s) (mode s) (window s) (s, g) eq_refl). unfold on_sess in *.
  destruct (m (s, g)) as [[a|e|] [s' g']]; simpl in *; [|by apply core_of_frame in Hm..].
  destruct Hm as (?&?&?%core_of_frame). split_and!; [|done..].
  destruct Ht as [->| ->]; auto.
Qed.

(** The mode operations change nothing but the mode. *)
Lemma call_mode {A} (m : ST t SessionError A) fx w :
  (∀ v, preserves (λ s, core s = v) m) →
  triple (on_sess (λ s, core s = (fx, w))) (_ ← on_session m; mret None) (call_spec fx w)
    (on_sess (λ s, core s = (fx, w))).
Proof.
  intros Hm [s g] Hs. rewrite st_bind_eq. unfold on_sess, on_session, st_zoom in *.
  specialize (Hm (fx, w) s Hs). simpl. by destruct (m s) as [[a|e|] s'].
Qed.

Lemma enter_reset_pending_core e d v :
  preserves (λ s, core s = v) (enter_reset_pending_after_rebootstrap e d).
Proof. unfold enter_reset_pending_after_rebootstrap. pres; done. Qed.

Lemma reset_pending_to_bootstrapping_core v :
  preserves (λ s, core s = v) reset_pending_to_bootstrapping.
Proof. unfold reset_pending_to_bootstrapping. pres; done. Qed.

Lemma finish_reset_core v : preserves (λ s, core s = v) finish_reset_half_open_to_active.
Proof. unfold finish_reset_half_open_to_active. pres; done. Qed.

Lemma enter_bootstrapping_core e v :
  preserves (λ s, core s = v) (enter_bootstrapping_for_epoch e).
Proof. unfold enter_bootstrapping_for_epoch. pres; done. Qed.

Lemma maybe_expire_core now s : core (maybe_expire_reset_pending now s) = core s.
Proof. unfold maybe_expire_reset_pending. cbv zeta. by destruct (match mode s with Active _ => _ | _ => _ end). Qed.

Lemma exec_spec o fx w :
  triple (on_sess (λ s, core s = (fx, w))) (exec o) (call_spec fx w)
    (on_sess (λ s, core s = (fx, w))).
Proof.
  destruct o; simpl exec.
  - apply call_keeps. intros. apply preserves_on_session, encrypt_data_plain512_frame.
  - apply call_keeps. intros. apply preserves_on_session, encrypt_rekey_ctrl_frame.
  - apply call_keeps. intros. apply encrypt_data_outer_frame.
  - apply call_keeps. intros. apply encrypt_rekey_outer_frame.
  - apply (call_accepts 3); [by left|apply decrypt_data_accepts].
  - apply (call_accepts 3); [by left|apply decrypt_data_outer_accepts].
  - apply (call_accepts 5); [by right|apply decrypt_rekey_accepts].
  - intros [s g] [= <- <-]. rewrite st_bind_eq.
    pose proof (handle_inbound_accepts record now_ticks (fixed s) (mode s) (window s)
      (s, g) eq_refl) as Hh. unfold on_sess in *.
    destruct (handle_inbound_outer _ _ _) as [[a|e|] [s' g']]; simpl in *;
      [|by apply core_of_frame in Hh..].
    destruct Hh as (?&?&?%core_of_frame). done.
  - apply call_mode, enter_reset_pending_core.
  - apply call_mode, reset_pending_to_bootstrapping_core.
  - apply call_mode, finish_reset_core.
  - apply call_mode, enter_bootstrapping_core.
  - apply call_mode. intros v s Hs. simpl. by rewrite maybe_expire_core.
  - apply call_keeps. intros. apply apply_inbound_dh_ratchet_frame.
  - apply call_mode. intros v s Hs. done.
Qed.

(** Counters the window rules out for good: already decrypted, or fallen behind
    the high-water mark by more than [MAX_SKIP]. *)
Definition spent (w : gset N * option N) (c : N) : Prop :=
  c ∈ w.1 ∨ ∃ hw, w.2 = Some hw ∧ c < hw - MAX_SKIP.

Lemma spent_not_admitted w c : spent w c → ¬ window_admits w c.
Proof.
  intros [Hd|(hw&Hhw&Hlt)] [Hn Hf]; [done|]. rewrite Hhw in Hf. lia.
Qed.

Lemma window_high_ge w c : c <= window_high w c.
Proof. unfold window_high. destruct (w.2); lia. Qed.

Lemma spent_accept w c c' : spent w c' → spent (window_accept c w) c'.
Proof.
  unfold spent, window_accept. simpl. intros Hs.
  destruct (N.lt_ge_cases c' (window_high w c - MAX_SKIP)) as [?|Hge]; [by eauto|].
  left. apply elem_of_filter. split; [done|]. destruct Hs as [?|(hw&Hhw&?)]; [set_solver|].
  unfold window_high in Hge. rewrite Hhw in Hge. lia.
Qed.

Lemma spent_accepted w c : window_admits w c → spent (window_accept c w) c.
Proof.
  intros [_ Hw]. left. apply elem_of_filter. split; [|set_solver].
  unfold window_high. destruct (w.2); lia.
Qed.

(** Any system whose steps report the header they accepted and treat the window
    accordingly never accepts a counter twice. *)
Section log.
Context {St O : Type}.
Variables (step : O → St → option Header.t * St) (win : St → gset N * option N).

Fixpoint log (ops : list O) (st : St) : list Header.t * St :=
  match ops with
  | [] => ([], st)
  | o :: ops =>
      let '(r, st1) := step o st in
      let '(acc, st2) := log ops st1 in
      (match r with Some h => h :: acc | None => acc end, st2)
  end.

Hypothesis Hstep : ∀ o st,
  match step o st with
  | (Some h, st') =>
      window_admits (win st) (Header.counter_be h) ∧
      win st' = window_accept (Header.counter_be h) (win st)
  | (None, st') => win st' = win st
  end.

(** Spent counters are not accepted, now or later. *)
Lemma log_spent ops st c :
  spent (win st) c → c ∉ Header.counter_be <$> (log ops st).1.
Proof.
  revert st; induction ops as [|o ops IH]; intros st Hs; simpl; [apply not_elem_of_nil|].
  specialize (Hstep o st). destruct (step o st) as [[h|] st1]; specialize (IH st1).
  - destruct Hstep as [Hadm Hw]. rewrite Hw in IH. destruct (log ops st1) as [acc st2].
    cbn [fst]. rewrite fmap_cons, not_elem_of_cons. split; [|by apply IH, spent_accept].
    intros ->. by eapply spent_not_admitted.
  - rewrite Hstep in IH. destruct (log ops st1) as [acc st2]. by apply IH.
Qed.

Lemma log_NoDup ops st : NoDup (Header.counter_be <$> (log ops st).1).
Proof.
  revert st; induction ops as [|o ops IH]; intros st; simpl; [apply NoDup_nil_2|].
  pose proof (Hstep o st) as Ho. destruct (step o st) as [[h|] st1]; specialize (IH st1).
  - destruct Ho as [Hadm Hw]. pose proof (log_spent ops st1 (Header.counter_be h)) as Hn.
    destruct (log ops st1) as [acc st2]. cbn [fst]. rewrite fmap_cons. apply NoDup_cons.
    split; [|done]. apply Hn. rewrite Hw. by apply spent_accepted.
  - by destruct (log ops st1) as [acc st2].
Qed.

End log.

(** A run is the log of its calls. *)
Definition exec_step (o : op) (st : t * rng_state) : option Header.t * (t * rng_state) :=
  let '(r, st') := exec o st in (match r with Ok h => h | _ => None end, st').

Lemma run_log ops st : run ops st = log exec_step ops st.
Proof.
  revert st; induction ops as [|o ops IH]; intros st; simpl; [done|].
  unfold exec_step at 1. destruct (exec o st) as [r st1]. rewrite IH.
  destruct (log _ ops st1) as [acc st2]. by destruct r as [[h|]|e|].
Qed.

(** The identity is kept and the window follows the accepted header. *)
Lemma exec_step_spec o st :
  match exec_step o st with
  | (Some h, st') =>
      (header_matches 3 (fixed st.1) h ∨ header_matches 5 (fixed st.1) h) ∧
      window_admits (window st.1) (Header.counter_be h) ∧
      fixed st'.1 = fixed st.1 ∧ window st'.1 = window_accept (Header.counter_be h) (window st.1)
  | (None, st') => fixed st'.1 = fixed st.1 ∧ window st'.1 = window st.1
  end.
Proof.
  pose proof (exec_spec o (fixed st.1) (window st.1) st eq_refl) as He.
  unfold exec_step, on_sess, core in *. destruct (exec o st) as [r st1].
  destruct r as [[h|]|e|]; simpl in He; try by apply pair_equal_spec in He.
  destruct He as (?&?&[? ?]%pair_equal_spec). by split_and!.
Qed.

End runs.

(** * Properties *)

Section properties.
Context `{Crypto} `{Rng} `{Build}.

(** C2: no replay. Whatever sequence of sends, receives, forged or duplicated
    records, mode changes and DH ratchets is run on a session, successful or
    failing, from whatever state and under whatever cryptography, no wire counter
    is accepted twice, every accepted record carries the session's id and epoch
    and is DATA or REKEY, and the session's identity never changes. *)
Theorem no_counter_accepted_twice ops st :
  NoDup (Header.counter_be <$> (run ops st).1) ∧
  Forall (λ h, header_matches 3 (fixed st.1) h ∨ header_matches 5 (fixed st.1) h)
    (run ops st).1 ∧
  fixed (run ops st).2.1 = fixed st.1.
Proof.
  rewrite run_log. split.
  { apply (log_NoDup exec_step (λ st, window st.1)). intros o st0.
    pose proof (exec_step_spec o st0) as Ho.
    destruct (exec_step o st0) as [[h|] st1]; [by destruct Ho as (_&?&_&?)|by destruct Ho]. }
  revert st; induction ops as [|o ops IH]; intros st; simpl; [by split|].
  pose proof (exec_step_spec o st) as Ho. destruct (exec_step o st) as [r st1].
  specialize (IH st1). destruct (log exec_step ops st1) as [acc st2]. simpl in *.
  destruct r as [h|].
  - destruct Ho as (Hh&_&Hf&_). rewrite Hf in IH. destruct IH. split; [by apply Forall_cons|done].
  - destruct Ho as [Hf _]. by rewrite Hf in IH.
Qed.

(** C25: [replay_precheck] admits exactly the counters that have not been decrypted
    and are at most [MAX_SKIP] behind the high-water mark, and refuses exactly the
    others, with [ReplayRejected]; a DATA or REKEY record of the session that it
    refuses leaves the session and the generator exactly as they were. *)
Theorem replayed_record_rejected_unchanged s g h body :
  let c := Header.counter_be h in
  let admissible := (c ∉ decrypted_counters s) ∧
    ∀ hw, recv_high_water s = Some hw → hw <= c + MAX_SKIP in
  (replay_precheck s c = Ok tt ↔ admissible) ∧
  (replay_precheck s c = Err ReplayRejected ↔ ¬ admissible) ∧
  (¬ admissible →
    (header_matches 3 (fixed s) h →
      decrypt_data h body (s, g) = (Err ReplayRejected, (s, g))) ∧
    (header_matches 5 (fixed s) h →
      decrypt_rekey_ctrl_outer h body (s, g) = (Err ReplayRejected, (s, g)))).
Proof.
  intros c admissible. assert (admissible ↔ window_admits (window s) c) as Hadm.
  { unfold admissible, window_admits. simpl. destruct (recv_high_water s) as [hw|]; [|naive_solver].
    split; intros [? Hhw]; (split; [done|]); [specialize (Hhw hw eq_refl); lia|].
    intros hw' [= <-]. lia. }
  rewrite !Hadm. split_and!.
  - split; [apply replay_precheck_Ok|apply replay_precheck_admits].
  - split; [|apply replay_precheck_Err]. intros He Hw%replay_precheck_admits. congruence.
  - intros Hw. split; intros.
    + by apply (receive_checks_replay 3 h (λ _, _)).
    + by apply (receive_checks_replay 5 h (λ _, _)).
Qed.

End properties.

(** Bob after he has accepted counter 2100, and an old and a repeated record. *)
Definition toy_bob_late : t := accept_counter 2100 toy_bob.
Definition toy_header (typ c : N) : Header.t :=
  {| Header.version := 1; Header.typ := typ; Header.flags := 0; Header.epoch_be := 7;
     Header.session_id := toy_sid; Header.counter_be := c;
     Header.ratchet_pub := toy_pub toy_alice_sk |}.

Lemma replayed_record_rejected_unchanged_witness :
  decrypt_data (toy_header 3 99) [] (toy_bob_late, toy_seed 0) =
    (Err ReplayRejected, (toy_bob_late, toy_seed 0)) ∧
  decrypt_rekey_ctrl_outer (toy_header 5 2100) [] (toy_bob_late, toy_seed 0) =
    (Err ReplayRejected, (toy_bob_late, toy_seed 0)).
Proof.
  split.
  - refine (proj1 (proj2 (proj2 (replayed_record_rejected_unchanged toy_bob_late (toy_seed 0)
      (toy_header 3 99) [])) _) _).
    + intros [_ Hf]. specialize (Hf 2100 eq_refl). by vm_compute in Hf.
    + by vm_compute.
  - refine (proj2 (proj2 (proj2 (replayed_record_rejected_unchanged toy_bob_late (toy_seed 0)
      (toy_header 5 2100) [])) _) _).
    + intros [Hn _]. apply Hn. by vm_compute.
    + by vm_compute.
Defined.
