(* ===== verification/EngineWf.v ===== *)
(** Well-formedness of sessions: every reachable session has arrays of the
    declared lengths, integers in range, a bounded skipped-key cache, a bounded
    replay window and a RESET mode that agrees with the epoch. *)

From S2P Require Import Prelude Wire Pad Crypto Handshake Payload Ratchet Skipped Blob.
From S2P Require Import Engine Toy EngineInv.
Import Session.

(** The replay set stays within [MAX_SKIP] of the high-water mark. *)
Definition window_wf (w : gset N * option N) : Prop :=
  match w.2 with
  | None => w.1 = ∅
  | Some hw => u64_ok hw ∧ ∀ c, c ∈ w.1 → hw - MAX_SKIP <= c ∧ c <= hw
  end.

Definition mode_wf (e : N) (md : SessionMode) : Prop :=
  match md with
  | Active e' | Bootstrapping e' => e' = e
  | ResetPending old new _ => new = e ∧ new = old + 1
  end.

Record session_wf (s : t) : Prop := {
  wf_session_id : len (session_id s) = 16;
  wf_epoch : u32_ok (epoch s);
  wf_mode : mode_wf (epoch s) (mode s);
  wf_okm : len (okm s) = 64;
  wf_root_key : len (root_key s) = 32;
  wf_send_ck : len (send_ck s) = 32;
  wf_recv_ck : len (recv_ck s) = 32;
  wf_send_wire_counter : u64_ok (send_wire_counter s);
  wf_window : window_wf (window s);
  wf_send_sym_idx : u64_ok (send_sym_idx s);
  wf_recv_sym_idx : u64_ok (recv_sym_idx s);
  wf_ratchet_sk : len (ratchet_sk s) = 32;
  wf_my_ratchet_pub : len (my_ratchet_pub s) = 32;
  wf_peer_ratchet_pub : from_option (λ p, len p = 32) True (peer_ratchet_pub s);
  wf_skipped : cache_wf (skipped s);
  wf_anchor : DeviceStateAnchorV1.wf (anchor s);
}.

(** A field update is well formed when the new value is. *)
Ltac wf_set :=
  match goal with
  | Hs : session_wf ?s |- session_wf ?s' =>
      match s' with context [s] => destruct Hs; split; simpl; try done end
  end.

Lemma checked_add_u64 x y z : checked_add U64_MAX x y = Some z → u64_ok z.
Proof.
  unfold checked_add. destruct (N.leb_spec (x + y) U64_MAX) as [Hle|]; [|done].
  intros [= <-]. unfold fits. simpl. unfold U64_MAX in Hle. lia.
Qed.

Lemma ok_or_checked_add {E} (e : E) x y z :
  ok_or e (checked_add U64_MAX x y) = Ok z → u64_ok z ∧ z = x + y.
Proof.
  destruct (checked_add U64_MAX x y) as [v|] eqn:Hv; [|done]. intros [= <-].
  split; [by eapply checked_add_u64|]. unfold checked_add in Hv. by case_match; simplify_eq.
Qed.

Lemma max_u64 x y : u64_ok x → u64_ok y → u64_ok (N.max x y).
Proof. unfold fits. lia. Qed.

Lemma with_highest_wf n a :
  u64_ok n → DeviceStateAnchorV1.wf a → DeviceStateAnchorV1.wf (DeviceStateAnchorV1.with_highest n a).
Proof. intros Hn (?&?&?&?&?&?&?). by split_and!. Qed.

Section wf.
Context `{Crypto} `{Rng} `{Build}.

Lemma send_step_mk_wf : preserves session_wf send_step_mk.
Proof.
  unfold send_step_mk. apply preserves_bind_get. intros s0 Hs0. rewrite msg_step_ok.
  pres; simplify_eq; wf_set; [apply len_step_ck|by eapply ok_or_checked_add].
Qed.

Lemma recv_step_mk_wf : preserves session_wf recv_step_mk.
Proof.
  unfold recv_step_mk. apply preserves_bind_get. intros s0 Hs0. rewrite msg_step_ok.
  pres; simplify_eq; wf_set; [apply len_step_ck|by eapply ok_or_checked_add].
Qed.

(** The derived key always has 32 bytes. *)
Lemma recv_step_mk_key : triple session_wf recv_step_mk (λ mk s, len mk = 32 ∧ session_wf s)
  session_wf.
Proof.
  intros s Hs. pose proof (recv_step_mk_wf s Hs) as Hw. unfold recv_step_mk in *.
  rewrite st_bind_eq in *. cbn [st_get] in *. rewrite st_bind_eq in *.
  rewrite msg_step_ok in *. cbn [st_lift st_modify] in *. rewrite st_bind_eq in *.
  cbn [st_modify] in *. rewrite st_bind_eq in *. cbn [st_lift] in *.
  destruct (ok_or _ _); [|done..]. split; [|done]. apply len_step_mk.
Qed.

Lemma fill_gap_loop_wf pub cnt n : len pub = 32 → preserves session_wf (fill_gap_loop pub cnt n).
Proof.
  intros Hp. revert cnt; induction n as [|n IH]; intros cnt; simpl; [apply preserves_ret|].
  eapply triple_bind; [apply recv_step_mk_key|]. intros mk. apply triple_pure. intros Hmk.
  apply preserves_bind; [|done]. intros s Hs. unfold on_skipped, st_zoom.
  pose proof (cache_insert_wf pub cnt mk Hp Hmk (skipped s) (wf_skipped s Hs)) as Hc.
  destruct (SkippedKeyCache.insert _ _ _ _) as [[a|e|] c]; wf_set.
Qed.

Lemma fill_recv_gap_wf pub base target :
  len pub = 32 → preserves session_wf (fill_recv_gap_to_counter pub base target).
Proof. intros. unfold fill_recv_gap_to_counter. pres; by apply fill_gap_loop_wf. Qed.

Lemma recv_message_key_wf pub c : len pub = 32 → preserves session_wf (recv_message_key pub c).
Proof.
  intros Hp. unfold recv_message_key. apply preserves_bind_get. intros s Hs.
  pose proof (cache_take_wf pub c _ (wf_skipped s Hs)) as Hc.
  destruct (SkippedKeyCache.take _ _ _) as [found rest]. simpl in Hc.
  pres; auto using recv_step_mk_wf, fill_recv_gap_wf. wf_set.
Qed.

Lemma dh_mix_lens {E} rk d r a b :
  dh_mix (E:=E) rk d = Ok (r, a, b) → len r = 32 ∧ len a = 32 ∧ len b = 32.
Proof. rewrite dh_mix_ok. intros [= <- <- <-]. split_and!; len_goal. Qed.

Lemma apply_inbound_dh_ratchet_wf p :
  len p = 32 → preserves (on_sess session_wf) (apply_inbound_dh_ratchet p).
Proof.
  intros Hp. unfold apply_inbound_dh_ratchet. pres; subst;
    repeat match goal with
    | Hm : dh_mix _ _ = Ok _ |- _ => apply dh_mix_lens in Hm as (?&?&?)
    end.
  all: wf_set. apply len_fit.
Qed.

Lemma bind_or_dh_ratchet_wf p :
  len p = 32 → preserves (on_sess session_wf) (bind_or_dh_ratchet p).
Proof.
  intros Hp. unfold bind_or_dh_ratchet. pres; auto using apply_inbound_dh_ratchet_wf. wf_set.
Qed.

Lemma bump_send_counter_wf : preserves session_wf bump_send_counter.
Proof.
  unfold bump_send_counter. apply preserves_bind_get. intros s0 [].
  pres; wf_set; [by eapply ok_or_checked_add|].
  apply with_highest_wf; [|done]. apply max_u64; [|done].
  by match goal with Ha : DeviceStateAnchorV1.wf _ |- _ => apply Ha end.
Qed.

Lemma encrypt_data_plain512_wf pt : preserves session_wf (encrypt_data_plain512 pt).
Proof.
  unfold encrypt_data_plain512. pres; auto using send_step_mk_wf, bump_send_counter_wf.
Qed.

Lemma encrypt_rekey_ctrl_wf b : preserves session_wf (encrypt_rekey_ctrl b).
Proof. unfold encrypt_rekey_ctrl. pres; auto using bump_send_counter_wf. Qed.

Lemma encrypt_data_outer_wf pt :
  preserves (on_sess session_wf) (encrypt_data_plain512_outer pt).
Proof.
  unfold encrypt_data_plain512_outer. pres; auto using send_step_mk_wf, bump_send_counter_wf.
Qed.

Lemma encrypt_rekey_outer_wf b : preserves (on_sess session_wf) (encrypt_rekey_ctrl_outer b).
Proof. unfold encrypt_rekey_ctrl_outer. pres; auto using bump_send_counter_wf. Qed.

(** ** Receiving *)

Lemma window_accept_wf w c :
  u64_ok c → window_wf w → window_wf (window_accept c w).
Proof.
  intros Hc Hw. unfold window_wf, window_accept in *. simpl. split.
  - unfold window_high. destruct (w.2) as [hw|]; [|done]. apply max_u64; [apply Hw|done].
  - intros x [Hx Hin]%elem_of_filter. split; [done|].
    apply elem_of_union in Hin as [->%elem_of_singleton|Hin]; [apply window_high_ge|].
    unfold window_high. destruct (w.2) as [hw|]; [|set_solver].
    destruct (proj2 Hw x Hin). lia.
Qed.

Lemma accept_counter_wf c s : u64_ok c → session_wf s → session_wf (accept_counter c s).
Proof.
  intros Hc Hs. pose proof (window_accept_wf _ _ Hc (wf_window s Hs)). destruct Hs.
  split; try done. apply with_highest_wf; [|done]. apply max_u64; [|done].
  by match goal with Ha : DeviceStateAnchorV1.wf _ |- _ => apply Ha end.
Qed.

Lemma decrypt_data_wf h ct :
  Header.wf h → preserves (on_sess session_wf) (decrypt_data h ct).
Proof.
  intros (_&_&_&_&_&Hc&Hp). unfold decrypt_data.
  pres; eauto using bind_or_dh_ratchet_wf, recv_message_key_wf, accept_counter_wf.
Qed.

Lemma decrypt_data_outer_wf h p :
  Header.wf h → preserves (on_sess session_wf) (decrypt_data_outer h p).
Proof. intros Hh. unfold decrypt_data_outer. pres. by apply decrypt_data_wf. Qed.

Lemma decrypt_rekey_wf h p :
  Header.wf h → preserves (on_sess session_wf) (decrypt_rekey_ctrl_outer h p).
Proof.
  intros (_&_&_&_&_&Hc&Hp). unfold decrypt_rekey_ctrl_outer.
  pres; eauto using bind_or_dh_ratchet_wf, accept_counter_wf.
Qed.

Lemma maybe_expire_wf now s : session_wf s → session_wf (maybe_expire_reset_pending now s).
Proof.
  intros Hs. unfold maybe_expire_reset_pending. cbv zeta. case_match; [|done]. wf_set.
Qed.

Lemma handle_inbound_wf rec now :
  OuterRecord.wf rec → preserves (on_sess session_wf) (handle_inbound_outer rec now).
Proof.
  intros Hr. unfold handle_inbound_outer.
  pres; auto using maybe_expire_wf, decrypt_data_outer_wf, decrypt_rekey_wf.
Qed.

(** ** RESET modes *)

(** The four mode transitions as functions: the new mode, or the refusal. *)
Lemma enter_reset_pending_eq e d s :
  enter_reset_pending_after_rebootstrap e d s =
    if (e <? U32_MAX) && (epoch s =? e + 1)
    then (Ok tt, set_mode (ResetPending e (epoch s) d) s) else (Err InvalidHeader, s).
Proof.
  unfold enter_reset_pending_after_rebootstrap, checked_add, U32_MAX.
  rewrite st_bind_eq. cbn [st_get]. rewrite st_bind_eq. cbn [st_lift].
  destruct (N.ltb_spec e (2 ^ 32 - 1)).
  - rewrite leb_true by lia. oc. rewrite st_bind_eq. cbn [st_lift].
    by destruct (epoch s =? e + 1).
  - by rewrite leb_false by lia.
Qed.

Lemma reset_pending_to_bootstrapping_eq s :
  reset_pending_to_bootstrapping s =
    match mode s with
    | ResetPending _ n _ =>
        if n =? epoch s then (Ok tt, set_mode (Bootstrapping (epoch s)) s)
        else (Err InvalidHeader, s)
    | _ => (Err InvalidHeader, s)
    end.
Proof.
  unfold reset_pending_to_bootstrapping. rewrite st_bind_eq. simpl.
  by destruct (mode s); [|case_match|].
Qed.

Lemma finish_reset_eq s :
  finish_reset_half_open_to_active s =
    match mode s with
    | ResetPending _ n _ | Bootstrapping n =>
        if n =? epoch s then (Ok tt, set_mode (Active (epoch s)) s)
        else (Err InvalidHeader, s)
    | _ => (Err InvalidHeader, s)
    end.
Proof.
  unfold finish_reset_half_open_to_active. rewrite st_bind_eq. simpl.
  by destruct (mode s); [|case_match|case_match].
Qed.

Lemma enter_bootstrapping_eq e s :
  enter_bootstrapping_for_epoch e s =
    if e =? epoch s then (Ok tt, set_mode (Bootstrapping e) s) else (Err InvalidHeader, s).
Proof.
  unfold enter_bootstrapping_for_epoch. rewrite st_bind_eq. simpl. rewrite st_bind_eq.
  by destruct (e =? epoch s).
Qed.

Lemma enter_reset_pending_wf e d :
  preserves session_wf (enter_reset_pending_after_rebootstrap e d).
Proof.
  intros s Hs. rewrite enter_reset_pending_eq. destruct (_ && _) eqn:He; [|done].
  apply andb_prop in He as [_ He%N.eqb_eq]. wf_set.
Qed.

Lemma reset_pending_to_bootstrapping_wf : preserves session_wf reset_pending_to_bootstrapping.
Proof.
  intros s Hs. rewrite reset_pending_to_bootstrapping_eq.
  destruct (mode s); try done. destruct (_ =? _); [|done]. wf_set.
Qed.

Lemma finish_reset_wf : preserves session_wf finish_reset_half_open_to_active.
Proof.
  intros s Hs. rewrite finish_reset_eq.
  destruct (mode s); try done; (destruct (_ =? _); [|done]); wf_set.
Qed.

Lemma enter_bootstrapping_wf e : preserves session_wf (enter_bootstrapping_for_epoch e).
Proof.
  intros s Hs. rewrite enter_bootstrapping_eq.
  destruct (N.eqb_spec e (epoch s)) as [->|]; [|done]. wf_set.
Qed.

Lemma recompute_wf s : session_wf s → session_wf (recompute_anchor_commitment s).
Proof.
  intros Hs. wf_set. unfold DeviceStateAnchorV1.wf in *. simpl.
  unfold compute_state_commitment. intuition. len_goal.
Qed.

(** ** Calls, construction and restore *)

(** Arguments that inhabit their Rust types. *)
Definition op_wf (o : op) : Prop :=
  match o with
  | DecryptData h _ | DecryptDataOuter h _ | DecryptRekeyCtrlOuter h _ => Header.wf h
  | HandleInboundOuter rec _ => OuterRecord.wf rec
  | DhRatchet p => len p = 32
  | _ => True
  end.

Lemma exec_wf o : op_wf o → preserves (on_sess session_wf) (exec o).
Proof.
  intros Ho. destruct o; simpl exec; simpl in Ho;
    (apply preserves_bind; [|intros; apply preserves_ret]);
    try apply preserves_on_session;
    auto using encrypt_data_plain512_wf, encrypt_rekey_ctrl_wf, encrypt_data_outer_wf,
      encrypt_rekey_outer_wf, decrypt_data_wf, decrypt_data_outer_wf, decrypt_rekey_wf,
      handle_inbound_wf, enter_reset_pending_wf, reset_pending_to_bootstrapping_wf,
      finish_reset_wf, enter_bootstrapping_wf.
  - apply preserves_modify, maybe_expire_wf.
  - by apply apply_inbound_dh_ratchet_wf.
  - apply preserves_modify, recompute_wf.
Qed.

Lemma run_wf ops st : Forall op_wf ops → session_wf st.1 → session_wf (run ops st).2.1.
Proof.
  intros Hops. revert st; induction Hops as [|o ops Ho Hops IH]; intros st Hs; simpl; [done|].
  pose proof (preserves_snd _ _ _ (exec_wf o Ho) Hs) as Hs1.
  destruct (exec o st) as [r st1]. specialize (IH st1 Hs1).
  by destruct (run ops st1) as [acc st2].
Qed.

(** Typing of the bootstrap arguments. *)
Definition bootstrap_args_wf (okm sid : bytes) (e : N) (sk : bytes) (peer : option bytes)
    (a : DeviceStateAnchorV1.t) : Prop :=
  len okm = 64 ∧ len sid = 16 ∧ u32_ok e ∧ len sk = 32 ∧
  from_option (λ p, len p = 32) True peer ∧ DeviceStateAnchorV1.wf a.

Lemma bootstrap_wf okm sid e sk peer a s :
  bootstrap_args_wf okm sid e sk peer a →
  bootstrap_initiator (E:=SessionError) okm sid e sk peer a = Ok s ∨
  bootstrap_responder (E:=SessionError) okm sid e sk peer a = Ok s →
  session_wf s.
Proof.
  intros (?&?&?&?&?&?) Hb. unfold bootstrap_initiator, bootstrap_responder in Hb.
  rewrite chain_bootstrap_ok in Hb. oc in Hb.
  destruct Hb as [[= <-]|[= <-]]; split; simpl; try done;
    try apply cache_new_wf; try len_goal; by vm_compute.
Qed.

Definition export_wf (x : SessionExport) : Prop :=
  len (e_okm x) = 64 ∧ len (e_session_id x) = 16 ∧ u32_ok (e_epoch x) ∧
  DeviceStateAnchorV1.wf (e_anchor x).

Lemma import_wf x s : export_wf x → import_state x = Ok s → session_wf s.
Proof.
  intros (?&?&?&?) Hi. unfold import_state in Hi.
  destruct (decode_blob_v2 _) as [p|e|] eqn:Hp; [|done..]. oc in Hi.
  injection Hi as <-.
  apply decode_blob_v2_spec in Hp as (?&?&?&?&?&?&?&?&?&?&?).
  split; simpl; try done.
  - unfold window, window_wf. simpl. destruct (_ =? _); [done|]. split; [done|]. set_solver.
  - by case_bool_decide.
Qed.

Lemma reset_local_wf s : session_wf s → session_wf (reset_local s).
Proof. intros Hs. wf_set. Qed.

(** ** Bounded memory *)

Lemma size_interval (d : gset N) lo hi :
  (∀ c, c ∈ d → lo <= c ∧ c <= hi) → N.of_nat (size d) <= hi + 1 - lo.
Proof.
  intros Hd. set (n := N.to_nat (hi + 1 - lo)).
  assert (d ⊆ list_to_set ((λ i, lo + N.of_nat i) <$> seq 0 n)) as Hsub.
  { intros c Hc. apply elem_of_list_to_set, list_elem_of_fmap.
    destruct (Hd c Hc). exists (N.to_nat (c - lo)). rewrite elem_of_seq. lia. }
  apply subseteq_size in Hsub. rewrite size_list_to_set in Hsub.
  - rewrite length_fmap, length_seq in Hsub. lia.
  - apply NoDup_fmap_2; [intros i j; lia|apply NoDup_seq].
Qed.

Lemma window_size w : window_wf w → N.of_nat (size w.1) <= MAX_SKIP + 1.
Proof.
  unfold window_wf. destruct (w.2) as [hw|].
  - intros [_ Hw]. apply size_interval in Hw. lia.
  - intros ->. rewrite size_empty. lia.
Qed.

(** The states a session object can be in during its life: built by a bootstrap
    or an import, then changed by any calls, failing ones included. *)
Inductive reachable : t → Prop :=
  | reach_initiator okm sid e sk peer a s :
      bootstrap_args_wf okm sid e sk peer a →
      bootstrap_initiator (E:=SessionError) okm sid e sk peer a = Ok s → reachable s
  | reach_responder okm sid e sk peer a s :
      bootstrap_args_wf okm sid e sk peer a →
      bootstrap_responder (E:=SessionError) okm sid e sk peer a = Ok s → reachable s
  | reach_import x s : export_wf x → import_state x = Ok s → reachable s
  | reach_exec o s g r s' g' :
      reachable s → op_wf o → exec o (s, g) = (r, (s', g')) → reachable s'
  | reach_reset s : reachable s → reachable (reset_local s).

End wf.

(** * Properties *)

(** C12: type safety and bounded memory. Every state a session can reach is well
    formed: array lengths and integer ranges as declared, the RESET mode agrees
    with the epoch, at most [MAX_SKIP] skipped keys are stored and at most
    [MAX_SKIP + 1] counters are remembered, all within [MAX_SKIP] of the
    high-water mark. *)
Theorem reachable_session_wf `{Crypto} `{Rng} `{Build} s :
  reachable s →
  session_wf s ∧ cache_len (skipped s) <= MAX_SKIP ∧
  N.of_nat (size (decrypted_counters s)) <= MAX_SKIP + 1.
Proof.
  intros Hr. assert (session_wf s) as Hs.
  { induction Hr as [????????? |?????????|x s Hx Hi|o s g r s' g' _ IH Ho He|s _ IH].
    - eapply bootstrap_wf; eauto.
    - eapply bootstrap_wf; eauto.
    - by eapply import_wf.
    - pose proof (preserves_snd _ _ (s, g) (exec_wf o Ho) IH) as Hs. by rewrite He in Hs.
    - by apply reset_local_wf. }
  split_and!; [done|apply (wf_skipped s Hs)|apply (window_size _ (wf_window s Hs))].
Qed.

Lemma toy_alice_wf : session_wf toy_alice.
Proof.
  split; try (vm_compute; reflexivity).
  - apply cache_new_wf.
  - unfold DeviceStateAnchorV1.wf. split_and!; vm_compute; reflexivity.
Qed.

Lemma toy_bob_wf : session_wf toy_bob.
Proof.
  split; try (vm_compute; reflexivity).
  - apply cache_new_wf.
  - unfold DeviceStateAnchorV1.wf. split_and!; vm_compute; reflexivity.
Qed.

Lemma toy_bob_reachable : reachable toy_bob.
Proof.
  apply (reach_responder toy_okm toy_sid 7 toy_bob_sk (Some (toy_pub toy_alice_sk))
    (DeviceStateAnchorV1.new_v0 901)).
  - unfold bootstrap_args_wf, DeviceStateAnchorV1.wf. split_and!; vm_compute; reflexivity.
  - vm_compute. reflexivity.
Qed.

Lemma reachable_session_wf_witness :
  session_wf toy_bob ∧ cache_len (skipped toy_bob) <= MAX_SKIP ∧
  N.of_nat (size (decrypted_counters toy_bob)) <= MAX_SKIP + 1.
Proof. apply (reachable_session_wf toy_bob), toy_bob_reachable. Defined.
