(* ===== verification/ReplayWindow.v ===== *)
(** The replay window of src/crates/libgary-core/src/engine/session.rs against its
    reference: [replay_precheck] and the bookkeeping after a decryption keep a pruned
    set of bounded size, and decide as if the whole history were kept. *)

From S2P Require Import Prelude Wire Pad Crypto Handshake Payload Ratchet Skipped Blob.
From S2P Require Import Engine Toy EngineInv EngineWf.
Import Session.

(** * The reference *)

(** The highest counter of a history, most recent first. *)
Definition newest (hist : list N) : N := foldr N.max 0 hist.

(** A counter is fresh if it has not been accepted before and does not lag more than
    [MAX_SKIP] behind the newest one. *)
Definition fresh_in (hist : list N) (c : N) : bool :=
  bool_decide (c ∉ hist) &&
  match hist with [] => true | _ => newest hist - MAX_SKIP <=? c end.

Fixpoint reference (hist : list N) (cs : list N) : list bool :=
  match cs with
  | [] => []
  | c :: cs =>
      if fresh_in hist c then true :: reference (c :: hist) cs
      else false :: reference hist cs
  end.

(** * The engine *)

(** A sequence of arriving counters, each accepted when the precheck passes. *)
Fixpoint arrivals (cs : list N) (s : t) : list bool * t :=
  match cs with
  | [] => ([], s)
  | c :: cs =>
      match replay_precheck s c with
      | Ok _ => let '(bs, s') := arrivals cs (accept_counter c s) in (true :: bs, s')
      | _ => let '(bs, s') := arrivals cs s in (false :: bs, s')
      end
  end.

(** The pruned window of a history. *)
Definition window_of (hist : list N) (w : gset N * option N) : Prop :=
  match hist with
  | [] => w = (∅, None)
  | _ => w.2 = Some (newest hist) ∧
         ∀ x, x ∈ w.1 ↔ x ∈ hist ∧ newest hist - MAX_SKIP <= x
  end.

Lemma window_of_admits hist w c :
  window_of hist w → window_admits w c ↔ fresh_in hist c = true.
Proof.
  unfold window_of, window_admits, fresh_in. destruct hist as [|y hist].
  { intros ->. rewrite bool_decide_eq_true_2 by apply not_elem_of_nil. simpl. set_solver. }
  intros [-> Hw]. rewrite Hw, andb_true_iff, bool_decide_eq_true, N.leb_le. tauto.
Qed.

Lemma window_of_accept hist w c :
  window_of hist w → fresh_in hist c = true → window_of (c :: hist) (window_accept c w).
Proof.
  intros Hw Hc. unfold window_of. unfold window_accept, window_high. simpl.
  destruct hist as [|y hist].
  - unfold window_of in Hw. subst w. simpl. rewrite N.max_0_r. split; [done|]. intros x.
    rewrite elem_of_filter. set_solver.
  - destruct Hw as [-> Hw]. rewrite (N.max_comm c). split; [done|]. intros x.
    rewrite elem_of_filter, elem_of_union, elem_of_singleton, Hw, (elem_of_cons _ x c).
    split; [tauto|]. intros [[->|Hx] Hle]; [tauto|]. split; [done|]. right. split; [done|].
    simpl in *. lia.
Qed.

Lemma arrivals_window cs hist s :
  window_of hist (window s) → (arrivals cs s).1 = reference hist cs.
Proof.
  revert hist s; induction cs as [|c cs IH]; intros hist s Hw; [done|]. simpl.
  destruct (fresh_in hist c) eqn:Hf.
  - assert (replay_precheck s c = Ok tt) as ->.
    { by apply replay_precheck_admits, (window_of_admits _ _ _ Hw). }
    specialize (IH (c :: hist) (accept_counter c s) (window_of_accept _ _ _ Hw Hf)).
    destruct (arrivals cs (accept_counter c s)) as [bs s']. cbn [fst] in *. by f_equal.
  - rewrite replay_precheck_Err.
    + specialize (IH hist s Hw). destruct (arrivals cs s) as [bs s']. simpl in *. by f_equal.
    + rewrite (window_of_admits _ _ _ Hw). by rewrite Hf.
Qed.

Lemma arrivals_wf cs s : Forall u64_ok cs → session_wf s → session_wf (arrivals cs s).2.
Proof.
  intros Hcs. revert s; induction Hcs as [|c cs Hc Hcs IH]; intros s Hs; simpl; [done|].
  destruct (replay_precheck s c).
  - specialize (IH _ (accept_counter_wf c s Hc Hs)).
    by destruct (arrivals cs (accept_counter c s)).
  - specialize (IH s Hs). by destruct (arrivals cs s).
  - specialize (IH s Hs). by destruct (arrivals cs s).
Qed.

(** * Properties *)

(** C17: the replay window is equivalent to remembering everything. For every sequence
    of arriving counters, a session that has accepted nothing yet answers exactly as
    the reference that keeps the whole history of accepted counters, while its own
    set never holds more than [MAX_SKIP + 1] of them. *)
Theorem replay_window_equiv_history cs s :
  session_wf s → window s = (∅, None) → Forall u64_ok cs →
  (arrivals cs s).1 = reference [] cs ∧
  N.of_nat (size (decrypted_counters (arrivals cs s).2)) <= MAX_SKIP + 1.
Proof.
  intros Hs Hw Hcs. split; [by apply arrivals_window|].
  apply (window_size (window (arrivals cs s).2)), wf_window. by apply arrivals_wf.
Qed.

Lemma replay_window_equiv_history_witness :
  (arrivals [5; 5; 3; 2100; 3; 100; 99] toy_bob).1 =
    [true; false; true; true; false; true; false].
Proof.
  refine (eq_trans (proj1 (replay_window_equiv_history [5; 5; 3; 2100; 3; 100; 99] toy_bob
    toy_bob_wf _ _)) _).
  - reflexivity.
  - repeat constructor.
  - vm_compute. reflexivity.
Defined.
