(* ===== verification/Delivery.v ===== *)
(** Delivery over an unreliable network: one direction of a session, specified
    as an abstract channel that remembers which counters have been delivered,
    and the proof that the engine's chains, skipped-key cache and replay window
    implement it for the records of an honest peer, whatever the network drops,
    duplicates or reorders. *)

From S2P Require Import Prelude Wire Pad Crypto Handshake Payload Ratchet Skipped Blob.
From S2P Require Import Engine Toy EngineInv EngineWf.
Import Session.

(** * The abstract channel *)

Module Channel.

(** The counters delivered so far and the largest of them. *)
Record t := make { received : gset N; high : option N }.

Definition empty : t := {| received := ∅; high := None |}.

(** The first counter above everything delivered. *)
Definition next (ch : t) : N :=
  match high ch with None => 0 | Some h => h + 1 end.

(** Counters below [next] that are still outstanding. *)
Definition missing (ch : t) : N := next ch - N.of_nat (size (received ch)).

Definition too_old (ch : t) (c : N) : bool :=
  match high ch with None => false | Some h => c <? h - MAX_SKIP end.

(** A record is delivered at most once, not when it lags by more than
    [MAX_SKIP], and not when it would leave more than [MAX_SKIP] outstanding. *)
Definition recv (c : N) : ST t SessionError () := λ ch,
  if bool_decide (c ∈ received ch) || too_old ch c then (Err ReplayRejected, ch)
  else if (next ch <=? c) && (MAX_SKIP <? missing ch + (c - next ch))
  then (Err MaxSkipExceeded, ch)
  else (Ok tt, {| received := {[c]} ∪ received ch;
                  high := Some (match high ch with None => c | Some h => N.max h c end) |}).

Definition wf (ch : t) : Prop := ∀ c, c ∈ received ch → c < next ch.

End Channel.

(** * The skipped-key cache of a channel *)

Section cache.
Context `{Crypto}.
Variables (p ck0 : bytes).
Hypothesis (Hp : len p = 32).

(** The message key of counter [c] on the chain that starts at [ck0]. *)
Definition msg_key (c : N) : bytes := chain_mk ck0 0 (N.to_nat c).

(** Keys of the counters below [n] outside [R]. *)
Fixpoint skipped_map (R : gset N) (n : nat) : gmap bytes bytes :=
  match n with
  | O => ∅
  | S n =>
      let c := N.of_nat n in
      if bool_decide (c ∈ R) then skipped_map R n
      else <[cache_key p c := msg_key c]> (skipped_map R n)
  end.

Lemma skipped_map_lookup R n c :
  u64_ok c → (N.of_nat n <= 2 ^ 64) →
  skipped_map R n !! cache_key p c =
    if bool_decide (c < N.of_nat n ∧ c ∉ R) then Some (msg_key c) else None.
Proof.
  intros Hc. unfold fits in Hc. induction n as [|n IH]; intros Hn.
  - cbn [skipped_map]. rewrite bool_decide_eq_false_2 by lia. apply lookup_empty.
  - cbn [skipped_map]. cbv zeta. specialize (IH ltac:(lia)).
    destruct (decide (c = N.of_nat n)) as [->|Hne].
    + destruct (decide (N.of_nat n ∈ R)) as [Hin|Hin].
      * rewrite (bool_decide_eq_true_2 _ Hin), IH, !bool_decide_eq_false_2;
          [done|by intros []|lia].
      * rewrite (bool_decide_eq_false_2 _ Hin), lookup_insert_eq, bool_decide_eq_true_2;
          [done|]. split; [lia|done].
    + assert ((c < N.of_nat (S n) ∧ c ∉ R) ↔ (c < N.of_nat n ∧ c ∉ R)) as Hiff
        by (split; intros []; (split; [lia|done])).
      rewrite (bool_decide_ext _ _ Hiff), <- IH.
      clear IH. case_bool_decide; [done|]. apply lookup_insert_ne. intros Heq.
      apply cache_key_inj in Heq as [_ Heq]; [done|done|done|unfold fits; simpl; lia|done].
Qed.

Lemma skipped_map_ext R1 R2 n :
  (∀ c, c < N.of_nat n → c ∈ R1 ↔ c ∈ R2) → skipped_map R1 n = skipped_map R2 n.
Proof.
  induction n as [|n IH]; intros Hext; [done|]. cbn [skipped_map]. cbv zeta.
  rewrite IH by (intros c Hc; apply Hext; lia).
  by rewrite (bool_decide_ext (N.of_nat n ∈ R1) (N.of_nat n ∈ R2)) by (apply Hext; lia).
Qed.

(** Delivering an outstanding counter removes its key. *)
Lemma skipped_map_delete R n c :
  (N.of_nat n <= 2 ^ 64) → u64_ok c → 
  skipped_map ({[c]} ∪ R) n = delete (cache_key p c) (skipped_map R n).
Proof.
  intros Hn Hc. unfold fits in Hc. induction n as [|n IH].
  { cbn [skipped_map]. by rewrite delete_empty. }
  cbn [skipped_map]. cbv zeta. rewrite IH by lia.
  destruct (decide (N.of_nat n = c)) as [<-|Hne].
  - rewrite (bool_decide_eq_true_2 (_ ∈ {[_]} ∪ R))
      by by apply elem_of_union_l, elem_of_singleton.
    case_bool_decide; [done|]. by rewrite delete_insert_eq.
  - assert ((N.of_nat n ∈ {[c]} ∪ R) ↔ N.of_nat n ∈ R) as Hiff
      by (rewrite elem_of_union, elem_of_singleton; intuition congruence).
    rewrite (bool_decide_ext _ _ Hiff). case_bool_decide; [done|].
    rewrite delete_insert_ne; [done|]. intros Heq.
    apply cache_key_inj in Heq as [_ Heq]; [by symmetry in Heq|done|done|done|unfold fits; simpl; lia].
Qed.

(** Keys stored and counters delivered account for everything below [n]. *)
Lemma skipped_map_size R n :
  (N.of_nat n <= 2 ^ 64) → (∀ c, c ∈ R → c < N.of_nat n) →
  (size (skipped_map R n) + size R = n)%nat.
Proof.
  revert R; induction n as [|n IH]; intros R Hn HR.
  - assert (R = ∅) as -> by (apply set_eq; intros c; split; [intros ?%HR; lia|set_solver]).
    by rewrite size_empty.
  - cbn [skipped_map]. cbv zeta. case_bool_decide as Hin.
    + rewrite (skipped_map_ext R (R ∖ {[N.of_nat n]})) by (intros c Hc; rewrite elem_of_difference, elem_of_singleton; intuition lia).
      assert (R = {[N.of_nat n]} ∪ R ∖ {[N.of_nat n]}) as HRe
        by (apply union_difference_L; set_solver).
      rewrite HRe at 2. rewrite size_union, size_singleton
        by by (apply disjoint_singleton_l; rewrite elem_of_difference, elem_of_singleton; intros []).
      rewrite Nat.add_assoc, (Nat.add_comm _ 1). simpl. f_equal. apply IH; [lia|].
      intros c [Hc Hcn]%elem_of_difference. rewrite elem_of_singleton in Hcn.
      specialize (HR c Hc). lia.
    + rewrite map_size_insert_None.
      * simpl. f_equal. apply IH; [lia|]. intros c Hc. specialize (HR c Hc).
        destruct (decide (c = N.of_nat n)) as [->|]; [done|lia].
      * rewrite skipped_map_lookup by (unfold fits; simpl; lia).
        rewrite bool_decide_eq_false_2; [done|]. lia.
Qed.

End cache.

(** * The receiver *)

Section receiver.
Context `{Crypto} `{Rng} `{Build}.
Variables (sid : bytes) (ep : N) (p ck0 : bytes).
Hypothesis (Hp : len p = 32).

Abbreviation key := (msg_key ck0).
Abbreviation smap := (skipped_map p ck0).

(** The receive state with the chain moved to position [k]. *)
Definition advance (R : gset N) (k : nat) (s : t) : t :=
  set_skipped {| SkippedKeyCache.map := smap R k |}
    (set_recv_sym_idx (N.of_nat k) (set_recv_ck (chain_ck ck0 0 k) s)).

(** The receive chain and the cache are at position [k]. *)
Definition at_pos (R : gset N) (k : nat) (s : t) : Prop :=
  recv_ck s = chain_ck ck0 0 k ∧ recv_sym_idx s = N.of_nat k ∧
  cache_map (skipped s) = smap R k.

Lemma advance_id R k s : at_pos R k s → advance R k s = s.
Proof.
  intros (Hck&Hidx&Hm). unfold advance. rewrite <- Hck, <- Hidx, <- Hm.
  by destruct s as [????????????? ? [?] ???].
Qed.

Lemma recv_step_mk_eq s k :
  recv_ck s = chain_ck ck0 0 k → recv_sym_idx s = N.of_nat k → N.of_nat k < U64_MAX →
  recv_step_mk s =
    (Ok (key (N.of_nat k)),
     set_recv_sym_idx (N.of_nat (S k)) (set_recv_ck (chain_ck ck0 0 (S k)) s)).
Proof.
  clear Hp. intros Hck Hidx Hk. unfold recv_step_mk. rewrite st_bind_eq. cbn [st_get].
  rewrite st_bind_eq, msg_step_ok. cbn [st_lift]. rewrite st_bind_eq. cbn [st_modify].
  rewrite st_bind_eq, Hck, Hidx. unfold st_lift, checked_add. rewrite leb_true by lia. oc.
  rewrite st_bind_eq. unfold st_modify. unfold mret, st_ret.
  unfold msg_key. rewrite Nat2N.id. unfold chain_mk. rewrite N.add_0_l.
  rewrite chain_ck_S, N.add_0_l. do 2 f_equal. lia.
Qed.

Lemma fill_gap_loop_ok R n k s :
  at_pos R k s → (∀ c, c ∈ R → c < N.of_nat k) →
  cache_len (skipped s) + N.of_nat n <= MAX_SKIP → N.of_nat (k + n) <= U64_MAX →
  fill_gap_loop p (N.of_nat k) n s = (Ok tt, advance R (k + n) s).
Proof.
  revert k s; induction n as [|n IH]; intros k s Hat HR Hsz Hmax.
  { rewrite Nat.add_0_r, advance_id by done. done. }
  destruct Hat as (Hck&Hidx&Hm). cbn [fill_gap_loop].
  erewrite st_bind_Ok by (apply recv_step_mk_eq; [done..|lia]).
  unfold on_skipped. rewrite st_bind_eq. unfold st_zoom at 1. simpl skipped.
  assert (N.of_nat k ∉ R) as Hnin by (intros Hin%HR; lia).
  assert (smap R k !! cache_key p (N.of_nat k) = None) as Hnone.
  { unfold U64_MAX in Hmax. rewrite skipped_map_lookup by (done || unfold fits; simpl; lia).
    rewrite bool_decide_eq_false_2; [done|lia]. }
  rewrite cache_insert_Ok by (rewrite ?Hm; (done || lia)).
  replace (N.of_nat k + 1) with (N.of_nat (S k)) by lia.
  rewrite IH; [by replace (S k + n)%nat with (k + S n)%nat by lia| |..].
  - split_and!; [done..|]. simpl. by rewrite Hm, bool_decide_eq_false_2.
  - intros c Hc%HR. lia.
  - simpl. unfold cache_len in *. simpl.
    rewrite map_size_insert_None by (by rewrite Hm). lia.
  - lia.
Qed.

Lemma fill_recv_gap_ok R k c s :
  at_pos R k s → (∀ x, x ∈ R → x < N.of_nat k) →
  N.of_nat k <= c → cache_len (skipped s) <= MAX_SKIP → c + MAX_SKIP <= U64_MAX →
  fill_recv_gap_to_counter p (N.of_nat k) c s =
    if MAX_SKIP <? cache_len (skipped s) + (c - N.of_nat k) then (Err MaxSkipExceeded, s)
    else (Ok tt, advance R (N.to_nat c) s).
Proof.
  intros Hat HR Hle Hsz Hmax. unfold fill_recv_gap_to_counter.
  destruct (N.leb_spec c (N.of_nat k)) as [Hc|Hc].
  - assert (N.to_nat c = k) as -> by lia. rewrite ltb_false by lia.
    by rewrite advance_id.
  - rewrite st_bind_eq. cbn [st_get]. rewrite st_bind_eq. unfold usize_add, st_lift.
    rewrite leb_true by (unfold USIZE_MAX; lia). rewrite st_bind_eq.
    destruct (N.ltb_spec MAX_SKIP (cache_len (skipped s) + (c - N.of_nat k))); oc; [done|].
    rewrite (fill_gap_loop_ok R) by (done || lia). do 2 f_equal. lia.
Qed.

(** ** The simulation relation *)

Definition floor (ch : Channel.t) : N :=
  match Channel.high ch with None => 0 | Some h => h - MAX_SKIP end.

Record recv_inv (ch : Channel.t) (s : t) : Prop := {
  ri_chan : Channel.wf ch;
  ri_next : Channel.next ch <= U64_MAX;
  ri_missing : Channel.missing ch <= MAX_SKIP;
  ri_sid : session_id s = sid;
  ri_epoch : epoch s = ep;
  ri_mode : mode_wf (epoch s) (mode s);
  ri_peer : from_option (λ q, q = p) True (peer_ratchet_pub s);
  ri_pos : at_pos (Channel.received ch) (N.to_nat (Channel.next ch)) s;
  ri_hw : recv_high_water s = Channel.high ch;
  ri_decrypted : decrypted_counters s = filter (λ c, floor ch <= c) (Channel.received ch);
}.

(** A record the honest sender produced for counter [c]. *)
Record genuine (c : N) (h : Header.t) (ct pt : bytes) : Prop := {
  gen_version : Header.version h = HEADER_VERSION_V0;
  gen_typ : Header.typ h = 3;
  gen_epoch : Header.epoch_be h = ep;
  gen_sid : Header.session_id h = sid;
  gen_counter : Header.counter_be h = c;
  gen_pub : Header.ratchet_pub h = p;
  gen_len : len pt = DATA_INNER_FIXED;
  gen_ct : aead_encrypt (key c) (data_nonce (key c) h) pt (Header.encode h) = Some ct;
}.

Lemma smap_len ch s :
  recv_inv ch s → cache_len (skipped s) = Channel.missing ch.
Proof.
  intros [Hwf Hnext _ _ _ _ _ (_&_&Hm) _ _]. unfold cache_len, Channel.missing. rewrite Hm.
  unfold U64_MAX in Hnext.
  pose proof (skipped_map_size p ck0 Hp (Channel.received ch) (N.to_nat (Channel.next ch)))
    as Hsz.
  rewrite !N2Nat.id in Hsz. specialize (Hsz ltac:(lia) Hwf). lia.
Qed.

(** The abstract duplicate and age test is the engine's window test. *)
Lemma admits_spec ch s c :
  recv_inv ch s →
  if bool_decide (c ∈ Channel.received ch) || Channel.too_old ch c
  then ¬ window_admits (window s) c else window_admits (window s) c.
Proof.
  intros Hs. unfold window_admits, window. simpl.
  rewrite (ri_hw _ _ Hs), (ri_decrypted _ _ Hs).
  unfold Channel.too_old, floor. case_bool_decide as Hin; simpl.
  - intros [Hn Hold]. destruct (Channel.high ch) as [hw|]; apply Hn, elem_of_filter;
      split; (done || lia).
  - destruct (Channel.high ch) as [hw|].
    + destruct (N.ltb_spec c (hw - MAX_SKIP)); [lia|].
      split; [by intros []%elem_of_filter|done].
    + split; [by intros []%elem_of_filter|done].
Qed.

(** The checks of [decrypt_data] pass on an admitted record of the session. *)
Lemma receive_checks_pass {A} typ h (k : t * rng_state → ST (t * rng_state) SessionError A)
    s g :
  header_matches typ (fixed s) h → window_admits (window s) (Header.counter_be h) →
  (st ← st_get;
   let '(s, _) := st in
   _ ← st_lift (reject_if (negb (Header.version h =? HEADER_VERSION_V0) ||
                           negb (Header.typ h =? typ)) InvalidHeader);
   _ ← st_lift (reject_if (negb (bool_decide (Header.session_id h = session_id s)) ||
                           negb (Header.epoch_be h =? epoch s)) StaleEpochRejected);
   _ ← st_lift (replay_precheck s (Header.counter_be h));
   k st) (s, g) = k (s, g) (s, g).
Proof.
  clear Hp. intros (Hv&Ht&Hid&He) Hw. simpl in Hid, He. erewrite st_bind_Ok by done.
  rewrite Hv, Ht, Hid, He, !N.eqb_refl, bool_decide_eq_true_2 by done.
  do 2 (erewrite st_bind_Ok by done). erewrite st_bind_Ok; [done|].
  unfold st_lift. by rewrite replay_precheck_admits.
Qed.

(** A record under the bound ratchet key, or the first one, only binds the key. *)
Lemma bind_or_dh_same q s g :
  from_option (λ x, x = q) True (peer_ratchet_pub s) →
  bind_or_dh_ratchet q (s, g) = (Ok tt, (set_peer_ratchet_pub (Some q) s, g)).
Proof.
  clear Hp. intros Hq. unfold bind_or_dh_ratchet. erewrite st_bind_Ok by done. cbv beta iota.
  destruct (peer_ratchet_pub s) as [x|] eqn:Hx; [|done]. simpl in Hq. subst x.
  rewrite bool_decide_eq_true_2 by done. unfold mret, st_ret. do 2 f_equal.
  rewrite <- Hx. by destruct s.
Qed.

Lemma bind_peer_ok ch s g :
  recv_inv ch s →
  bind_or_dh_ratchet p (s, g) = (Ok tt, (set_peer_ratchet_pub (Some p) s, g)) ∧
  recv_inv ch (set_peer_ratchet_pub (Some p) s).
Proof.
  intros Hs. split; [|by destruct Hs]. apply bind_or_dh_same, (ri_peer _ _ Hs).
Qed.

(** ** The message key *)

Definition next_after (ch : Channel.t) (c : N) : N := N.max (Channel.next ch) (c + 1).
Definition recv_after (ch : Channel.t) (c : N) : gset N := {[c]} ∪ Channel.received ch.

Lemma take_eq s c :
  SkippedKeyCache.take p c (skipped s) =
    (cache_map (skipped s) !! cache_key p c,
     {| SkippedKeyCache.map := delete (cache_key p c) (cache_map (skipped s)) |}).
Proof. done. Qed.

Lemma recv_base_eq ch s (A : Type) (k : N → A) (e : A) c :
  recv_inv ch s → Channel.next ch <= c →
  match recv_high_water s with
  | Some hw => if c <=? hw then e else k (saturating_add U64_MAX hw 1)
  | None => k 0
  end = k (Channel.next ch).
Proof.
  intros [] Hc. rewrite ri_hw0. unfold Channel.next, saturating_add in *.
  destruct (Channel.high ch) as [hw|]; [|done].
  rewrite leb_false by lia. f_equal. lia.
Qed.

Lemma recv_message_key_new ch s c :
  recv_inv ch s → Channel.next ch <= c → c + MAX_SKIP <= U64_MAX →
  recv_message_key p c s =
    if MAX_SKIP <? Channel.missing ch + (c - Channel.next ch) then (Err MaxSkipExceeded, s)
    else (Ok (key c), advance (recv_after ch c) (N.to_nat (c + 1)) s).
Proof.
  intros Hs Hc Hmax. pose proof (smap_len _ _ Hs) as Hlen.
  pose proof (ri_pos _ _ Hs) as (Hck&Hidx&Hm).
  assert (cache_map (skipped s) !! cache_key p c = None) as Hnone.
  { rewrite Hm. unfold U64_MAX in Hmax. pose proof (ri_next _ _ Hs) as Hn. unfold U64_MAX in Hn.
    rewrite skipped_map_lookup by (done || unfold fits; simpl; lia).
    rewrite bool_decide_eq_false_2; [done|lia]. }
  unfold recv_message_key. erewrite st_bind_Ok by done.
  rewrite take_eq, Hnone, delete_id by done. erewrite st_bind_Ok by done. cbv beta iota.
  replace (set_skipped _ s) with s by by destruct s as [????????????? ? [?] ???].
  pose proof (recv_base_eq ch s _
    (λ b, fill_recv_gap_to_counter p b c ≫= λ _, recv_step_mk) (st_fail ReplayRejected) c
    Hs Hc) as Hb.
  cbv beta zeta in Hb |- *. rewrite Hb. clear Hb. rewrite st_bind_eq.
  rewrite <- (N2Nat.id (Channel.next ch)).
  rewrite (fill_recv_gap_ok (Channel.received ch)); [|done|..].
  2: { rewrite N2Nat.id. apply (ri_chan _ _ Hs). }
  2-4: rewrite ?N2Nat.id, ?Hlen; (done || apply (ri_missing _ _ Hs)).
  rewrite !N2Nat.id, Hlen. destruct (_ <? _); [done|].
  rewrite (recv_step_mk_eq _ (N.to_nat c)); [|done|done|unfold MAX_SKIP in Hmax; lia].
  rewrite N2Nat.id. f_equal. unfold advance, recv_after.
  replace (N.to_nat (c + 1)) with (S (N.to_nat c)) by lia.
  cbn [skipped_map]. cbv zeta. rewrite N2Nat.id, bool_decide_eq_true_2
    by by apply elem_of_union_l, elem_of_singleton.
  rewrite (skipped_map_ext p ck0 Hp ({[c]} ∪ _) (Channel.received ch)); [done|].
  intros x Hx. rewrite elem_of_union, elem_of_singleton. intuition lia.
Qed.

Lemma recv_message_key_old ch s c :
  recv_inv ch s → c < Channel.next ch → c ∉ Channel.received ch →
  recv_message_key p c s =
    (Ok (key c), advance (recv_after ch c) (N.to_nat (Channel.next ch)) s).
Proof.
  intros Hs Hc Hn. pose proof (ri_pos _ _ Hs) as (Hck&Hidx&Hm).
  pose proof (ri_next _ _ Hs) as Hnext. unfold U64_MAX in Hnext.
  unfold recv_message_key. erewrite st_bind_Ok by done. rewrite take_eq, Hm.
  rewrite skipped_map_lookup by (done || unfold fits; simpl; lia).
  rewrite bool_decide_eq_true_2 by (split; [lia|done]).
  erewrite st_bind_Ok by done. unfold mret, st_ret. f_equal. unfold advance, recv_after.
  rewrite skipped_map_delete by (done || unfold fits; simpl; lia).
  rewrite <- Hck, <- Hidx. by destruct s.
Qed.

(** Both cases at once. *)
Lemma recv_message_key_spec ch s c :
  recv_inv ch s → c ∉ Channel.received ch → c + MAX_SKIP <= U64_MAX →
  recv_message_key p c s =
    if (Channel.next ch <=? c) && (MAX_SKIP <? Channel.missing ch + (c - Channel.next ch))
    then (Err MaxSkipExceeded, s)
    else (Ok (key c), advance (recv_after ch c) (N.to_nat (next_after ch c)) s).
Proof.
  intros Hs Hn Hmax. unfold next_after. destruct (N.leb_spec (Channel.next ch) c) as [Hc|Hc].
  - rewrite (recv_message_key_new ch) by done. simpl. destruct (_ <? _); [done|].
    by rewrite N.max_r by lia.
  - rewrite (recv_message_key_old ch) by done. by rewrite N.max_l by lia.
Qed.

(** ** One step of the simulation *)

Lemma recv_Ok_inv c ch ch' :
  Channel.recv c ch = (Ok tt, ch') →
  Channel.received ch' = recv_after ch c ∧ Channel.next ch' = next_after ch c ∧
  Channel.high ch' = Some (window_high (∅, Channel.high ch) c) ∧
  (c ∉ Channel.received ch) ∧
  (Channel.next ch <= c → Channel.missing ch + (c - Channel.next ch) <= MAX_SKIP).
Proof.
  clear Hp. unfold Channel.recv. case_bool_decide as Hin; [done|].
  destruct (_ || _); [done|]. destruct (N.leb_spec (Channel.next ch) c).
  - simpl. destruct (N.ltb_spec MAX_SKIP (Channel.missing ch + (c - Channel.next ch)));
      [done|]. intros [= <-]. split_and!; [done| |done..].
    unfold next_after, Channel.next. simpl. destruct (Channel.high ch); lia.
  - intros [= <-]. split_and!; [done| |done|done|lia].
    unfold next_after, Channel.next. simpl. destruct (Channel.high ch); lia.
Qed.

(** Dropping what has fallen below an old floor does not change what stays above
    the new one. *)
Lemma filter_window (R : gset N) c lo hi :
  lo <= hi →
  filter (λ x, hi <= x) ({[c]} ∪ filter (λ x, lo <= x) R) = filter (λ x, hi <= x) ({[c]} ∪ R).
Proof.
  clear Hp. intros Hle. apply set_eq. intros x.
  rewrite !elem_of_filter, !elem_of_union, elem_of_filter. intuition lia.
Qed.

Lemma recv_accept_inv ch s c ch' :
  recv_inv ch s → c + MAX_SKIP <= U64_MAX → Channel.recv c ch = (Ok tt, ch') →
  recv_inv ch'
    (accept_counter c (advance (recv_after ch c) (N.to_nat (next_after ch c)) s)).
Proof.
  intros Hs Hmax Hr. pose proof (recv_Ok_inv _ _ _ Hr) as (HR&Hnext&Hhigh&Hnin&Hnew).
  pose proof Hs as [Hwf Hn Hmiss ???? _ Hhw Hdec].
  split; try done.
  - intros x. rewrite HR, Hnext. unfold recv_after, next_after.
    rewrite elem_of_union, elem_of_singleton. intros [->|Hx%Hwf]; lia.
  - rewrite Hnext. unfold next_after, MAX_SKIP in *. lia.
  - unfold Channel.missing in *. rewrite HR, Hnext. unfold recv_after, next_after.
    rewrite size_union, size_singleton by by apply disjoint_singleton_l. lia.
  - rewrite HR, Hnext. by split_and!.
  - simpl. by rewrite Hhw, Hhigh.
  - simpl. rewrite Hhw, Hdec, HR. unfold floor. rewrite Hhigh.
    apply filter_window. unfold window_high. simpl. destruct (Channel.high ch); lia.
Qed.

(** Receiving a genuine record: the engine answers as the channel does. *)
Lemma decrypt_data_refines ch s g c h ct pt :
  CryptoLaws _ → recv_inv ch s → genuine c h ct pt → c + MAX_SKIP <= U64_MAX →
  ∃ s', decrypt_data h ct (s, g) =
          ((λ _, pt) <$> (Channel.recv c ch).1, (s', g)) ∧
        recv_inv (Channel.recv c ch).2 s'.
Proof.
  intros Hlaws Hs [Hv Ht He Hid Hc Hpub Hlen Hct] Hmax.
  assert (header_matches 3 (fixed s) h) as Hh.
  { split_and!; [done|done|..]; simpl; by rewrite ?(ri_sid _ _ Hs), ?(ri_epoch _ _ Hs). }
  pose proof (admits_spec ch s c Hs) as Hadm. unfold Channel.recv.
  destruct (bool_decide _ || _) eqn:Hdup.
  { exists s. split; [|done].
    apply (receive_checks_replay 3 h (λ _, _)); [done|by rewrite Hc]. }
  destruct (bind_peer_ok ch s g Hs) as [Hbind Hs1].
  set (s1 := set_peer_ratchet_pub (Some p) s) in *.
  assert (c ∉ Channel.received ch) as Hnin by by (intros ?; case_bool_decide).
  pose proof (recv_message_key_spec ch s1 c Hs1 Hnin Hmax) as Hkey.
  unfold decrypt_data.
  rewrite (receive_checks_pass 3 h (λ _, _)) by (done || by rewrite Hc).
  cbv zeta. rewrite Hpub, Hc. erewrite st_bind_Ok by exact Hbind.
  rewrite st_bind_eq. unfold on_session at 1, st_zoom at 1. cbn [fst snd]. rewrite Hkey.
  destruct (_ && _) eqn:Hfull; [by exists s1|].
  erewrite st_bind_Ok by (unfold st_lift; by rewrite nonce_data_ok).
  erewrite st_bind_Ok
    by (unfold st_lift, xdecrypt; by rewrite (aead_decrypt_encrypt _ _ _ _ _ Hct)).
  rewrite (eqb_true (len pt)) by done. erewrite st_bind_Ok by done.
  erewrite st_bind_Ok by done. eexists. split; [done|].
  eapply recv_accept_inv; [done|done|]. unfold Channel.recv. by rewrite Hdup, Hfull.
Qed.

(** ** Through the ingress gate *)

(** A framed DATA record of the honest sender. *)
Definition genuine_outer (c : N) (rec : OuterRecord.t) (pt : bytes) : Prop :=
  ∃ nonce ct, genuine c (OuterRecord.header rec) ct pt ∧ len nonce = 24 ∧
    Header.validate_v0 (OuterRecord.header rec) = Ok tt ∧
    strip_outer_pad (OuterRecord.payload rec) (24 + DATA_INNER_FIXED + 16) = Ok (nonce ++ ct).

Lemma maybe_expire_inv ch now s :
  recv_inv ch s → recv_inv ch (maybe_expire_reset_pending now s).
Proof.
  intros Hs. unfold maybe_expire_reset_pending. cbv zeta.
  destruct (match mode s with Active _ => _ | _ => _ end); [|done]. by destruct Hs.
Qed.

(** DATA of the current epoch passes the epoch policy in every legal mode. *)
Lemma epoch_policy_current s h :
  u32_ok (epoch s) → mode_wf (epoch s) (mode s) → Header.epoch_be h = epoch s →
  check_inbound_epoch_policy s h = Ok tt.
Proof.
  clear Hp. intros Hu Hm He. unfold check_inbound_epoch_policy, saturating_add. rewrite He.
  unfold fits in Hu. simpl in Hu. rewrite !ltb_false by (unfold U32_MAX; lia). oc.
  destruct (mode s) as [e|old new d|e]; simpl in Hm; oc.
  2: rewrite (eqb_false (epoch s) old), andb_false_r by lia; oc.
  all: by rewrite N.eqb_refl.
Qed.

Lemma handle_inbound_refines ch s g c rec now pt :
  CryptoLaws _ → u32_ok ep → recv_inv ch s → genuine_outer c rec pt →
  c + MAX_SKIP <= U64_MAX →
  ∃ s', handle_inbound_outer rec now (s, g) =
          ((λ _, Data pt) <$> (Channel.recv c ch).1, (s', g)) ∧
        recv_inv (Channel.recv c ch).2 s'.
Proof.
  intros Hlaws Hep Hs (nonce&ct&Hg&Hnonce&Hval&Hstrip) Hmax.
  apply (maybe_expire_inv _ now) in Hs. unfold handle_inbound_outer.
  set (s0 := maybe_expire_reset_pending now s) in *.
  rewrite (st_bind_Ok _ _ _ tt (s0, g)) by done. erewrite st_bind_Ok by (unfold st_lift; by rewrite Hval).
  erewrite st_bind_Ok by done. cbv beta iota.
  rewrite (gen_sid _ _ _ _ Hg), (ri_sid _ _ Hs), bool_decide_eq_true_2 by done.
  erewrite st_bind_Ok by done.
  erewrite st_bind_Ok.
  2: { unfold st_lift. rewrite epoch_policy_current; [done| |apply (ri_mode _ _ Hs)|].
       - by rewrite (ri_epoch _ _ Hs).
       - by rewrite (ri_epoch _ _ Hs), (gen_epoch _ _ _ _ Hg). }
  cbv zeta. rewrite (gen_typ _ _ _ _ Hg), N.eqb_refl.
  destruct (decrypt_data_refines ch s0 g c _ _ _ Hlaws Hs Hg Hmax) as (s'&Hdec&Hs').
  exists s'. split; [|done]. rewrite st_bind_eq. unfold decrypt_data_outer. cbv zeta.
  erewrite st_bind_Ok by (unfold st_lift; by rewrite Hstrip).
  erewrite st_bind_Ok.
  2: { unfold st_lift, slice_from. rewrite slice_ok by len_goal.
       by rewrite sub_to_end, drop_app_len. }
  rewrite Hdec. by destruct (Channel.recv c ch).1.
Qed.

(** * The sender *)

Record send_inv (n : N) (s : t) : Prop := {
  si_sid : session_id s = sid;
  si_epoch : epoch s = ep;
  si_pub : my_ratchet_pub s = p;
  si_ck : send_ck s = chain_ck ck0 0 (N.to_nat n);
  si_idx : send_sym_idx s = n;
  si_ctr : send_wire_counter s = n;
}.

Lemma send_step_mk_eq n s :
  send_inv n s → n < U64_MAX →
  send_step_mk s =
    (Ok (key n), set_send_sym_idx (n + 1) (set_send_ck (chain_ck ck0 0 (N.to_nat (n + 1))) s)).
Proof.
  clear Hp. intros [] Hn. unfold send_step_mk. rewrite st_bind_eq. cbn [st_get].
  rewrite st_bind_eq, msg_step_ok. cbn [st_lift]. rewrite st_bind_eq. cbn [st_modify].
  rewrite st_bind_eq, si_ck0, si_idx0. unfold st_lift, checked_add.
  rewrite leb_true by lia. oc. rewrite st_bind_eq. unfold st_modify, mret, st_ret.
  unfold msg_key, chain_mk. rewrite N.add_0_l, N2Nat.id.
  replace (N.to_nat (n + 1)) with (S (N.to_nat n)) by lia.
  by rewrite chain_ck_S, N.add_0_l, N2Nat.id.
Qed.

Lemma bump_send_counter_eq s :
  send_wire_counter s < U64_MAX →
  ∃ s', bump_send_counter s = (Ok tt, s') ∧
    s' = set_anchor (anchor s') (set_send_wire_counter (send_wire_counter s + 1) s).
Proof.
  clear Hp. intros Hn. unfold bump_send_counter. erewrite st_bind_Ok by done. cbv zeta.
  unfold checked_add. rewrite leb_true by lia.
  erewrite st_bind_Ok by done. erewrite st_bind_Ok by done. by eexists.
Qed.

Lemma data_seal_total `{!CryptoLaws _} mk h pt :
  len pt = DATA_INNER_FIXED →
  ∃ ct, aead_encrypt mk (data_nonce mk h) pt (Header.encode h) = Some ct ∧ len ct = 528.
Proof.
  clear Hp. intros Hpt. destruct (aead_encrypt_total mk (data_nonce mk h) pt (Header.encode h))
    as (ct&Hct&Hlen); [rewrite Hpt; done|]. exists ct. split; [done|].
  by rewrite Hlen, Hpt.
Qed.

(** Sending, for any chain: the record is sealed under the next message key. *)
Lemma encrypt_data_outer_seals `{!CryptoLaws _} s g pt mk s1 :
  send_step_mk s = (Ok mk, s1) → send_wire_counter s1 < U64_MAX → len pt = DATA_INNER_FIXED →
  ∃ payload ct s2 g2, let h := out_header 3 s1 in
    encrypt_data_plain512_outer pt (s, g) = (Ok (h, payload), (s2, g2)) ∧
    s2 = set_anchor (anchor s2) (set_send_wire_counter (send_wire_counter s1 + 1) s1) ∧
    aead_encrypt mk (data_nonce mk h) pt (Header.encode h) = Some ct ∧
    strip_outer_pad payload (24 + DATA_INNER_FIXED + 16) = Ok (data_nonce mk h ++ ct).
Proof.
  clear Hp. intros Hstep Hn Hpt. unfold encrypt_data_plain512_outer. cbv zeta.
  rewrite (st_bind_Ok _ _ _ mk (s1, g))
    by (unfold on_session, st_zoom; cbn [fst snd]; by rewrite Hstep).
  erewrite st_bind_Ok by done. cbv beta iota zeta. set (h := out_header 3 s1).
  destruct (data_seal_total mk h pt Hpt) as (ct&Hct&Hlen).
  rewrite (st_bind_Ok _ _ _ ct (s1, g))
    by (unfold st_lift; by rewrite encrypt_data_payload_eq, Hct).
  rewrite (st_bind_Ok _ _ _ (data_nonce mk h) (s1, g))
    by (unfold st_lift; by rewrite nonce_data_ok).
  destruct (bump_send_counter_eq s1 Hn) as (s2&Hbump&Hs2).
  rewrite (st_bind_Ok _ _ _ tt (s2, g))
    by (unfold on_session, st_zoom; cbn [fst snd]; by rewrite Hbump).
  assert (len (data_nonce mk h ++ ct) = 552) as Hlog by (unfold data_nonce; len_goal).
  destruct (pad_outer_total (data_nonce mk h ++ ct) g) as (out&g'&Hout); [lia|].
  rewrite (st_bind_Ok _ _ _ out (s2, g'))
    by (unfold on_rng, st_zoom, st_map_err; cbn [fst snd]; by rewrite Hout).
  apply pad_outer_strip in Hout. rewrite Hlog in Hout. by exists out, ct, s2, g'.
Qed.

(** Sending produces a genuine record for the current counter and moves on. *)
Lemma encrypt_data_outer_genuine `{!CryptoLaws _} n s g pt :
  send_inv n s → n < U64_MAX → len pt = DATA_INNER_FIXED →
  ∃ h payload s' g',
    encrypt_data_plain512_outer pt (s, g) = (Ok (h, payload), (s', g')) ∧
    genuine_outer n {| OuterRecord.header := h; OuterRecord.payload := payload |} pt ∧
    send_inv (n + 1) s'.
Proof.
  intros Hs Hn Hpt. destruct (encrypt_data_outer_seals s g pt _ _ (send_step_mk_eq n s Hs Hn))
    as (payload&ct&s2&g2&He&Hs2&Hct&Hstrip); [simpl; by rewrite (si_ctr _ _ Hs)|done|].
  exists (out_header 3 (set_send_sym_idx (n + 1)
    (set_send_ck (chain_ck ck0 0 (N.to_nat (n + 1))) s))), payload, s2, g2.
  split; [done|]. destruct Hs. split.
  - eexists _, ct. split_and!; [|apply len_hkdf|done|exact Hstrip]. by split.
  - rewrite Hs2. split; simpl; try done. by rewrite si_ctr0.
Qed.

End receiver.
