(* ===== verification/EndToEnd.v ===== *)
(** Two sessions bootstrapped from the same handshake output, one sending DATA
    records through an unreliable network to the other: the composition of the
    sender and receiver halves of Delivery.v over whole message sequences. *)

From S2P Require Import Prelude Wire Pad Crypto Handshake Payload Ratchet Skipped Blob.
From S2P Require Import Engine Toy EngineInv EngineWf Delivery.
Import Session.

(** Outcomes of a schedule of counters on the abstract channel. *)
Fixpoint channel_recv_all (sched : list N) (ch : Channel.t)
    : list (outcome SessionError ()) * Channel.t :=
  match sched with
  | [] => ([], ch)
  | c :: sched =>
      let '(r, ch1) := Channel.recv c ch in
      let '(rs, ch2) := channel_recv_all sched ch1 in
      (r :: rs, ch2)
  end.

Section end_to_end.
Context `{Crypto} `{Rng} `{Build}.

(** Encrypt and frame a sequence of plaintexts. *)
Fixpoint send_all (pts : list bytes) : ST (t * rng_state) SessionError (list OuterRecord.t) :=
  match pts with
  | [] => mret []
  | pt :: pts =>
      '(h, payload) ← encrypt_data_plain512_outer pt;
      rest ← send_all pts;
      mret ({| OuterRecord.header := h; OuterRecord.payload := payload |} :: rest)
  end.

(** Hand the records to the receiver one after the other; an error does not stop
    the next one from being processed. *)
Fixpoint recv_all (now : N) (recs : list OuterRecord.t) (st : t * rng_state)
    : list (outcome SessionError InboundInner) * (t * rng_state) :=
  match recs with
  | [] => ([], st)
  | rec :: recs =>
      let '(r, st1) := handle_inbound_outer rec now st in
      let '(rs, st2) := recv_all now recs st1 in
      (r :: rs, st2)
  end.

(** [a] and [b] come from one handshake, in either role; [b] knows either
    nothing or [a]'s initial ratchet key. *)
Definition fresh_pair (a b : t) : Prop :=
  ∃ okm sid ep sk_a sk_b peer_a peer_b anchor_a anchor_b,
    u32_ok ep ∧
    from_option (λ q, q = fit 32 (x25519_public sk_a)) True peer_b ∧
    (bootstrap_initiator (E:=SessionError) okm sid ep sk_a peer_a anchor_a = Ok a ∧
     bootstrap_responder (E:=SessionError) okm sid ep sk_b peer_b anchor_b = Ok b ∨
     bootstrap_responder (E:=SessionError) okm sid ep sk_a peer_a anchor_a = Ok a ∧
     bootstrap_initiator (E:=SessionError) okm sid ep sk_b peer_b anchor_b = Ok b).

Lemma fresh_pair_inv a b :
  fresh_pair a b →
  ∃ sid ep p ck0, u32_ok ep ∧ len p = 32 ∧
    send_inv sid ep p ck0 0 a ∧ recv_inv sid ep p ck0 Channel.empty b.
Proof.
  intros (okm&sid&ep&sk_a&sk_b&peer_a&peer_b&an_a&an_b&Hep&Hpeer&Hboot).
  unfold bootstrap_initiator, bootstrap_responder in Hboot.
  rewrite chain_bootstrap_ok in Hboot. oc in Hboot.
  destruct Hboot as [[[= <-] [= <-]]|[[= <-] [= <-]]];
    eexists sid, ep, (fit 32 (x25519_public sk_a)), _;
    (split; [done|split; [apply len_fit|]]);
    (split; [by split|]);
    (split; [done|by vm_compute|by vm_compute|done..]).
Qed.

Lemma send_all_genuine `{!CryptoLaws _} sid ep p ck0 pts n s g :
  len p = 32 → send_inv sid ep p ck0 n s → n + len pts <= U64_MAX →
  Forall (λ pt, len pt = DATA_INNER_FIXED) pts →
  ∃ recs st', send_all pts (s, g) = (Ok recs, st') ∧ length recs = length pts ∧
    ∀ i rec pt, recs !! i = Some rec → pts !! i = Some pt →
      genuine_outer sid ep p ck0 (n + N.of_nat i) rec pt.
Proof.
  intros Hp Hs Hn Hpts. revert n s g Hs Hn.
  induction Hpts as [|pt pts Hpt Hpts IH]; intros n s g Hs Hn.
  { exists [], (s, g). split_and!; [done|done|]. by intros i rec pt ?. }
  rewrite len_cons in Hn. cbn [send_all].
  destruct (encrypt_data_outer_genuine sid ep p ck0 Hp n s g pt Hs) as (h&pl&s1&g1&He&Hg&Hs1);
    [lia|done|].
  destruct (IH (n + 1) s1 g1 Hs1) as (recs&st'&Hr&Hl&Hall); [lia|].
  rewrite (st_bind_Ok _ _ _ _ _ He). rewrite (st_bind_Ok _ _ _ _ _ Hr).
  eexists _, _. split_and!; [done|by simpl; rewrite Hl|].
  intros [|i] rec pt'; simpl.
  - intros [= <-] [= <-]. by rewrite N.add_0_r.
  - intros Hi Hi'. specialize (Hall i rec pt' Hi Hi').
    by replace (n + N.of_nat (S i)) with (n + 1 + N.of_nat i) by lia.
Qed.

Lemma recv_all_refines `{!CryptoLaws _} sid ep p ck0 now ds ch s g :
  len p = 32 → u32_ok ep → recv_inv sid ep p ck0 ch s →
  Forall (λ d : N * OuterRecord.t * bytes,
    d.1.1 + MAX_SKIP <= U64_MAX ∧ genuine_outer sid ep p ck0 d.1.1 d.1.2 d.2) ds →
  (recv_all now (ds.*1.*2) (s, g)).1 =
    zip_with (λ pt r, (λ _, Data pt) <$> r) (ds.*2) (channel_recv_all (ds.*1.*1) ch).1.
Proof.
  intros Hp Hep Hs Hds. revert ch s g Hs.
  induction Hds as [|[[c rec] pt] ds [Hc Hg] Hds IH]; intros ch s g Hs; [done|]. simpl in *.
  destruct (handle_inbound_refines sid ep p ck0 Hp ch s g c rec now pt _ Hep Hs Hg Hc)
    as (s1&He&Hs1).
  specialize (IH _ s1 g Hs1). rewrite He.
  destruct (Channel.recv c ch) as [r ch1]. simpl in *.
  destruct (recv_all _ _ _) as [rs st2]. destruct (channel_recv_all _ ch1) as [rs' ch2].
  simpl in *. by rewrite IH.
Qed.

(** The records and plaintexts a schedule of message indices picks. *)
Definition picks {A} (l : list A) (sched : list nat) : list A := omap (l !!.) sched.

Lemma picks_step {A} (l : list A) i sched :
  picks l (i :: sched) =
    match l !! i with Some x => x :: picks l sched | None => picks l sched end.
Proof. done. Qed.

Lemma picks_cons {A} (l : list A) i x sched :
  l !! i = Some x → picks l (i :: sched) = x :: picks l sched.
Proof. intros Hx. by rewrite picks_step, Hx. Qed.

Lemma schedule_deliveries {A B} (Q : N → A → B → Prop) (recs : list A) (pts : list B) sched :
  length recs = length pts → Forall (λ i, i < length pts)%nat sched →
  (∀ i rec pt, recs !! i = Some rec → pts !! i = Some pt → Q (N.of_nat i) rec pt) →
  ∃ ds : list (N * A * B),
    ds.*1.*1 = N.of_nat <$> sched ∧ ds.*1.*2 = picks recs sched ∧ ds.*2 = picks pts sched ∧
    Forall (λ d, d.1.1 < len pts ∧ Q d.1.1 d.1.2 d.2) ds.
Proof.
  intros Hl Hsched HQ. induction Hsched as [|i sched Hi Hsched IH].
  { by exists []. }
  destruct IH as (ds&Hd1&Hd2&Hd3&Hd4).
  destruct (lookup_lt_is_Some_2 pts i Hi) as [pt Hpt].
  destruct (lookup_lt_is_Some_2 recs i) as [rec Hrec]; [lia|].
  exists ((N.of_nat i, rec, pt) :: ds). rewrite (picks_cons recs i rec), (picks_cons pts i pt), !fmap_cons by done.
  rewrite Hd1, Hd2, Hd3. split_and!; [done..|].
  apply Forall_cons. split; [|done]. simpl. split; [unfold len; lia|]. by apply HQ.
Qed.

Lemma delivery_refines `{!CryptoLaws _} a b ga pts :
  fresh_pair a b → len pts + MAX_SKIP <= U64_MAX →
  Forall (λ pt, len pt = DATA_INNER_FIXED) pts →
  ∃ recs st, send_all pts (a, ga) = (Ok recs, st) ∧ length recs = length pts ∧
    ∀ now gb sched, Forall (λ i, i < length pts)%nat sched →
      (recv_all now (picks recs sched) (b, gb)).1 =
        zip_with (λ pt r, (λ _, Data pt) <$> r) (picks pts sched)
          (channel_recv_all (N.of_nat <$> sched) Channel.empty).1.
Proof.
  intros (sid&ep&p&ck0&Hep&Hp&Hsend&Hrecv)%fresh_pair_inv Hlen Hpts.
  destruct (send_all_genuine sid ep p ck0 pts 0 a ga) as (recs&st&Hs&Hl&Hall);
    [done|done|lia|done|].
  exists recs, st. split_and!; [done|done|]. intros now gb sched Hsched.
  destruct (schedule_deliveries (genuine_outer sid ep p ck0) recs pts sched)
    as (ds&<-&<-&<-&Hds); [done|done| |].
  { intros i rec pt Hr Hpt. by apply (Hall i). }
  apply (recv_all_refines sid ep p ck0); [done..|].
  eapply Forall_impl; [exact Hds|]. intros [[c rec] pt] [Hc Hg]. simpl in *. split; [lia|done].
Qed.

End end_to_end.

(** * What the abstract channel promises *)

(** Exactly once: the first arrival of each counter succeeds, later ones are
    refused as replays. *)
Fixpoint exactly_once (seen : gset N) (sched : list N) : list (outcome SessionError ()) :=
  match sched with
  | [] => []
  | c :: sched =>
      (if bool_decide (c ∈ seen) then Err ReplayRejected else Ok tt) ::
      exactly_once ({[c]} ∪ seen) sched
  end.

Lemma channel_exactly_once sched ch :
  Forall (λ c, c <= MAX_SKIP) sched → Channel.next ch <= MAX_SKIP + 1 →
  (channel_recv_all sched ch).1 = exactly_once (Channel.received ch) sched.
Proof.
  intros Hsched. revert ch; induction Hsched as [|c sched Hc Hsched IH]; intros ch Hn; [done|].
  simpl. unfold Channel.recv.
  assert (Channel.too_old ch c = false) as ->.
  { unfold Channel.too_old, Channel.next in *. destruct (Channel.high ch) as [h|]; [|done].
    rewrite ltb_false; [done|]. lia. }
  rewrite orb_false_r. case_bool_decide as Hin.
  - assert ({[c]} ∪ Channel.received ch = Channel.received ch) as ->
      by (clear - Hin; set_solver).
    specialize (IH ch Hn). destruct (channel_recv_all sched ch) as [rs ch2]. simpl in *.
    by rewrite IH.
  - assert ((Channel.next ch <=? c) &&
            (MAX_SKIP <? Channel.missing ch + (c - Channel.next ch)) = false) as ->.
    { destruct (N.leb_spec (Channel.next ch) c); [|done]. simpl. apply ltb_false.
      unfold Channel.missing. lia. }
    match goal with |- context [channel_recv_all sched ?ch1] => set (ch1' := ch1) end.
    assert (Channel.next ch1' <= MAX_SKIP + 1) as Hn1.
    { unfold ch1', Channel.next in *. simpl. destruct (Channel.high ch); lia. }
    specialize (IH ch1' Hn1). destruct (channel_recv_all sched ch1') as [rs ch2].
    simpl in *. by rewrite IH.
Qed.

(** In order nothing is ever refused. *)
Definition received_upto (n : nat) (ch : Channel.t) : Prop :=
  Channel.wf ch ∧ Channel.next ch = N.of_nat n ∧ size (Channel.received ch) = n.

Lemma channel_recv_next n ch :
  received_upto n ch →
  ∃ ch', Channel.recv (N.of_nat n) ch = (Ok tt, ch') ∧ received_upto (S n) ch'.
Proof.
  intros (Hwf&Hn&Hsz). unfold Channel.recv.
  assert (N.of_nat n ∉ Channel.received ch) as Hnin by (intros ?%Hwf; lia).
  rewrite bool_decide_eq_false_2 by done.
  assert (Channel.too_old ch (N.of_nat n) = false) as ->.
  { unfold Channel.too_old, Channel.next in *. destruct (Channel.high ch); [|done].
    apply ltb_false. lia. }
  rewrite (ltb_false MAX_SKIP) by (unfold Channel.missing; lia). rewrite andb_false_r.
  eexists. split; [done|]. unfold received_upto, Channel.wf, Channel.next in *. simpl.
  rewrite size_union, size_singleton by by apply disjoint_singleton_l.
  split_and!; [|destruct (Channel.high ch); lia|lia].
  intros c [->%elem_of_singleton|Hc%Hwf]%elem_of_union; destruct (Channel.high ch); lia.
Qed.

Lemma channel_in_order k n ch :
  received_upto n ch →
  (channel_recv_all (N.of_nat <$> seq n k) ch).1 = replicate k (Ok tt).
Proof.
  revert n ch; induction k as [|k IH]; intros n ch Hch; [done|].
  destruct (channel_recv_next n ch Hch) as (ch1&Hr&Hch1). specialize (IH _ _ Hch1).
  simpl. rewrite Hr. destruct (channel_recv_all _ ch1) as [rs ch2]. simpl in *. by rewrite IH.
Qed.

Lemma received_upto_empty : received_upto 0 Channel.empty.
Proof. split_and!; [intros c; set_solver|done|apply size_empty]. Qed.

Lemma zip_with_replicate_Ok pts :
  zip_with (λ pt r, (λ _ : (), Data pt) <$> r) pts
    (replicate (length pts) (Ok (E:=SessionError) tt)) = Ok ∘ Data <$> pts.
Proof. induction pts as [|pt pts IH]; [done|]. simpl. by rewrite IH. Qed.

Lemma picks_shift {A} (x : A) l sched : picks (x :: l) (S <$> sched) = picks l sched.
Proof.
  induction sched as [|i sched IH]; [done|]. rewrite fmap_cons, !picks_step, IH. done.
Qed.

Lemma picks_all {A} (l : list A) : picks l (seq 0 (length l)) = l.
Proof.
  induction l as [|x l IH]; [done|]. cbn [length seq]. rewrite <- fmap_S_seq.
  change (picks (x :: l) (0%nat :: (S <$> seq 0 (length l))))
    with (x :: picks (x :: l) (S <$> seq 0 (length l))).
  by rewrite picks_shift, IH.
Qed.

(** * Properties *)

Section properties.
Context `{Crypto} `{Rng} `{Build} `{!CryptoLaws _}.

(** Refinement. For two sessions of one handshake, in either direction, the
    sender encrypts and frames any sequence of 512-byte plaintexts without error,
    and whatever schedule of the records the network presents (dropped,
    duplicated, reordered), the receiver's answers are exactly those of the
    abstract channel: the right plaintext when the channel delivers, otherwise the
    channel's error. *)
Lemma unreliable_delivery_refines a b ga pts :
  fresh_pair a b → len pts + MAX_SKIP <= U64_MAX →
  Forall (λ pt, len pt = DATA_INNER_FIXED) pts →
  ∃ recs st, send_all pts (a, ga) = (Ok recs, st) ∧ length recs = length pts ∧
    ∀ now gb sched, Forall (λ i, i < length pts)%nat sched →
      (recv_all now (picks recs sched) (b, gb)).1 =
        zip_with (λ pt r, (λ _, Data pt) <$> r) (picks pts sched)
          (channel_recv_all (N.of_nat <$> sched) Channel.empty).1.
Proof. apply delivery_refines. Qed.

(** C7: exactly-once delivery in any order. Up to [MAX_SKIP + 1] records may
    arrive in any order and any number of times each: the first arrival of each
    yields its plaintext and every later one is rejected as a replay. *)
Theorem any_order_exactly_once a b ga pts :
  fresh_pair a b → len pts <= MAX_SKIP + 1 →
  Forall (λ pt, len pt = DATA_INNER_FIXED) pts →
  ∃ recs st, send_all pts (a, ga) = (Ok recs, st) ∧ length recs = length pts ∧
    ∀ now gb sched, Forall (λ i, i < length pts)%nat sched →
      (recv_all now (picks recs sched) (b, gb)).1 =
        zip_with (λ pt r, (λ _, Data pt) <$> r) (picks pts sched)
          (exactly_once ∅ (N.of_nat <$> sched)).
Proof.
  intros Hpair Hlen Hpts.
  destruct (delivery_refines a b ga pts) as (recs&st&Hs&Hl&Hr);
    [done|unfold MAX_SKIP, U64_MAX in *; lia|done|].
  exists recs, st. split_and!; [done..|]. intros now gb sched Hsched.
  rewrite Hr by done. f_equal. apply channel_exactly_once; [|by vm_compute].
  apply Forall_fmap. eapply Forall_impl; [exact Hsched|]. unfold len in Hlen. simpl. lia.
Qed.

(** In-order delivery has no length limit short of counter exhaustion: every
    record sent is decrypted to its plaintext. *)
Lemma in_order_delivery a b ga pts :
  fresh_pair a b → len pts + MAX_SKIP <= U64_MAX →
  Forall (λ pt, len pt = DATA_INNER_FIXED) pts →
  ∃ recs st, send_all pts (a, ga) = (Ok recs, st) ∧
    ∀ now gb, (recv_all now recs (b, gb)).1 = Ok ∘ Data <$> pts.
Proof.
  intros Hpair Hlen Hpts. destruct (delivery_refines a b ga pts) as (recs&st&Hs&Hl&Hr);
    [done..|].
  exists recs, st. split; [done|]. intros now gb.
  specialize (Hr now gb (seq 0 (length pts))).
  rewrite <- Hl in Hr at 2. rewrite !picks_all in Hr. rewrite Hr.
  - rewrite (channel_in_order _ 0) by apply received_upto_empty. apply zip_with_replicate_Ok.
  - apply Forall_forall. intros i Hi%elem_of_seq. lia.
Qed.

End properties.

(** ** Concrete instances *)

Lemma toy_fresh_pair : fresh_pair toy_alice toy_bob.
Proof.
  exists toy_okm, toy_sid, 7, toy_alice_sk, toy_bob_sk, (Some (toy_pub toy_bob_sk)),
    (Some (toy_pub toy_alice_sk)), (DeviceStateAnchorV1.new_v0 901),
    (DeviceStateAnchorV1.new_v0 901).
  split_and!; [by vm_compute|done|]. left. split; vm_compute; reflexivity.
Qed.

Definition toy_pts : list bytes := [zeros 512; replicate 512 x05; replicate 512 x06].

Lemma any_order_exactly_once_witness :
  ∃ recs st, send_all toy_pts (toy_alice, toy_seed 3) = (Ok recs, st) ∧
    ∀ now gb, (recv_all now (picks recs [2; 0; 2; 1]%nat) (toy_bob, gb)).1 =
      [Ok (Data (replicate 512 x06)); Ok (Data (zeros 512)); Err ReplayRejected;
       Ok (Data (replicate 512 x05))].
Proof.
  destruct (any_order_exactly_once toy_alice toy_bob (toy_seed 3) toy_pts)
    as (recs&st&Hs&_&Hr); [apply toy_fresh_pair|by vm_compute|by repeat constructor|].
  exists recs, st. split; [exact Hs|]. intros now gb. rewrite Hr; [reflexivity|].
  repeat constructor; simpl; lia.
Defined.

