(* ===== verification/Duplex.v ===== *)
(** Both directions of a session at once: two peers of one handshake that send and
    receive in any interleaving over a network that may drop, duplicate, delay and
    reorder records, specified by two independent abstract channels. *)

From S2P Require Import Prelude Wire Pad Crypto Handshake Payload Ratchet Skipped Blob.
From S2P Require Import Engine Toy EngineInv EngineWf Delivery EndToEnd.
Import Session.

(** What happens, and what can be seen of it. A record is delivered by the position
    at which its sender produced it, as often and as late as the network likes. *)
Inductive event :=
  | Send (who : side) (plaintext512 : bytes)
  | Deliver (to : side) (i : nat) (now_ticks : N).

Inductive observation :=
  | Sent (r : outcome SessionError ())
  | Delivered (r : outcome SessionError InboundInner)
  | NothingThere.

Fixpoint run_events {S O} (step : event → S → O * S) (evs : list event) (st : S) : list O * S :=
  match evs with
  | [] => ([], st)
  | ev :: evs =>
      let '(o, st1) := step ev st in
      let '(os, st2) := run_events step evs st1 in
      (o :: os, st2)
  end.

(** * The specification *)

(** One side: the plaintexts it has sent, and the channel it receives on. *)
Module Endpoint.
Record t := make { sent : list bytes; inbox : Channel.t }.

Definition empty : t := {| sent := []; inbox := Channel.empty |}.

Definition send (pt : bytes) (st : t * t) : observation * (t * t) :=
  let '(me, peer) := st in
  (Sent (Ok tt), ({| sent := sent me ++ [pt]; inbox := inbox me |}, peer)).

Definition deliver (i : nat) (st : t * t) : observation * (t * t) :=
  let '(me, peer) := st in
  match sent peer !! i with
  | None => (NothingThere, st)
  | Some pt =>
      let '(r, ch) := Channel.recv (N.of_nat i) (inbox me) in
      (Delivered ((λ _, Data pt) <$> r), ({| sent := sent me; inbox := ch |}, peer))
  end.

Definition step (ev : event) : t * t → observation * (t * t) :=
  match ev with
  | Send who pt => from_side who (send pt)
  | Deliver to i _ => from_side to (deliver i)
  end.

End Endpoint.

(** * The implementation *)

Section duplex.
Context `{Crypto} `{Rng} `{Build}.

(** A session with its generator and the records it has put on the network. *)
Record node := Node { state : t * rng_state; outbox : list OuterRecord.t }.

Definition node_send (pt : bytes) (st : node * node) : observation * (node * node) :=
  let '(me, peer) := st in
  let '(r, s') := encrypt_data_plain512_outer pt (state me) in
  match r with
  | Ok (h, payload) =>
      let rec := {| OuterRecord.header := h; OuterRecord.payload := payload |} in
      (Sent (Ok tt), ({| state := s'; outbox := outbox me ++ [rec] |}, peer))
  | Err e => (Sent (Err e), ({| state := s'; outbox := outbox me |}, peer))
  | Panic => (Sent Panic, ({| state := s'; outbox := outbox me |}, peer))
  end.

Definition node_deliver (i : nat) (now : N) (st : node * node) : observation * (node * node) :=
  let '(me, peer) := st in
  match outbox peer !! i with
  | None => (NothingThere, st)
  | Some rec =>
      let '(r, s') := handle_inbound_outer rec now (state me) in
      (Delivered r, ({| state := s'; outbox := outbox me |}, peer))
  end.

Definition net_step (ev : event) : node * node → observation * (node * node) :=
  match ev with
  | Send who pt => from_side who (node_send pt)
  | Deliver to i now => from_side to (node_deliver i now)
  end.

(** * The two halves of a session do not disturb each other *)

Definition send_view (s : t) : bytes * N * bytes * bytes * N * N :=
  (session_id s, epoch s, my_ratchet_pub s, send_ck s, send_sym_idx s, send_wire_counter s).
Definition recv_view (s : t) :=
  (session_id s, epoch s, mode s, peer_ratchet_pub s, recv_ck s, recv_sym_idx s, skipped s,
   recv_high_water s, decrypted_counters s).

Lemma send_inv_view sid ep p ck0 n s s' :
  send_view s' = send_view s → send_inv sid ep p ck0 n s → send_inv sid ep p ck0 n s'.
Proof. unfold send_view. intros Hv []. simplify_eq/=. by split; congruence. Qed.

Lemma recv_inv_view sid ep p ck0 ch s s' :
  recv_view s' = recv_view s → recv_inv sid ep p ck0 ch s → recv_inv sid ep p ck0 ch s'.
Proof.
  unfold recv_view. intros Hv [? ? ? ? ? ? ? (?&?&?) ? ?]. injection Hv as ?????????.
  split; unfold at_pos;
    repeat match goal with Hx : ?f s' = ?f s |- context [?f s'] => rewrite Hx end;
    try done; by split_and!.
Qed.

(** Sending leaves the receiving half alone. *)
Lemma send_step_recv_view v : preserves (λ s, recv_view s = v) send_step_mk.
Proof. unfold send_step_mk. by pres. Qed.
Lemma bump_recv_view v : preserves (λ s, recv_view s = v) bump_send_counter.
Proof. unfold bump_send_counter. by pres. Qed.

Lemma encrypt_recv_view pt v :
  preserves (on_sess (λ s, recv_view s = v)) (encrypt_data_plain512_outer pt).
Proof.
  unfold encrypt_data_plain512_outer. pres; auto using send_step_recv_view, bump_recv_view.
Qed.

(** Receiving under the known ratchet key leaves the sending half alone. *)
Definition sending (p : bytes) (v : bytes * N * bytes * bytes * N * N) (s : t) : Prop :=
  send_view s = v ∧ from_option (λ q, q = p) True (peer_ratchet_pub s).

Lemma bind_sending p v : preserves (on_sess (sending p v)) (bind_or_dh_ratchet p).
Proof.
  intros [s g] Hs. pose proof Hs as [Hv Hp]. simpl in *. unfold bind_or_dh_ratchet.
  erewrite st_bind_Ok by done. cbv beta iota.
  destruct (peer_ratchet_pub s) as [q|]; [|done]. simpl in Hp. subst q.
  by rewrite bool_decide_eq_true_2.
Qed.

Lemma recv_step_sending p v : preserves (sending p v) recv_step_mk.
Proof. unfold recv_step_mk. by pres. Qed.

Lemma fill_gap_sending p v q b c : preserves (sending p v) (fill_recv_gap_to_counter q b c).
Proof.
  assert (∀ cnt n, preserves (sending p v) (fill_gap_loop q cnt n)) as Hloop.
  { intros cnt n. revert cnt; induction n as [|n IH]; intros cnt; simpl; pres;
      auto using recv_step_sending.
    intros s1 Hs1. unfold on_skipped, st_zoom.
    by destruct (SkippedKeyCache.insert _ _ _ _) as [[x|e|] c']. }
  unfold fill_recv_gap_to_counter. pres; apply Hloop.
Qed.

Lemma recv_message_key_sending p v q c : preserves (sending p v) (recv_message_key q c).
Proof.
  unfold recv_message_key. apply preserves_bind_get. intros s1 Hs1.
  destruct (SkippedKeyCache.take _ _ _) as [found rest].
  pres; auto using recv_step_sending, fill_gap_sending.
Qed.

Lemma decrypt_data_sending p v h ct :
  Header.ratchet_pub h = p → preserves (on_sess (sending p v)) (decrypt_data h ct).
Proof.
  intros Hp. unfold decrypt_data. rewrite Hp.
  pres; auto using bind_sending, recv_message_key_sending.
Qed.

Lemma handle_inbound_sending p v rec now :
  Header.typ (OuterRecord.header rec) = 3 → Header.ratchet_pub (OuterRecord.header rec) = p →
  preserves (on_sess (sending p v)) (handle_inbound_outer rec now).
Proof.
  intros Ht Hp. unfold handle_inbound_outer.
  apply preserves_bind.
  { apply preserves_on_session, preserves_modify. intros s Hs.
    unfold maybe_expire_reset_pending. cbv zeta. by case_match. }
  intros _. pres_step. pres_step. pres_step. pres_step. pres_step. cbv zeta. rewrite Ht.
  rewrite N.eqb_refl. unfold decrypt_data_outer. pres. by apply decrypt_data_sending.
Qed.

(** * The simulation *)

(** One direction: what [x] has sent, and [y]'s receiving half. *)
Definition direction (log : list bytes) (ch : Channel.t) (x y : node) : Prop :=
  ∃ sid ep p ck0, len p = 32 ∧ u32_ok ep ∧
    send_inv sid ep p ck0 (len log) (state x).1 ∧ recv_inv sid ep p ck0 ch (state y).1 ∧
    length (outbox x) = length log ∧
    ∀ i rec pt, outbox x !! i = Some rec → log !! i = Some pt →
      genuine_outer sid ep p ck0 (N.of_nat i) rec pt.

Definition sim (sp : Endpoint.t * Endpoint.t) (st : node * node) : Prop :=
  direction (Endpoint.sent sp.1) (Endpoint.inbox sp.2) st.1 st.2 ∧
  direction (Endpoint.sent sp.2) (Endpoint.inbox sp.1) st.2 st.1.

Lemma sim_swap sp st : sim sp st → sim (swap sp) (swap st).
Proof. intros []. by split. Qed.

(** Nobody has sent more than [n] records. *)
Definition within (n : N) (sp : Endpoint.t * Endpoint.t) : Prop :=
  len (Endpoint.sent sp.1) <= n ∧ len (Endpoint.sent sp.2) <= n.

Section laws.
Context `{!CryptoLaws _}.

Lemma direction_send log ch x y pt :
  direction log ch x y → len log < U64_MAX → len pt = DATA_INNER_FIXED →
  ∃ h payload s',
    encrypt_data_plain512_outer pt (state x) = (Ok (h, payload), s') ∧
    recv_view s'.1 = recv_view (state x).1 ∧
    direction (log ++ [pt]) ch
      {| state := s'; outbox := outbox x ++
           [{| OuterRecord.header := h; OuterRecord.payload := payload |}] |} y.
Proof.
  intros (sid&ep&p&ck0&Hp&Hep&Hs&Hr&Hl&Hg) Hn Hpt. destruct (state x) as [s g] eqn:Hx.
  destruct (encrypt_data_outer_genuine sid ep p ck0 Hp (len log) s g pt Hs Hn Hpt)
    as (h&payload&s'&g'&He&Hgen&Hs').
  exists h, payload, (s', g'). split; [done|]. split.
  { pose proof (preserves_snd _ _ (s, g) (encrypt_recv_view pt (recv_view s)) eq_refl) as Hv.
    by rewrite He in Hv. }
  exists sid, ep, p, ck0. split_and!; [done|done| |done| |].
  - simpl. by rewrite len_app, len_cons, len_nil.
  - simpl. rewrite !length_app. simpl. lia.
  - simpl. intros i rec pt' Hi Hi'. apply lookup_app_Some in Hi as [Hi|[Hge Hi]].
    + apply (Hg i); [done|]. apply lookup_app_Some in Hi' as [?|[? _]]; [done|].
      apply lookup_lt_Some in Hi. lia.
    + apply lookup_app_Some in Hi' as [Hi'%lookup_lt_Some|[_ Hi']]; [lia|].
      apply list_lookup_singleton_Some in Hi as [Hz <-], Hi' as [_ <-].
      replace (N.of_nat i) with (len log) by (unfold len; lia). done.
Qed.

Lemma direction_deliver log ch x y i rec pt now :
  direction log ch x y → outbox x !! i = Some rec → log !! i = Some pt →
  N.of_nat i + MAX_SKIP <= U64_MAX →
  ∃ s', handle_inbound_outer rec now (state y) =
          ((λ _, Data pt) <$> (Channel.recv (N.of_nat i) ch).1, s') ∧
    send_view s'.1 = send_view (state y).1 ∧
    ∀ ob, direction log (Channel.recv (N.of_nat i) ch).2 x {| state := s'; outbox := ob |}.
Proof.
  intros (sid&ep&p&ck0&Hp&Hep&Hs&Hr&Hl&Hg) Hi Hi' Hn. destruct (state y) as [s g] eqn:Hy.
  specialize (Hg i rec pt Hi Hi') as Hgen.
  destruct (handle_inbound_refines sid ep p ck0 Hp ch s g (N.of_nat i) rec now pt)
    as (s'&He&Hr'); [done..|].
  exists (s', g). split; [done|]. split.
  { destruct Hgen as (nonce&ct&[]&_).
    pose proof (preserves_snd _ _ (s, g)
      (handle_inbound_sending p (send_view s) rec now ltac:(done) ltac:(done))
      (conj eq_refl (ri_peer _ _ _ _ _ _ Hr))) as [Hv _]. by rewrite He in Hv. }
  intros ob. exists sid, ep, p, ck0. by split_and!.
Qed.

Lemma direction_peer log ch x y y' :
  recv_view (state y').1 = recv_view (state y).1 → direction log ch x y → direction log ch x y'.
Proof.
  intros Hv (sid&ep&p&ck0&?&?&?&Hr&?&?). exists sid, ep, p, ck0.
  apply (recv_inv_view _ _ _ _ _ _ (state y').1) in Hr; [|done]. by split_and!.
Qed.

Lemma direction_sender log ch x x' y :
  send_view (state x').1 = send_view (state x).1 → outbox x' = outbox x →
  direction log ch x y → direction log ch x' y.
Proof.
  intros Hv Ho (sid&ep&p&ck0&?&?&Hs&?&?&?). exists sid, ep, p, ck0. rewrite Ho.
  apply (send_inv_view _ _ _ _ _ _ (state x').1) in Hs; [|done]. by split_and!.
Qed.

(** Both local actions simulate their specification. *)
Definition simulates {O} (n : N) (f : Endpoint.t * Endpoint.t → O * (Endpoint.t * Endpoint.t))
    (g : node * node → O * (node * node)) : Prop :=
  ∀ sp st, sim sp st → within n sp →
    (g st).1 = (f sp).1 ∧ sim (f sp).2 (g st).2 ∧ within (n + 1) (f sp).2.

Lemma simulates_side {O} n who f g : simulates (O:=O) n f g →
  simulates n (from_side who f) (from_side who g).
Proof.
  intros Hfg sp st Hs Hn. destruct who; [by apply Hfg|]. simpl.
  apply sim_swap in Hs. specialize (Hfg _ _ Hs (conj (proj2 Hn) (proj1 Hn))).
  destruct (f (swap sp)) as [o1 sp'], (g (swap st)) as [o2 st']. simpl in *.
  destruct Hfg as (?&?%sim_swap&[? ?]). by split_and!.
Qed.

Lemma send_simulates n pt :
  n < U64_MAX → len pt = DATA_INNER_FIXED → simulates n (Endpoint.send pt) (node_send pt).
Proof.
  intros Hn Hpt [a b] [x y] [Hxy Hyx] [Ha Hb]. simpl in *.
  destruct (direction_send _ _ _ _ pt Hxy) as (h&payload&s'&He&Hv&Hd); [lia|done|].
  rewrite He. simpl. split; [done|]. split; [split; [done|]|split; simpl].
  - simpl. by eapply direction_peer.
  - rewrite len_app, len_cons, len_nil. lia.
  - lia.
Qed.

Lemma deliver_simulates n i now :
  n + MAX_SKIP <= U64_MAX → simulates n (Endpoint.deliver i) (node_deliver i now).
Proof.
  intros Hn [a b] [x y] [Hxy Hyx] [Ha Hb]. simpl in *.
  pose proof Hyx as (?&?&?&?&_&_&_&_&Hl&_).
  destruct (Endpoint.sent b !! i) as [pt|] eqn:Hi.
  - pose proof (lookup_lt_Some _ _ _ Hi) as Hlt.
    destruct (lookup_lt_is_Some_2 (outbox y) i) as [rec Hrec]; [lia|]. rewrite Hrec.
    destruct (direction_deliver _ _ _ _ i rec pt now Hyx Hrec Hi) as (s'&He&Hv&Hd);
      [unfold len in Hb; lia|].
    rewrite He. destruct (Channel.recv (N.of_nat i) (Endpoint.inbox a)) as [r ch]. simpl in *.
    split; [done|]. split; [split; [|apply Hd]|split; simpl; lia].
    by eapply direction_sender.
  - assert (outbox y !! i = None) as ->
      by (apply lookup_ge_None in Hi; apply lookup_ge_None; lia).
    split; [done|]. split; [done|split; simpl; lia].
Qed.

(** Whole runs. *)
Definition event_ok (ev : event) : Prop :=
  match ev with Send _ pt => len pt = DATA_INNER_FIXED | Deliver _ _ _ => True end.

Lemma net_run_simulates evs n sp st :
  sim sp st → within n sp → Forall event_ok evs → n + len evs + MAX_SKIP <= U64_MAX →
  (run_events net_step evs st).1 = (run_events Endpoint.step evs sp).1.
Proof.
  intros Hs Hn Hevs. revert n sp st Hs Hn.
  induction Hevs as [|ev evs Hev Hevs IH]; intros n sp st Hs Hn Hmax; [done|].
  rewrite len_cons in Hmax. simpl.
  assert (simulates n (Endpoint.step ev) (net_step ev)) as Hstep.
  { destruct ev as [who pt|to i now]; apply simulates_side;
      [apply send_simulates; [unfold MAX_SKIP in *; lia|done]|apply deliver_simulates; lia]. }
  destruct (Hstep sp st Hs Hn) as (Ho&Hs'&Hn').
  destruct (Endpoint.step ev sp) as [o1 sp'], (net_step ev st) as [o2 st']. simpl in *.
  specialize (IH (n + 1) sp' st' Hs' Hn' ltac:(lia)).
  destruct (run_events net_step evs st') as [os1 st2].
  destruct (run_events Endpoint.step evs sp') as [os2 sp2]. simpl in *. by subst.
Qed.

Lemma fresh_direction a b ga gb :
  fresh_pair a b →
  direction [] Channel.empty {| state := (a, ga); outbox := [] |}
    {| state := (b, gb); outbox := [] |}.
Proof.
  intros (sid&ep&p&ck0&Hep&Hp&Hs&Hr)%fresh_pair_inv. exists sid, ep, p, ck0.
  by split_and!.
Qed.

End laws.
End duplex.

(** * Properties *)

(** C1: a session is a pair of channels. Two peers of one handshake may send and
    receive in any interleaving while the network delivers any record any number of
    times, late, out of order or never: everything either side observes is what two
    independent abstract channels, one per direction, would show. Sending always
    succeeds, a delivery yields the plaintext that was sent at that position or the
    channel's error, and neither direction ever disturbs the other. *)
Theorem duplex_session_refines `{Crypto} `{Rng} `{Build} `{!CryptoLaws _} a b ga gb evs :
  fresh_pair a b → fresh_pair b a → Forall event_ok evs → len evs + MAX_SKIP <= U64_MAX →
  (run_events net_step evs ({| state := (a, ga); outbox := [] |},
                            {| state := (b, gb); outbox := [] |})).1 =
  (run_events Endpoint.step evs (Endpoint.empty, Endpoint.empty)).1.
Proof.
  intros Hab Hba Hevs Hmax. apply (net_run_simulates evs 0); [|done|done|lia].
  split; by apply fresh_direction.
Qed.

Lemma toy_fresh_pair_back : fresh_pair toy_bob toy_alice.
Proof.
  exists toy_okm, toy_sid, 7, toy_bob_sk, toy_alice_sk, (Some (toy_pub toy_alice_sk)),
    (Some (toy_pub toy_bob_sk)), (DeviceStateAnchorV1.new_v0 901),
    (DeviceStateAnchorV1.new_v0 901).
  split_and!; [by vm_compute|done|]. right. split; vm_compute; reflexivity.
Qed.

(** Alice's second record overtakes her first, Bob answers in between, and Bob sees
    the second one again. *)
Definition toy_exchange : list event :=
  [Send SideA (zeros 512); Send SideA (replicate 512 x05); Deliver SideB 1 0;
   Send SideB (replicate 512 x06); Deliver SideB 0 0; Deliver SideA 0 0;
   Deliver SideB 1 0; Deliver SideA 3 0].

Lemma duplex_session_refines_witness :
  (run_events net_step toy_exchange
     ({| state := (toy_alice, toy_seed 1); outbox := [] |},
      {| state := (toy_bob, toy_seed 2); outbox := [] |})).1 =
  [Sent (Ok tt); Sent (Ok tt); Delivered (Ok (Data (replicate 512 x05))); Sent (Ok tt);
   Delivered (Ok (Data (zeros 512))); Delivered (Ok (Data (replicate 512 x06)));
   Delivered (Err ReplayRejected); NothingThere].
Proof.
  rewrite (duplex_session_refines toy_alice toy_bob (toy_seed 1) (toy_seed 2) toy_exchange).
  - reflexivity.
  - apply toy_fresh_pair.
  - apply toy_fresh_pair_back.
  - by repeat constructor.
  - by vm_compute.
Defined.
