(* ===== verification/Restart.v ===== *)
(** Persistence of a session: the export / import round trip, the integrity
    commitment, and what replay protection survives a restart. *)

From S2P Require Import Prelude Wire Pad Crypto Handshake Payload Ratchet Skipped Blob.
From S2P Require Import Engine Toy EngineInv EngineWf.
Import Session.

Section restart.
Context `{Crypto} `{Rng} `{Build}.

(** * Export and import *)

(** What survives: the mode falls back to [Active], the set of decrypted counters
    is forgotten, and the two in-band markers (an all-zero peer key, a high-water
    mark of [u64::MAX]) are read back as absent. *)
Definition restored (s : t) : t :=
  set_mode (Active (epoch s))
    (set_decrypted_counters ∅
      (set_recv_high_water
        (if recv_hw_or_sentinel s =? RECV_HIGH_WATER_NONE_SENTINEL then None
         else Some (recv_hw_or_sentinel s))
        (set_peer_ratchet_pub
          (if bool_decide (default (zeros 32) (peer_ratchet_pub s) = zeros 32) then None
           else Some (default (zeros 32) (peer_ratchet_pub s))) s))).

Definition parsed_of (s : t) : ParsedRatchetBlobV2 :=
  {| p_role := role s;
     p_rk := root_key s;
     p_cks := send_ck s;
     p_ckr := recv_ck s;
     p_dh_ratchet_sk := ratchet_sk s;
     p_dh_ratchet_pk := my_ratchet_pub s;
     p_peer_ratchet_pub := default (zeros 32) (peer_ratchet_pub s);
     p_send_count_be := send_wire_counter s;
     p_recv_high_water_be := recv_hw_or_sentinel s;
     p_send_sym_idx_be := send_sym_idx s;
     p_recv_sym_idx_be := recv_sym_idx s;
     p_skipped := skipped s |}.

Lemma recv_hw_fits s : session_wf s → u64_ok (recv_hw_or_sentinel s).
Proof.
  intros Hs. pose proof (wf_window s Hs) as Hw. unfold window_wf in Hw. simpl in Hw.
  unfold recv_hw_or_sentinel. destruct (recv_high_water s); [apply Hw|by vm_compute].
Qed.

Lemma parsed_of_wf s : session_wf s → blob_wf (parsed_of s).
Proof.
  intros Hs. pose proof (recv_hw_fits s Hs). destruct Hs. unfold blob_wf. simpl.
  split_and!; try done.
  destruct (peer_ratchet_pub s); [done|apply len_zeros].
Qed.

Lemma import_export s : session_wf s → import_state (export_state s) = Ok (restored s).
Proof.
  intros Hs. pose proof (decode_blob_v2_encode _ (parsed_of_wf s Hs)) as Hd.
  unfold import_state. cbn [export_state e_ratchet_blob].
  change (encode_blob_v2 _ _ _ _ _ _ _ _ _ _ _ _) with (encode_parsed (parsed_of s)).
  rewrite Hd. done.
Qed.

(** A default that marks absence. *)
Lemma default_of_marker {A} `{EqDecision A} (d : A) (o : option A) :
  default d (if bool_decide (default d o = d) then None else Some (default d o)) = default d o.
Proof. by case_bool_decide. Qed.

Lemma eqb_bool_decide x y : (x =? y) = bool_decide (x = y).
Proof. destruct (N.eqb_spec x y); by case_bool_decide. Qed.

Lemma default_marker_cases {A} `{EqDecision A} (d : A) (o : option A) :
  (if bool_decide (default d o = d) then None else Some (default d o)) =
  (if bool_decide (o = Some d) then None else o).
Proof. destruct o; simpl; repeat case_bool_decide; congruence. Qed.

(** Exporting what was imported gives the same export. *)
Lemma restored_export s :
  export_state (restored s) = export_state s ∧
  persistence_equivalence_digest (restored s) = persistence_equivalence_digest s.
Proof.
  assert (export_state (restored s) = export_state s) as He.
  { unfold export_state, restored, recv_hw_or_sentinel. simpl.
    rewrite eqb_bool_decide, !default_of_marker. done. }
  split; [done|]. unfold persistence_equivalence_digest. by rewrite He.
Qed.

(** * The integrity commitment *)

(** The fields under the commitment. *)
Definition committed (s : t) :
    bytes * N * bytes * bytes * bytes * bytes * bytes * N * N * N * N :=
  (session_id s, epoch s, root_key s, send_ck s, recv_ck s, my_ratchet_pub s,
   default (zeros 32) (peer_ratchet_pub s), send_wire_counter s, recv_hw_or_sentinel s,
   send_sym_idx s, recv_sym_idx s).

Lemma len_peer_default s :
  session_wf s → len (default (zeros 32) (peer_ratchet_pub s)) = 32.
Proof.
  intros Hs. pose proof (wf_peer_ratchet_pub s Hs).
  destruct (peer_ratchet_pub s); [done|apply len_zeros].
Qed.

Lemma len_preimage s : session_wf s → len (session_snapshot_preimage s) = 212.
Proof.
  intros Hs. pose proof (len_peer_default s Hs). destruct Hs.
  unfold session_snapshot_preimage. cbv zeta. len_goal.
Qed.

Lemma preimage_inj s1 s2 :
  session_wf s1 → session_wf s2 →
  session_snapshot_preimage s1 = session_snapshot_preimage s2 → committed s1 = committed s2.
Proof.
  intros Hs1 Hs2. pose proof (len_peer_default s1 Hs1). pose proof (len_peer_default s2 Hs2).
  pose proof (recv_hw_fits s1 Hs1). pose proof (recv_hw_fits s2 Hs2).
  destruct Hs1, Hs2. unfold session_snapshot_preimage, committed. cbv zeta. intros Heq.
  do 10 (apply app_inj_len in Heq as [? Heq]; [|len_goal]).
  repeat match goal with
  | He : be_bytes ?w _ = be_bytes ?w _ |- _ => apply be_bytes_inj in He; [|done..]
  end.
  congruence.
Qed.

(** What [recompute_anchor_commitment] hashes. *)
Definition commitment_input (s : t) : bytes :=
  concat [bs "libgary-v0/state-commit-v1"; be_bytes 2 1; be_bytes 4 1;
          session_snapshot_preimage s;
          be_bytes 8 (DeviceStateAnchorV1.global_epoch_be (anchor s))].

Lemma verify_anchor_eq s :
  verify_anchor_commitment s = true ↔
    fit 32 (sha256 (commitment_input s)) = DeviceStateAnchorV1.state_commitment (anchor s).
Proof. apply bool_decide_eq_true. Qed.

Lemma commitment_input_inj s1 s2 :
  session_wf s1 → session_wf s2 → commitment_input s1 = commitment_input s2 →
  committed s1 = committed s2.
Proof.
  intros Hs1 Hs2. unfold commitment_input. cbn [concat]. intros Heq.
  do 3 apply app_inv_head in Heq. apply app_inj_len in Heq as [Heq _]; [|by rewrite !len_preimage].
  by apply preimage_inj.
Qed.

Lemma restored_committed s :
  session_snapshot_preimage (restored s) = session_snapshot_preimage s.
Proof.
  unfold session_snapshot_preimage, restored, recv_hw_or_sentinel. simpl.
  by rewrite eqb_bool_decide, !default_of_marker.
Qed.

(** * DATA replay across restarts *)

(** Counter [c] under ratchet key [p] is behind the high-water mark and its key is
    not cached: no DATA record can be decrypted for it any more. *)
Definition hw_low (c : N) (high : option N) : Prop :=
  ∃ hw, high = Some hw ∧ c <= hw.
Definition absent (p : bytes) (c : N) (s : t) : Prop :=
  cache_map (skipped s) !! cache_key p c = None.
Definition low (p : bytes) (c : N) (s : t) : Prop :=
  hw_low c (recv_high_water s) ∧ absent p c s.

(** Whatever depends on the frame only is kept by what keeps the frame. *)
Lemma preserves_of_frame {A} Q (m : ST t SessionError A) :
  (∀ v, preserves (λ s, frame s = v) m) → preserves (λ s, Q (frame s)) m.
Proof.
  intros Hm s Hs. specialize (Hm (frame s) s eq_refl).
  destruct (m s) as [[a|e|] s']; by rewrite Hm.
Qed.

Section low.
Variables (p : bytes) (c : N).
Hypothesis (Hp : len p = 32).

Lemma send_step_mk_low : preserves (low p c) send_step_mk.
Proof. unfold send_step_mk. pres; done. Qed.

Lemma recv_step_mk_low : preserves (low p c) recv_step_mk.
Proof. unfold recv_step_mk. pres; done. Qed.

Lemma bump_send_counter_low : preserves (low p c) bump_send_counter.
Proof. unfold bump_send_counter. pres; done. Qed.

Lemma apply_inbound_dh_ratchet_low q :
  preserves (on_sess (low p c)) (apply_inbound_dh_ratchet q).
Proof. unfold apply_inbound_dh_ratchet. pres; done. Qed.

Lemma bind_or_dh_ratchet_low q : preserves (on_sess (low p c)) (bind_or_dh_ratchet q).
Proof. unfold bind_or_dh_ratchet. pres; auto using apply_inbound_dh_ratchet_low. Qed.

(** A gap fill touches only the counters it skips. *)
Lemma fill_gap_loop_absent q cnt n :
  len q = 32 → u64_ok c → (c < cnt ∨ cnt + N.of_nat n <= c) → cnt + N.of_nat n <= 2 ^ 64 →
  preserves (absent p c) (fill_gap_loop q cnt n).
Proof.
  intros Hq Hc. revert cnt; induction n as [|n IH]; intros cnt Hout Hmax; simpl;
    [apply preserves_ret|].
  apply preserves_bind; [unfold recv_step_mk; pres; done|intros mk].
  apply preserves_bind; [|intros _; apply IH; lia].
  intros s Hnone. unfold on_skipped, st_zoom. rewrite cache_insert_eq.
  destruct (_ <=? _); [done|]. destruct (bool_decide _); [done|].
  unfold absent. simpl. rewrite lookup_insert_ne; [done|].
  intros [_ Heq]%cache_key_inj; [lia|done..|unfold fits; simpl; lia|done].
Qed.

Lemma fill_gap_loop_low q cnt n :
  len q = 32 → u64_ok c → c < cnt → cnt + N.of_nat n <= 2 ^ 64 →
  preserves (low p c) (fill_gap_loop q cnt n).
Proof.
  intros. apply preserves_and; [|apply fill_gap_loop_absent; auto].
  apply (preserves_of_frame (λ v, hw_low c v.2.2)), fill_gap_loop_frame.
Qed.

Lemma recv_message_key_low q c' :
  len q = 32 → u64_ok c → u64_ok c' → preserves (low p c) (recv_message_key q c').
Proof.
  intros Hq Hc Hc'. unfold fits in Hc'. simpl in Hc'.
  unfold recv_message_key. apply preserves_bind_get.
  intros s ((hw&Hhw&Hle)&Hnone). simpl in Hhw |- *.
  apply preserves_bind.
  { apply preserves_modify. intros s' [? Hn']. split; [done|]. unfold absent. simpl.
    apply lookup_delete_None. by right. }
  intros _. rewrite Hhw.
  destruct (cache_map (skipped s) !! cache_key q c'); [apply preserves_ret|].
  destruct (N.leb_spec c' hw); [apply preserves_fail|]. cbv zeta.
  apply preserves_bind; [|intros _; apply recv_step_mk_low].
  unfold fill_recv_gap_to_counter, saturating_add, U64_MAX in *. pres.
  apply fill_gap_loop_low; [done|done|lia|lia].
Qed.

(** Once a message key has been handed out it is not in the cache. *)
Lemma recv_message_key_taken :
  u64_ok c → triple (λ _, True) (recv_message_key p c) (λ _, absent p c) (λ _, True).
Proof.
  intros Hc. pose proof Hc as Hc'. unfold fits in Hc'. simpl in Hc'.
  assert (∀ base, preserves (absent p c) (fill_recv_gap_to_counter p base c)) as Hfill.
  { intros base. unfold fill_recv_gap_to_counter. destruct (N.leb_spec c base); pres.
    apply fill_gap_loop_absent; [done|done|lia|lia]. }
  assert (preserves (absent p c) recv_step_mk) as Hstep by (unfold recv_step_mk; pres; done).
  intros s _. unfold recv_message_key. rewrite st_bind_eq. cbn [st_get].
  unfold SkippedKeyCache.take. cbv zeta iota. rewrite st_bind_eq. cbn [st_modify].
  set (s1 := set_skipped _ s). assert (absent p c s1) as Hs1 by apply lookup_delete_eq.
  match goal with |- match ?m s1 with _ => _ end =>
    assert (preserves (absent p c) m) as Hm end.
  { pres; auto. }
  specialize (Hm s1 Hs1). by destruct (_ s1) as [[a|e|] s'].
Qed.

Lemma accept_counter_low c' s : low p c s → low p c (accept_counter c' s).
Proof.
  intros ((hw&Hhw&Hle)&Hnone). split; [|done]. simpl. rewrite Hhw.
  eexists. split; [done|]. lia.
Qed.

Lemma decrypt_data_low h ct :
  u64_ok c → Header.wf h →
  preserves (on_sess (low p c)) (decrypt_data h ct).
Proof.
  intros Hc (_&_&_&_&_&?&?). unfold decrypt_data.
  pres; eauto using bind_or_dh_ratchet_low, recv_message_key_low, accept_counter_low.
Qed.

Lemma decrypt_rekey_low h b :
  preserves (on_sess (low p c)) (decrypt_rekey_ctrl_outer h b).
Proof.
  unfold decrypt_rekey_ctrl_outer.
  pres; eauto using bind_or_dh_ratchet_low, accept_counter_low.
Qed.

Lemma maybe_expire_low now s : low p c s → low p c (maybe_expire_reset_pending now s).
Proof.
  intros Hs. unfold maybe_expire_reset_pending. cbv zeta.
  by destruct (match mode s with Active _ => _ | _ => _ end).
Qed.

Lemma decrypt_data_outer_low h b :
  u64_ok c → Header.wf h →
  preserves (on_sess (low p c)) (decrypt_data_outer h b).
Proof. intros. unfold decrypt_data_outer. pres. by apply decrypt_data_low. Qed.

Lemma handle_inbound_low rec now :
  u64_ok c → OuterRecord.wf rec →
  preserves (on_sess (low p c)) (handle_inbound_outer rec now).
Proof.
  intros. unfold handle_inbound_outer.
  pres; auto using maybe_expire_low, decrypt_data_outer_low, decrypt_rekey_low.
Qed.

Lemma exec_low o :
  u64_ok c → op_wf o → preserves (on_sess (low p c)) (exec o).
Proof.
  intros Hc Ho. destruct o; simpl exec; simpl in Ho;
    (apply preserves_bind; [|intros; apply preserves_ret]);
    auto using decrypt_data_low, decrypt_data_outer_low, decrypt_rekey_low,
      handle_inbound_low, apply_inbound_dh_ratchet_low.
  - unfold encrypt_data_plain512. pres; auto using send_step_mk_low, bump_send_counter_low.
  - unfold encrypt_rekey_ctrl. pres; auto using bump_send_counter_low.
  - unfold encrypt_data_plain512_outer.
    pres; auto using send_step_mk_low, bump_send_counter_low.
  - unfold encrypt_rekey_ctrl_outer. pres; auto using bump_send_counter_low.
  - unfold enter_reset_pending_after_rebootstrap. pres; done.
  - unfold reset_pending_to_bootstrapping. pres; done.
  - unfold finish_reset_half_open_to_active. pres; done.
  - unfold enter_bootstrapping_for_epoch. pres; done.
  - pres. by apply maybe_expire_low.
  - by pres.
Qed.

End low.

(** ** A low counter is refused, an accepted one becomes low *)

Lemma recv_message_key_refused p c s :
  low p c s → recv_message_key p c s = (Err ReplayRejected, s).
Proof.
  intros ((hw&Hhw&Hle)&Hnone). unfold recv_message_key. rewrite st_bind_eq. cbn [st_get].
  unfold SkippedKeyCache.take. cbv zeta iota. rewrite Hnone, Hhw, leb_true by done.
  rewrite st_bind_eq. cbn [st_modify st_fail]. unfold absent in Hnone. rewrite delete_id by done.
  by destruct s as [????????????? ? [?] ???].
Qed.

Lemma decrypt_data_refused h ct :
  len (Header.ratchet_pub h) = 32 →
  triple (on_sess (low (Header.ratchet_pub h) (Header.counter_be h))) (decrypt_data h ct)
    (λ _ _, False) (λ _, True).
Proof.
  intros Hq. set (I := on_sess (low (Header.ratchet_pub h) (Header.counter_be h))).
  unfold decrypt_data. eapply triple_bind; [by apply (triple_get _ (λ _, I))|].
  intros [s g]. do 3 (apply triple_bind_lift; [done|]; intros _ _).
  apply triple_bind_pres; [by apply bind_or_dh_ratchet_low|done|]. intros _.
  intros [s' g'] Hlow. rewrite st_bind_eq. unfold on_session, st_zoom. cbn [fst snd].
  by rewrite recv_message_key_refused.
Qed.

Definition hw_ok (high : option N) : Prop := high ≠ Some U64_MAX ∧ from_option u64_ok True high.

Lemma hw_high_low w c : hw_low c (Some (window_high w c)).
Proof. eexists. split; [done|apply window_high_ge]. Qed.

Lemma hw_high_ok w c : hw_ok w.2 → c < U64_MAX → window_high w c < U64_MAX.
Proof.
  intros [Hne Hok] Hc. unfold window_high. destruct (w.2) as [hw|]; [|done].
  assert (hw ≠ U64_MAX) by congruence. simpl in Hok. unfold fits, U64_MAX in *. simpl in Hok. lia.
Qed.

Lemma decrypt_data_becomes_low h ct :
  Header.wf h →
  triple (λ _, True) (decrypt_data h ct)
    (λ _ st, low (Header.ratchet_pub h) (Header.counter_be h) st.1) (λ _, True).
Proof.
  intros (_&_&_&_&_&Hc&Hq). set (I := λ _ : t * rng_state, True).
  assert (∀ {A} (m : ST (t * rng_state) SessionError A), preserves I m) as Hany
    by (intros A m st _; by destruct (m st) as [[]]).
  unfold decrypt_data. eapply triple_bind; [by apply (triple_get _ (λ _, I))|].
  intros [s g]. do 3 (apply triple_bind_lift; [done|]; intros _ _).
  apply triple_bind_pres; [apply Hany|done|]. intros _.
  apply (triple_bind _ _ _ (λ _ st, absent (Header.ratchet_pub h) (Header.counter_be h) st.1)).
  { intros [s1 g1] _. pose proof (recv_message_key_taken _ _ Hq Hc s1 Logic.I) as Ht.
    unfold on_session, st_zoom in *. cbn [fst snd] in *.
    by destruct (recv_message_key _ _ s1) as [[mk|e|] s2]. }
  intros mk. do 3 (apply triple_bind_lift; [done|]; intros ? _).
  intros [s2 g2] Habs. rewrite st_bind_eq. simpl. split; [|done].
  apply (hw_high_low (window s2)).
Qed.

Lemma decrypt_data_outer_case h b st :
  (∃ ct, decrypt_data_outer h b st = decrypt_data h ct st) ∨
  (∃ e, decrypt_data_outer h b st = (Err e, st)) ∨ decrypt_data_outer h b st = (Panic, st).
Proof.
  unfold decrypt_data_outer. rewrite st_bind_eq. unfold st_lift.
  destruct (map_err _ _) as [logical|e|]; [|by eauto..]. rewrite st_bind_eq.
  destruct (slice_from logical 24) as [ct|e|]; eauto.
Qed.

Lemma handle_inbound_data_inv rec now s g a st' :
  handle_inbound_outer rec now (s, g) = (Ok a, st') →
  Header.typ (OuterRecord.header rec) = 3 →
  ∃ pt, decrypt_data_outer (OuterRecord.header rec) (OuterRecord.payload rec)
          (maybe_expire_reset_pending now s, g) = (Ok pt, st').
Proof.
  intros He Ht. unfold handle_inbound_outer in He.
  rewrite (st_bind_Ok _ _ _ tt (maybe_expire_reset_pending now s, g)) in He by done.
  apply st_bind_Ok_inv in He as (u1&st1&[= _ <-]&He).
  apply st_bind_Ok_inv in He as ([s2 g2]&st2&[= <- <- <-]&He).
  apply st_bind_Ok_inv in He as (u3&st3&[= _ <-]&He).
  apply st_bind_Ok_inv in He as (u4&st4&[= _ <-]&He).
  cbv zeta in He. rewrite (eqb_true (Header.typ _) 3) in He by done.
  apply st_bind_Ok_inv in He as (pt&st5&He&[= _ <-]). eauto.
Qed.

(** A call that accepts a DATA header did so through [decrypt_data], on a state
    that differs at most by an expired RESET mode. *)
Lemma exec_accepts_data o st h st' :
  op_wf o → exec o st = (Ok (Some h), st') → Header.typ h = 3 →
  Header.wf h ∧
  ∃ s0 ct a, decrypt_data h ct (s0, st.2) = (Ok a, st') ∧
    recv_high_water s0 = recv_high_water st.1 ∧ skipped s0 = skipped st.1.
Proof.
  intros Ho He Ht. destruct st as [s g].
  assert (∀ b s0 a, decrypt_data_outer h b (s0, g) = (Ok a, st') →
    ∃ ct, decrypt_data h ct (s0, g) = (Ok a, st')) as Houter.
  { intros b s0 a Hd. destruct (decrypt_data_outer_case h b (s0, g)) as [[ct Hc]|[[e Hc]|Hc]];
      rewrite Hc in Hd; [by eauto|done|done]. }
  destruct o; simpl exec in He;
    apply st_bind_Ok_inv in He as (a&st1&He&Hret); try done; injection Hret as <- ->;
    simpl in Ho; (split; [done|]).
  - by exists s, ciphertext, a.
  - apply Houter in He as [ct He]. by exists s, ct, a.
  - pose proof (decrypt_rekey_accepts header padded_logical (fixed s) (mode s) (window s)
      (s, g) eq_refl) as Hacc. rewrite He in Hacc. destruct Hacc as ((_&?&_)&_). congruence.
  - apply handle_inbound_data_inv in He as [pt He]; [|done].
    apply Houter in He as [ct He]. eexists _, _, _. split; [exact He|].
    unfold maybe_expire_reset_pending. cbv zeta.
    by destruct (match mode s with Active _ => _ | _ => _ end).
Qed.

(** ** Lives of a session: calls and restarts *)

Inductive life_op :=
  | Call (o : op)
  | ExportImport.

(** [ExportImport] replaces the session by what importing its export yields. *)
Fixpoint life (ops : list life_op) (st : t * rng_state) : list Header.t * (t * rng_state) :=
  match ops with
  | [] => ([], st)
  | Call o :: ops =>
      let '(r, st1) := exec o st in
      let '(acc, st2) := life ops st1 in
      (match r with Ok (Some h) => h :: acc | _ => acc end, st2)
  | ExportImport :: ops =>
      match import_state (export_state st.1) with
      | Ok s => life ops (s, st.2)
      | _ => ([], st)
      end
  end.

Definition life_op_wf (lo : life_op) : Prop :=
  match lo with Call o => op_wf o | ExportImport => True end.

(** The accepted records do not use [u64::MAX], the counter an export reserves for
    a session that has received nothing. *)
Definition unreserved (acc : list Header.t) : Prop :=
  Forall (λ h, Header.counter_be h < U64_MAX) acc.

Definition data_headers (acc : list Header.t) : list Header.t :=
  filter (λ h, Header.typ h = 3) acc.

Definition live (s : t) : Prop := session_wf s ∧ recv_high_water s ≠ Some U64_MAX.

Lemma restored_live s : live s → live (restored s).
Proof.
  intros [Hs _]. pose proof (import_export s Hs) as Hi. split.
  - eapply import_wf; [|exact Hi]. by destruct Hs.
  - simpl. destruct (N.eqb_spec (recv_hw_or_sentinel s) RECV_HIGH_WATER_NONE_SENTINEL);
      [done|]. unfold RECV_HIGH_WATER_NONE_SENTINEL in *. congruence.
Qed.

Lemma restored_low p c s :
  recv_high_water s ≠ Some U64_MAX → low p c s → low p c (restored s).
Proof.
  intros Hne ((hw&Hhw&Hle)&Habs). split; [|done]. unfold restored, recv_hw_or_sentinel.
  simpl. rewrite Hhw in *. simpl. unfold RECV_HIGH_WATER_NONE_SENTINEL.
  rewrite eqb_false by congruence. by exists hw.
Qed.

Lemma live_hw_ok s : live s → hw_ok (recv_high_water s).
Proof.
  intros [Hs Hne]. split; [done|]. pose proof (wf_window s Hs) as Hw. unfold window_wf in Hw.
  simpl in Hw. destruct (recv_high_water s); [apply Hw|done].
Qed.

Lemma exec_live o st r st' :
  op_wf o → live st.1 → exec o st = (r, st') →
  (∀ h, r = Ok (Some h) → Header.counter_be h < U64_MAX) → live st'.1.
Proof.
  intros Ho Hl He Hctr. pose proof (live_hw_ok _ Hl) as Hok. destruct Hl as [Hs Hne]. split.
  { pose proof (preserves_snd _ _ st (exec_wf o Ho) Hs) as Hs'. by rewrite He in Hs'. }
  pose proof (exec_spec o (fixed st.1) (window st.1) st eq_refl) as Hx. rewrite He in Hx.
  assert (core st'.1 = (fixed st.1, window st.1) → recv_high_water st'.1 ≠ Some U64_MAX)
    as Hsame by (intros [_ [_ ->]%pair_equal_spec]%pair_equal_spec; done).
  destruct r as [[h|]|e|]; [|by apply Hsame..].
  destruct Hx as (_&_&[_ [_ ->]%pair_equal_spec]%pair_equal_spec).
  pose proof (hw_high_ok (window st.1) _ Hok (Hctr h eq_refl)). intros [= Heq]. lia.
Qed.

(** The first call of a life: what it accepts is unreserved, and so is the rest. *)
Lemma unreserved_call (r : outcome SessionError (option Header.t)) acc :
  unreserved (match r with Ok (Some h) => h :: acc | _ => acc end) →
  (∀ h, r = Ok (Some h) → Header.counter_be h < U64_MAX) ∧ unreserved acc.
Proof.
  destruct r as [[h|]|e|]; [|done..]. intros [Hh Hacc]%Forall_cons. split; [|done].
  by intros h' [= <-].
Qed.

(** Low headers are not accepted again and stay low. *)
Lemma life_low ops st h :
  Forall life_op_wf ops → live st.1 → unreserved (life ops st).1 → Header.wf h →
  low (Header.ratchet_pub h) (Header.counter_be h) st.1 →
  h ∉ data_headers (life ops st).1.
Proof.
  intros Hops. revert st; induction Hops as [|lo ops Hlo Hops IH]; intros st Hl Hu Hh Hlow.
  { apply not_elem_of_nil. }
  destruct lo as [o|]; simpl in *.
  - rename Hlo into Ho. pose proof Hh as (_&_&_&_&_&Hc&Hq).
    pose proof (preserves_snd _ _ st (exec_low _ _ Hq o Hc Ho) Hlow) as Hlow1.
    destruct (exec o st) as [r st1] eqn:He. specialize (IH st1).
    destruct (life ops st1) as [acc st2]. simpl in *. apply unreserved_call in Hu as [Hr Hu].
    pose proof (exec_live _ _ _ _ Ho Hl He Hr) as Hl1. specialize (IH Hl1 Hu Hh Hlow1).
    destruct r as [[h'|]|e|]; [|done..]. unfold data_headers in *. rewrite filter_cons.
    case_decide as Ht; [|done]. apply not_elem_of_cons. split; [|done]. intros ->.
    destruct (exec_accepts_data _ _ _ _ Ho He Ht) as (_&s0&ct&a&Hd&Hhw&Hsk).
    pose proof (decrypt_data_refused h' ct Hq (s0, st.2)) as Hr'. rewrite Hd in Hr'.
    apply Hr'. unfold on_sess, low, absent in *. simpl. by rewrite Hhw, Hsk.
  - rewrite import_export in * by apply Hl.
    apply (IH (restored st.1, st.2)); [by apply restored_live|done|done|].
    apply restored_low; [apply Hl|done].
Qed.

End restart.

(** * Properties *)

Section properties.
Context `{Crypto} `{Rng} `{Build}.

(** C11: no DATA replay across restarts. Over any life of a session, with any calls
    and hostile records and any number of export / import cycles in between, no DATA
    header (ratchet key and counter included) is accepted twice, although the set of
    decrypted counters is not persisted. The one condition is that no record with
    the counter [u64::MAX] has been accepted (an authentic peer never sends it):
    exports reserve that value for "nothing received yet". Rejected records may
    carry it. *)
Theorem no_data_replay_across_restarts ops st :
  session_wf st.1 → recv_high_water st.1 ≠ Some U64_MAX → Forall life_op_wf ops →
  unreserved (life ops st).1 →
  NoDup (data_headers (life ops st).1).
Proof.
  intros Hs Hne Hops. assert (live st.1) as Hl by done. clear Hs Hne. revert st Hl.
  induction Hops as [|lo ops Hlo Hops IH]; intros st Hl Hu; [apply NoDup_nil_2|].
  destruct lo as [o|]; simpl in *.
  - rename Hlo into Ho. destruct (exec o st) as [r st1] eqn:He. specialize (IH st1).
    pose proof (life_low ops st1) as Hlow. destruct (life ops st1) as [acc st2]. simpl in *.
    apply unreserved_call in Hu as [Hr Hu].
    pose proof (exec_live _ _ _ _ Ho Hl He Hr) as Hl1. specialize (IH Hl1 Hu).
    destruct r as [[h|]|e|]; [|done..]. unfold data_headers in *. rewrite filter_cons.
    case_decide as Ht; [|done]. apply NoDup_cons. split; [|done].
    destruct (exec_accepts_data _ _ _ _ Ho He Ht) as (Hh&s0&ct&a&Hd&_).
    apply Hlow; [done..|].
    pose proof (decrypt_data_becomes_low h ct Hh (s0, st.2) I) as Hb. by rewrite Hd in Hb.
  - rewrite import_export in * by apply Hl. apply IH; [by apply restored_live|done].
Qed.

(** C19: the export / import round trip. Every well-formed session imports from its
    export, the second export and the persistence digest equal the first, and every
    field is restored but these four: the ingress mode returns to [Active], the set
    of decrypted counters is emptied, and the two values that mark absence in the
    blob, an all-zero peer key and a high-water mark of [u64::MAX], are read back as
    absent. *)
Theorem export_import_roundtrip s :
  session_wf s →
  ∃ s', import_state (export_state s) = Ok s' ∧
    export_state s' = export_state s ∧
    persistence_equivalence_digest s' = persistence_equivalence_digest s ∧
    s' = set_mode (Active (epoch s)) (set_decrypted_counters ∅
           (set_recv_high_water (recv_high_water s')
             (set_peer_ratchet_pub (peer_ratchet_pub s') s))) ∧
    peer_ratchet_pub s' =
      (if bool_decide (peer_ratchet_pub s = Some (zeros 32)) then None
       else peer_ratchet_pub s) ∧
    recv_high_water s' =
      (if bool_decide (recv_high_water s = Some RECV_HIGH_WATER_NONE_SENTINEL) then None
       else recv_high_water s).
Proof.
  intros Hs. exists (restored s). split; [by apply import_export|].
  destruct (restored_export s) as [He Hd]. split_and!; [done..| |].
  - apply default_marker_cases.
  - unfold restored, recv_hw_or_sentinel. simpl. rewrite eqb_bool_decide.
    apply default_marker_cases.
Qed.

(** Importing an arbitrary (corrupt or hostile) ratchet blob never panics; it
    either fails or yields a well-formed session in mode [Active]. *)
Lemma import_untrusted_blob x :
  export_wf x →
  no_panic (import_state x) ∧
  ∀ s, import_state x = Ok s → session_wf s ∧ mode s = Active (e_epoch x).
Proof.
  intros Hx. split.
  - unfold import_state. pose proof (decode_blob_v2_spec (e_ratchet_blob x)) as [Hnp _].
    by destruct (decode_blob_v2 _).
  - intros s Hi. split; [by eapply import_wf|]. unfold import_state in Hi.
    destruct (decode_blob_v2 _); [|done..]. by injection Hi as <-.
Qed.

(** C22: the commitment. [recompute_anchor_commitment] makes verification succeed,
    the verdict on a session is the same after export and import, and the commitment
    binds the ratchet state: two well-formed sessions that verify against the same
    anchor agree on every committed field, unless the two byte strings hashed for
    them are themselves a SHA-256 collision. *)
Theorem commitment_verifies_and_binds s1 s2 :
  session_wf s1 → session_wf s2 → anchor s1 = anchor s2 →
  verify_anchor_commitment (recompute_anchor_commitment s1) = true ∧
  (∃ s', import_state (export_state s1) = Ok s' ∧
     verify_anchor_commitment s' = verify_anchor_commitment s1) ∧
  (verify_anchor_commitment s1 = true → verify_anchor_commitment s2 = true →
   committed s1 = committed s2 ∨
   commitment_input s1 ≠ commitment_input s2 ∧
     fit 32 (sha256 (commitment_input s1)) = fit 32 (sha256 (commitment_input s2))).
Proof.
  intros Hs1 Hs2 Ha. split_and!.
  - by apply bool_decide_eq_true_2.
  - exists (restored s1). split; [by apply import_export|].
    unfold verify_anchor_commitment. by rewrite restored_committed.
  - intros Hv1%verify_anchor_eq Hv2%verify_anchor_eq.
    destruct (decide (commitment_input s1 = commitment_input s2)) as [He|He].
    + left. by apply commitment_input_inj.
    + right. split; [done|]. congruence.
Qed.

End properties.

(** ** Concrete instances *)

(** Alice's first DATA record. *)
Definition toy_data0 : outcome SessionError (Header.t * bytes) :=
  (encrypt_data_plain512 (zeros 512) toy_alice).1.
Definition toy_data_op : op :=
  match toy_data0 with
  | Ok (h, ct) => DecryptData h ct
  | _ => RecomputeAnchorCommitment
  end.

Lemma no_data_replay_across_restarts_witness :
  NoDup (data_headers (life [Call toy_data_op; ExportImport; Call toy_data_op]
    (toy_bob, toy_seed 2)).1).
Proof.
  apply (no_data_replay_across_restarts [Call toy_data_op; ExportImport; Call toy_data_op]
    (toy_bob, toy_seed 2)).
  - apply toy_bob_wf.
  - done.
  - assert (life_op_wf (Call toy_data_op)) as Hop by (vm_compute; split_and!; reflexivity).
    repeat constructor; apply Hop.
  - apply (bool_decide_unpack _). by vm_compute.
Defined.

Lemma export_import_roundtrip_witness :
  ∃ s', import_state (export_state toy_bob) = Ok s' ∧
    export_state s' = export_state toy_bob ∧ peer_ratchet_pub s' = peer_ratchet_pub toy_bob.
Proof.
  destruct (export_import_roundtrip toy_bob toy_bob_wf) as (s'&Hi&He&_&_&Hp&_).
  exists s'. split; [exact Hi|]. split; [exact He|]. rewrite Hp. by vm_compute.
Defined.

Lemma commitment_verifies_and_binds_witness :
  verify_anchor_commitment (recompute_anchor_commitment toy_bob) = true.
Proof.
  apply (commitment_verifies_and_binds toy_bob toy_bob); [apply toy_bob_wf..|reflexivity].
Defined.
