(* ===== verification/EngineProps.v ===== *)
(** Behaviour of the engine's sending side, of the ingress gate and of the RESET
    mode machine. *)

From S2P Require Import Prelude Wire Pad Crypto Handshake Payload Ratchet Skipped Blob.
From S2P Require Import Engine Toy EngineInv EngineWf.
Import Session.

Section send.
Context `{Crypto} `{Rng} `{Build}.

(** * Send counters *)

(** The header an operation put on the wire, if it did. *)
Definition sent (o : op) (st : t * rng_state) : option Header.t :=
  let hdr {E A} (r : outcome E (Header.t * A)) :=
    match r with Ok (h, _) => Some h | _ => None end in
  match o with
  | EncryptDataPlain512 pt => hdr (encrypt_data_plain512 pt st.1).1
  | EncryptRekeyCtrl b => hdr (encrypt_rekey_ctrl b st.1).1
  | EncryptDataPlain512Outer pt => hdr (encrypt_data_plain512_outer pt st).1
  | EncryptRekeyCtrlOuter b => hdr (encrypt_rekey_ctrl_outer b st).1
  | _ => None
  end.

(** The calls of a client that may also tear the session down. *)
Inductive session_call := Invoke (o : op) | Reset.

(** The headers put on the wire, each with the number of resets before it. *)
Fixpoint sent_headers (gen : N) (cs : list session_call) (st : t * rng_state)
    : list (N * Header.t) :=
  match cs with
  | [] => []
  | Invoke o :: cs => (pair gen <$> option_list (sent o st)) ++ sent_headers gen cs (exec o st).2
  | Reset :: cs => sent_headers (gen + 1) cs (reset st.1, st.2)
  end.

(** Later generation, or a later counter of the same one. *)
Definition sent_before (x y : N * Header.t) : Prop :=
  x.1 < y.1 ∨ x.1 = y.1 ∧ Header.counter_be x.2 < Header.counter_be y.2.

Definition session_call_wf (c : session_call) : Prop :=
  match c with Invoke o => op_wf o | Reset => True end.

(** The counter is at [n] before, and either still there or already at [n + 1]. *)
Definition ctr_is (n : N) (s : t) : Prop := send_wire_counter s = n.

Lemma bump_send_counter_ctr n :
  triple (ctr_is n) bump_send_counter (λ _, ctr_is (n + 1)) (ctr_is n).
Proof.
  intros s <-. unfold bump_send_counter. rewrite st_bind_eq. cbn [st_get]. cbv zeta.
  rewrite st_bind_eq. unfold st_lift.
  destruct (ok_or _ _) as [x|e|] eqn:Hx; [|done..].
  apply ok_or_checked_add in Hx as [_ ->]. done.
Qed.

Lemma send_step_mk_ctr n : preserves (ctr_is n) send_step_mk.
Proof. unfold send_step_mk. pres; done. Qed.

(** A send that succeeds carries the old counter and advances it by one; one that
    fails does not move it back. *)
Definition sends (n : N) (hdr : Header.t) (s' : t) : Prop :=
  Header.counter_be hdr = n ∧ send_wire_counter s' = n + 1.
Definition ctr_ge (n : N) (s : t) : Prop := n <= send_wire_counter s.

Lemma ctr_is_ge n s : ctr_is n s → ctr_ge n s.
Proof. unfold ctr_is, ctr_ge. lia. Qed.

Lemma triple_on_session {A} (P : t → Prop) (m : ST t SessionError A) Q X :
  triple P m Q X →
  triple (on_sess P) (on_session m) (λ a, on_sess (Q a)) (on_sess X).
Proof.
  intros Hm [s g] Hs. unfold on_session, st_zoom. simpl. specialize (Hm s Hs).
  by destruct (m s) as [[a|e|] s'].
Qed.

Lemma bump_send_counter_ge n :
  triple (ctr_is n) bump_send_counter (λ _, ctr_is (n + 1)) (ctr_ge n).
Proof.
  eapply triple_conseq; [apply bump_send_counter_ctr|done|done|apply ctr_is_ge].
Qed.

Local Ltac send_steps :=
  repeat lazymatch goal with
  | |- triple _ (mbind _ st_get) _ _ => apply triple_bind_get_keep; intros ? ?
  | |- triple _ (mbind _ (st_lift _)) _ _ =>
      apply triple_bind_lift; [intros ?; apply ctr_is_ge|]; intros ? ?
  | |- triple _ (mbind _ send_step_mk) _ _ =>
      apply triple_bind_pres; [apply send_step_mk_ctr|intros ?; apply ctr_is_ge|]; intros ?
  | |- triple _ (mbind _ (on_session send_step_mk)) _ _ =>
      apply triple_bind_pres;
        [apply preserves_on_session, send_step_mk_ctr|intros ?; apply ctr_is_ge|]; intros ?
  | |- triple _ (let '(_, _) := ?x in _) _ _ => destruct x
  end.

Lemma encrypt_data_plain512_ctr pt n :
  triple (ctr_is n) (encrypt_data_plain512 pt) (λ r, sends n r.1) (ctr_ge n).
Proof.
  unfold encrypt_data_plain512. send_steps.
  eapply triple_bind; [apply bump_send_counter_ge|]. intros []. by apply triple_ret.
Qed.

Lemma encrypt_rekey_ctrl_ctr b n :
  triple (ctr_is n) (encrypt_rekey_ctrl b) (λ r, sends n r.1) (ctr_ge n).
Proof.
  unfold encrypt_rekey_ctrl. send_steps.
  eapply triple_bind; [apply bump_send_counter_ge|]. intros []. by apply triple_ret.
Qed.

(** The common end of the padded variants. *)
Lemma bump_and_pad n hdr logical :
  Header.counter_be hdr = n →
  triple (on_sess (ctr_is n))
    (_ ← on_session bump_send_counter;
     payload ← on_rng (st_map_err (λ _, InvalidHeader) (pad_outer logical));
     mret (hdr, payload))
    (λ r : Header.t * bytes, on_sess (sends n r.1)) (on_sess (ctr_ge n)).
Proof.
  intros Hh. eapply triple_bind; [apply triple_on_session, bump_send_counter_ge|]. intros [].
  apply triple_bind_pres; [apply preserves_on_rng| |].
  - intros [s g]. unfold on_sess, ctr_is, ctr_ge. lia.
  - intros payload. by apply triple_ret.
Qed.

Lemma encrypt_data_outer_ctr pt n :
  triple (on_sess (ctr_is n)) (encrypt_data_plain512_outer pt) (λ r, on_sess (sends n r.1))
    (on_sess (ctr_ge n)).
Proof.
  unfold encrypt_data_plain512_outer. send_steps.
  by apply bump_and_pad.
Qed.

Lemma encrypt_rekey_outer_ctr b n :
  triple (on_sess (ctr_is n)) (encrypt_rekey_ctrl_outer b) (λ r, on_sess (sends n r.1))
    (on_sess (ctr_ge n)).
Proof.
  unfold encrypt_rekey_ctrl_outer. send_steps.
  by apply bump_and_pad.
Qed.

(** Nothing but a send moves the counter. *)

Lemma recv_step_mk_ctr n : preserves (ctr_is n) recv_step_mk.
Proof. unfold recv_step_mk. pres; done. Qed.

Lemma fill_gap_loop_ctr q cnt k n : preserves (ctr_is n) (fill_gap_loop q cnt k).
Proof.
  revert cnt; induction k as [|k IH]; intros cnt; simpl; pres; auto using recv_step_mk_ctr.
  intros s Hs. unfold on_skipped, st_zoom.
  by destruct (SkippedKeyCache.insert _ _ _ _) as [[x|e|] c].
Qed.

Lemma recv_message_key_ctr q c n : preserves (ctr_is n) (recv_message_key q c).
Proof.
  assert (∀ b, preserves (ctr_is n) (fill_recv_gap_to_counter q b c)) as Hfill
    by (intros b; unfold fill_recv_gap_to_counter; pres; apply fill_gap_loop_ctr).
  unfold recv_message_key. apply preserves_bind_get. intros s Hs.
  destruct (SkippedKeyCache.take _ _ _) as [found rest].
  pres; auto using recv_step_mk_ctr.
Qed.

Lemma apply_inbound_dh_ratchet_ctr q n :
  preserves (on_sess (ctr_is n)) (apply_inbound_dh_ratchet q).
Proof. unfold apply_inbound_dh_ratchet. pres; done. Qed.

Lemma bind_or_dh_ratchet_ctr q n : preserves (on_sess (ctr_is n)) (bind_or_dh_ratchet q).
Proof. unfold bind_or_dh_ratchet. pres; auto using apply_inbound_dh_ratchet_ctr. Qed.

Lemma decrypt_data_ctr h ct n : preserves (on_sess (ctr_is n)) (decrypt_data h ct).
Proof.
  unfold decrypt_data. pres; auto using bind_or_dh_ratchet_ctr, recv_message_key_ctr.
Qed.

Lemma decrypt_data_outer_ctr h b n : preserves (on_sess (ctr_is n)) (decrypt_data_outer h b).
Proof. unfold decrypt_data_outer. pres. apply decrypt_data_ctr. Qed.

Lemma decrypt_rekey_ctr h b n :
  preserves (on_sess (ctr_is n)) (decrypt_rekey_ctrl_outer h b).
Proof. unfold decrypt_rekey_ctrl_outer. pres; auto using bind_or_dh_ratchet_ctr. Qed.

Lemma maybe_expire_ctr now s : send_wire_counter (maybe_expire_reset_pending now s) =
  send_wire_counter s.
Proof.
  unfold maybe_expire_reset_pending. cbv zeta.
  by destruct (match mode s with Active _ => _ | _ => _ end).
Qed.

Lemma handle_inbound_ctr rec now n :
  preserves (on_sess (ctr_is n)) (handle_inbound_outer rec now).
Proof.
  unfold handle_inbound_outer. pres; auto using decrypt_data_outer_ctr, decrypt_rekey_ctr.
  unfold ctr_is in *. by rewrite maybe_expire_ctr.
Qed.

(** One call: a sent header carries the counter before the call, which the call
    has moved past; the counter never goes back. *)
Definition sent_spec (o : op) (st : t * rng_state) : Prop :=
  send_wire_counter st.1 <= send_wire_counter (exec o st).2.1 ∧
  ∀ h, sent o st = Some h →
    Header.counter_be h = send_wire_counter st.1 ∧
    send_wire_counter st.1 < send_wire_counter (exec o st).2.1.

Lemma send_call (m : ST (t * rng_state) SessionError (Header.t * bytes)) (st : t * rng_state) :
  let n := send_wire_counter st.1 in
  triple (on_sess (ctr_is n)) m (λ r, on_sess (sends n r.1)) (on_sess (ctr_ge n)) →
  n <= send_wire_counter ((_ ← m; mret (None (A:=Header.t))) st).2.1 ∧
  ∀ h, match (m st).1 with Ok (h, _) => Some h | _ => None end = Some h →
    Header.counter_be h = n ∧
    n < send_wire_counter ((_ ← m; mret (None (A:=Header.t))) st).2.1.
Proof.
  intros n Hm. specialize (Hm st eq_refl). rewrite st_bind_eq.
  destruct (m st) as [[[h b]|e|] st1]; simpl in *; [|by split..].
  destruct Hm as [Hh Hs]. simpl in Hs. rewrite Hs. split; [lia|]. intros h' [= <-].
  split; [done|lia].
Qed.

Lemma keep_call o st :
  sent o st = None → preserves (on_sess (ctr_is (send_wire_counter st.1))) (exec o) →
  sent_spec o st.
Proof.
  intros Hn Hm. apply (preserves_snd _ _ st) in Hm; [|done]. split; [by rewrite Hm|].
  intros h. by rewrite Hn.
Qed.

Lemma on_session_fst {A} (m : ST t SessionError A) st : (on_session m st).1 = (m st.1).1.
Proof. unfold on_session, st_zoom. by destruct (m st.1). Qed.

Lemma exec_sent o st : sent_spec o st.
Proof.
  destruct o; try (apply keep_call; [done|]; simpl exec;
    (apply preserves_bind; [|intros; apply preserves_ret])).
  - unfold sent_spec. simpl. rewrite <- on_session_fst. apply send_call.
    apply triple_on_session, encrypt_data_plain512_ctr.
  - unfold sent_spec. simpl. rewrite <- on_session_fst. apply send_call.
    apply triple_on_session, encrypt_rekey_ctrl_ctr.
  - apply send_call, encrypt_data_outer_ctr.
  - apply send_call, encrypt_rekey_outer_ctr.
  - apply decrypt_data_ctr.
  - apply decrypt_data_outer_ctr.
  - apply decrypt_rekey_ctr.
  - apply handle_inbound_ctr.
  - unfold enter_reset_pending_after_rebootstrap. by pres.
  - unfold reset_pending_to_bootstrapping. by pres.
  - unfold finish_reset_half_open_to_active. by pres.
  - unfold enter_bootstrapping_for_epoch. by pres.
  - pres. unfold ctr_is in *. by rewrite maybe_expire_ctr.
  - apply apply_inbound_dh_ratchet_ctr.
  - by pres.
Qed.

Lemma sent_headers_ge gen cs st :
  Forall (λ x, gen < x.1 ∨ gen = x.1 ∧ send_wire_counter st.1 <= Header.counter_be x.2)
    (sent_headers gen cs st).
Proof.
  revert gen st; induction cs as [|[o|] cs IH]; intros gen st; simpl; [apply Forall_nil_2|..].
  - destruct (exec_sent o st) as [Hge Hs]. apply Forall_app_2.
    + destruct (sent o st) as [h|]; simpl; [|apply Forall_nil_2].
      apply Forall_singleton. destruct (Hs h eq_refl). simpl. lia.
    + eapply Forall_impl; [apply IH|]. simpl. lia.
  - eapply Forall_impl; [apply IH|]. simpl. lia.
Qed.

End send.

(** * The ingress gate *)

Section gate.
Context `{Crypto} `{Rng} `{Build}.

(** The verdict on an epoch other than the session's. *)
Definition epoch_verdict (s : t) (h : Header.t) : SessionError :=
  if epoch s + 1 <? Header.epoch_be h then FutureEpoch
  else match mode s with
       | ResetPending old _ _ =>
           if (Header.typ h =? 3) && (Header.epoch_be h =? old) then LateDataAfterReset
           else StaleEpochRejected
       | _ => StaleEpochRejected
       end.

Lemma epoch_policy_wrong s h :
  u32_ok (epoch s) → u32_ok (Header.epoch_be h) → Header.epoch_be h ≠ epoch s →
  check_inbound_epoch_policy s h = Err (epoch_verdict s h).
Proof.
  intros Hs Hh Hne. unfold check_inbound_epoch_policy, epoch_verdict, saturating_add.
  unfold fits in *. simpl in *.
  replace (N.min (epoch s + 1) U32_MAX <? Header.epoch_be h)
    with (epoch s + 1 <? Header.epoch_be h).
  2: { unfold U32_MAX. destruct (N.ltb_spec (epoch s + 1) (Header.epoch_be h)); symmetry.
       - apply ltb_true. lia.
       - apply ltb_false. lia. }
  destruct (epoch s + 1 <? Header.epoch_be h); [done|]. oc.
  destruct (mode s) as [e|old new d|e]; oc.
  2: destruct (_ && _); [done|].
  all: oc; destruct (Header.epoch_be h <? epoch s); [done|]; oc;
    by rewrite eqb_false by done.
Qed.

(** How the gate runs, once the RESET deadline has been looked at. *)
Lemma handle_inbound_eq rec now s g :
  handle_inbound_outer rec now (s, g) =
    let s0 := maybe_expire_reset_pending now s in
    let h := OuterRecord.header rec in
    match Header.validate_v0 h with
    | Ok _ =>
        if bool_decide (Header.session_id h = session_id s0) then
          match check_inbound_epoch_policy s0 h with
          | Ok _ =>
              if Header.typ h =? 3 then
                (pt ← decrypt_data_outer h (OuterRecord.payload rec); mret (Data pt)) (s0, g)
              else if Header.typ h =? 5 then
                (pt ← decrypt_rekey_ctrl_outer h (OuterRecord.payload rec);
                 mret (RekeyPlain pt)) (s0, g)
              else (Err InvalidHeader, (s0, g))
          | Err e => (Err e, (s0, g))
          | Panic => (Panic, (s0, g))
          end
        else (Err UnknownSession, (s0, g))
    | Err _ => (Err InvalidHeader, (s0, g))
    | Panic => (Panic, (s0, g))
    end.
Proof.
  unfold handle_inbound_outer. cbv zeta.
  rewrite (st_bind_Ok _ _ _ tt (maybe_expire_reset_pending now s, g)) by done.
  rewrite st_bind_eq. unfold st_lift at 1.
  destruct (Header.validate_v0 _); [|done..]. oc.
  rewrite (st_bind_Ok _ _ _ (maybe_expire_reset_pending now s, g)
    (maybe_expire_reset_pending now s, g)) by done. cbv beta iota.
  rewrite st_bind_eq. unfold st_lift at 1. case_bool_decide; [|done]. oc.
  rewrite st_bind_eq. unfold st_lift at 1.
  destruct (check_inbound_epoch_policy _ _); [|done..].
  destruct (_ =? 3); [done|]. by destruct (_ =? 5).
Qed.

Lemma maybe_expire_fixed now s : fixed (maybe_expire_reset_pending now s) = fixed s.
Proof. pose proof (maybe_expire_core now s) as Hc. by apply (f_equal fst) in Hc. Qed.

End gate.

(** * Properties *)

Section properties.
Context `{Crypto} `{Rng} `{Build}.


(** C24: a record of another epoch never reaches decryption: it is refused with
    [FutureEpoch] beyond the next epoch, with [LateDataAfterReset] when it is DATA
    of the epoch being drained, and with [StaleEpochRejected] otherwise (the next
    epoch included); a record of another session is refused with
    [UnknownSession]. Only an expired RESET drain can change the session. *)
Theorem foreign_record_rejected rec now s g :
  let h := OuterRecord.header rec in
  let s0 := maybe_expire_reset_pending now s in
  u32_ok (epoch s) → Header.wf h → Header.validate_v0 h = Ok tt →
  (Header.session_id h ≠ session_id s →
    handle_inbound_outer rec now (s, g) = (Err UnknownSession, (s0, g))) ∧
  (Header.session_id h = session_id s → Header.epoch_be h ≠ epoch s →
    handle_inbound_outer rec now (s, g) = (Err (epoch_verdict s0 h), (s0, g))).
Proof.
  intros h s0 Hs (_&_&_&Hh&_) Hval.
  pose proof (maybe_expire_fixed now s) as Hf. fold s0 in Hf. injection Hf as Hsid Hep _ _.
  rewrite handle_inbound_eq. cbv zeta. fold h s0. rewrite Hval. rewrite Hsid. split.
  - intros Hne. by rewrite bool_decide_eq_false_2.
  - intros Heq Hne. rewrite bool_decide_eq_true_2 by done.
    by rewrite epoch_policy_wrong by by rewrite ?Hep.
Qed.

(** The RESET mode machine on a well-formed session. [ResetPending] is entered
    only from the immediately preceding epoch, only [ResetPending] moves to
    [Bootstrapping], only a non-[Active] mode can be finished, and every refused
    transition leaves the session as it was. *)
Lemma reset_mode_machine s e d :
  session_wf s → u32_ok e →
  enter_reset_pending_after_rebootstrap e d s =
    (if epoch s =? e + 1
     then (Ok tt, set_mode (ResetPending e (epoch s) d) s) else (Err InvalidHeader, s)) ∧
  reset_pending_to_bootstrapping s =
    (match mode s with
     | ResetPending _ _ _ => (Ok tt, set_mode (Bootstrapping (epoch s)) s)
     | _ => (Err InvalidHeader, s)
     end) ∧
  finish_reset_half_open_to_active s =
    (match mode s with
     | Active _ => (Err InvalidHeader, s)
     | _ => (Ok tt, set_mode (Active (epoch s)) s)
     end) ∧
  enter_bootstrapping_for_epoch e s =
    (if e =? epoch s then (Ok tt, set_mode (Bootstrapping e) s) else (Err InvalidHeader, s)).
Proof.
  intros Hs He. pose proof (wf_mode s Hs) as Hm. pose proof (wf_epoch s Hs) as Hep.
  rewrite enter_reset_pending_eq, reset_pending_to_bootstrapping_eq, finish_reset_eq,
    enter_bootstrapping_eq.
  unfold fits, U32_MAX in *. simpl in He, Hep. split_and!; [|..|done].
  - destruct (N.eqb_spec (epoch s) (e + 1)); [|by rewrite andb_false_r].
    by rewrite ltb_true by lia.
  - destruct (mode s); [done| |done]. simpl in Hm. by rewrite eqb_true by lia.
  - destruct (mode s); [done|..]; simpl in Hm; by rewrite eqb_true by lia.
Qed.

End properties.

(** ** Concrete instances *)


(** A DATA record of the epoch being drained, while the RESET is pending. *)
Definition toy_pending : t := set_mode (ResetPending 6 7 (Some 100)) toy_alice.
Definition toy_late : OuterRecord.t :=
  {| OuterRecord.header :=
       {| Header.version := 1; Header.typ := 3; Header.flags := 0; Header.epoch_be := 6;
          Header.session_id := toy_sid; Header.counter_be := 0;
          Header.ratchet_pub := zeros 32 |};
     OuterRecord.payload := [] |}.

Lemma foreign_record_rejected_witness :
  handle_inbound_outer toy_late 50 (toy_pending, toy_seed 0) =
    (Err LateDataAfterReset, (toy_pending, toy_seed 0)) ∧
  (handle_inbound_outer toy_late 101 (toy_pending, toy_seed 0)).1 = Err StaleEpochRejected.
Proof.
  assert (Header.wf (OuterRecord.header toy_late)) as Hwf
    by (unfold Header.wf; split_and!; vm_compute; reflexivity).
  split.
  - etransitivity; [refine (proj2 (foreign_record_rejected toy_late 50 toy_pending (toy_seed 0)
      _ Hwf _) _ _)|reflexivity]; vm_compute; (reflexivity || discriminate).
  - etransitivity; [refine (f_equal fst (proj2 (foreign_record_rejected toy_late 101 toy_pending
      (toy_seed 0) _ Hwf _) _ _))|reflexivity]; vm_compute; (reflexivity || discriminate).
Defined.

