(* ===== verification/EnginePanic.v ===== *)
(** Panics and work of the session engine: the one place where a call on a live
    session can panic, the exact condition for it, and a bound on the chain steps
    one inbound record can cause, also where the overflow wraps around. *)

From S2P Require Import Prelude Wire Pad Crypto Handshake Payload Ratchet Skipped Blob.
From S2P Require Import Engine Toy EngineInv EngineWf Delivery.
Import Session.

(** * Code that cannot panic *)

Definition safe {S E A} (m : ST S E A) : Prop := ∀ s, no_panic (m s).1.

Lemma no_panic_ne {E A} (r : outcome E A) : no_panic r ↔ r ≠ Panic.
Proof. by destruct r. Qed.

Section safe.
Context {S E : Type}.

Lemma safe_bind {A B} (m : ST S E A) (f : A → ST S E B) :
  safe m → (∀ a, safe (f a)) → safe (m ≫= f).
Proof.
  intros Hm Hf s. rewrite st_bind_eq. specialize (Hm s).
  destruct (m s) as [[a|e|] s']; [apply Hf|done..].
Qed.

(** A check may be used to justify what follows it. *)
Lemma safe_bind_lift {A B} (r : outcome E A) (f : A → ST S E B) :
  no_panic r → (∀ a, r = Ok a → safe (f a)) → safe (st_lift r ≫= f).
Proof. intros Hr Hf s. rewrite st_bind_eq. unfold st_lift. destruct r; [by apply Hf|done..]. Qed.

Lemma safe_ret {A} (a : A) : safe (mret a : ST S E A).
Proof. done. Qed.
Lemma safe_get : safe (st_get : ST S E S).
Proof. done. Qed.
Lemma safe_modify f : safe (st_modify f : ST S E ()).
Proof. done. Qed.
Lemma safe_fail {A} (e : E) : safe (st_fail e : ST S E A).
Proof. done. Qed.
Lemma safe_lift {A} (r : outcome E A) : no_panic r → safe (st_lift r : ST S E A).
Proof. by intros Hr s. Qed.

Lemma safe_zoom {T A} (g : S → T) (p : T → S → S) (m : ST T E A) :
  safe m → safe (st_zoom g p m).
Proof. intros Hm s. unfold st_zoom. specialize (Hm (g s)). by destruct (m (g s)). Qed.

(** Where a sequence panics. *)
Lemma panic_bind {A B} (m : ST S E A) (f : A → ST S E B) s :
  ((m ≫= f) s).1 = Panic ↔
  (m s).1 = Panic ∨ ∃ a s', m s = (Ok a, s') ∧ (f a s').1 = Panic.
Proof. rewrite st_bind_eq. destruct (m s) as [[a|e|] s']; naive_solver. Qed.

Lemma panic_bind_safe {A B} (m : ST S E A) (f : A → ST S E B) s :
  (∀ a, safe (f a)) → ((m ≫= f) s).1 = Panic ↔ (m s).1 = Panic.
Proof.
  intros Hf. rewrite panic_bind. split; [|by left]. intros [?|(a&s'&_&Hp)]; [done|].
  specialize (Hf a s'). by apply no_panic_ne in Hf.
Qed.

End safe.

Lemma no_panic_reject {E} c (e : E) : no_panic (reject_if c e).
Proof. by destruct c. Qed.
Lemma reject_if_Panic {E} c (e : E) : reject_if c e ≠ Panic.
Proof. by destruct c. Qed.
Lemma no_panic_bind {E A B} (m : outcome E A) (f : A → outcome E B) :
  no_panic m → (∀ a, no_panic (f a)) → no_panic (m ≫= f).
Proof. destruct m; simpl; auto. Qed.
Lemma no_panic_ok_or {E A} (e : E) (o : option A) : no_panic (ok_or e o).
Proof. by destruct o. Qed.
Lemma no_panic_map_err {E F A} (f : E → F) (r : outcome E A) :
  no_panic r → no_panic (map_err f r).
Proof. by destruct r. Qed.

Create HintDb safe discriminated.
#[export] Hint Resolve safe_ret safe_get safe_modify safe_fail no_panic_reject
  no_panic_ok_or no_panic_map_err : safe.

Section leaves.
Context `{Crypto} `{Rng} `{Build}.

Lemma ctrl_inner_no_panic b : no_panic (ctrl_inner_padded256 b).
Proof.
  destruct (N.le_gt_cases (len b) 256);
    [rewrite ctrl_inner_padded256_ok by done|rewrite ctrl_inner_padded256_too_long by done];
    done.
Qed.

Lemma encrypt_data_payload_no_panic mk h pt : no_panic (encrypt_data_payload mk h pt).
Proof. rewrite encrypt_data_payload_eq. apply no_panic_ok_or. Qed.

Lemma encrypt_ctrl_payload_no_panic okm h pt : no_panic (encrypt_ctrl_payload okm h pt).
Proof. rewrite encrypt_ctrl_payload_eq. apply no_panic_ok_or. Qed.

Lemma decrypt_ctrl_payload_no_panic okm h ct : no_panic (decrypt_ctrl_payload okm h ct).
Proof.
  rewrite decrypt_ctrl_payload_eq. destruct (aead_decrypt _ _ _ _) as [pt|]; [|done]. oc.
  unfold try_array. by case_match.
Qed.

Lemma nonce_data_no_panic {E} mk h : no_panic (nonce_data (E:=E) mk h).
Proof. by rewrite nonce_data_ok. Qed.

Lemma nonce_ctrl_no_panic {E} okm t e c sid : no_panic (nonce_ctrl (E:=E) okm t e c sid).
Proof. unfold nonce_ctrl. by rewrite nonce24_ok. Qed.

Lemma msg_step_no_panic {E} ck m : no_panic (msg_step (E:=E) ck m).
Proof. by rewrite msg_step_ok. Qed.

Lemma dh_mix_no_panic {E} rk d : no_panic (dh_mix (E:=E) rk d).
Proof. by rewrite dh_mix_ok. Qed.

Lemma safe_pad_outer logical : safe (pad_outer logical).
Proof. intros g. rewrite pad_outer_eq. by destruct (smallest_padding_bucket _). Qed.

Lemma safe_map_err {S E F A} (f : E → F) (m : ST S E A) : safe m → safe (st_map_err f m).
Proof. intros Hm s. unfold st_map_err. specialize (Hm s). by destruct (m s) as [[]]. Qed.

Lemma safe_on_session {A} (m : ST t SessionError A) : safe m → safe (on_session m).
Proof. apply safe_zoom. Qed.

Lemma safe_on_rng {A} (m : ST rng_state SessionError A) : safe m → safe (on_rng m).
Proof. apply safe_zoom. Qed.

Lemma safe_secret {E} : safe (random_static_secret : ST rng_state E bytes).
Proof. intros g. unfold random_static_secret, fill_bytes. by destruct (rng_fill 32 g). Qed.

(** What [strip_outer_pad] returns is long enough for the slices taken of it. *)
Lemma strip_len p n l : strip_outer_pad p n = Ok l → len l = n.
Proof.
  unfold strip_outer_pad. destruct (smallest_padding_bucket n) as [b|] eqn:Hb; oc; [|done].
  apply bucket_spec in Hb as (_&?&_).
  destruct (N.eqb_spec (len p) b); oc; [|done]. destruct (N.leb_spec n (len p)); oc; [|done].
  intros [= <-]. len.
Qed.

Lemma slice_after_strip {E} p n l :
  strip_outer_pad p n = Ok l → 24 <= n → no_panic (slice_from (E:=E) l 24).
Proof. intros Hl Hn. apply strip_len in Hl. unfold slice_from. by rewrite slice_ok by lia. Qed.

Lemma strip_no_panic p n : no_panic (strip_outer_pad p n).
Proof.
  unfold strip_outer_pad. destruct (smallest_padding_bucket n) as [b|] eqn:Hb; oc; [|done].
  destruct (_ =? _); oc; [|done]. by destruct (_ <=? _).
Qed.

End leaves.

#[export] Hint Resolve ctrl_inner_no_panic encrypt_data_payload_no_panic
  encrypt_ctrl_payload_no_panic decrypt_ctrl_payload_no_panic nonce_data_no_panic
  nonce_ctrl_no_panic msg_step_no_panic dh_mix_no_panic strip_no_panic safe_pad_outer
  safe_map_err safe_secret safe_on_session safe_on_rng : safe.

(** Walk through a method body. *)
Ltac safe_step :=
  lazymatch goal with
  | |- safe (mbind _ (st_lift _)) => apply safe_bind_lift; [|intros ? ?]
  | |- safe (mbind _ _) => apply safe_bind; [|intros ?]
  | |- safe (st_lift _) => apply safe_lift
  | |- safe (st_zoom _ _ _) => apply safe_zoom
  | |- safe (on_session _) => apply safe_on_session
  | |- safe (on_rng _) => apply safe_on_rng
  | |- safe (match ?x with _ => _ end) => destruct x eqn:?
  | |- safe (let _ := _ in _) => cbv zeta
  end.
Ltac safe := repeat first [solve [eauto 4 with safe] | safe_step].

Section engine.
Context `{Crypto} `{Rng} `{Build}.

(** * The methods without a gap to fill *)

Lemma safe_send_step : safe send_step_mk.
Proof. unfold send_step_mk. safe. Qed.
Lemma safe_recv_step : safe recv_step_mk.
Proof. unfold recv_step_mk. safe. Qed.
Lemma safe_bump : safe bump_send_counter.
Proof. unfold bump_send_counter. safe. Qed.
Lemma safe_cache_insert pub c mk : safe (SkippedKeyCache.insert pub c mk).
Proof. unfold SkippedKeyCache.insert. safe. Qed.

#[local] Hint Resolve safe_send_step safe_recv_step safe_bump safe_cache_insert : safe.

Lemma safe_fill_loop pub cnt n : safe (fill_gap_loop pub cnt n).
Proof.
  revert cnt; induction n as [|n IH]; intros cnt; simpl; safe. apply safe_zoom. safe.
Qed.

Lemma safe_dh_ratchet p : safe (apply_inbound_dh_ratchet p).
Proof. unfold apply_inbound_dh_ratchet. safe. Qed.

Lemma safe_bind_or_dh p : safe (bind_or_dh_ratchet p).
Proof. unfold bind_or_dh_ratchet. safe. apply safe_dh_ratchet. Qed.

Lemma no_panic_precheck s c : no_panic (replay_precheck s c).
Proof.
  unfold replay_precheck. case_bool_decide; [done|]. oc.
  destruct (recv_high_water s); [apply no_panic_reject|done].
Qed.

#[local] Hint Resolve safe_fill_loop safe_dh_ratchet safe_bind_or_dh no_panic_precheck : safe.

Lemma safe_encrypt_data pt : safe (encrypt_data_plain512 pt).
Proof. unfold encrypt_data_plain512. safe. Qed.
Lemma safe_encrypt_rekey b : safe (encrypt_rekey_ctrl b).
Proof. unfold encrypt_rekey_ctrl. safe. Qed.
Lemma safe_encrypt_data_outer pt : safe (encrypt_data_plain512_outer pt).
Proof. unfold encrypt_data_plain512_outer. safe. Qed.
Lemma safe_encrypt_rekey_outer b : safe (encrypt_rekey_ctrl_outer b).
Proof. unfold encrypt_rekey_ctrl_outer. safe. Qed.

Lemma safe_decrypt_rekey h p : safe (decrypt_rekey_ctrl_outer h p).
Proof.
  unfold decrypt_rekey_ctrl_outer. safe.
  destruct (strip_outer_pad p _) eqn:Hs; [|done..]. simplify_eq/=.
  by eapply slice_after_strip.
Qed.

(** * The gap *)

(** The first counter of the gap before [c]. *)
Definition gap_base (s : t) : N :=
  match recv_high_water s with Some hw => saturating_add U64_MAX hw 1 | None => 0 end.

(** The sum [skipped.len() + additional_skips] for a record of counter [c] from
    [p] leaves the range of [usize]. *)
Definition gap_overflows (p : bytes) (c : N) (s : t) : Prop :=
  cache_map (skipped s) !! cache_key p c = None ∧
  from_option (λ hw, hw < c) True (recv_high_water s) ∧
  gap_base s < c ∧ USIZE_MAX < cache_len (skipped s) + (c - gap_base s).

Lemma cache_delete_None (m : gmap bytes bytes) k :
  m !! k = None → {| SkippedKeyCache.map := delete k m |} = {| SkippedKeyCache.map := m |}.
Proof. intros Hk. by rewrite delete_id. Qed.

Lemma fill_gap_panics p base c s :
  (fill_recv_gap_to_counter p base c s).1 = Panic ↔
  overflow_checks = true ∧ base < c ∧ USIZE_MAX < cache_len (skipped s) + (c - base).
Proof.
  unfold fill_recv_gap_to_counter. destruct (N.leb_spec c base).
  { split; [done|]. lia. }
  rewrite st_bind_eq. cbn [st_get]. rewrite panic_bind_safe by (intros; safe).
  unfold st_lift, usize_add. simpl.
  destruct (N.leb_spec (cache_len (skipped s) + (c - base)) USIZE_MAX).
  - split; [done|]. lia.
  - by destruct overflow_checks; [|naive_solver].
Qed.

Lemma recv_message_key_panics p c s :
  (recv_message_key p c s).1 = Panic ↔ overflow_checks = true ∧ gap_overflows p c s.
Proof.
  unfold recv_message_key, SkippedKeyCache.take. rewrite st_bind_eq. cbn [st_get].
  cbv beta iota zeta. rewrite st_bind_eq. cbn [st_modify].
  unfold gap_overflows, gap_base.
  destruct (cache_map (skipped s) !! cache_key p c) as [mk|] eqn:Hk; [naive_solver|].
  cbn [fst snd].
  destruct (recv_high_water s) as [hw|]; simpl.
  - destruct (N.leb_spec c hw); [split; [done|]; intros (_&_&?&_); lia|].
    rewrite panic_bind_safe by (intros; safe). rewrite fill_gap_panics. simpl.
    rewrite cache_delete_None by done. destruct (skipped s). naive_solver.
  - rewrite panic_bind_safe by (intros; safe). rewrite fill_gap_panics. simpl.
    rewrite cache_delete_None by done. destruct (skipped s). naive_solver.
Qed.

(** Above the high-water mark, the key comes off the chain after the gap. *)
Lemma recv_message_key_gap p c s :
  cache_map (skipped s) !! cache_key p c = None →
  from_option (λ hw, hw < c) True (recv_high_water s) →
  recv_message_key p c s =
    (fill_recv_gap_to_counter p (gap_base s) c ≫= λ _, recv_step_mk) s.
Proof.
  intros Hnone Hhw. unfold recv_message_key, SkippedKeyCache.take. rewrite st_bind_eq.
  cbn [st_get]. cbv beta iota zeta. rewrite st_bind_eq. cbn [st_modify]. rewrite Hnone.
  rewrite cache_delete_None by done.
  replace (set_skipped _ s) with s by by destruct s as [?????????????? []].
  unfold gap_base. destruct (recv_high_water s); [|done]. simpl in Hhw.
  by rewrite leb_false.
Qed.

(** The DH ratchet leaves the gap alone. *)
Definition gap_state (s : t) : SkippedKeyCache.t * option N := (skipped s, recv_high_water s).

Lemma bind_or_dh_gap p v :
  preserves (on_sess (λ s, gap_state s = v)) (bind_or_dh_ratchet p).
Proof. unfold bind_or_dh_ratchet, apply_inbound_dh_ratchet. by pres. Qed.

Lemma gap_overflows_state p c s s' :
  gap_state s = gap_state s' → gap_overflows p c s ↔ gap_overflows p c s'.
Proof. intros [= Hs Hw]. unfold gap_overflows, gap_base. by rewrite Hs, Hw. Qed.

(** When a DATA record makes the engine panic. *)
Definition data_panics (h : Header.t) (s : t) : Prop :=
  overflow_checks = true ∧ header_matches 3 (fixed s) h ∧
  window_admits (window s) (Header.counter_be h) ∧
  gap_overflows (Header.ratchet_pub h) (Header.counter_be h) s.

Lemma bind_or_dh_Ok p s g :
  ∃ s' g', bind_or_dh_ratchet p (s, g) = (Ok tt, (s', g')) ∧ gap_state s' = gap_state s.
Proof.
  pose proof (bind_or_dh_gap p (gap_state s) (s, g) eq_refl) as Hg. unfold on_sess in Hg.
  unfold bind_or_dh_ratchet in *. rewrite st_bind_eq in *. cbn [st_get] in *.
  destruct (peer_ratchet_pub s) as [q|]; [|by eexists _, _].
  case_bool_decide; [by eexists _, _|]. revert Hg. unfold apply_inbound_dh_ratchet, random_static_secret, fill_bytes, on_session,
    on_rng, st_zoom, st_modify, st_get, st_lift, mbind, st_bind.
  cbn [fst snd]. rewrite dh_mix_ok. cbn [fst snd].
  destruct (role s); cbn [fst snd]; destruct (rng_fill 32 g) as [b g']; by eexists _, _.
Qed.

(** The checks both receive paths make first do not panic. *)
Lemma receive_checks_panic {A} typ h
    (k : t * rng_state → ST (t * rng_state) SessionError A) s g :
  ((st ← st_get;
    let '(s, _) := st in
    _ ← st_lift (reject_if (negb (Header.version h =? HEADER_VERSION_V0) ||
                            negb (Header.typ h =? typ)) InvalidHeader);
    _ ← st_lift (reject_if (negb (bool_decide (Header.session_id h = session_id s)) ||
                            negb (Header.epoch_be h =? epoch s)) StaleEpochRejected);
    _ ← st_lift (replay_precheck s (Header.counter_be h));
    k st) (s, g)).1 = Panic ↔
  header_matches typ (fixed s) h ∧ window_admits (window s) (Header.counter_be h) ∧
  (k (s, g) (s, g)).1 = Panic.
Proof.
  split; [|by intros (?&?&?); rewrite receive_checks_pass].
  rewrite st_bind_eq. cbn [st_get]. rewrite !st_bind_eq. unfold st_lift.
  destruct (reject_if _ InvalidHeader) eqn:Hh; [|done|by apply reject_if_Panic in Hh].
  rewrite st_bind_eq.
  destruct (reject_if _ StaleEpochRejected) eqn:Hs; [|done|by apply reject_if_Panic in Hs].
  rewrite st_bind_eq. pose proof (no_panic_precheck s (Header.counter_be h)).
  destruct (replay_precheck _ _) eqn:Hw; [|done..].
  apply reject_header_Ok in Hh as []. apply reject_session_Ok in Hs as [].
  by apply replay_precheck_Ok in Hw.
Qed.

Lemma decrypt_data_panics h ct st :
  (decrypt_data h ct st).1 = Panic ↔ data_panics h st.1.
Proof.
  destruct st as [s g]. cbn [fst]. unfold data_panics, decrypt_data.
  rewrite (receive_checks_panic 3 h (λ _, _)). cbv zeta.
  destruct (bind_or_dh_Ok (Header.ratchet_pub h) s g) as (s1&g1&He&Hg).
  erewrite st_bind_Ok by exact He. rewrite panic_bind_safe.
  2: { intros mk. safe. by destruct (_ =? _). }
  rewrite <- (gap_overflows_state _ _ s1 s) by done.
  pose proof (recv_message_key_panics (Header.ratchet_pub h) (Header.counter_be h) s1) as Hk.
  unfold on_session, st_zoom. cbn [fst].
  destruct (recv_message_key _ _ _) as [r s2]. cbn [fst] in *. rewrite Hk. tauto.
Qed.

Lemma decrypt_data_outer_panics h p st :
  (decrypt_data_outer h p st).1 = Panic → data_panics h st.1.
Proof.
  unfold decrypt_data_outer. cbv zeta. rewrite st_bind_eq. unfold st_lift.
  destruct (strip_outer_pad p _) as [l|e|] eqn:Hl; [|done|].
  - oc. rewrite st_bind_eq.
    pose proof (slice_after_strip (E:=SessionError) _ _ _ Hl ltac:(done)).
    destruct (slice_from l 24); [apply decrypt_data_panics|done..].
  - pose proof (strip_no_panic p (24 + DATA_INNER_FIXED + 16)) as Hn. by rewrite Hl in Hn.
Qed.

Lemma maybe_expire_data_panics now h s :
  data_panics h (maybe_expire_reset_pending now s) ↔ data_panics h s.
Proof.
  unfold maybe_expire_reset_pending. cbv zeta. by case_match.
Qed.

Lemma handle_inbound_panics rec now st :
  (handle_inbound_outer rec now st).1 = Panic → data_panics (OuterRecord.header rec) st.1.
Proof.
  destruct st as [s g]. unfold handle_inbound_outer. rewrite st_bind_eq.
  unfold on_session at 1, st_zoom, st_modify. cbn [fst snd].
  rewrite <- (maybe_expire_data_panics now). set (s0 := maybe_expire_reset_pending now s).
  rewrite st_bind_eq. unfold st_lift.
  pose proof (validate_v0_no_panic (OuterRecord.header rec)).
  destruct (Header.validate_v0 _); [|done..]. oc.
  rewrite st_bind_eq. cbn [st_get]. rewrite st_bind_eq.
  destruct (reject_if _ UnknownSession) eqn:Hu; [|done|by apply reject_if_Panic in Hu].
  rewrite st_bind_eq.
  assert (no_panic (check_inbound_epoch_policy s0 (OuterRecord.header rec))) as Hn.
  { unfold check_inbound_epoch_policy. cbv zeta.
    repeat (apply no_panic_bind; [try apply no_panic_reject|intros _]); [|done].
    destruct (mode s0); [done|apply no_panic_reject|done]. }
  destruct (check_inbound_epoch_policy _ _); [|done..].
  destruct (_ =? 3); [|destruct (_ =? 5); [|done]].
  - rewrite panic_bind_safe by done. apply decrypt_data_outer_panics.
  - rewrite panic_bind_safe by done. intros Hp.
    pose proof (safe_decrypt_rekey (OuterRecord.header rec) (OuterRecord.payload rec) (s0, g)).
    by apply no_panic_ne in Hp.
Qed.

(** The DATA record a call hands to the receive path. *)
Definition received_header (o : op) : option Header.t :=
  match o with
  | DecryptData h _ | DecryptDataOuter h _ => Some h
  | HandleInboundOuter rec _ => Some (OuterRecord.header rec)
  | _ => None
  end.

Lemma safe_modes :
  (∀ e d, safe (enter_reset_pending_after_rebootstrap e d)) ∧ safe reset_pending_to_bootstrapping ∧
  safe finish_reset_half_open_to_active ∧ (∀ e, safe (enter_bootstrapping_for_epoch e)).
Proof.
  unfold enter_reset_pending_after_rebootstrap, reset_pending_to_bootstrapping,
    finish_reset_half_open_to_active, enter_bootstrapping_for_epoch.
  split_and!; intros; safe.
Qed.

#[local] Hint Resolve safe_encrypt_data safe_encrypt_rekey safe_encrypt_data_outer
  safe_encrypt_rekey_outer safe_decrypt_rekey : safe.

Lemma exec_panics o st :
  (exec o st).1 = Panic → ∃ h, received_header o = Some h ∧ data_panics h st.1.
Proof.
  destruct o; simpl exec; rewrite panic_bind_safe by done; intros Hp.
  5: { exists header. split; [done|]. by apply decrypt_data_panics in Hp. }
  5: { exists header. split; [done|]. by apply decrypt_data_outer_panics in Hp. }
  6: { exists (OuterRecord.header record). split; [done|]. by apply handle_inbound_panics in Hp. }
  all: exfalso; revert Hp; apply no_panic_ne;
    match goal with |- no_panic (?m _).1 => cut (safe m); [by intros Hm; apply Hm|] end.
  all: safe; by eapply safe_modes.
Qed.

(** * Work per inbound record *)

Lemma recv_step_effect s :
  skipped (recv_step_mk s).2 = skipped s ∧
  recv_sym_idx (recv_step_mk s).2 <= recv_sym_idx s + 1.
Proof.
  unfold recv_step_mk. rewrite st_bind_eq. cbn [st_get]. rewrite st_bind_eq, msg_step_ok.
  cbn [st_lift]. rewrite st_bind_eq. cbn [st_modify]. rewrite st_bind_eq. cbn [st_lift].
  destruct (ok_or _ _) eqn:Hi; simpl; (split; [done|]); [|lia..].
  apply ok_or_checked_add in Hi as [_ ->]. done.
Qed.

(** One round of the loop: it fails, or the cache has grown by one. *)
Lemma fill_round {A} pub cnt s :
  (∃ e s1, (∀ k' : () → ST t SessionError A,
     (mk ← recv_step_mk; _ ← on_skipped (SkippedKeyCache.insert pub cnt mk); k' tt) s =
       (Err e, s1)) ∧ recv_sym_idx s1 <= recv_sym_idx s + 1) ∨
  (∃ s1, (∀ k' : () → ST t SessionError A,
     (mk ← recv_step_mk; _ ← on_skipped (SkippedKeyCache.insert pub cnt mk); k' tt) s =
       k' tt s1) ∧
     cache_len (skipped s) < MAX_SKIP ∧ cache_len (skipped s1) = cache_len (skipped s) + 1 ∧
     recv_sym_idx s1 <= recv_sym_idx s + 1).
Proof.
  pose proof (recv_step_effect s) as [Hsk Hidx].
  pose proof (safe_recv_step s) as Hnp.
  destruct (recv_step_mk s) as [[mk|e|] s0] eqn:Hr; [| |done]; simpl in *.
  2: { left. exists e, s0. split; [|done]. intros k'. by rewrite st_bind_eq, Hr. }
  pose proof (cache_insert_eq pub cnt mk (skipped s0)) as Hi. rewrite Hsk in Hi.
  destruct (N.leb_spec MAX_SKIP (cache_len (skipped s))).
  { left. eexists _, _. split.
    - intros k'. erewrite st_bind_Ok by done. rewrite st_bind_eq.
      unfold on_skipped, st_zoom. by rewrite Hsk, Hi.
    - done. }
  case_bool_decide as Hk.
  { left. eexists _, _. split.
    - intros k'. erewrite st_bind_Ok by done. rewrite st_bind_eq.
      unfold on_skipped, st_zoom. by rewrite Hsk, Hi.
    - done. }
  right. eexists. split_and!.
  - intros k'. erewrite st_bind_Ok by done. rewrite st_bind_eq.
    unfold on_skipped, st_zoom. by rewrite Hsk, Hi.
  - done.
  - simpl. unfold cache_len. simpl. apply eq_None_not_Some in Hk.
    rewrite map_size_insert_None by done. lia.
  - done.
Qed.

(** Whatever the counter of the record, the loop ends after at most [MAX_SKIP + 1]
    rounds less the keys already stored: the next insert fails. *)
Lemma fill_loop_bound pub cnt n s :
  cache_len (skipped s) <= MAX_SKIP →
  MAX_SKIP + 1 - cache_len (skipped s) <= N.of_nat n →
  fill_gap_loop pub cnt n s =
    fill_gap_loop pub cnt (N.to_nat (MAX_SKIP + 1 - cache_len (skipped s))) s.
Proof.
  revert cnt s; induction n as [|n IH]; intros cnt s Hs Hn; [lia|].
  replace (N.to_nat (MAX_SKIP + 1 - cache_len (skipped s)))
    with (S (N.to_nat (MAX_SKIP - cache_len (skipped s)))) by lia. cbn [fill_gap_loop].
  destruct (fill_round (A:=()) pub cnt s) as [(e&s1&Hf&_)|(s1&Hf&?&Hl&_)].
  - by rewrite (Hf (λ _, fill_gap_loop pub (cnt + 1) n)),
      (Hf (λ _, fill_gap_loop pub (cnt + 1) _)).
  - rewrite (Hf (λ _, fill_gap_loop pub (cnt + 1) n)),
      (Hf (λ _, fill_gap_loop pub (cnt + 1) _)), IH by lia.
    f_equal. lia.
Qed.

(** The chain steps a run of the loop takes; a completed run has stored them all. *)
Lemma fill_loop_steps pub cnt n s :
  match fill_gap_loop pub cnt n s with
  | (Ok _, s') => recv_sym_idx s' <= recv_sym_idx s + N.of_nat n ∧
      cache_len (skipped s') = cache_len (skipped s) + N.of_nat n ∧
      (n = 0%nat ∨ cache_len (skipped s') <= MAX_SKIP)
  | (_, s') => recv_sym_idx s' <= recv_sym_idx s + N.of_nat n
  end.
Proof.
  revert cnt s; induction n as [|n IH]; intros cnt s; cbn [fill_gap_loop].
  { simpl. split_and!; [lia|lia|by left]. }
  destruct (fill_round (A:=()) pub cnt s) as [(e&s1&Hf&?)|(s1&Hf&?&Hl&?)];
    rewrite (Hf (λ _, fill_gap_loop pub (cnt + 1) n)); [lia|].
  specialize (IH (cnt + 1) s1). destruct (fill_gap_loop _ _ _ _) as [[u|e|] s']; [|lia..].
  destruct IH as (?&?&[->|?]); split_and!; try right; lia.
Qed.

Lemma fill_gap_steps pub base c s :
  cache_len (skipped s) <= MAX_SKIP →
  match fill_recv_gap_to_counter pub base c s with
  | (Ok _, s') => recv_sym_idx s' <= recv_sym_idx s + MAX_SKIP
  | (_, s') => recv_sym_idx s' <= recv_sym_idx s + MAX_SKIP + 1
  end.
Proof.
  intros Hs. unfold fill_recv_gap_to_counter. destruct (_ <=? _); [simpl; lia|].
  rewrite st_bind_eq. cbn [st_get]. rewrite st_bind_eq. unfold st_lift.
  destruct (usize_add _ _) as [total|e|]; [|lia..]. rewrite st_bind_eq.
  destruct (reject_if _ _); [|lia..]. set (n := N.to_nat (c - base)).
  destruct (decide (MAX_SKIP + 1 - cache_len (skipped s) <= N.of_nat n)) as [Hn|Hn].
  - rewrite fill_loop_bound by done.
    pose proof (fill_loop_steps pub base (N.to_nat (MAX_SKIP + 1 - cache_len (skipped s))) s)
      as Hl.
    destruct (fill_gap_loop _ _ _ _) as [[u|e|] s']; [|lia..].
    destruct Hl as (?&?&[?|?]); lia.
  - pose proof (fill_loop_steps pub base n s) as Hl.
    destruct (fill_gap_loop _ _ _ _) as [[u|e|] s']; lia.
Qed.

Lemma recv_message_key_steps pub c s :
  cache_len (skipped s) <= MAX_SKIP →
  recv_sym_idx (recv_message_key pub c s).2 <= recv_sym_idx s + MAX_SKIP + 1.
Proof.
  intros Hs. unfold recv_message_key, SkippedKeyCache.take. rewrite st_bind_eq. cbn [st_get].
  cbv beta iota zeta. rewrite st_bind_eq. cbn [st_modify].
  set (s0 := set_skipped _ s).
  assert (cache_len (skipped s0) <= MAX_SKIP) as Hs0.
  { unfold cache_len, s0 in *. simpl. rewrite map_size_delete.
    destruct (_ !! _); simpl; lia. }
  assert (∀ base, recv_sym_idx ((_ ← fill_recv_gap_to_counter pub base c; recv_step_mk) s0).2
    <= recv_sym_idx s + MAX_SKIP + 1) as Hgap.
  { intros base. rewrite st_bind_eq. pose proof (fill_gap_steps pub base c s0 Hs0) as Hl.
    change (recv_sym_idx s0) with (recv_sym_idx s) in Hl.
    destruct (fill_recv_gap_to_counter _ _ _ _) as [[u|e|] s']; [|done..].
    pose proof (recv_step_effect s') as [_ ?]. lia. }
  destruct (_ !! _); [simpl; lia|]. destruct (recv_high_water s) as [hw|]; [|done].
  destruct (_ <=? _); [simpl; lia|done].
Qed.

(** ** The whole receive path *)

Definition steps_within (v : N) (s : t) : Prop := recv_sym_idx s <= v.
Definition before_steps (v : N) (s : t) : Prop :=
  recv_sym_idx s <= v ∧ cache_len (skipped s) <= MAX_SKIP.

Lemma bind_or_dh_steps p v : preserves (on_sess (before_steps v)) (bind_or_dh_ratchet p).
Proof.
  unfold bind_or_dh_ratchet, apply_inbound_dh_ratchet.
  pres; unfold before_steps in *; simpl; intuition lia.
Qed.

Lemma before_within v s : before_steps v s → steps_within (v + MAX_SKIP + 1) s.
Proof. unfold before_steps, steps_within. lia. Qed.

Lemma accept_before_steps c v s : before_steps v s → before_steps v (accept_counter c s).
Proof. done. Qed.

Lemma decrypt_data_steps h ct v :
  triple (on_sess (before_steps v)) (decrypt_data h ct)
    (λ _, on_sess (steps_within (v + MAX_SKIP + 1))) (on_sess (steps_within (v + MAX_SKIP + 1))).
Proof.
  unfold decrypt_data. apply triple_bind_get_keep. intros [s0 g0] _.
  do 3 (apply triple_bind_lift; [intros ?; apply before_within|intros _ _]). cbv zeta.
  apply triple_bind_pres; [apply bind_or_dh_steps|intros ?; apply before_within|intros _].
  eapply (triple_bind _ _ _ (λ _, on_sess (steps_within (v + MAX_SKIP + 1)))).
  - intros [s g] [Hv Hc]. unfold on_session, st_zoom. cbn [fst].
    pose proof (recv_message_key_steps (Header.ratchet_pub h) (Header.counter_be h) s Hc).
    destruct (recv_message_key _ _ s) as [[mk|e|] s']; unfold on_sess, steps_within; simpl in *; lia.
  - intros mk. match goal with |- triple ?P ?m _ _ => change (preserves P m) end.
    by pres.
Qed.

Lemma decrypt_data_outer_steps h p v :
  triple (on_sess (before_steps v)) (decrypt_data_outer h p)
    (λ _, on_sess (steps_within (v + MAX_SKIP + 1))) (on_sess (steps_within (v + MAX_SKIP + 1))).
Proof.
  unfold decrypt_data_outer.
  do 2 (apply triple_bind_lift; [intros ?; apply before_within|intros ? _]).
  apply decrypt_data_steps.
Qed.

Lemma decrypt_rekey_steps h p v :
  preserves (on_sess (before_steps v)) (decrypt_rekey_ctrl_outer h p).
Proof. unfold decrypt_rekey_ctrl_outer. pres; auto using bind_or_dh_steps, accept_before_steps. Qed.

Lemma handle_inbound_steps rec now v :
  triple (on_sess (before_steps v)) (handle_inbound_outer rec now)
    (λ _, on_sess (steps_within (v + MAX_SKIP + 1))) (on_sess (steps_within (v + MAX_SKIP + 1))).
Proof.
  unfold handle_inbound_outer. apply triple_bind_pres; [|intros ?; apply before_within|intros _].
  { apply preserves_on_session, preserves_modify. intros s Hs.
    unfold maybe_expire_reset_pending. cbv zeta. by case_match. }
  apply triple_bind_lift; [intros ?; apply before_within|intros _ _].
  apply triple_bind_get_keep. intros [s0 g0] _.
  do 2 (apply triple_bind_lift; [intros ?; apply before_within|intros _ _]). cbv zeta.
  destruct (_ =? 3); [|destruct (_ =? 5)].
  - eapply triple_bind; [apply decrypt_data_outer_steps|]. intros. by apply triple_ret.
  - eapply triple_bind; [apply triple_conseq with (1 := decrypt_rekey_steps _ _ v);
      [done|by intros ??; apply before_within|by intros ?; apply before_within]|].
    intros. by apply triple_ret.
  - apply triple_fail. intros ?; apply before_within.
Qed.

End engine.

(** * Properties *)

(** C3: panic freedom, with its one exception. A call on a session panics only when
    the build checks overflow and the call hands the receive path a DATA record of
    the session with an admissible counter for which [skipped.len() +
    additional_skips] leaves the range of [usize]; for [decrypt_data] that condition
    is exact. Release builds, and sessions that store no skipped key, never panic,
    whatever the peer or the network sends. *)
Theorem panics_exactly_on_gap_overflow `{Crypto} `{Rng} `{Build} st :
  (∀ o, (exec o st).1 = Panic → ∃ h, received_header o = Some h ∧ data_panics h st.1) ∧
  (∀ h ct, (exec (DecryptData h ct) st).1 = Panic ↔ data_panics h st.1) ∧
  (∀ o, overflow_checks = false ∨ op_wf o ∧ cache_len (skipped st.1) = 0 →
    no_panic (exec o st).1).
Proof.
  split; [intros o; apply exec_panics|]. split.
  { intros h ct. simpl exec. rewrite panic_bind_safe by done. apply decrypt_data_panics. }
  intros o Ho. apply no_panic_ne. intros (h&Hh&Hc&_&_&_&_&?&?)%exec_panics.
  destruct Ho as [Hf|[Hwf Hl]]; [by rewrite Hf in Hc|].
  assert (Header.wf h) as (_&_&_&_&_&Hu&_)
    by (destruct o; simplify_eq/=; try done; apply Hwf).
  unfold fits, USIZE_MAX, U64_MAX in *. simpl in Hu. lia.
Qed.

(** C18: the work of one inbound record is bounded. The gap loop of a receiver with
    [k] stored keys ends within [MAX_SKIP + 1 - k] rounds however far ahead the
    record's counter is, also when the preceding check has wrapped around, and a
    record handed to [handle_inbound_outer], accepted or not, advances the receive
    chain by at most [MAX_SKIP + 1] steps. *)
Theorem inbound_work_bounded `{Crypto} `{Rng} `{Build} s g rec now :
  cache_len (skipped s) <= MAX_SKIP →
  (∀ pub cnt n, MAX_SKIP + 1 - cache_len (skipped s) <= N.of_nat n →
    fill_gap_loop pub cnt n s =
      fill_gap_loop pub cnt (N.to_nat (MAX_SKIP + 1 - cache_len (skipped s))) s) ∧
  recv_sym_idx (handle_inbound_outer rec now (s, g)).2.1 <= recv_sym_idx s + (MAX_SKIP + 1).
Proof.
  intros Hs. split; [intros; by apply fill_loop_bound|].
  pose proof (handle_inbound_steps rec now (recv_sym_idx s) (s, g)
    (conj (N.le_refl _) Hs)) as Hh.
  unfold on_sess, steps_within in Hh.
  destruct (handle_inbound_outer rec now (s, g)) as [[a|e|] st']; simpl; lia.
Qed.

Definition toy_far_record : OuterRecord.t :=
  {| OuterRecord.header := toy_header 3 U64_MAX; OuterRecord.payload := zeros 1024 |}.

Lemma inbound_work_bounded_witness :
  recv_sym_idx (handle_inbound_outer toy_far_record 0 (toy_bob, toy_seed 0)).2.1 <= 2001.
Proof. apply (inbound_work_bounded toy_bob (toy_seed 0) toy_far_record 0). by vm_compute. Defined.
