(* ===== verification/Rekey.v ===== *)
(** The receive paths of src/crates/libgary-core/src/engine/session.rs as equations,
    for any chain and either record type, and what follows for REKEY control records
    from their being outside the symmetric chains: one is accepted again after a
    restart, one is accepted by its own sender, and a lost one shifts the chain. *)

From S2P Require Import Prelude Wire Pad Crypto Handshake Payload Ratchet Skipped Blob.
From S2P Require Import Engine Toy EngineInv EngineWf Delivery Restart EnginePanic.
Import Session.

(** The session once the ratchet key of the header is bound. *)
Abbreviation bound h s := (set_peer_ratchet_pub (Some (Header.ratchet_pub h)) s).

Section rekey.
Context `{Crypto} `{Rng} `{Build}.

(** * The receive path *)

(** What [decrypt_rekey_ctrl_outer] makes of a record that passed the checks: a
    function of the session secret and the record alone. *)
Definition rekey_plain (okm : bytes) (h : Header.t) (padded_logical : bytes)
    : outcome SessionError bytes :=
  logical ← map_err (λ _, InvalidHeader) (strip_outer_pad padded_logical (24 + 256 + 16));
  ct ← slice_from logical 24;
  map_err (λ _, DecryptionFailed) (decrypt_ctrl_payload okm h ct).

(** The ratchet step neither fails nor touches what the checks look at. *)
Lemma bind_or_dh_keeps q s g :
  ∃ s1 g1, bind_or_dh_ratchet q (s, g) = (Ok tt, (s1, g1)) ∧ frame s1 = frame s.
Proof.
  destruct (bind_or_dh_Ok q s g) as (s1&g1&He&_). exists s1, g1. split; [done|].
  pose proof (bind_or_dh_ratchet_frame q (frame s) (s, g) eq_refl) as Hf. by rewrite He in Hf.
Qed.

Lemma decrypt_rekey_eq h b s g s1 g1 :
  header_matches 5 (fixed s) h → window_admits (window s) (Header.counter_be h) →
  bind_or_dh_ratchet (Header.ratchet_pub h) (s, g) = (Ok tt, (s1, g1)) → frame s1 = frame s →
  decrypt_rekey_ctrl_outer h b (s, g) =
    (rekey_plain (okm s) h b,
     (match rekey_plain (okm s) h b with
      | Ok _ => accept_counter (Header.counter_be h) s1
      | _ => s1
      end, g1)).
Proof.
  intros Hh Hw Hb Hf. assert (okm s1 = okm s) as Hokm by (by injection Hf).
  unfold decrypt_rekey_ctrl_outer. rewrite (receive_checks_pass 5 h (λ _, _)) by done. cbv zeta.
  rewrite (st_bind_Ok _ _ _ _ _ Hb). unfold rekey_plain. rewrite st_bind_eq. unfold st_lift at 1.
  destruct (map_err _ (strip_outer_pad _ _)) as [logical|e|]; [|done..]. oc.
  rewrite st_bind_eq. unfold st_lift at 1.
  destruct (slice_from logical 24) as [ct|e|]; [|done..]. oc.
  rewrite st_bind_eq. cbn [st_get]. rewrite st_bind_eq, Hokm. unfold st_lift.
  by destruct (map_err _ (decrypt_ctrl_payload _ _ _)).
Qed.

(** An accepted record passed the checks, and is now in the window. *)
Lemma decrypt_rekey_Ok h b s g pt st' :
  decrypt_rekey_ctrl_outer h b (s, g) = (Ok pt, st') →
  header_matches 5 (fixed s) h ∧ window_admits (window s) (Header.counter_be h) ∧
  rekey_plain (okm s) h b = Ok pt ∧ fixed st'.1 = fixed s ∧
  window st'.1 = window_accept (Header.counter_be h) (window s).
Proof.
  intros He. pose proof (decrypt_rekey_accepts h b (fixed s) (mode s) (window s) (s, g) eq_refl)
    as Ha. rewrite He in Ha. destruct Ha as (Hh&Hw&Hf).
  destruct (bind_or_dh_keeps (Header.ratchet_pub h) s g) as (s1&g1&Hb&Hf1).
  rewrite (decrypt_rekey_eq h b s g s1 g1) in He by done.
  apply pair_equal_spec in Hf as [[Hfx _]%pair_equal_spec Hwin].
  apply pair_equal_spec in He as [Hp _]. by split_and!.
Qed.

Lemma decrypt_rekey_passes h b s g :
  header_matches 5 (fixed s) h → window_admits (window s) (Header.counter_be h) →
  (decrypt_rekey_ctrl_outer h b (s, g)).1 = rekey_plain (okm s) h b.
Proof.
  intros Hh Hw. destruct (bind_or_dh_keeps (Header.ratchet_pub h) s g) as (s1&g1&Hb&Hf).
  by rewrite (decrypt_rekey_eq h b s g s1 g1).
Qed.

(** The window of an imported session still admits the counter just accepted. *)
Lemma restored_admits s s' c :
  window_admits (window s) c → window s' = window_accept c (window s) →
  window_admits (window (restored s')) c.
Proof.
  intros [_ Hold] [_ Hw]%pair_equal_spec. split; [by apply not_elem_of_empty|].
  unfold restored, recv_hw_or_sentinel. simpl. rewrite Hw. simpl.
  destruct (_ =? _); [done|]. unfold window_high. destruct (window s).2; lia.
Qed.


(** * Sending *)

Lemma encrypt_rekey_outer_ok `{!CryptoLaws _} body s g :
  len body <= 256 → send_wire_counter s < U64_MAX →
  ∃ payload plain s1 g1,
    encrypt_rekey_ctrl_outer body (s, g) = (Ok (out_header 5 s, payload), (s1, g1)) ∧
    s1 = set_anchor (anchor s1) (set_send_wire_counter (send_wire_counter s + 1) s) ∧
    ctrl_inner_padded256 body = Ok plain ∧
    rekey_plain (okm s) (out_header 5 s) payload = Ok plain.
Proof.
  intros Hbody Hc. pose proof (ctrl_inner_padded256_ok body Hbody) as Hplain.
  set (plain := body ++ _) in Hplain. pose proof (ctrl_inner_padded256_len _ _ Hplain) as Hl.
  set (h := out_header 5 s).
  destruct (aead_encrypt_total (ctrl_key (okm s)) (ctrl_nonce (okm s) h) plain (Header.encode h))
    as (ct&Hct&Hlct); [rewrite Hl; done|].
  unfold encrypt_rekey_ctrl_outer.
  erewrite st_bind_Ok by (unfold st_lift; by rewrite Hplain). erewrite st_bind_Ok by done.
  cbv beta iota zeta. fold h.
  erewrite st_bind_Ok by (unfold st_lift; by rewrite encrypt_ctrl_payload_eq, Hct).
  erewrite st_bind_Ok by (unfold st_lift; by rewrite nonce_ctrl_ok).
  destruct (bump_send_counter_eq s Hc) as (s1&Hbump&Hs1).
  rewrite (st_bind_Ok _ _ _ tt (s1, g))
    by (unfold on_session, st_zoom; cbn [fst snd]; by rewrite Hbump).
  assert (len (ctrl_nonce (okm s) h) = 24) as Hn by apply len_hkdf.
  assert (len (ctrl_nonce (okm s) h ++ ct) = 296) as Hlog by len_goal.
  destruct (pad_outer_total (ctrl_nonce (okm s) h ++ ct) g) as (out&g1&Hout); [lia|].
  rewrite (st_bind_Ok _ _ _ out (s1, g1))
    by (unfold on_rng, st_zoom, st_map_err; cbn [fst snd]; by rewrite Hout).
  apply pad_outer_strip in Hout. rewrite Hlog in Hout.
  exists out, plain, s1, g1. split_and!; [done..|].
  unfold rekey_plain. change (24 + 256 + 16) with 296. rewrite Hout. oc.
  unfold slice_from. rewrite slice_ok by len_goal. oc. rewrite sub_to_end, drop_app_len by done.
  rewrite decrypt_ctrl_payload_eq, (aead_decrypt_encrypt _ _ _ _ _ Hct). oc.
  unfold try_array. by rewrite Hl.
Qed.

(** * The receive chain, step by step *)

(** The chain steps of both directions, for any chain. *)
Definition step_recv (s : t) : t :=
  set_recv_sym_idx (recv_sym_idx s + 1)
    (set_recv_ck (step_ck (recv_ck s) (recv_sym_idx s)) s).

Lemma recv_step_eq s :
  recv_sym_idx s < U64_MAX →
  recv_step_mk s =
    (Ok (step_mk (recv_ck s) (recv_sym_idx s)), step_recv s).
Proof.
  intros Hi. unfold recv_step_mk. rewrite st_bind_eq. cbn [st_get].
  rewrite st_bind_eq, msg_step_ok. cbn [st_lift]. rewrite st_bind_eq. cbn [st_modify].
  rewrite st_bind_eq. unfold st_lift, checked_add. by rewrite leb_true by lia.
Qed.

Lemma send_step_eq s :
  send_sym_idx s < U64_MAX →
  send_step_mk s =
    (Ok (step_mk (send_ck s) (send_sym_idx s)),
     set_send_sym_idx (send_sym_idx s + 1)
       (set_send_ck (step_ck (send_ck s) (send_sym_idx s)) s)).
Proof.
  intros Hi. unfold send_step_mk. rewrite st_bind_eq. cbn [st_get].
  rewrite st_bind_eq, msg_step_ok. cbn [st_lift]. rewrite st_bind_eq. cbn [st_modify].
  rewrite st_bind_eq. unfold st_lift, checked_add. by rewrite leb_true by lia.
Qed.

(** The message key [n] steps down the receive chain. *)
Definition recv_key (s : t) (n : nat) : bytes := chain_mk (recv_ck s) (recv_sym_idx s) n.

Lemma recv_key_0 s : recv_key s 0 = step_mk (recv_ck s) (recv_sym_idx s).
Proof. unfold recv_key, chain_mk. simpl. by rewrite N.add_0_r. Qed.

Lemma recv_key_step s n : recv_key (step_recv s) n = recv_key s (S n).
Proof. unfold recv_key, chain_mk. simpl. f_equal. lia. Qed.

(** The record of the next counter takes the next key of the chain. *)
Lemma recv_message_key_next p s :
  cache_map (skipped s) !! cache_key p (gap_base s) = None →
  from_option (λ hw, hw < gap_base s) True (recv_high_water s) → recv_sym_idx s < U64_MAX →
  recv_message_key p (gap_base s) s = (Ok (recv_key s 0), step_recv s).
Proof.
  intros Hnone Hhw Hi. rewrite recv_message_key_gap by done.
  unfold fill_recv_gap_to_counter. rewrite N.leb_refl, (st_bind_Ok _ _ _ tt s) by done.
  by rewrite recv_step_eq, <- recv_key_0.
Qed.

(** The record after that skips one key. *)
Lemma recv_message_key_skip_one p s :
  cache_map (skipped s) !! cache_key p (gap_base s) = None →
  cache_map (skipped s) !! cache_key p (gap_base s + 1) = None →
  from_option (λ hw, hw <= gap_base s) True (recv_high_water s) →
  cache_len (skipped s) < MAX_SKIP → recv_sym_idx s + 1 < U64_MAX →
  ∃ s1, recv_message_key p (gap_base s + 1) s = (Ok (recv_key s 1), s1).
Proof.
  intros Hn0 Hn1 Hhw Hl Hi. rewrite recv_message_key_gap; [|done|].
  2: { destruct (recv_high_water s); simpl in *; [lia|done]. }
  unfold fill_recv_gap_to_counter. rewrite leb_false by lia.
  replace (N.to_nat (gap_base s + 1 - gap_base s)) with 1%nat by lia.
  replace (gap_base s + 1 - gap_base s) with 1 by lia. cbn [fill_gap_loop].
  rewrite !st_bind_eq. cbn [st_get]. rewrite !st_bind_eq. unfold st_lift, usize_add.
  change (SkippedKeyCache.length (skipped s)) with (cache_len (skipped s)).
  rewrite leb_true by (unfold USIZE_MAX, U64_MAX, MAX_SKIP in *; lia). oc.
  rewrite ltb_false by lia. oc. rewrite !st_bind_eq, recv_step_eq by lia.
  rewrite !st_bind_eq. unfold on_skipped, st_zoom. simpl skipped.
  rewrite cache_insert_Ok by done. cbn [mret st_ret]. unfold mret, st_ret.
  rewrite recv_step_eq by (simpl; lia). eexists. f_equal.
Qed.

(** What [decrypt_data] makes of a ciphertext once it has the message key. *)
Definition data_open (mk : bytes) (h : Header.t) (ct : bytes) : outcome SessionError bytes :=
  match aead_decrypt mk (data_nonce mk h) ct (Header.encode h) with
  | None => Err DecryptionFailed
  | Some pt => if len pt =? DATA_INNER_FIXED then Ok pt else Err InvalidHeader
  end.

Lemma data_open_seal `{!CryptoLaws _} mk h pt ct :
  len pt = DATA_INNER_FIXED →
  aead_encrypt mk (data_nonce mk h) pt (Header.encode h) = Some ct → data_open mk h ct = Ok pt.
Proof.
  intros Hpt Hct. unfold data_open. by rewrite (aead_decrypt_encrypt _ _ _ _ _ Hct), eqb_true.
Qed.

(** A record the checks let through, under the bound ratchet key. *)
Definition expected (typ : N) (h : Header.t) (s : t) : Prop :=
  header_matches typ (fixed s) h ∧ window_admits (window s) (Header.counter_be h) ∧
  from_option (λ q, q = Header.ratchet_pub h) True (peer_ratchet_pub s).

Lemma decrypt_data_fails h ct s g e s1 :
  expected 3 h s →
  recv_message_key (Header.ratchet_pub h) (Header.counter_be h) (bound h s) = (Err e, s1) →
  decrypt_data h ct (s, g) = (Err e, (s1, g)).
Proof.
  intros (Hh&Hw&Hq) Hk. unfold decrypt_data.
  rewrite (receive_checks_pass 3 h (λ _, _)) by done. cbv zeta.
  rewrite (st_bind_Ok _ _ _ _ _ (bind_or_dh_same _ s g Hq)), st_bind_eq.
  unfold on_session at 1, st_zoom at 1. cbn [fst snd]. by rewrite Hk.
Qed.

Lemma decrypt_data_eq h ct s g mk s1 :
  expected 3 h s →
  recv_message_key (Header.ratchet_pub h) (Header.counter_be h) (bound h s) = (Ok mk, s1) →
  decrypt_data h ct (s, g) =
    (data_open mk h ct,
     (match data_open mk h ct with
      | Ok _ => accept_counter (Header.counter_be h) s1
      | _ => s1
      end, g)).
Proof.
  intros (Hh&Hw&Hq) Hk. unfold decrypt_data.
  rewrite (receive_checks_pass 3 h (λ _, _)) by done. cbv zeta.
  rewrite (st_bind_Ok _ _ _ _ _ (bind_or_dh_same _ s g Hq)).
  rewrite (st_bind_Ok _ _ _ mk (s1, g))
    by (unfold on_session, st_zoom; cbn [fst snd]; by rewrite Hk).
  erewrite st_bind_Ok by (unfold st_lift; by rewrite nonce_data_ok).
  unfold data_open, xdecrypt. rewrite st_bind_eq. unfold st_lift.
  destruct (aead_decrypt _ _ _ _) as [pt|]; [|done]. oc. rewrite st_bind_eq.
  by destruct (_ =? _).
Qed.

Lemma decrypt_data_outer_eq h payload n ct st :
  strip_outer_pad payload (24 + DATA_INNER_FIXED + 16) = Ok (n ++ ct) → len n = 24 →
  decrypt_data_outer h payload st = decrypt_data h ct st.
Proof.
  intros Hstrip Hn. unfold decrypt_data_outer. cbv zeta.
  erewrite st_bind_Ok by (unfold st_lift; by rewrite Hstrip).
  erewrite st_bind_Ok; [done|]. unfold st_lift, slice_from. rewrite slice_ok by len_goal.
  by rewrite sub_to_end, drop_app_len.
Qed.

(** What the DH ratchet leaves behind, whatever happens next. *)
Definition rotated (s : t) (q : bytes) (s' : t) : Prop :=
  root_key s' = sub (mix_okm (root_key s) (dh (ratchet_sk s) q)) 0 32 ∧
  peer_ratchet_pub s' = Some q.

Lemma apply_inbound_dh_ratchet_rotates s g q :
  ∃ s1 g1, apply_inbound_dh_ratchet q (s, g) = (Ok tt, (s1, g1)) ∧ rotated s q s1.
Proof.
  unfold apply_inbound_dh_ratchet, random_static_secret, fill_bytes, on_session, on_rng,
    st_zoom, st_modify, st_get, st_lift, mbind, st_bind.
  cbn [fst snd]. rewrite dh_mix_ok. cbn [fst snd].
  destruct (role s); cbn [fst snd]; destruct (rng_fill 32 g) as [b g']; eexists _, _; (split; [done|by split]).
Qed.

Lemma accept_counter_rotated s q c s1 : rotated s q s1 → rotated s q (accept_counter c s1).
Proof. done. Qed.

(** * What follows *)

(** C36: reflection. The control key and nonce do not depend on the direction, so a
    session takes its own REKEY record (of a legal body, at a counter that is left)
    back as one from the peer: whenever its replay window admits the counter it is
    about to use, the record it then sends is accepted by the very session that sent
    it, with the plaintext it put in; and if it knows a ratchet key of the peer other
    than its own, it performs a DH ratchet against its own key. *)
Theorem rekey_reflection_accepted `{!CryptoLaws _} body s g g' :
  len body <= 256 → send_wire_counter s < U64_MAX →
  window_admits (window s) (send_wire_counter s) →
  ∃ h payload plain s1 g1 s2 g2,
    encrypt_rekey_ctrl_outer body (s, g) = (Ok (h, payload), (s1, g1)) ∧
    ctrl_inner_padded256 body = Ok plain ∧
    decrypt_rekey_ctrl_outer h payload (s1, g') = (Ok plain, (s2, g2)) ∧
    window s2 = window_accept (send_wire_counter s) (window s) ∧
    ∀ p, peer_ratchet_pub s = Some p → p ≠ my_ratchet_pub s →
      rotated s (my_ratchet_pub s) s2.
Proof.
  intros Hb Hc Hw. destruct (encrypt_rekey_outer_ok body s g Hb Hc)
    as (payload&plain&s1&g1&He&Hs1&Hplain&Hopen).
  set (h := out_header 5 s) in *. rewrite Hs1 in *.
  set (s1' := set_anchor _ _) in *. destruct (bind_or_dh_keeps (my_ratchet_pub s) s1' g')
    as (s2&g2&Hbind&Hf).
  exists h, payload, plain, s1', g1, (accept_counter (send_wire_counter s) s2), g2.
  split_and!; [done|done| | |].
  - rewrite (decrypt_rekey_eq h payload s1' g' s2 g2) by done.
    change (okm s1') with (okm s). by rewrite Hopen.
  - apply pair_equal_spec in Hf as [_ Hwin].
    change (window_accept (send_wire_counter s) (window s2) =
      window_accept (send_wire_counter s) (window s)). by rewrite Hwin.
  - intros p Hp Hne. apply accept_counter_rotated.
    destruct (apply_inbound_dh_ratchet_rotates s1' g' (my_ratchet_pub s)) as (s3&g3&Hd&Hr).
    unfold bind_or_dh_ratchet in Hbind. erewrite st_bind_Ok in Hbind by done.
    cbv beta iota in Hbind. change (peer_ratchet_pub s1') with (peer_ratchet_pub s) in Hbind.
    rewrite Hp, bool_decide_eq_false_2, Hd in Hbind by done. by injection Hbind as <- <-.
Qed.

(** ** A lost REKEY *)

(** The receiver [b] has taken everything the sender [a] sent: the two are at the
    same point of the chain, and nothing of [b] stands in the way of [a]'s next
    counters. *)
Record aligned (a b : t) : Prop := {
  al_sid : session_id a = session_id b;
  al_epoch : epoch a = epoch b;
  al_okm : okm a = okm b;
  al_ck : send_ck a = recv_ck b;
  al_idx : send_sym_idx a = recv_sym_idx b;
  al_counter : send_wire_counter a = gap_base b;
  al_peer : from_option (λ q, q = my_ratchet_pub a) True (peer_ratchet_pub b);
  al_unseen : ∀ c, gap_base b <= c → c ∉ decrypted_counters b;
  al_uncached : ∀ c, gap_base b <= c →
    cache_map (skipped b) !! cache_key (my_ratchet_pub a) c = None;
}.

Lemma gap_base_above s :
  gap_base s < U64_MAX → from_option (λ hw, hw + 1 = gap_base s) True (recv_high_water s).
Proof.
  unfold gap_base, saturating_add. destruct (recv_high_water s); simpl; lia.
Qed.

Lemma gap_base_lt s :
  gap_base s < U64_MAX → from_option (λ hw, hw < gap_base s) True (recv_high_water s).
Proof.
  intros Hb%gap_base_above. destruct (recv_high_water s); simpl in *; [lia|done].
Qed.

(** The sender's next records, whatever their type, are expected by the receiver. *)
Lemma aligned_expected typ a b h :
  aligned a b → gap_base b < U64_MAX → gap_base b <= Header.counter_be h →
  Header.version h = HEADER_VERSION_V0 → Header.typ h = typ →
  Header.session_id h = session_id a → Header.epoch_be h = epoch a →
  Header.ratchet_pub h = my_ratchet_pub a → expected typ h b.
Proof.
  intros [] Hmax Hc Hv Ht Hid He Hp. pose proof (gap_base_above b Hmax) as Hhw.
  split_and!; [|split; [by apply al_unseen0|]|by rewrite Hp].
  - split_and!; [done|done|..]; simpl; congruence.
  - simpl. destruct (recv_high_water b); [|done]. simpl in Hhw. lia.
Qed.

(** Accepting the sender's next counter leaves the receiver ready for the one after,
    at the same point of the chain. *)
Lemma accept_next q b :
  gap_base b < U64_MAX → (∀ c, gap_base b <= c → c ∉ decrypted_counters b) →
  let b1 := accept_counter (gap_base b) (set_peer_ratchet_pub (Some q) b) in
  gap_base b1 = gap_base b + 1 ∧ recv_high_water b1 = Some (gap_base b) ∧
  window_admits (window b1) (gap_base b + 1).
Proof.
  intros Hmax Hun. cbv zeta. set (c := gap_base b) in *. set (b1 := accept_counter _ _).
  assert (recv_high_water b1 = Some c) as Hhw.
  { pose proof (gap_base_above b Hmax) as Hb. simpl. f_equal.
    destruct (recv_high_water b); simpl in Hb; fold c in Hb; lia. }
  split_and!; [|done|split].
  - unfold gap_base at 1. rewrite Hhw. unfold saturating_add. lia.
  - simpl. intros [_ Hin]%elem_of_filter. revert Hin.
    rewrite elem_of_union, elem_of_singleton. intros [?|Hin]; [lia|].
    by apply (Hun (c + 1)); [lia|].
  - unfold window. cbn [snd]. rewrite Hhw. lia.
Qed.

(** The DATA record after a counter the receiver has not seen: one key is skipped. *)
Lemma data_after_gap h ct b g :
  expected 3 h b → Header.counter_be h = gap_base b + 1 → gap_base b < U64_MAX →
  (∀ c, gap_base b <= c → cache_map (skipped b) !! cache_key (Header.ratchet_pub h) c = None) →
  cache_len (skipped b) < MAX_SKIP → recv_sym_idx b + 1 < U64_MAX →
  (decrypt_data h ct (b, g)).1 = data_open (recv_key b 1) h ct.
Proof.
  intros Hexp Hc Hmax Hun Hroom Hidx. pose proof (gap_base_above b Hmax) as Hhw.
  destruct (recv_message_key_skip_one (Header.ratchet_pub h) (bound h b)) as [s1 Hk].
  - apply Hun. done.
  - apply Hun. change (gap_base (bound h b)) with (gap_base b). lia.
  - change (gap_base (bound h b)) with (gap_base b). simpl.
    destruct (recv_high_water b); [|done]. simpl in *. lia.
  - done.
  - done.
  - change (gap_base (bound h b)) with (gap_base b) in Hk. rewrite <- Hc in Hk.
    by rewrite (decrypt_data_eq h ct b g _ s1 Hexp Hk).
Qed.

(** The DATA record after a REKEY the receiver has taken: none is. *)
Lemma data_after_rekey h ct b g :
  expected 3 h b → Header.counter_be h = gap_base b + 1 → gap_base b < U64_MAX →
  (∀ c, gap_base b <= c → c ∉ decrypted_counters b) →
  (∀ c, gap_base b <= c → cache_map (skipped b) !! cache_key (Header.ratchet_pub h) c = None) →
  recv_sym_idx b < U64_MAX →
  (decrypt_data h ct (accept_counter (gap_base b) (bound h b), g)).1 =
    data_open (recv_key b 0) h ct.
Proof.
  intros (Hh&_&_) Hc Hmax Hnew Hun Hidx.
  destruct (accept_next (Header.ratchet_pub h) b Hmax Hnew) as (Hbase&Hhw&Hadm).
  set (b1 := accept_counter _ _) in *.
  pose proof (recv_message_key_next (Header.ratchet_pub h) (bound h b1)) as Hk.
  change (gap_base (bound h b1)) with (gap_base b1) in Hk. rewrite Hbase in Hk.
  rewrite (decrypt_data_eq h ct b1 g (recv_key b 0) (step_recv (bound h b1))); [done|..].
  - split_and!; [done| |done]. by rewrite Hc.
  - rewrite Hc. apply Hk; [apply Hun; lia| |done]. simpl in Hhw |- *. injection Hhw as ->. lia.
Qed.

(** C35: a REKEY takes a wire counter but no step of the sending chain, while the
    receiver fills a counter gap with one chain step per missing counter. Take a
    receiver that is up to date with a sender ([aligned]), with a free place in its
    cache and counters left on both sides. Of the sender's REKEY and the DATA record
    after it, sealed under the next key of the chain the two share: if the receiver
    takes the REKEY, it decrypts the DATA; if the REKEY is lost, it opens the DATA with
    the key after the right one, which, unless the ciphertext happens to authenticate
    under that key too, fails. *)
Theorem lost_rekey_desynchronises `{!CryptoLaws _} a b ga gb body pt :
  aligned a b → len body <= 256 → len pt = DATA_INNER_FIXED →
  gap_base b + 1 < U64_MAX → recv_sym_idx b + 1 < U64_MAX → cache_len (skipped b) < MAX_SKIP →
  ∃ hr rekey h data ct a1 ga1 a2 ga2 plain st1,
    encrypt_rekey_ctrl_outer body (a, ga) = (Ok (hr, rekey), (a1, ga1)) ∧
    encrypt_data_plain512_outer pt (a1, ga1) = (Ok (h, data), (a2, ga2)) ∧
    aead_encrypt (recv_key b 0) (data_nonce (recv_key b 0) h) pt (Header.encode h) = Some ct ∧
    decrypt_rekey_ctrl_outer hr rekey (b, gb) = (Ok plain, st1) ∧
    (decrypt_data_outer h data st1).1 = Ok pt ∧
    (decrypt_data_outer h data (b, gb)).1 = data_open (recv_key b 1) h ct ∧
    (aead_decrypt (recv_key b 1) (data_nonce (recv_key b 1) h) ct (Header.encode h) = None →
     (decrypt_data_outer h data (b, gb)).1 = Err DecryptionFailed).
Proof.
  intros Hal Hb Hpt Hctr Hidx Hroom. pose proof Hal as [].
  destruct (encrypt_rekey_outer_ok body a ga Hb ltac:(lia))
    as (rekey&plain&a1&ga1&He1&Ha1&_&Hopen).
  assert (send_sym_idx a1 = recv_sym_idx b) as Hidx1 by (by rewrite Ha1).
  destruct (encrypt_data_outer_seals a1 ga1 pt _ _ (send_step_eq a1 ltac:(lia)))
    as (data&ct&a2&ga2&He2&_&Hct&Hstrip); [rewrite Ha1; simpl; lia|done|].
  set (h := out_header 3 _) in *.
  assert (step_mk (send_ck a1) (send_sym_idx a1) = recv_key b 0) as Hk0
    by (rewrite recv_key_0, Ha1; simpl; congruence).
  rewrite Hk0 in *.
  assert (Header.counter_be h = gap_base b + 1 ∧ Header.ratchet_pub h = my_ratchet_pub a)
    as [Hch Hph] by (subst h; rewrite Ha1; simpl; split; [lia|done]).
  assert (expected 3 h b) as Hexp
    by (eapply aligned_expected; [done|lia|lia|done..| | |done]; subst h; by rewrite Ha1).
  assert (expected 5 (out_header 5 a) b) as Hexp5
    by (eapply aligned_expected; [done|lia|simpl; lia|done..]).
  assert (len (data_nonce (recv_key b 0) h) = 24) as Hn by apply len_hkdf.
  assert (∀ c, gap_base b <= c → cache_map (skipped b) !! cache_key (Header.ratchet_pub h) c = None)
    as Hun by (by rewrite Hph).
  assert (∀ st, decrypt_data_outer h data st = decrypt_data h ct st) as Houter
    by (intros; by eapply decrypt_data_outer_eq).
  exists (out_header 5 a), rekey, h, data, ct, a1, ga1, a2, ga2, plain,
    (accept_counter (gap_base b) (bound h b), gb).
  assert ((decrypt_data h ct (b, gb)).1 = data_open (recv_key b 1) h ct) as Hlost
    by (apply data_after_gap; (done || lia)).
  split_and!; [done..| | | |].
  - destruct Hexp5 as (Hh5&Hw5&Hp5). rewrite al_okm0 in Hopen.
    rewrite (decrypt_rekey_eq _ _ b gb _ gb Hh5 Hw5 (bind_or_dh_same _ b gb Hp5)) by done.
    rewrite Hopen, Hph. by rewrite <- al_counter0.
  - rewrite Houter, data_after_rekey by (done || lia). by apply data_open_seal.
  - by rewrite Houter.
  - intros Hnone. rewrite Houter, Hlost. unfold data_open. by rewrite Hnone.
Qed.

End rekey.

(** * Concrete instances *)

(** Alice's first REKEY record. *)
Definition toy_rekey0 : Header.t * bytes :=
  match (encrypt_rekey_ctrl_outer (zeros 4) (toy_alice, toy_seed 1)).1 with
  | Ok x => x
  | _ => (out_header 5 toy_alice, [])
  end.


Lemma rekey_reflection_accepted_witness :
  ∃ h payload s1 g1 plain st2,
    encrypt_rekey_ctrl_outer (zeros 4) (toy_alice, toy_seed 1) = (Ok (h, payload), (s1, g1)) ∧
    decrypt_rekey_ctrl_outer h payload (s1, toy_seed 1) = (Ok plain, st2) ∧
    rotated toy_alice (toy_pub toy_alice_sk) st2.1.
Proof.
  destruct (rekey_reflection_accepted (zeros 4) toy_alice (toy_seed 1) (toy_seed 1))
    as (h&payload&plain&s1&g1&s2&g2&He&_&Hd&_&Hr).
  - by vm_compute.
  - by vm_compute.
  - split; [|done]. vm_compute. discriminate.
  - exists h, payload, s1, g1, plain, (s2, g2). split; [exact He|]. split; [exact Hd|].
    apply (Hr (toy_pub toy_bob_sk)); [reflexivity|].
    intros Heq. vm_compute in Heq. discriminate.
Defined.

Lemma toy_aligned : aligned toy_alice toy_bob.
Proof.
  split; [vm_compute; reflexivity..| |done].
  intros c _. apply not_elem_of_empty.
Qed.

Lemma lost_rekey_desynchronises_witness :
  ∃ h data ct st1,
    (decrypt_data_outer h data st1).1 = Ok (zeros 512) ∧
    (decrypt_data_outer h data (toy_bob, toy_seed 2)).1 = data_open (recv_key toy_bob 1) h ct.
Proof.
  destruct (lost_rekey_desynchronises toy_alice toy_bob (toy_seed 1) (toy_seed 2) (zeros 4)
    (zeros 512)) as (_&_&h&data&ct&_&_&_&_&_&st1&_&_&_&_&Hgot&Hlost&_).
  - apply toy_aligned.
  - by vm_compute.
  - by vm_compute.
  - by vm_compute.
  - by vm_compute.
  - by vm_compute.
  - exists h, data, ct, st1. split; [exact Hgot|exact Hlost].
Defined.
