(* ===== verification/Limits.v ===== *)
(** What the engine does not protect against: behaviours of the receive path
    that an attacker on the network or an extreme counter can trigger. *)

From S2P Require Import Prelude Wire Pad Crypto Handshake Payload Ratchet Skipped Blob.
From S2P Require Import Engine Toy EngineInv EngineWf Delivery Restart EnginePanic Rekey.
Import Session.

Section general.
Context `{Crypto} `{Rng} `{Build}.

(** Everything after the ratchet keeps what it left. *)
Lemma recv_step_mk_rotated s q : preserves (rotated s q) recv_step_mk.
Proof. unfold recv_step_mk. by pres. Qed.

Lemma recv_message_key_rotated s q p c : preserves (rotated s q) (recv_message_key p c).
Proof.
  assert (∀ cnt n, preserves (rotated s q) (fill_gap_loop p cnt n)) as Hloop.
  { intros cnt n. revert cnt; induction n as [|n IH]; intros cnt; simpl; pres;
      auto using recv_step_mk_rotated.
    intros s1 Hs1. unfold on_skipped, st_zoom.
    by destruct (SkippedKeyCache.insert _ _ _ _) as [[x|e|] c']. }
  assert (∀ b, preserves (rotated s q) (fill_recv_gap_to_counter p b c)) as Hfill
    by (intros b; unfold fill_recv_gap_to_counter; pres; apply Hloop).
  unfold recv_message_key. apply preserves_bind_get. intros s1 Hs1.
  destruct (SkippedKeyCache.take _ _ _) as [found rest].
  pres; auto using recv_step_mk_rotated.
Qed.

(** C31: the ratchet moves before anything is authenticated. Any DATA header with
    the session's id and epoch, an admissible counter and an unknown ratchet key
    replaces the root key and the peer key of the session, whatever the ciphertext
    is and whether or not it decrypts. *)
Theorem unauthenticated_header_rotates_ratchet s g h ct p :
  header_matches 3 (fixed s) h → window_admits (window s) (Header.counter_be h) →
  peer_ratchet_pub s = Some p → p ≠ Header.ratchet_pub h →
  rotated s (Header.ratchet_pub h) (decrypt_data h ct (s, g)).2.1.
Proof.
  intros Hh Hw Hp Hne. unfold decrypt_data.
  rewrite (receive_checks_pass 3 h (λ _, _)) by done. cbv zeta.
  destruct (apply_inbound_dh_ratchet_rotates s g (Header.ratchet_pub h)) as (s1&g1&He&Hr).
  erewrite st_bind_Ok.
  2: { unfold bind_or_dh_ratchet. erewrite st_bind_Ok by done. cbv beta iota.
       rewrite Hp, bool_decide_eq_false_2 by done. exact He. }
  apply (preserves_snd (on_sess (rotated s (Header.ratchet_pub h)))); [|exact Hr].
  pres; auto using recv_message_key_rotated.
Qed.

(** ** The gap check of a release build *)

(** The loop, asked for more keys than the cache can take, fills it up and fails. *)
Lemma fill_loop_exhausts pub k cnt s n :
  len pub = 32 → cache_len (skipped s) + N.of_nat k = MAX_SKIP → (k < n)%nat →
  recv_sym_idx s + N.of_nat k < U64_MAX → cnt + N.of_nat k <= U64_MAX →
  (∀ i, i < N.of_nat k → cache_map (skipped s) !! cache_key pub (cnt + i) = None) →
  ∃ s', fill_gap_loop pub cnt n s = (Err MaxSkipExceeded, s') ∧
    cache_len (skipped s') = MAX_SKIP ∧
    recv_sym_idx s' = recv_sym_idx s + N.of_nat k + 1.
Proof.
  intros Hp. revert cnt s n; induction k as [|k IH]; intros cnt s [|n] Hk Hn Hi Hc Hf;
    [lia| |lia|]; cbn [fill_gap_loop].
  all: rewrite (st_bind_Ok _ _ _ _ _ (recv_step_eq s ltac:(lia))), st_bind_eq;
    set (mk := step_mk _ _); set (s1 := step_recv s);
    unfold on_skipped at 1, st_zoom at 1; change (skipped s1) with (skipped s);
    rewrite cache_insert_eq.
  - rewrite leb_true by lia. eexists. split; [done|]. simpl. lia.
  - rewrite leb_false by lia.
    assert (cache_map (skipped s) !! cache_key pub cnt = None) as Hcnt.
    { rewrite <- (N.add_0_r cnt). apply Hf. lia. }
    rewrite Hcnt, bool_decide_eq_false_2 by by intros [].
    destruct (IH (cnt + 1) (set_skipped {| SkippedKeyCache.map :=
      <[cache_key pub cnt:=mk]> (cache_map (skipped s)) |} s1) n)
      as (s'&He&Hl&Hi'); simpl; [|lia|lia|lia| |exists s'; rewrite He; split_and!; [done..|simpl in *; lia]].
    + unfold cache_len in *. simpl. rewrite map_size_insert_None by done. lia.
    + intros i Hlt. rewrite lookup_insert_ne.
      * rewrite <- N.add_assoc. apply Hf. lia.
      * intros He. apply cache_key_inj in He as [_ ?]; [lia|done|done|..];
          unfold fits, U64_MAX in *; simpl; lia.
Qed.

Lemma gap_check_wraps s p c :
  overflow_checks = false → cache_len (skipped s) <= MAX_SKIP → len p = 32 → u64_ok c →
  gap_overflows p c s → recv_sym_idx s + MAX_SKIP < U64_MAX →
  (∀ i, i < MAX_SKIP → cache_map (skipped s) !! cache_key p (gap_base s + i) = None) →
  ∃ s', recv_message_key p c s = (Err MaxSkipExceeded, s') ∧
    cache_len (skipped s') = MAX_SKIP ∧
    recv_sym_idx s' = recv_sym_idx s + (MAX_SKIP - cache_len (skipped s)) + 1.
Proof.
  intros Hb Hl Hp Hc (Hnone&Hhw&Hbase&Hov) Hi Hf. rewrite recv_message_key_gap by done.
  rewrite st_bind_eq. unfold fill_recv_gap_to_counter. rewrite leb_false by done.
  rewrite st_bind_eq. cbn [st_get]. rewrite st_bind_eq. unfold st_lift, usize_add.
  unfold USIZE_MAX, U64_MAX, fits in *. simpl in Hc.
  rewrite leb_false, Hb by lia. rewrite st_bind_eq.
  rewrite <- (N.mod_unique _ (2 ^ 64) 1 (cache_len (skipped s) + (c - gap_base s) - 2 ^ 64))
    by lia.
  rewrite ltb_false by lia. oc.
  destruct (fill_loop_exhausts p (N.to_nat (MAX_SKIP - cache_len (skipped s)))
    (gap_base s) s (N.to_nat (c - gap_base s))) as (s'&He&?&?); unfold U64_MAX; try lia.
  - intros i Hlt. apply Hf. lia.
  - exists s'. rewrite He. split_and!; [done..|lia].
Qed.

(** Where a release build does not panic, the wrapped sum passes the gap check.
    A DATA record under the bound ratchet key whose counter overflows the sum (see
    [gap_overflows]) is not refused up front. In a session none of whose next
    [MAX_SKIP] counters is cached already, the loop stores keys until the cache is
    full, and only then fails with [MaxSkipExceeded]: the cache is left without room
    and the receive chain moved on by as many steps as keys were stored and one more,
    whatever the ciphertext is. *)
Lemma gap_check_wraps_in_release s g h ct :
  overflow_checks = false → cache_len (skipped s) <= MAX_SKIP → Header.wf h → expected 3 h s →
  gap_overflows (Header.ratchet_pub h) (Header.counter_be h) s →
  recv_sym_idx s + MAX_SKIP < U64_MAX →
  (∀ i, i < MAX_SKIP →
    cache_map (skipped s) !! cache_key (Header.ratchet_pub h) (gap_base s + i) = None) →
  ∃ s', decrypt_data h ct (s, g) = (Err MaxSkipExceeded, (s', g)) ∧
    cache_len (skipped s') = MAX_SKIP ∧
    recv_sym_idx s' = recv_sym_idx s + (MAX_SKIP - cache_len (skipped s)) + 1.
Proof.
  intros Hb Hl (_&_&_&_&_&Hc&Hp) Hexp Hov Hi Hf.
  destruct (gap_check_wraps (bound h s) (Header.ratchet_pub h) (Header.counter_be h))
    as (s'&He&Hr); try done.
  exists s'. split; [by apply decrypt_data_fails|done].
Qed.

(** ** A forged payload *)

(** A low header is not accepted by any later call. *)
Lemma run_low ops st h :
  Forall op_wf ops → Header.wf h →
  low (Header.ratchet_pub h) (Header.counter_be h) st.1 → h ∉ data_headers (run ops st).1.
Proof.
  intros Hops Hh. pose proof Hh as (_&_&_&_&_&Hc&Hq).
  revert st; induction Hops as [|o ops Ho Hops IH]; intros st Hlow; [apply not_elem_of_nil|].
  simpl. pose proof (preserves_snd _ _ st (exec_low _ _ Hq o Hc Ho) Hlow) as Hlow1.
  destruct (exec o st) as [r st1] eqn:He. specialize (IH st1 Hlow1).
  destruct (run ops st1) as [acc st2].
  destruct r as [[h'|]|e|]; [|done..]. unfold data_headers in *. cbn [fst] in *.
  rewrite filter_cons. case_decide as Ht; [|done]. apply not_elem_of_cons. split; [|done].
  intros ->. destruct (exec_accepts_data _ _ _ _ Ho He Ht) as (_&s0&ct&a&Hd&Hhw&Hsk).
  pose proof (decrypt_data_refused h' ct Hq (s0, st.2)) as Hr. rewrite Hd in Hr.
  apply Hr. unfold on_sess, low, absent in *. simpl. by rewrite Hhw, Hsk.
Qed.

(** After the key of the next record in order has been taken off the chain, that
    record is opened with the one after. *)
Lemma forged_next h ct s g :
  expected 3 h s → Header.counter_be h = gap_base s → gap_base s < U64_MAX →
  recv_sym_idx s + 1 < U64_MAX →
  cache_map (skipped s) !! cache_key (Header.ratchet_pub h) (gap_base s) = None →
  (decrypt_data h ct (step_recv (bound h s), g)).1 = data_open (recv_key s 1) h ct.
Proof.
  intros (Hh&Hw&_) Hc Hmax Hi Hn.
  rewrite (decrypt_data_eq h ct _ g (recv_key s 1) (step_recv (step_recv (bound h s))));
    [done|by split_and!|].
  rewrite Hc, <- recv_key_step. apply (recv_message_key_next _ (step_recv (bound h s)));
    [done|by apply (gap_base_lt s)|simpl; lia].
Qed.

(** C33: one forged record with a genuine header destroys the genuine one. Let [mk] be
    the message key the session has for the header of a DATA record it expects. The
    genuine record, sealed under [mk], decrypts. But a record with the same header and
    a payload that fails to authenticate uses the key up: it is refused with
    [DecryptionFailed], and afterwards
    - if the record was an outstanding one, at or below the high-water mark, that
      header is never accepted again, whatever calls follow;
    - if it was the next in order (its key not cached, counters left), the genuine
      record, and every other with that header, is opened with the key after [mk] on
      the chain instead. *)
Theorem forged_payload_burns_key `{!CryptoLaws _} h forged s g mk s1 :
  Header.wf h → expected 3 h s →
  recv_message_key (Header.ratchet_pub h) (Header.counter_be h) (bound h s) = (Ok mk, s1) →
  aead_decrypt mk (data_nonce mk h) forged (Header.encode h) = None →
  (∀ pt ct, len pt = DATA_INNER_FIXED →
    aead_encrypt mk (data_nonce mk h) pt (Header.encode h) = Some ct →
    (decrypt_data h ct (s, g)).1 = Ok pt) ∧
  decrypt_data h forged (s, g) = (Err DecryptionFailed, (s1, g)) ∧
  (from_option (λ hw, Header.counter_be h <= hw) False (recv_high_water s) →
   ∀ ops, Forall op_wf ops → h ∉ data_headers (run ops (s1, g)).1) ∧
  (Header.counter_be h = gap_base s → gap_base s < U64_MAX → recv_sym_idx s + 1 < U64_MAX →
   cache_map (skipped s) !! cache_key (Header.ratchet_pub h) (gap_base s) = None →
   mk = recv_key s 0 ∧
   ∀ ct, (decrypt_data h ct (s1, g)).1 = data_open (recv_key s 1) h ct).
Proof.
  intros Hh Hexp Hk Hforged.
  assert (frame s1 = frame s) as Hf.
  { pose proof (recv_message_key_frame (Header.ratchet_pub h) (Header.counter_be h) (frame s)
      (bound h s) eq_refl) as Hf. by rewrite Hk in Hf. }
  split_and!.
  - intros pt ct Hpt Hct. rewrite (decrypt_data_eq h ct s g mk s1) by done. by apply data_open_seal.
  - rewrite (decrypt_data_eq h forged s g mk s1) by done. unfold data_open. by rewrite Hforged.
  - intros Hle ops Hops. apply run_low; [done..|]. split.
    + apply pair_equal_spec in Hf as [_ [_ Hhw]%pair_equal_spec].
      cbn [fst]. rewrite Hhw. destruct (recv_high_water s) as [hw|]; [by exists hw|done].
    + pose proof Hh as (_&_&_&_&_&Hc&Hq).
      pose proof (recv_message_key_taken _ _ Hq Hc (bound h s) I) as Ht. by rewrite Hk in Ht.
  - intros Hc Hmax Hi Hn. rewrite Hc in Hk.
    rewrite (recv_message_key_next _ (bound h s)) in Hk;
      [|done|by apply (gap_base_lt s)|simpl; lia].
    injection Hk as <- <-. split; [done|]. intros ct. by apply forged_next.
Qed.

End general.

(** Bob after one forged record under an unknown ratchet key. *)
Definition bob_other : t :=
  (recv_message_key (zeros 32) 1 toy_bob).2.

Lemma bob_other_keys : (map_to_list (cache_map (skipped bob_other))).*1 = [cache_key (zeros 32) 0].
Proof. vm_compute. reflexivity. Qed.

Lemma bob_other_gap :
  cache_len (skipped bob_other) = 1 ∧ recv_high_water bob_other = None ∧
  recv_sym_idx bob_other = 2 ∧
  cache_map (skipped bob_other) !! cache_key (toy_pub toy_alice_sk) U64_MAX = None.
Proof. split_and!; vm_compute; reflexivity. Qed.

Lemma toy_pub_other : toy_pub toy_alice_sk ≠ zeros 32 ∧ len (toy_pub toy_alice_sk) = 32.
Proof. split; [intros He; vm_compute in He; discriminate|vm_compute; reflexivity]. Qed.

Lemma bob_other_expects : expected 3 (toy_header 3 U64_MAX) bob_other.
Proof.
  split_and!; [vm_compute; split_and!; reflexivity| |vm_compute; reflexivity].
  split; [vm_compute; discriminate|]. destruct bob_other_gap as (_&Hw&_). simpl. by rewrite Hw.
Qed.

Lemma gap_check_wraps_in_release_witness :
  ∃ s', decrypt_data (toy_header 3 U64_MAX) [] (bob_other, toy_seed 0) =
      (Err MaxSkipExceeded, (s', toy_seed 0)) ∧
    cache_len (skipped s') = MAX_SKIP ∧ recv_sym_idx s' = 2002.
Proof.
  destruct bob_other_gap as (Hl&Hw&Hi&Hn). destruct toy_pub_other as [Hne Hp].
  assert (gap_base bob_other = 0) as Hb by (unfold gap_base; by rewrite Hw).
  replace 2002 with (recv_sym_idx bob_other + (MAX_SKIP - cache_len (skipped bob_other)) + 1)
    by (rewrite Hi, Hl; reflexivity).
  apply (gap_check_wraps_in_release bob_other (toy_seed 0) (toy_header 3 U64_MAX) []).
  - reflexivity.
  - by rewrite Hl.
  - vm_compute. split_and!; reflexivity.
  - apply bob_other_expects.
  - unfold gap_overflows. rewrite Hb, Hl, Hw. split_and!; [done|done|reflexivity..].
  - by rewrite Hi.
  - intros i Hlt. rewrite Hb. apply eq_None_not_Some. intros [mk Hmk].
    apply elem_of_map_to_list, (list_elem_of_fmap_2 fst) in Hmk.
    rewrite bob_other_keys in Hmk. apply list_elem_of_singleton in Hmk as He. symmetry in He.
    apply (cache_key_inj (zeros 32) 0 (toy_pub toy_alice_sk) (0 + i)) in He as [He _];
      [exact (Hne (eq_sym He))|apply len_zeros|exact Hp|reflexivity|].
    unfold fits, MAX_SKIP in *. clear - Hlt. simpl. lia.
Defined.

Lemma unauthenticated_header_rotates_ratchet_witness :
  rotated toy_bob (zeros 32)
    (decrypt_data {| Header.version := 1; Header.typ := 3; Header.flags := 0;
       Header.epoch_be := 7; Header.session_id := toy_sid; Header.counter_be := 0;
       Header.ratchet_pub := zeros 32 |} [] (toy_bob, toy_seed 0)).2.1.
Proof.
  apply (unauthenticated_header_rotates_ratchet toy_bob (toy_seed 0)
    {| Header.version := 1; Header.typ := 3; Header.flags := 0;
       Header.epoch_be := 7; Header.session_id := toy_sid; Header.counter_be := 0;
       Header.ratchet_pub := zeros 32 |} [] (toy_pub toy_alice_sk)).
  - vm_compute. split_and!; reflexivity.
  - split; [|done]. vm_compute. discriminate.
  - reflexivity.
  - intros Heq. vm_compute in Heq. discriminate.
Defined.

Lemma forged_payload_burns_key_witness :
  let h := toy_header 3 0 in
  ∃ s1, decrypt_data h [] (toy_bob, toy_seed 9) = (Err DecryptionFailed, (s1, toy_seed 9)) ∧
    ∀ ct, (decrypt_data h ct (s1, toy_seed 9)).1 = data_open (recv_key toy_bob 1) h ct.
Proof.
  cbv zeta. set (h := toy_header 3 0). exists (step_recv (bound h toy_bob)).
  destruct (forged_payload_burns_key h [] toy_bob (toy_seed 9) (recv_key toy_bob 0)
    (step_recv (bound h toy_bob))) as (_&Hf&_&Hnext).
  - vm_compute. split_and!; reflexivity.
  - split_and!; [vm_compute; split_and!; reflexivity|split; [vm_compute; discriminate|done]|].
    vm_compute. reflexivity.
  - apply (recv_message_key_next (Header.ratchet_pub h) (bound h toy_bob)); done.
  - reflexivity.
  - split; [exact Hf|]. apply Hnext; done.
Defined.

(** * A build with overflow checks *)

Definition debug_build : Build := {| overflow_checks := true |}.

(** Bob after a forged record with counter 1, which left one skipped key in his cache
    and no high-water mark. *)
Definition bob_gap : t * rng_state :=
  (decrypt_data (toy_header 3 1) [] (toy_bob, toy_seed 9)).2.

(** A counter near [u64::MAX] overflows the [usize] sum in the gap check. In a
    build with overflow checks two unauthenticated records make the receiver
    panic instead of answering [MaxSkipExceeded]. *)
Lemma gap_overflow_panics :
  cache_len (skipped bob_gap.1) = 1 ∧ recv_high_water bob_gap.1 = None ∧
  (@decrypt_data _ _ debug_build (toy_header 3 U64_MAX) [] bob_gap).1 = Panic.
Proof. split_and!; vm_compute; reflexivity. Qed.
