(* ===== verification/HandshakeProps.v ===== *)
(** Properties of the handshake and payload cryptography: inner AEAD round
    trips, X3DH agreement, fingerprints, nonce domain separation, inner
    plaintext layouts. *)

From S2P Require Import Prelude Wire Crypto Handshake Payload Toy.

Section inner.
Context `{Crypto}.

(** Key, nonce and associated data of the four handshake AEADs. *)
Definition init_key (km th : bytes) : bytes := hkdf ZERO32 (km ++ th) INFO_INIT_AEAD_V1 32.
Definition ack_key (okm : bytes) : bytes := hkdf ZERO32 okm INFO_ACK_AEAD_V1 32.
Definition label_nonce (core tag : bytes) (e : N) (sid : bytes) : bytes :=
  hkdf ZERO32 (core ++ tag ++ be_bytes 4 e ++ sid) INFO_NONCE_V1 24.
Definition init_plain (th : bytes) : bytes := hkdf ZERO32 th INFO_INIT_INNER_V1 256.
Definition ack_plain (th : bytes) : bytes := hkdf ZERO32 th INFO_ACK_INNER_V1 256.

Lemma k_init_ok {E} km th : k_init (E:=E) km th = Ok (init_key km th).
Proof. by apply hkdf_zero32_ok. Qed.
Lemma k_ack_ok {E} okm : k_ack (E:=E) okm = Ok (ack_key okm).
Proof. by apply hkdf_zero32_ok. Qed.
Lemma nonce_init_ok {E} km th e sid :
  nonce_init (E:=E) km th e sid = Ok (label_nonce (km ++ th) (bs "INIT") e sid).
Proof. apply nonce24_ok. Qed.
Lemma nonce_ack_ok {E} okm e sid :
  nonce_ack (E:=E) okm e sid = Ok (label_nonce okm (bs "ACK") e sid).
Proof. apply nonce24_ok. Qed.
Lemma nonce_reset_init_ok {E} km th e sid :
  nonce_reset_init (E:=E) km th e sid = Ok (label_nonce (km ++ th) (bs "RINIT") e sid).
Proof. apply nonce24_ok. Qed.
Lemma nonce_reset_ack_ok {E} okm e sid :
  nonce_reset_ack (E:=E) okm e sid = Ok (label_nonce okm (bs "RACK") e sid).
Proof. apply nonce24_ok. Qed.
Lemma plain_inner_init_ok {E} th : plain_inner_init (E:=E) th = Ok (init_plain th).
Proof. by apply hkdf_zero32_ok. Qed.
Lemma plain_inner_ack_ok {E} th : plain_inner_ack (E:=E) th = Ok (ack_plain th).
Proof. by apply hkdf_zero32_ok. Qed.

(** Sealing 256 bytes always succeeds, opening inverts it, and nothing but the
    sealed bytes opens. *)
Lemma seal_open `{!CryptoLaws _} k n pt ad :
  len pt = 256 →
  ∃ ct, xencrypt k n pt ad = Ok ct ∧ len ct = 272 ∧
    (x ← xdecrypt k n ct ad; try_array 256 x) = Ok pt ∧
    ∀ ct', (x ← xdecrypt k n ct' ad; try_array 256 x) = Ok pt → ct' = ct.
Proof.
  intros Hpt. destruct (aead_encrypt_total k n pt ad) as (ct&He&Hl); [rewrite Hpt; done|].
  exists ct. unfold xencrypt, xdecrypt, try_array. rewrite He.
  split_and!; [done|lia| |].
  - rewrite (aead_decrypt_encrypt k n pt ad) by done. oc. by rewrite Hpt.
  - intros ct'. destruct (aead_decrypt k n ct' ad) as [x|] eqn:Hd; [|done]. oc.
    destruct (len x =? 256); [|done]. intros [= ->].
    apply aead_encrypt_decrypt in Hd. congruence.
Qed.

(** C30: the inner AEADs of INIT, INIT_ACK, RESET_INIT and RESET_ACK: encryption
    never fails and produces 272 bytes, decryption returns the transcript-derived
    256-byte plaintext, and no other ciphertext yields that plaintext. *)
Theorem handshake_inner_roundtrip `{!CryptoLaws _} km okm th0 th1 e sid body wire :
  (∃ ct, encrypt_init_inner km th0 e sid body = Ok ct ∧ len ct = 272 ∧
    decrypt_init_inner km th0 e sid body ct = Ok (init_plain th0) ∧
    ∀ ct', decrypt_init_inner km th0 e sid body ct' = Ok (init_plain th0) → ct' = ct) ∧
  (∃ ct, encrypt_ack_inner okm th1 e sid wire = Ok ct ∧ len ct = 272 ∧
    decrypt_ack_inner okm e sid wire ct = Ok (ack_plain th1) ∧
    ∀ ct', decrypt_ack_inner okm e sid wire ct' = Ok (ack_plain th1) → ct' = ct) ∧
  (∃ ct, encrypt_reset_init_inner km th0 e sid body = Ok ct ∧ len ct = 272 ∧
    decrypt_reset_init_inner km th0 e sid body ct = Ok (init_plain th0) ∧
    ∀ ct', decrypt_reset_init_inner km th0 e sid body ct' = Ok (init_plain th0) → ct' = ct) ∧
  (∃ ct, encrypt_reset_ack_inner okm th1 e sid wire = Ok ct ∧ len ct = 272 ∧
    decrypt_reset_ack_inner okm e sid wire ct = Ok (ack_plain th1) ∧
    ∀ ct', decrypt_reset_ack_inner okm e sid wire ct' = Ok (ack_plain th1) → ct' = ct).
Proof.
  unfold encrypt_init_inner, decrypt_init_inner, encrypt_ack_inner, decrypt_ack_inner,
    encrypt_reset_init_inner, decrypt_reset_init_inner, encrypt_reset_ack_inner,
    decrypt_reset_ack_inner.
  rewrite k_init_ok, k_ack_ok. oc.
  rewrite nonce_init_ok, nonce_ack_ok, nonce_reset_init_ok, nonce_reset_ack_ok. oc.
  rewrite plain_inner_init_ok, plain_inner_ack_ok. oc.
  split_and!; apply seal_open, len_hkdf.
Qed.

(** X3DH agreement: the initiator's key material is what the responder
    computes from its private keys and the initiator's public keys. *)
Lemma x3dh_agreement `{!CryptoLaws _} ik_a ek_a ik_b spk_b otp_b :
  let pub sk := fit 32 (x25519_public sk) in
  km_with_otp ik_a ek_a (pub ik_b) (pub spk_b) (pub otp_b) =
    dh spk_b (pub ik_a) ++ dh ik_b (pub ek_a) ++ dh spk_b (pub ek_a) ++ dh otp_b (pub ek_a).
Proof.
  intros pub. assert (∀ a b, dh a (pub b) = dh b (pub a)) as Hdh.
  { intros a b. unfold dh, pub. by rewrite x25519_agree. }
  unfold km_with_otp. cbv zeta.
  rewrite (Hdh spk_b ik_a), (Hdh ik_b ek_a), (Hdh spk_b ek_a), (Hdh otp_b ek_a).
  by fill_array.
Qed.

(** ** Fingerprints *)

Lemma min_max_32_comm a b : min_max_32 a b = min_max_32 b a.
Proof.
  unfold min_max_32, bytes_ltb. rewrite (bytes_cmp_antisym a b).
  destruct (bytes_cmp a b) eqn:Hc; simpl; [|done..].
  by apply bytes_cmp_eq in Hc as ->.
Qed.

Lemma min_max_32_perm a b lo hi : min_max_32 a b = (lo, hi) → [a; b] ≡ₚ [lo; hi].
Proof.
  unfold min_max_32. destruct (bytes_ltb a b); intros [= <- <-]; [done|apply Permutation_swap].
Qed.

Lemma min_max_32_len a b lo hi :
  len a = 32 → len b = 32 → min_max_32 a b = (lo, hi) → len lo = 32 ∧ len hi = 32.
Proof. unfold min_max_32. by destruct (bytes_ltb a b); intros ?? [= <- <-]. Qed.

(** What [safety_number] hashes. *)
Definition safety_input (ik_a ik_b spk_a spk_b : bytes) : bytes :=
  let '(ik_lo, ik_hi) := min_max_32 ik_a ik_b in
  let '(spk_lo, spk_hi) := min_max_32 spk_a spk_b in
  concat [SAFETY_NUMBER_PREFIX; ik_lo; ik_hi; spk_lo; spk_hi].

Lemma safety_number_eq a b c d : safety_number a b c d = fit 32 (sha256 (safety_input a b c d)).
Proof.
  unfold safety_number, safety_input. by destruct (min_max_32 a b), (min_max_32 c d).
Qed.

Lemma min_max_32_of_perm a b a' b' :
  [a; b] ≡ₚ [a'; b'] → min_max_32 a b = min_max_32 a' b'.
Proof.
  intros [[-> ->]|[-> ->]]%Permutation_length_2; [done|apply min_max_32_comm].
Qed.

(** The hashed bytes are those of the two unordered pairs. *)
Lemma safety_input_inj a b c d a' b' c' d' :
  Forall (λ k, len k = 32) [a; b; c; d; a'; b'; c'; d'] →
  safety_input a b c d = safety_input a' b' c' d' ↔
    [a; b] ≡ₚ [a'; b'] ∧ [c; d] ≡ₚ [c'; d'].
Proof.
  intros Hlen. split.
  2: { intros [H1%min_max_32_of_perm H2%min_max_32_of_perm]. unfold safety_input.
       by rewrite H1, H2. }
  unfold safety_input. rewrite !Forall_cons in Hlen.
  destruct Hlen as (La&Lb&Lc&Ld&La'&Lb'&Lc'&Ld'&_).
  destruct (min_max_32 a b) as [l1 h1] eqn:Hm1, (min_max_32 c d) as [l2 h2] eqn:Hm2,
    (min_max_32 a' b') as [l1' h1'] eqn:Hm1', (min_max_32 c' d') as [l2' h2'] eqn:Hm2'.
  pose proof (min_max_32_len _ _ _ _ La Lb Hm1) as [? ?].
  pose proof (min_max_32_len _ _ _ _ Lc Ld Hm2) as [? ?].
  pose proof (min_max_32_len _ _ _ _ La' Lb' Hm1') as [? ?].
  pose proof (min_max_32_len _ _ _ _ Lc' Ld' Hm2') as [? ?].
  apply min_max_32_perm in Hm1, Hm2, Hm1', Hm2'. cbn [concat]. intros Heq.
  apply app_inv_head in Heq. do 3 (apply app_inj_len in Heq as [-> Heq]; [|congruence]).
  rewrite !app_nil_r in Heq. subst. by rewrite Hm1, Hm2, Hm1', Hm2'.
Qed.

(** C40: what equal safety numbers mean. Two safety numbers are equal exactly when
    they were computed for the same unordered pair of identity keys and the same
    unordered pair of prekeys (in particular both parties compute the same number),
    or when the two byte strings hashed for them are themselves a SHA-256 collision. *)
Theorem safety_number_symmetric_binding a b c d a' b' c' d' :
  Forall (λ k, len k = 32) [a; b; c; d; a'; b'; c'; d'] →
  safety_number a b c d = safety_number a' b' c' d' ↔
    [a; b] ≡ₚ [a'; b'] ∧ [c; d] ≡ₚ [c'; d'] ∨
    safety_input a b c d ≠ safety_input a' b' c' d' ∧
      fit 32 (sha256 (safety_input a b c d)) = fit 32 (sha256 (safety_input a' b' c' d')).
Proof.
  intros Hlen. rewrite !safety_number_eq, <- (safety_input_inj _ _ _ _ _ _ _ _ Hlen).
  destruct (decide (safety_input a b c d = safety_input a' b' c' d')) as [->|]; naive_solver.
Qed.

(** ** Nonce labels *)

Lemma data_ctrl_label_ne h1 h2 :
  data_label h1 ≠ ctrl_label (Header.typ h2) (Header.epoch_be h2) (Header.counter_be h2)
                    (Header.session_id h2).
Proof. unfold data_label, ctrl_label. by intros [= ]. Qed.

(** Nonce domain separation. Distinct (epoch, counter, session, ratchet key)
    give distinct DATA nonce labels, distinct (type, epoch, counter, session) give
    distinct control labels, and a DATA label is never a control label. *)
Lemma nonce_labels_injective h1 h2 :
  Header.wf h1 → Header.wf h2 →
  (data_label h1 = data_label h2 →
    (Header.epoch_be h1, Header.counter_be h1, Header.session_id h1, Header.ratchet_pub h1) =
    (Header.epoch_be h2, Header.counter_be h2, Header.session_id h2, Header.ratchet_pub h2)) ∧
  (ctrl_label (Header.typ h1) (Header.epoch_be h1) (Header.counter_be h1)
     (Header.session_id h1) =
   ctrl_label (Header.typ h2) (Header.epoch_be h2) (Header.counter_be h2)
     (Header.session_id h2) →
    (Header.typ h1, Header.epoch_be h1, Header.counter_be h1, Header.session_id h1) =
    (Header.typ h2, Header.epoch_be h2, Header.counter_be h2, Header.session_id h2)) ∧
  data_label h1 ≠ ctrl_label (Header.typ h2) (Header.epoch_be h2) (Header.counter_be h2)
                    (Header.session_id h2).
Proof.
  intros (_&Ht1&_&He1&Hs1&Hc1&Hp1) (_&Ht2&_&He2&Hs2&Hc2&Hp2).
  split_and!; [| |apply data_ctrl_label_ne].
  - unfold data_label. intros Heq%app_inv_head.
    apply app_inj_len in Heq as [E1 Heq]; [|len_goal].
    apply app_inj_len in Heq as [E2 Heq]; [|len_goal].
    apply app_inj_len in Heq as [E3 E4]; [|len_goal].
    apply be_bytes_inj in E1; [|done..]. apply be_bytes_inj in E2; [|done..]. congruence.
  - unfold ctrl_label. intros Heq%app_inv_head.
    apply app_inj_len in Heq as [E0 Heq]; [|len_goal].
    apply app_inj_len in Heq as [E1 Heq]; [|len_goal].
    apply app_inj_len in Heq as [E2 E3]; [|len_goal].
    apply be_bytes_inj in E1; [|done..]. apply be_bytes_inj in E2; [|done..].
    injection E0 as E0. apply (f_equal Byte.to_N) in E0.
    rewrite !to_N_of_N_small in E0 by done. congruence.
Qed.

(** ** Inner plaintexts *)

(** The DATA inner plaintext always has 512 bytes and its content can be read
    back (version, type, length, content) when the content has at most 504 bytes;
    longer content is refused. *)
Lemma data_inner_plaintext_layout v ty c :
  u16_ok v → u16_ok ty →
  (len c <= 504 →
    ∃ out, data_inner_plaintext v ty c = Ok out ∧ len out = DATA_INNER_FIXED ∧
      from_be (sub out 0 2) = v ∧ from_be (sub out 2 4) = ty ∧
      from_be (sub out 4 8) = len c ∧ sub out 8 (8 + from_be (sub out 4 8)) = c) ∧
  (504 < len c → data_inner_plaintext v ty c = Err ContentTooLarge).
Proof.
  intros Hv Hty. split; [|apply data_inner_plaintext_too_large].
  intros Hc. eexists. split; [by apply data_inner_plaintext_ok|].
  assert (u32_ok (len c)) as Hl by (unfold fits; simpl; lia).
  rewrite len_app, len_data_semantic, len_hkdf. split; [unfold DATA_INNER_FIXED; lia|].
  unfold data_semantic. rewrite <- !app_assoc.
  set (pad := hkdf _ _ _ _).
  assert (sub (be_bytes 2 v ++ be_bytes 2 ty ++ be_bytes 4 (len c) ++ c ++ pad) 4 8 =
    be_bytes 4 (len c)) as -> by by cut_fields.
  rewrite (from_be_bytes 4) by done. split_and!; [| |done|].
  - cut_fields. by apply from_be_bytes.
  - cut_fields. by apply from_be_bytes.
  - by cut_fields.
Qed.

(** REKEY / CLOSE control records: a body of at most 256 bytes is padded to
    exactly 256 bytes that start with it, and control encryption round trips under
    the same key material and header, with every other ciphertext refused or read
    differently. *)
Lemma ctrl_payload_roundtrip `{!CryptoLaws _} okm h body :
  len body <= 256 →
  ∃ plain ct, ctrl_inner_padded256 body = Ok plain ∧ len plain = 256 ∧
    sub plain 0 (len body) = body ∧
    encrypt_ctrl_payload okm h plain = Ok ct ∧
    decrypt_ctrl_payload okm h ct = Ok plain ∧
    ∀ ct', decrypt_ctrl_payload okm h ct' = Ok plain → ct' = ct.
Proof.
  intros Hb. pose proof (ctrl_inner_padded256_ok body Hb) as Hp.
  pose proof (ctrl_inner_padded256_len _ _ Hp) as Hl.
  destruct (seal_open (ctrl_key okm) (ctrl_nonce okm h) _ (Header.encode h) Hl)
    as (ct&He&_&Hd&Hu).
  eexists _, ct. split; [exact Hp|]. split_and!; [done|by apply sub_app_l| | |].
  - by rewrite encrypt_ctrl_payload_eq.
  - by rewrite decrypt_ctrl_payload_eq.
  - intros ct'. rewrite decrypt_ctrl_payload_eq. apply Hu.
Qed.

(** ** Key confirmation *)

End inner.

(** ** Concrete instances *)

Lemma handshake_inner_roundtrip_witness :
  ∃ ct, encrypt_init_inner (zeros 128) (zeros 32) 1 (zeros 16) (zeros 100) = Ok ct ∧
    len ct = 272 ∧
    decrypt_init_inner (zeros 128) (zeros 32) 1 (zeros 16) (zeros 100) ct =
      Ok (init_plain (zeros 32)) ∧
    ∀ ct', decrypt_init_inner (zeros 128) (zeros 32) 1 (zeros 16) (zeros 100) ct' =
      Ok (init_plain (zeros 32)) → ct' = ct.
Proof.
  exact (proj1 (handshake_inner_roundtrip (zeros 128) (zeros 64) (zeros 32) (zeros 32) 1
    (zeros 16) (zeros 100) (zeros 88))).
Defined.

Lemma safety_number_symmetric_binding_witness :
  safety_number (zeros 32) (replicate 32 x01) (replicate 32 x02) (zeros 32) =
  safety_number (replicate 32 x01) (zeros 32) (zeros 32) (replicate 32 x02).
Proof.
  apply (safety_number_symmetric_binding (zeros 32) (replicate 32 x01) (replicate 32 x02)
    (zeros 32) (replicate 32 x01) (zeros 32) (zeros 32) (replicate 32 x02)).
  - by repeat constructor.
  - left. split; apply Permutation_swap.
Defined.

