(* ===== verification/Bundle.v ===== *)
(** On-disk session bundle [LG01] of src/crates/libgary-storage/src/bundle_codec.rs,
    with the storage errors of error.rs. *)

From S2P Require Import Prelude Crypto Ratchet Skipped Blob Engine EngineWf.

(** error.rs. The payload of an I/O error is not kept. *)
Inductive StorageError :=
  | Io
  | BundleDecode (what : string)
  | MetaDecode (what : string)
  | SessionErr (e : SessionError)
  | BadMagic
  | CorruptBlob
  | CommitmentMismatch
  | TrustedMetaMissing
  | SessionIdentityMismatch
  | RollbackDetected
  | NoBundle
  | EnvelopeTruncated
  | BadEnvelopeMagic
  | EnvelopeChecksum.

Definition BUNDLE_MAGIC : bytes := bs "LG01".
Definition BUNDLE_VERSION : N := 1.

Definition encode_bundle (exp : SessionExport) : bytes :=
  let anchor := DeviceStateAnchorV1.encode (e_anchor exp) in
  let out := [] in
  let out := out ++ BUNDLE_MAGIC in
  let out := out ++ be_bytes 4 BUNDLE_VERSION in
  let out := out ++ be_bytes 4 (as_u32 (len anchor)) in
  let out := out ++ anchor in
  let out := out ++ be_bytes 4 64 in
  let out := out ++ e_okm exp in
  let out := out ++ e_session_id exp in
  let out := out ++ be_bytes 4 (e_epoch exp) in
  let out := out ++ be_bytes 4 (as_u32 (len (e_ratchet_blob exp))) in
  let out := out ++ e_ratchet_blob exp in
  out.

(** [b.try_into().unwrap()] into an array of [n] bytes. *)
Definition unwrap_array {E} (n : N) (b : bytes) : outcome E bytes :=
  if len b =? n then Ok b else Panic.

(** The cursor [o] is the state. [*o + len] cannot overflow: [*o] never exceeds the
    length of the slice and [len] comes from a [u32] or a small constant. *)
Definition take (b : bytes) (n : N) (ctx : string) : ST N StorageError bytes :=
  o ← st_get;
  _ ← st_lift (reject_if (len b <? o + n) (BundleDecode ctx));
  s ← st_lift (slice b o (o + n));
  _ ← st_modify (λ o, o + n);
  mret s.

Definition read_u32 (b : bytes) (ctx : string) : ST N StorageError N :=
  o ← st_get;
  _ ← st_lift (reject_if (len b <? o + 4) (BundleDecode ctx));
  s ← st_lift (slice b o (o + 4));
  v ← st_lift (unwrap_array 4 s);
  _ ← st_modify (λ o, o + 4);
  mret (from_be v).

(** The cursor part of [decode_bundle], from offset 8 on. *)
Definition decode_fields (b : bytes) : ST N StorageError SessionExport :=
  alen ← read_u32 b "anchor len";
  _ ← st_lift (reject_if (negb (alen =? DeviceStateAnchorV1.LEN)) (BundleDecode "anchor len"));
  anchor_bytes ← take b alen "anchor";
  anchor_bytes ← st_lift (unwrap_array DeviceStateAnchorV1.LEN anchor_bytes);
  let anchor := DeviceStateAnchorV1.decode anchor_bytes in
  okml ← read_u32 b "okm len";
  _ ← st_lift (reject_if (negb (okml =? 64)) (BundleDecode "okm len"));
  okm ← take b okml "okm";
  okm ← st_lift (unwrap_array 64 okm);
  sid ← take b 16 "session_id";
  sid ← st_lift (unwrap_array 16 sid);
  epoch_bytes ← take b 4 "epoch";
  epoch_bytes ← st_lift (unwrap_array 4 epoch_bytes);
  let epoch := from_be epoch_bytes in
  blob_len ← read_u32 b "blob len";
  ratchet_blob ← take b blob_len "blob";
  o ← st_get;
  _ ← st_lift (reject_if (negb (o =? len b)) (BundleDecode "trailing garbage"));
  mret {| e_ratchet_blob := ratchet_blob; e_okm := okm; e_anchor := anchor;
          e_session_id := sid; e_epoch := epoch |}.

Definition decode_bundle (b : bytes) : outcome StorageError SessionExport :=
  _ ← reject_if (len b <? 4 + 4) (BundleDecode "truncated header");
  magic ← slice b 0 4;
  _ ← reject_if (negb (bool_decide (magic = BUNDLE_MAGIC))) BadMagic;
  v ← slice b 4 8;
  v ← unwrap_array 4 v;
  _ ← reject_if (negb (from_be v =? BUNDLE_VERSION)) BadMagic;
  (decode_fields b 8).1.

(** * Lemmas *)

Lemma take_eq_at b n ctx o :
  take b n ctx o =
    if len b <? o + n then (Err (BundleDecode ctx), o) else (Ok (sub b o (o + n)), o + n).
Proof.
  unfold take. rewrite st_bind_eq. cbn [st_get]. rewrite st_bind_eq. unfold st_lift.
  destruct (N.ltb_spec (len b) (o + n)); oc; [done|]. rewrite st_bind_eq.
  by rewrite slice_ok by lia.
Qed.

Lemma read_u32_eq b ctx o :
  read_u32 b ctx o =
    if len b <? o + 4 then (Err (BundleDecode ctx), o)
    else (Ok (from_be (sub b o (o + 4))), o + 4).
Proof.
  unfold read_u32. rewrite st_bind_eq. cbn [st_get]. rewrite st_bind_eq. unfold st_lift.
  destruct (N.ltb_spec (len b) (o + 4)); oc; [done|]. rewrite st_bind_eq, slice_ok by lia.
  rewrite st_bind_eq. unfold unwrap_array. by rewrite eqb_true by len_goal.
Qed.

Lemma unwrap_array_ok {E} n b : len b = n → unwrap_array (E:=E) n b = Ok b.
Proof. intros <-. unfold unwrap_array. by rewrite N.eqb_refl. Qed.

(** The whole decoder as one guard on the length fields and one record. *)
Definition bundle_guard (b : bytes) : Prop :=
  (164 <= len b) ∧ sub b 0 4 = BUNDLE_MAGIC ∧ from_be (sub b 4 8) = BUNDLE_VERSION ∧
  from_be (sub b 8 12) = 60 ∧ from_be (sub b 72 76) = 64 ∧
  len b = 164 + from_be (sub b 160 164).

Definition bundle_fields (b : bytes) : SessionExport :=
  {| e_ratchet_blob := sub b 164 (len b); e_okm := sub b 76 140;
     e_anchor := DeviceStateAnchorV1.decode (sub b 12 72);
     e_session_id := sub b 140 156; e_epoch := from_be (sub b 156 160) |}.

(** Evaluate sums of literals (cursor positions). *)
Local Ltac norm_sums :=
  repeat match goal with
  | |- context [?x + ?y] =>
      let z := eval vm_compute in (x + y) in
      lazymatch z with N0 => idtac | Npos _ => idtac end; change (x + y) with z
  end.

(** Both directions of the guard at one step of the decoder. *)
Local Ltac fail_here := right; split; [unfold bundle_guard, BUNDLE_VERSION in *; lia|by eexists].
Local Ltac read_step :=
  rewrite st_bind_eq, ?read_u32_eq, ?take_eq_at; norm_sums;
  match goal with |- context [len ?b <? ?k] =>
    destruct (N.ltb_spec (len b) k); [fail_here|] end.
Local Ltac check_step H :=
  rewrite st_bind_eq; unfold st_lift;
  match goal with |- context [negb (?x =? ?y)] =>
    destruct (N.eqb_spec x y) as [H|]; [|fail_here] end; oc.
Local Ltac array_step :=
  rewrite st_bind_eq; unfold st_lift; rewrite unwrap_array_ok by len_goal.

Lemma decode_bundle_cases b :
  (bundle_guard b ∧ decode_bundle b = Ok (bundle_fields b)) ∨
  (¬ bundle_guard b ∧ ∃ e, decode_bundle b = Err e).
Proof.
  unfold decode_bundle.
  destruct (N.ltb_spec (len b) (4 + 4)); oc; [fail_here|].
  rewrite !slice_ok by lia. oc. rewrite unwrap_array_ok by len_goal. oc.
  case_bool_decide as Hmagic; oc; [|right; split; [by intros (_&?&_)|by eexists]].
  destruct (N.eqb_spec (from_be (sub b 4 8)) BUNDLE_VERSION); oc; [|fail_here].
  unfold decode_fields. change DeviceStateAnchorV1.LEN with 60.
  read_step. check_step Ha. rewrite Ha. read_step. array_step.
  read_step. check_step Hk. rewrite Hk. read_step. array_step.
  read_step. array_step. read_step. array_step. read_step.
  rewrite st_bind_eq, take_eq_at.
  destruct (N.ltb_spec (len b) (164 + from_be (sub b 160 164))); [fail_here|].
  rewrite st_bind_eq. cbn [st_get]. rewrite st_bind_eq. unfold st_lift.
  destruct (N.eqb_spec (164 + from_be (sub b 160 164)) (len b)) as [Hl|]; [|fail_here].
  left. unfold bundle_guard. split; [split_and!; (done || lia)|].
  oc. unfold bundle_fields. by rewrite <- Hl.
Qed.

Lemma decode_bundle_Ok b x :
  decode_bundle b = Ok x ↔ bundle_guard b ∧ x = bundle_fields b.
Proof.
  destruct (decode_bundle_cases b) as [[Hg Hd]|[Hg [e He]]].
  - rewrite Hd. split; [intros [= <-]; done|by intros [_ ->]].
  - rewrite He. split; [done|by intros []].
Qed.

(** The layout the encoder produces. *)
Definition bundle_layout (x : SessionExport) : bytes :=
  BUNDLE_MAGIC ++ be_bytes 4 BUNDLE_VERSION ++ be_bytes 4 60 ++
  DeviceStateAnchorV1.encode (e_anchor x) ++ be_bytes 4 64 ++ e_okm x ++
  e_session_id x ++ be_bytes 4 (e_epoch x) ++ be_bytes 4 (len (e_ratchet_blob x)) ++
  e_ratchet_blob x.

Definition bundle_wf (x : SessionExport) : Prop :=
  export_wf x ∧ u32_ok (len (e_ratchet_blob x)).

Lemma encode_bundle_layout x : bundle_wf x → encode_bundle x = bundle_layout x.
Proof.
  intros [(_&_&_&Ha) Hb]. unfold encode_bundle, bundle_layout, as_u32. cbv zeta.
  rewrite anchor_encode_len by apply Ha. change (60 mod 2 ^ 32) with 60.
  rewrite (N.mod_small (len _)) by apply Hb. by rewrite app_nil_l, <- !app_assoc.
Qed.

Lemma decode_encode_bundle x : bundle_wf x → decode_bundle (encode_bundle x) = Ok x.
Proof.
  intros Hx. rewrite encode_bundle_layout by done. destruct Hx as [(Hok&Hsid&Hep&Ha) Hb].
  pose proof (anchor_encode_len (e_anchor x) Ha) as Hal.
  assert (len BUNDLE_MAGIC = 4) as Hm by done.
  set (b := bundle_layout x).
  assert (len b = 164 + len (e_ratchet_blob x)) as Hlen
    by (subst b; unfold bundle_layout; len_goal).
  assert (from_be (sub b 160 164) = len (e_ratchet_blob x)) as Hbl.
  { subst b. unfold bundle_layout. cut_fields. by apply from_be_bytes. }
  apply decode_bundle_Ok. split.
  - split_and!; [lia|..|lia]; subst b; unfold bundle_layout; cut_fields; try done;
      by apply from_be_bytes.
  - unfold bundle_fields. rewrite Hlen. subst b. unfold bundle_layout. cut_fields.
    rewrite anchor_decode_encode, from_be_bytes by done. by destruct x.
Qed.

(** Two different files never decode to the same session. *)
Lemma encode_decode_bundle b x :
  decode_bundle b = Ok x → bundle_wf x ∧ encode_bundle x = b.
Proof.
  intros [(Hl&Hm&Hv&Ha&Hk&Hlen) ->]%decode_bundle_Ok.
  assert (u32_ok (from_be (sub b 160 164))) as Hu by (apply (from_be_fits 4); len_goal).
  assert (bundle_wf (bundle_fields b)) as Hwf.
  { split; [split_and!|]; simpl; [len_goal|len_goal|apply (from_be_fits 4); len_goal| |].
    - apply anchor_decode_wf. len_goal.
    - rewrite len_sub. replace (N.min _ _) with (from_be (sub b 160 164)) by lia. done. }
  split; [done|]. rewrite encode_bundle_layout by done. unfold bundle_layout, bundle_fields.
  cbn [e_ratchet_blob e_okm e_anchor e_session_id e_epoch].
  rewrite anchor_encode_decode by len_goal.
  rewrite <- Hm, <- Hv, <- Ha, <- Hk.
  replace (len (sub b 164 (len b))) with (from_be (sub b 160 164)) by len_goal.
  rewrite !be_bytes_from_be by len_goal. by join_fields.
Qed.

(** * Properties *)

(** C27: the bundle codec is exact: every exportable session decodes back to
    itself, every file that decodes is the encoding of what it decodes to, and no
    input makes the decoder panic. *)
Theorem bundle_codec_exact x b :
  (bundle_wf x → decode_bundle (encode_bundle x) = Ok x) ∧
  (decode_bundle b = Ok x → bundle_wf x ∧ encode_bundle x = b) ∧
  no_panic (decode_bundle b).
Proof.
  split_and!; [apply decode_encode_bundle|apply encode_decode_bundle|].
  destruct (decode_bundle_cases b) as [[_ ->]|[_ [e ->]]]; done.
Qed.
