(* ===== verification/Wal.v ===== *)
(** The checksummed WAL envelope [LGW1] of
    src/crates/libgary-storage/src/wal_envelope.rs. *)

From S2P Require Import Prelude Crypto Ratchet Blob Engine Bundle.

Definition WAL_MAGIC : bytes := bs "LGW1".
Definition WAL_VERSION : N := 1.

Section wal.
Context `{Crypto}.

Definition encode_wal_envelope (bundle trusted_meta : bytes) : bytes :=
  let bl := as_u32 (len bundle) in
  let ml := as_u32 (len trusted_meta) in
  let checksum := sha256_parts [be_bytes 4 WAL_VERSION; be_bytes 4 bl; be_bytes 4 ml;
                                bundle; trusted_meta] in
  let out := [] in
  let out := out ++ WAL_MAGIC in
  let out := out ++ be_bytes 4 WAL_VERSION in
  let out := out ++ be_bytes 4 bl in
  let out := out ++ be_bytes 4 ml in
  let out := out ++ bundle in
  let out := out ++ trusted_meta in
  let out := out ++ checksum in
  out.

Definition decode_wal_envelope (b : bytes) : outcome StorageError (bytes * bytes) :=
  _ ← reject_if (len b <? 4 + 4 + 4 + 4 + 32) EnvelopeTruncated;
  bad ← (if len b <? 16 then Ok true
         else magic ← slice b 0 4; Ok (negb (bool_decide (magic = WAL_MAGIC))));
  _ ← reject_if bad BadEnvelopeMagic;
  v ← slice b 4 8;
  v ← unwrap_array 4 v;
  _ ← reject_if (negb (from_be v =? WAL_VERSION)) BadEnvelopeMagic;
  bl ← slice b 8 12;
  bl ← unwrap_array 4 bl;
  let bundle_len := from_be bl in
  ml ← slice b 12 16;
  ml ← unwrap_array 4 ml;
  let meta_len := from_be ml in
  body_end ← ok_or EnvelopeTruncated
    (checked_add USIZE_MAX 16 bundle_len ≫= λ x, checked_add USIZE_MAX x meta_len);
  total ← ok_or EnvelopeTruncated (checked_add USIZE_MAX body_end 32);
  _ ← reject_if (negb (len b =? total)) EnvelopeTruncated;
  bundle ← slice b 16 (16 + bundle_len);
  meta ← slice b (16 + bundle_len) body_end;
  let expected := sha256_parts [be_bytes 4 WAL_VERSION; be_bytes 4 (as_u32 bundle_len);
                                be_bytes 4 (as_u32 meta_len); bundle; meta] in
  got ← slice b body_end (body_end + 32);
  got ← unwrap_array 32 got;
  _ ← reject_if (negb (bool_decide (expected = got))) EnvelopeChecksum;
  Ok (bundle, meta).

(** * Lemmas *)

Definition wal_checksum (bundle meta : bytes) : bytes :=
  sha256_parts [be_bytes 4 WAL_VERSION; be_bytes 4 (len bundle); be_bytes 4 (len meta);
                bundle; meta].

Definition wal_layout (bundle meta : bytes) : bytes :=
  WAL_MAGIC ++ be_bytes 4 WAL_VERSION ++ be_bytes 4 (len bundle) ++ be_bytes 4 (len meta) ++
  bundle ++ meta ++ wal_checksum bundle meta.

Lemma encode_wal_layout bundle meta :
  u32_ok (len bundle) → u32_ok (len meta) →
  encode_wal_envelope bundle meta = wal_layout bundle meta.
Proof.
  intros Hb Hm. unfold encode_wal_envelope, wal_layout, wal_checksum, as_u32. cbv zeta.
  rewrite !N.mod_small by (apply Hb || apply Hm). by rewrite app_nil_l, <- !app_assoc.
Qed.

(** The decoder as a guard on the length fields and the checksum. *)
Definition wal_parts (b : bytes) : bytes * bytes :=
  let bl := from_be (sub b 8 12) in
  (sub b 16 (16 + bl), sub b (16 + bl) (len b - 32)).

Definition wal_guard (b : bytes) : Prop :=
  (48 <= len b) ∧ sub b 0 4 = WAL_MAGIC ∧ from_be (sub b 4 8) = WAL_VERSION ∧
  len b = 48 + from_be (sub b 8 12) + from_be (sub b 12 16) ∧
  sub b (len b - 32) (len b) = wal_checksum (wal_parts b).1 (wal_parts b).2.

Lemma decode_wal_cases b :
  (wal_guard b ∧ decode_wal_envelope b = Ok (wal_parts b)) ∨
  (¬ wal_guard b ∧ ∃ e, decode_wal_envelope b = Err e).
Proof.
  unfold decode_wal_envelope. change (4 + 4 + 4 + 4 + 32) with 48.
  destruct (N.ltb_spec (len b) 48); oc; [right; split; [by intros []; lia|by eexists]|].
  rewrite ltb_false by lia. rewrite !(slice_ok b) by lia. oc.
  case_bool_decide as Hm; oc; [|right; split; [by intros (_&?&_)|by eexists]].
  rewrite !unwrap_array_ok by len_goal. oc.
  destruct (N.eqb_spec (from_be (sub b 4 8)) WAL_VERSION) as [Hv|]; oc;
    [|right; split; [by intros (_&_&?&_)|by eexists]].
  set (bl := from_be (sub b 8 12)). set (ml := from_be (sub b 12 16)).
  assert (u32_ok bl) as Hbl by (apply (from_be_fits 4); len_goal).
  assert (u32_ok ml) as Hml by (apply (from_be_fits 4); len_goal).
  unfold fits in Hbl, Hml. simpl in Hbl, Hml. unfold checked_add, USIZE_MAX, U64_MAX, as_u32.
  rewrite (leb_true (16 + bl)) by lia. cbn [mbind option_bind].
  rewrite (leb_true (16 + bl + ml)) by lia. oc. rewrite leb_true by lia. oc.
  rewrite !N.mod_small by lia.
  destruct (N.eqb_spec (len b) (16 + bl + ml + 32)) as [Hl|]; oc;
    [|right; split; [intros (_&_&_&?&_); subst bl ml; lia|by eexists]].
  rewrite !(slice_ok b) by lia. oc. rewrite unwrap_array_ok by len_goal. oc.
  assert (wal_parts b = (sub b 16 (16 + bl), sub b (16 + bl) (16 + bl + ml))) as Hparts
    by (unfold wal_parts; fold bl; do 2 f_equal; lia).
  assert (sub b (16 + bl + ml) (16 + bl + ml + 32) = sub b (len b - 32) (len b)) as ->
    by (f_equal; lia).
  assert (sha256_parts [be_bytes 4 WAL_VERSION; be_bytes 4 bl; be_bytes 4 ml;
      sub b 16 (16 + bl); sub b (16 + bl) (16 + bl + ml)] =
    wal_checksum (wal_parts b).1 (wal_parts b).2) as ->.
  { rewrite Hparts. unfold wal_checksum. simpl.
    replace (len (sub b 16 (16 + bl))) with bl by len_goal.
    by replace (len (sub b (16 + bl) (16 + bl + ml))) with ml by len_goal. }
  rewrite <- Hparts. case_bool_decide as Hs; oc.
  - left. split; [|done]. split_and!; (done || lia).
  - right. split; [|by eexists]. by intros (_&_&_&_&?).
Qed.

Lemma decode_wal_Ok b x :
  decode_wal_envelope b = Ok x ↔ wal_guard b ∧ x = wal_parts b.
Proof.
  destruct (decode_wal_cases b) as [[Hg Hd]|[Hg [e He]]].
  - rewrite Hd. split; [intros [= <-]; done|by intros [_ ->]].
  - rewrite He. split; [done|by intros []].
Qed.

Lemma decode_encode_wal bundle meta :
  u32_ok (len bundle) → u32_ok (len meta) →
  decode_wal_envelope (encode_wal_envelope bundle meta) = Ok (bundle, meta).
Proof.
  intros Hb Hm. rewrite encode_wal_layout by done. set (b := wal_layout bundle meta).
  assert (len WAL_MAGIC = 4) as Hmg by done.
  assert (len b = 48 + len bundle + len meta) as Hlen
    by (subst b; unfold wal_layout, wal_checksum; len_goal).
  assert (from_be (sub b 8 12) = len bundle) as Hbl
    by (subst b; unfold wal_layout; cut_fields; by apply from_be_bytes).
  assert (from_be (sub b 12 16) = len meta) as Hml
    by (subst b; unfold wal_layout; cut_fields; by apply from_be_bytes).
  assert (wal_parts b = (bundle, meta)) as Hparts.
  { unfold wal_parts. rewrite Hbl, Hlen. subst b. unfold wal_layout. f_equal; by cut_fields. }
  apply decode_wal_Ok. rewrite Hparts. split; [|done]. unfold wal_guard. rewrite Hparts.
  split_and!; [lia|..].
  - subst b. unfold wal_layout. by cut_fields.
  - subst b. unfold wal_layout. cut_fields. by apply from_be_bytes.
  - lia.
  - rewrite Hlen. subst b. unfold wal_layout. cbn [fst snd].
    assert (len (wal_checksum bundle meta) = 32) by apply len_sha256_parts. by cut_fields.
Qed.

Lemma encode_decode_wal b bundle meta :
  decode_wal_envelope b = Ok (bundle, meta) →
  u32_ok (len bundle) ∧ u32_ok (len meta) ∧ encode_wal_envelope bundle meta = b.
Proof.
  intros [(Hl&Hm&Hv&Hlen&Hc) Hp]%decode_wal_Ok. rewrite <- Hp in Hc. simpl in Hc.
  unfold wal_parts in Hp. injection Hp as -> ->.
  assert (u32_ok (from_be (sub b 8 12))) as Hbl by (apply (from_be_fits 4); len_goal).
  assert (u32_ok (from_be (sub b 12 16))) as Hml by (apply (from_be_fits 4); len_goal).
  set (bl := from_be (sub b 8 12)) in *. set (ml := from_be (sub b 12 16)) in *.
  assert (len (sub b 16 (16 + bl)) = bl) as Hb1 by len_goal.
  assert (len (sub b (16 + bl) (len b - 32)) = ml) as Hm1 by len_goal.
  split_and!; [by rewrite Hb1|by rewrite Hm1|].
  rewrite encode_wal_layout by (by rewrite ?Hb1, ?Hm1). unfold wal_layout.
  rewrite <- Hc, Hb1, Hm1, <- Hm, <- Hv. subst bl ml.
  rewrite !be_bytes_from_be by len_goal. by join_fields.
Qed.

End wal.

(** * Exactness *)

(** The WAL envelope is exact and checksummed: what was written is read back,
    any accepted file is the encoding of what it yields, and decoding never
    panics, whatever the length fields say. *)
Lemma wal_envelope_exact `{Crypto} bundle meta b :
  (u32_ok (len bundle) → u32_ok (len meta) →
    decode_wal_envelope (encode_wal_envelope bundle meta) = Ok (bundle, meta)) ∧
  (decode_wal_envelope b = Ok (bundle, meta) → encode_wal_envelope bundle meta = b) ∧
  no_panic (decode_wal_envelope b).
Proof.
  split_and!; [apply decode_encode_wal|by intros (_&_&?)%encode_decode_wal|].
  destruct (decode_wal_cases b) as [[_ ->]|[_ [e ->]]]; done.
Qed.
