(* ===== verification/TrustedMeta.v ===== *)
(** The trusted monotonic line of
    src/crates/libgary-storage/src/trusted_meta.rs, and the persistence interface
    [SessionWalSource] of src/crates/libgary-core/src/engine/wal_source.rs it is
    computed from. *)

From S2P Require Import Prelude Crypto Ratchet Blob Engine Bundle.

(** * [SessionWalSource] *)

(** The trait, as the record of its methods. *)
Class SessionWalSource (S : Type) := {
  src_export_state : S → SessionExport;
  src_session_id : S → bytes;
  src_epoch : S → N;
  src_recv_high_water : S → option N;
  src_send_wire_counter : S → N;
  src_anchor : S → DeviceStateAnchorV1.t;
  src_verify_anchor_commitment : S → bool;
}.

(** [impl SessionWalSource for Session] (and for [SessionHandle], which wraps
    one). *)
#[global] Instance session_wal_source `{Crypto} : SessionWalSource Session.t := {|
  src_export_state := Session.export_state;
  src_session_id := Session.session_id;
  src_epoch := Session.epoch;
  src_recv_high_water := Session.recv_high_water;
  src_send_wire_counter := Session.send_wire_counter;
  src_anchor := Session.anchor;
  src_verify_anchor_commitment := Session.verify_anchor_commitment;
|}.

Definition META_MAGIC : bytes := bs "LGTM".
Definition META_VERSION : N := 1.

Module TrustedAnchorMeta.

Record t := make {
  session_id : bytes;
  epoch : N;
  global_epoch_be : N;
  highest_wire_seen_be : N;
  send_wire_counter : N;
  recv_hw_none : bool;
  recv_hw_be : N;
  state_commitment : bytes;
}.

Definition ENCODED_LEN : N := 4 + 4 + 16 + 4 + 8 + 8 + 8 + 8 + 1 + 32.

Definition from_wal_source `{SessionWalSource W} (session : W) : t :=
  let recv_hw_none := bool_decide (src_recv_high_water session = None) in
  let recv_hw_be := default 0 (src_recv_high_water session) in
  let anchor := src_anchor session in
  {| session_id := src_session_id session;
     epoch := src_epoch session;
     global_epoch_be := DeviceStateAnchorV1.global_epoch_be anchor;
     highest_wire_seen_be := DeviceStateAnchorV1.highest_wire_seen_be anchor;
     send_wire_counter := src_send_wire_counter session;
     recv_hw_none := recv_hw_none;
     recv_hw_be := recv_hw_be;
     state_commitment := DeviceStateAnchorV1.state_commitment anchor |}.

(** The write cursor [w] runs through literal offsets. *)
Definition encode (m : t) : bytes :=
  let out := zeros ENCODED_LEN in
  let out := put out 0 META_MAGIC in
  let out := put out 4 (be_bytes 4 META_VERSION) in
  let out := put out 8 (session_id m) in
  let out := put out 24 (be_bytes 4 (epoch m)) in
  let out := put out 28 (be_bytes 8 (global_epoch_be m)) in
  let out := put out 36 (be_bytes 8 (highest_wire_seen_be m)) in
  let out := put out 44 (be_bytes 8 (send_wire_counter m)) in
  let out := put out 52 (be_bytes 8 (recv_hw_be m)) in
  let out := put out 60 [if recv_hw_none m then x01 else x00] in
  let out := put out 61 (state_commitment m) in
  out.

Definition decode (b : bytes) : outcome StorageError t :=
  _ ← reject_if (negb (len b =? ENCODED_LEN)) (MetaDecode "length");
  magic ← slice b 0 4;
  _ ← reject_if (negb (bool_decide (magic = META_MAGIC))) (MetaDecode "magic");
  v ← slice b 4 8;
  v ← unwrap_array 4 v;
  _ ← reject_if (negb (from_be v =? META_VERSION)) (MetaDecode "version");
  sid ← slice b 8 24;
  sid ← unwrap_array 16 sid;
  e ← slice b 24 28;
  e ← unwrap_array 4 e;
  ge ← slice b 28 36;
  ge ← unwrap_array 8 ge;
  hs ← slice b 36 44;
  hs ← unwrap_array 8 hs;
  sc ← slice b 44 52;
  sc ← unwrap_array 8 sc;
  hw ← slice b 52 60;
  hw ← unwrap_array 8 hw;
  flag ← index b 60;
  com ← slice b 61 93;
  com ← unwrap_array 32 com;
  Ok {| session_id := sid;
        epoch := from_be e;
        global_epoch_be := from_be ge;
        highest_wire_seen_be := from_be hs;
        send_wire_counter := from_be sc;
        recv_hw_none := negb (bool_decide (flag = x00));
        recv_hw_be := from_be hw;
        state_commitment := com |}.

Definition wf (m : t) : Prop :=
  len (session_id m) = 16 ∧ u32_ok (epoch m) ∧ u64_ok (global_epoch_be m) ∧
  u64_ok (highest_wire_seen_be m) ∧ u64_ok (send_wire_counter m) ∧
  u64_ok (recv_hw_be m) ∧ len (state_commitment m) = 32.

End TrustedAnchorMeta.

Definition assert_monotonic_vs_trusted `{SessionWalSource W} (loaded : W)
    (meta : TrustedAnchorMeta.t) : outcome StorageError () :=
  _ ← reject_if (negb (bool_decide (src_session_id loaded =
        TrustedAnchorMeta.session_id meta))) SessionIdentityMismatch;
  _ ← reject_if (src_epoch loaded <? TrustedAnchorMeta.epoch meta) RollbackDetected;
  let anchor := src_anchor loaded in
  _ ← reject_if (DeviceStateAnchorV1.global_epoch_be anchor <?
        TrustedAnchorMeta.global_epoch_be meta) RollbackDetected;
  _ ← reject_if (DeviceStateAnchorV1.highest_wire_seen_be anchor <?
        TrustedAnchorMeta.highest_wire_seen_be meta) RollbackDetected;
  _ ← reject_if (src_send_wire_counter loaded <?
        TrustedAnchorMeta.send_wire_counter meta) RollbackDetected;
  _ ← reject_if (negb (bool_decide (DeviceStateAnchorV1.state_commitment anchor =
        TrustedAnchorMeta.state_commitment meta))) CommitmentMismatch;
  match TrustedAnchorMeta.recv_hw_none meta, src_recv_high_water loaded with
  | true, None => Ok tt
  | true, Some _ => Ok tt
  | false, None => Err RollbackDetected
  | false, Some lc =>
      if lc <? TrustedAnchorMeta.recv_hw_be meta then Err RollbackDetected else Ok tt
  end.

(** * Lemmas *)

Definition meta_layout (m : TrustedAnchorMeta.t) : bytes :=
  META_MAGIC ++ be_bytes 4 META_VERSION ++ TrustedAnchorMeta.session_id m ++
  be_bytes 4 (TrustedAnchorMeta.epoch m) ++ be_bytes 8 (TrustedAnchorMeta.global_epoch_be m) ++
  be_bytes 8 (TrustedAnchorMeta.highest_wire_seen_be m) ++
  be_bytes 8 (TrustedAnchorMeta.send_wire_counter m) ++
  be_bytes 8 (TrustedAnchorMeta.recv_hw_be m) ++
  [if TrustedAnchorMeta.recv_hw_none m then x01 else x00] ++
  TrustedAnchorMeta.state_commitment m.

Lemma len_META_MAGIC : len META_MAGIC = 4.
Proof. done. Qed.

Lemma meta_encode_layout m :
  TrustedAnchorMeta.wf m → TrustedAnchorMeta.encode m = meta_layout m.
Proof.
  intros (Hs&_&_&_&_&_&Hc). pose proof len_META_MAGIC.
  unfold TrustedAnchorMeta.encode, meta_layout, TrustedAnchorMeta.ENCODED_LEN. cbv zeta.
  by fill_array.
Qed.

Lemma meta_encode_len m :
  TrustedAnchorMeta.wf m → len (TrustedAnchorMeta.encode m) = TrustedAnchorMeta.ENCODED_LEN.
Proof.
  intros Hm. rewrite meta_encode_layout by done. destruct Hm as (?&_&_&_&_&_&?).
  pose proof len_META_MAGIC. unfold meta_layout, TrustedAnchorMeta.ENCODED_LEN. len_goal.
Qed.

(** On input of the right length the decoder is a header check and a record. *)
Definition meta_fields (b : bytes) : TrustedAnchorMeta.t :=
  {| TrustedAnchorMeta.session_id := sub b 8 24;
     TrustedAnchorMeta.epoch := from_be (sub b 24 28);
     TrustedAnchorMeta.global_epoch_be := from_be (sub b 28 36);
     TrustedAnchorMeta.highest_wire_seen_be := from_be (sub b 36 44);
     TrustedAnchorMeta.send_wire_counter := from_be (sub b 44 52);
     TrustedAnchorMeta.recv_hw_none := negb (byte_at b 60 =? 0);
     TrustedAnchorMeta.recv_hw_be := from_be (sub b 52 60);
     TrustedAnchorMeta.state_commitment := sub b 61 93 |}.

Lemma flag_byte x : negb (bool_decide (x = x00)) = negb (Byte.to_N x =? 0).
Proof. by destruct x. Qed.

Lemma meta_decode_eq b :
  TrustedAnchorMeta.decode b =
    if negb (len b =? 93) then Err (MetaDecode "length")
    else if negb (bool_decide (sub b 0 4 = META_MAGIC)) then Err (MetaDecode "magic")
    else if negb (from_be (sub b 4 8) =? META_VERSION) then Err (MetaDecode "version")
    else Ok (meta_fields b).
Proof.
  unfold TrustedAnchorMeta.decode. change TrustedAnchorMeta.ENCODED_LEN with 93.
  destruct (N.eqb_spec (len b) 93) as [Hl|]; [|done]. oc.
  rewrite !slice_ok by lia. oc. case_bool_decide; [|done]. oc.
  rewrite !unwrap_array_ok by len_goal. oc.
  destruct (from_be (sub b 4 8) =? META_VERSION); [|done]. oc.
  destruct (index_byte_at (E:=StorageError) b 60) as (x&->&Hx); [lia|]. oc.
  unfold meta_fields. by rewrite flag_byte, Hx.
Qed.

Lemma meta_decode_encode m :
  TrustedAnchorMeta.wf m → TrustedAnchorMeta.decode (TrustedAnchorMeta.encode m) = Ok m.
Proof.
  intros Hm. pose proof (meta_encode_len m Hm) as Hl.
  change TrustedAnchorMeta.ENCODED_LEN with 93 in Hl.
  rewrite meta_decode_eq, Hl. cbn [N.eqb negb]. rewrite N.eqb_refl. cbn [negb].
  rewrite meta_encode_layout by done. destruct Hm as (?&?&?&?&?&?&?).
  pose proof len_META_MAGIC. unfold meta_layout, meta_fields.
  assert (∀ c : bool, negb (Byte.to_N (if c then x01 else x00) =? 0) = c) as Hflag
    by by intros [].
  cut_fields. rewrite bool_decide_eq_true_2, !from_be_bytes by done. cut_bytes.
  rewrite Hflag. by destruct m.
Qed.

(** ** Monotonicity *)

(** What the check promises to a caller. *)
Definition not_behind `{SessionWalSource W} (loaded : W) (m : TrustedAnchorMeta.t) : Prop :=
  src_session_id loaded = TrustedAnchorMeta.session_id m ∧
  TrustedAnchorMeta.epoch m <= src_epoch loaded ∧
  TrustedAnchorMeta.global_epoch_be m <=
    DeviceStateAnchorV1.global_epoch_be (src_anchor loaded) ∧
  TrustedAnchorMeta.highest_wire_seen_be m <=
    DeviceStateAnchorV1.highest_wire_seen_be (src_anchor loaded) ∧
  TrustedAnchorMeta.send_wire_counter m <= src_send_wire_counter loaded ∧
  DeviceStateAnchorV1.state_commitment (src_anchor loaded) =
    TrustedAnchorMeta.state_commitment m ∧
  (TrustedAnchorMeta.recv_hw_none m = false →
    ∃ hw, src_recv_high_water loaded = Some hw ∧ TrustedAnchorMeta.recv_hw_be m <= hw).

Lemma assert_monotonic_Ok `{SessionWalSource W} (loaded : W) m :
  assert_monotonic_vs_trusted loaded m = Ok tt ↔ not_behind loaded m.
Proof.
  unfold assert_monotonic_vs_trusted, not_behind. cbv zeta.
  destruct (decide (src_session_id loaded = TrustedAnchorMeta.session_id m)) as [Hid|Hid].
  2: { rewrite (bool_decide_eq_false_2 _ Hid). by split; [|intros []]. }
  rewrite (bool_decide_eq_true_2 _ Hid). cbn [negb reject_if].
  destruct (N.ltb_spec (src_epoch loaded) (TrustedAnchorMeta.epoch m));
    [by split; [|intuition lia]|].
  destruct (N.ltb_spec (DeviceStateAnchorV1.global_epoch_be (src_anchor loaded))
    (TrustedAnchorMeta.global_epoch_be m)); [by split; [|intuition lia]|].
  destruct (N.ltb_spec (DeviceStateAnchorV1.highest_wire_seen_be (src_anchor loaded))
    (TrustedAnchorMeta.highest_wire_seen_be m)); [by split; [|intuition lia]|].
  destruct (N.ltb_spec (src_send_wire_counter loaded)
    (TrustedAnchorMeta.send_wire_counter m)); [by split; [|intuition lia]|].
  case_bool_decide as Hc; oc; [|by split; [|intuition done]].
  destruct (TrustedAnchorMeta.recv_hw_none m), (src_recv_high_water loaded) as [hw|].
  - split; [intros _; by split_and!|done].
  - split; [intros _; by split_and!|done].
  - destruct (N.ltb_spec hw (TrustedAnchorMeta.recv_hw_be m)).
    + split; [done|]. intros (_&_&_&_&_&_&Hhw). destruct Hhw as (?&[= <-]&?); [done|lia].
    + split; [|done]. intros _. split_and!; [done..|]. eauto.
  - split; [done|]. intros (_&_&_&_&_&_&Hhw). by destruct Hhw as (?&?&?).
Qed.

Lemma monotonic_self `{SessionWalSource W} (s : W) :
  not_behind s (TrustedAnchorMeta.from_wal_source s).
Proof.
  split_and!; try done; simpl; try lia. intros Hn%bool_decide_eq_false_1.
  destruct (src_recv_high_water s) as [hw|]; [|done]. exists hw. by simpl.
Qed.

(** * Properties *)

(** The trusted meta record survives encoding, and decoding any byte string
    never panics. *)
Lemma trusted_meta_roundtrip m b :
  (TrustedAnchorMeta.wf m → TrustedAnchorMeta.decode (TrustedAnchorMeta.encode m) = Ok m) ∧
  no_panic (TrustedAnchorMeta.decode b).
Proof.
  split; [apply meta_decode_encode|]. rewrite meta_decode_eq. by repeat case_match.
Qed.

(** C29: rollback detection. The check passes exactly when the loaded session is the
    recorded one and none of its epoch, global epoch, highest wire counter, send
    counter and receive high-water mark is behind the recorded values, with the
    same commitment; the session the record was made from always passes. *)
Theorem rollback_check_exact `{SessionWalSource W} (loaded saved : W) m :
  (assert_monotonic_vs_trusted loaded m = Ok tt ↔ not_behind loaded m) ∧
  assert_monotonic_vs_trusted saved (TrustedAnchorMeta.from_wal_source saved) = Ok tt.
Proof. split; [apply assert_monotonic_Ok|apply assert_monotonic_Ok, monotonic_self]. Qed.
