(* ===== verification/Store.v ===== *)
(** The session store of src/crates/libgary-storage/src: atomic_write.rs (with a
    model of what a crash leaves on disk) and store.rs. *)

From S2P Require Import Prelude Crypto Ratchet Skipped Blob Engine EngineWf Restart Bundle.
From S2P Require Import Wal TrustedMeta Pad Toy.

(** * The file system

    Two paths matter, the envelope and its temporary. An inode remembers whether
    its contents have been flushed; a directory entry changed by [rename] is
    durable only after the directory has been flushed. *)
Record inode := { content : bytes; flushed : bool }.

(** What the operating system answers to one call: success, an I/O error (a write
    may have stored some bytes), or a power loss, after which unflushed contents
    are arbitrary and an unflushed rename may or may not have happened. *)
Inductive verdict :=
  | Done
  | IoError (written : N)
  | PowerLoss (written : N) (renamed : bool) (garbage : bytes).

Record world := {
  w_parent : bool;           (** the path has a parent directory *)
  w_file : option inode;     (** the envelope, as seen by running programs *)
  w_durable : option inode;  (** the envelope's directory entry on the medium *)
  w_tmp : option inode;
  w_script : list verdict;   (** answers to the next calls; then [Done] *)
}.

Definition set_files (f d t : option inode) (w : world) : world :=
  {| w_parent := w_parent w; w_file := f; w_durable := d; w_tmp := t;
     w_script := w_script w |}.

Definition settle (garbage : bytes) (i : inode) : inode :=
  if flushed i then i else {| content := garbage; flushed := true |}.

Definition power_loss (renamed : bool) (garbage : bytes) (w : world) : world :=
  let f := settle garbage <$> (if renamed then w_file w else w_durable w) in
  set_files f f (settle garbage <$> w_tmp w) w.

(** One system call: [ok] is its effect, [partial n] the effect of a failed call
    that got through [n] bytes. A power loss stops the program ([Panic]). *)
Definition sys (ok : world → world) (partial : N → world → world)
    : ST world StorageError () := λ w,
  let script := w_script w in
  let w := {| w_parent := w_parent w; w_file := w_file w; w_durable := w_durable w;
              w_tmp := w_tmp w; w_script := tail script |} in
  match script with
  | [] | Done :: _ => (Ok tt, ok w)
  | IoError n :: _ => (Err Io, partial n w)
  | PowerLoss n renamed garbage :: _ => (Panic, power_loss renamed garbage (partial n w))
  end.

Definition no_effect (w : world) : world := w.
Definition unchanged (_ : N) (w : world) : world := w.

Definition open_truncate (w : world) : world :=
  set_files (w_file w) (w_durable w) (Some {| content := []; flushed := false |}) w.
Definition write_tmp (data : bytes) (w : world) : world :=
  set_files (w_file w) (w_durable w) (Some {| content := data; flushed := false |}) w.
Definition flush_tmp (w : world) : world :=
  set_files (w_file w) (w_durable w)
    ((λ i, {| content := content i; flushed := true |}) <$> w_tmp w) w.
Definition rename_tmp (w : world) : world :=
  set_files (w_tmp w) (w_durable w) None w.
Definition flush_dir (w : world) : world :=
  set_files (w_file w) (w_file w) (w_tmp w) w.

(** * atomic_write.rs *)

(** Opening the directory and flushing it (the [unix] build). *)
Definition sync_dir : ST world StorageError () :=
  _ ← sys no_effect unchanged;
  sys flush_dir unchanged.

Definition atomic_write (data : bytes) : ST world StorageError () :=
  w ← st_get;
  _ ← st_lift (reject_if (negb (w_parent w)) (BundleDecode "no parent dir"));
  _ ← sys no_effect unchanged;
  _ ← sys open_truncate unchanged;
  _ ← sys (write_tmp data) (λ n, write_tmp (take_N n data));
  _ ← sys flush_tmp unchanged;
  _ ← sys rename_tmp unchanged;
  sync_dir.

Definition read_if_exists : ST world StorageError (option bytes) :=
  _ ← sys no_effect unchanged;
  w ← st_get;
  mret (content <$> w_file w).

(** * store.rs *)

Section store.
Context `{Crypto}.

Definition save_session `{SessionWalSource W} (session : W) : ST world StorageError () :=
  let export := src_export_state session in
  let bundle := encode_bundle export in
  let meta := TrustedAnchorMeta.from_wal_source session in
  let meta_arr := TrustedAnchorMeta.encode meta in
  let wal := encode_wal_envelope bundle meta_arr in
  atomic_write wal.

Definition commit_anchor `{SessionWalSource W} (session : W) : ST world StorageError () :=
  save_session session.

Definition verify_anchor `{SessionWalSource W} (session : W) : bool :=
  src_verify_anchor_commitment session.

Definition as_corrupt_envelope (e : StorageError) : StorageError :=
  match e with
  | EnvelopeTruncated | BadEnvelopeMagic | EnvelopeChecksum => CorruptBlob
  | o => o
  end.
Definition as_corrupt_bundle (e : StorageError) : StorageError :=
  match e with
  | BadMagic | BundleDecode _ => CorruptBlob
  | o => o
  end.

Definition load_session : ST world StorageError Session.t :=
  found ← read_if_exists;
  wal_bytes ← match found with Some b => mret b | None => st_fail NoBundle end;
  '(bundle_bytes, meta_bytes) ←
    st_lift (map_err as_corrupt_envelope (decode_wal_envelope wal_bytes));
  export ← st_lift (map_err as_corrupt_bundle (decode_bundle bundle_bytes));
  session ← st_lift (map_err SessionErr (Session.import_state export));
  _ ← st_lift (reject_if (negb (verify_anchor session)) CommitmentMismatch);
  meta ← st_lift (TrustedAnchorMeta.decode meta_bytes);
  _ ← st_lift (assert_monotonic_vs_trusted session meta);
  mret session.

(** The bytes a save writes, and what a load makes of them. *)
Definition envelope_of `{SessionWalSource W} (s : W) : bytes :=
  encode_wal_envelope (encode_bundle (src_export_state s))
    (TrustedAnchorMeta.encode (TrustedAnchorMeta.from_wal_source s)).

Definition read_envelope (b : bytes) : outcome StorageError Session.t :=
  '(bundle_bytes, meta_bytes) ← map_err as_corrupt_envelope (decode_wal_envelope b);
  export ← map_err as_corrupt_bundle (decode_bundle bundle_bytes);
  session ← map_err SessionErr (Session.import_state export);
  _ ← reject_if (negb (verify_anchor session)) CommitmentMismatch;
  meta ← TrustedAnchorMeta.decode meta_bytes;
  _ ← assert_monotonic_vs_trusted session meta;
  Ok session.

End store.

(** * Crash safety of [atomic_write] *)

(** A predicate on the three directory entries. *)
Definition fprop : Type := option inode → option inode → option inode → Prop.
Definition on_files (p : fprop) (w : world) : Prop := p (w_file w) (w_durable w) (w_tmp w).

Lemma sys_triple (p q x : fprop) ok partial :
  (∀ w, on_files p w → on_files q (ok w)) →
  (∀ w n, on_files p w → on_files x (partial n w)) →
  (∀ w n r g, on_files p w → on_files x (power_loss r g (partial n w))) →
  triple (on_files p) (sys ok partial) (λ _, on_files q) (on_files x).
Proof.
  intros Hok Herr Hloss w Hw. unfold sys.
  destruct (w_script w) as [|[|n|n r g] script]; simpl; by auto.
Qed.

Section atomic.
Variables (old : option inode) (data : bytes).
Hypothesis (Hold : from_option (λ i, flushed i = true) True old).

Definition new : inode := {| content := data; flushed := true |}.

(** Before the rename the envelope is the old one, whatever the temporary is. *)
Definition at_old : fprop := λ f d _, f = old ∧ d = old.
Definition tmp_written : fprop := λ f d tm,
  f = old ∧ d = old ∧ content <$> tm = Some data.
Definition tmp_flushed : fprop := λ f d tm, f = old ∧ d = old ∧ tm = Some new.
Definition renamed_entry : fprop := λ f d _, f = Some new ∧ d = old.
Definition committed_entry : fprop := λ f d _, f = Some new ∧ d = Some new.
(** What may be found when the save did not succeed. *)
Definition old_or_new : fprop := λ f d _, f = old ∨ f = Some new.

Lemma settle_old g : settle g <$> old = old.
Proof.
  destruct old as [i|]; [|done]. simpl in *. unfold settle. by rewrite Hold.
Qed.

Local Ltac files := unfold on_files, at_old, tmp_written, tmp_flushed, renamed_entry,
  committed_entry, old_or_new; simpl.

Lemma settle_new g : settle g <$> Some new = Some new.
Proof. done. Qed.

Lemma power_loss_safe w r g :
  (w_file w = old ∨ w_file w = Some new) → (w_durable w = old ∨ w_durable w = Some new) →
  on_files old_or_new (power_loss r g w).
Proof.
  intros Hf Hd. unfold power_loss. files.
  destruct r; [destruct Hf as [->| ->]|destruct Hd as [->| ->]];
    rewrite ?settle_old, ?settle_new; auto.
Qed.

(** One call, with the exit condition discharged once and for all. *)
Lemma sys_safe (p q : fprop) ok partial :
  (∀ w, on_files p w →
    (w_file w = old ∨ w_file w = Some new) ∧ (w_durable w = old ∨ w_durable w = Some new)) →
  (∀ w n, w_file (partial n w) = w_file w ∧ w_durable (partial n w) = w_durable w) →
  (∀ w, on_files p w → on_files q (ok w)) →
  triple (on_files p) (sys ok partial) (λ _, on_files q) (on_files old_or_new).
Proof.
  intros Hp Hpart Hok. apply sys_triple; [done|..].
  - intros w n [Hf _]%Hp. destruct (Hpart w n) as [Hf' _]. files. by rewrite Hf'.
  - intros w n r g [Hf Hd]%Hp. destruct (Hpart w n) as [Hf' Hd'].
    apply power_loss_safe; by rewrite ?Hf', ?Hd'.
Qed.

Lemma atomic_write_safe :
  triple (on_files at_old) (atomic_write data) (λ _, on_files committed_entry)
    (on_files old_or_new).
Proof.
  unfold atomic_write, sync_dir.
  apply triple_bind_pres; [apply preserves_get|by intros ? [? ?]; left|]. intros w0.
  apply triple_bind_lift; [by intros ? [? ?]; left|]. intros _ _.
  eapply triple_bind; [apply (sys_safe at_old at_old); [|done|done]; intros w [-> ->]; auto|].
  intros []. eapply triple_bind.
  { apply (sys_safe at_old at_old); [intros w [-> ->]; auto|done|done]. }
  intros []. eapply triple_bind.
  { apply (sys_safe at_old tmp_written); [intros w [-> ->]; auto|done|].
    by intros w [? ?]; files. }
  intros []. eapply triple_bind.
  { apply (sys_safe tmp_written tmp_flushed); [intros w (->&->&_); auto|done|].
    intros w (?&?&Ht). files. split_and!; [done..|]. destruct (w_tmp w) as [[c fl]|]; [|done].
    simpl in *. by injection Ht as ->. }
  intros []. eapply triple_bind.
  { apply (sys_safe tmp_flushed renamed_entry); [intros w (->&->&_); auto|done|].
    intros w (?&?&Ht). by files. }
  intros []. eapply triple_bind.
  { apply (sys_safe renamed_entry renamed_entry); [intros w [-> ->]; auto|done|done]. }
  intros []. apply (sys_safe renamed_entry committed_entry); [intros w [-> ->]; auto|done|].
  intros w [? ?]. by files.
Qed.

End atomic.

(** * What a load reads *)

Section load.
Context `{Crypto} `{Rng} `{Build}.

Lemma len_export_blob s :
  session_wf s →
  len (e_ratchet_blob (Session.export_state s)) = 230 + cache_len (Session.skipped s) * 72.
Proof.
  intros Hs. pose proof (len_peer_default s Hs). pose proof (wf_skipped s Hs) as Hc.
  pose proof (len_encode_entries _ (sorted_entries_wf _ Hc)) as He.
  rewrite len_sorted_entries in He. destruct Hs.
  unfold Session.export_state. cbn [e_ratchet_blob]. unfold encode_blob_v2. cbv zeta.
  autorewrite with len. rewrite He. lia.
Qed.

Lemma export_bundle_wf s : session_wf s → bundle_wf (Session.export_state s).
Proof.
  intros Hs. split; [by destruct Hs|]. rewrite len_export_blob by done.
  destruct (wf_skipped s Hs) as [Hc _]. unfold MAX_SKIP in Hc. unfold fits. simpl. lia.
Qed.

Lemma meta_of_wf s :
  session_wf s → TrustedAnchorMeta.wf (TrustedAnchorMeta.from_wal_source s).
Proof.
  intros Hs. pose proof (wf_window s Hs) as Hw. unfold window_wf in Hw. simpl in Hw.
  destruct Hs as [? ? ? ? ? ? ? ? _ ? ? ? ? ? ? (?&?&?&?&?&?&?)].
  unfold TrustedAnchorMeta.wf. simpl. split_and!; try done.
  destruct (Session.recv_high_water s); [apply Hw|by vm_compute].
Qed.

Lemma verify_restored s :
  Session.verify_anchor_commitment (restored s) = Session.verify_anchor_commitment s.
Proof. unfold Session.verify_anchor_commitment. by rewrite restored_committed. Qed.

Lemma restored_hw s :
  Session.recv_high_water s ≠ Some RECV_HIGH_WATER_NONE_SENTINEL →
  Session.recv_high_water (restored s) = Session.recv_high_water s.
Proof.
  intros Hne. unfold restored. simpl. unfold Session.recv_hw_or_sentinel.
  by rewrite eqb_bool_decide, default_marker_cases, bool_decide_eq_false_2.
Qed.

(** A session that may be saved: progress has been committed to the anchor, and
    the reserved high-water value is not in use. *)
Definition savable (s : Session.t) : Prop :=
  session_wf s ∧ Session.verify_anchor_commitment s = true ∧
  Session.recv_high_water s ≠ Some RECV_HIGH_WATER_NONE_SENTINEL.

(** The first three stages of a load undo a save. *)
Lemma read_envelope_saved s :
  session_wf s →
  read_envelope (envelope_of s) =
    (_ ← reject_if (negb (Session.verify_anchor_commitment s)) CommitmentMismatch;
     _ ← assert_monotonic_vs_trusted (restored s) (TrustedAnchorMeta.from_wal_source s);
     Ok (restored s)).
Proof.
  intros Hs. pose proof (export_bundle_wf s Hs) as Hb. pose proof (meta_of_wf s Hs) as Hm.
  pose proof (meta_encode_len _ Hm) as Hml. unfold TrustedAnchorMeta.ENCODED_LEN in Hml.
  unfold read_envelope, envelope_of. rewrite decode_encode_wal.
  - oc. change (src_export_state s) with (Session.export_state s).
    rewrite decode_encode_bundle by done. oc. rewrite import_export by done. oc.
    change (verify_anchor (restored s)) with (Session.verify_anchor_commitment (restored s)).
    rewrite verify_restored.
    destruct (Session.verify_anchor_commitment s); [|done]. oc.
    by rewrite meta_decode_encode.
  - rewrite encode_bundle_layout by done. destruct Hb as [(?&?&?&Ha) Hb].
    pose proof (anchor_encode_len _ Ha). pose proof (len_export_blob s Hs) as Hbl.
    destruct (wf_skipped s Hs) as [Hc _]. unfold MAX_SKIP in Hc.
    assert (len BUNDLE_MAGIC = 4) by done. simpl src_export_state.
    unfold bundle_layout, fits. simpl (2 ^ _). len_goal.
  - rewrite Hml. by vm_compute.
Qed.

Lemma read_envelope_savable s : savable s → read_envelope (envelope_of s) = Ok (restored s).
Proof.
  intros (Hs&Hv&Hhw). rewrite read_envelope_saved, Hv by done. oc.
  assert (not_behind (restored s) (TrustedAnchorMeta.from_wal_source s)) as Hnb.
  { pose proof (monotonic_self s) as Hself. unfold not_behind in *. simpl in *.
    pose proof (restored_hw s Hhw) as Hr. simpl in Hr. by rewrite Hr. }
  apply assert_monotonic_Ok in Hnb. by rewrite Hnb.
Qed.

(** The reserved high-water value is written to the trusted line but not to the
    bundle, so the loaded session is behind its own line. *)
Lemma read_envelope_reserved s :
  session_wf s → Session.verify_anchor_commitment s = true →
  Session.recv_high_water s = Some RECV_HIGH_WATER_NONE_SENTINEL →
  read_envelope (envelope_of s) = Err RollbackDetected.
Proof.
  intros Hs Hv Hhw. rewrite read_envelope_saved, Hv by done. oc.
  unfold assert_monotonic_vs_trusted, Session.recv_hw_or_sentinel. simpl.
  unfold Session.recv_hw_or_sentinel. rewrite Hhw. simpl.
  do 4 (rewrite N.ltb_irrefl; oc). by rewrite !bool_decide_eq_true_2.
Qed.

(** A load in a world whose next read succeeds. *)
Definition readable (w : world) : Prop :=
  match w_script w with [] | Done :: _ => True | _ => False end.

Lemma load_session_eq w :
  readable w →
  (load_session w).1 =
    match w_file w with
    | Some i => read_envelope (content i)
    | None => Err NoBundle
    end.
Proof.
  intros Hr. unfold load_session, read_envelope.
  assert (∃ w1, read_if_exists w = (Ok (content <$> w_file w), w1)) as [w1 Hw1].
  { unfold read_if_exists. rewrite st_bind_eq. unfold sys, readable in *.
    destruct (w_script w) as [|[| |] ?]; simpl; try done; by eexists. }
  rewrite (st_bind_Ok _ _ _ _ _ Hw1). destruct (w_file w) as [i|]; [|done]. simpl.
  rewrite st_bind_eq. unfold mret, st_ret. rewrite st_bind_eq. unfold st_lift.
  destruct (decode_wal_envelope (content i)) as [[bb mb]|e|]; [|done..]. oc.
  rewrite st_bind_eq. destruct (decode_bundle bb); [|done..]. oc.
  rewrite st_bind_eq. destruct (Session.import_state _) as [sess|e|]; [|done..]. oc.
  rewrite st_bind_eq. destruct (Session.verify_anchor_commitment sess); [|done]. oc.
  rewrite st_bind_eq. destruct (TrustedAnchorMeta.decode mb); [|done..]. oc.
  rewrite st_bind_eq. by destruct (assert_monotonic_vs_trusted _ _).
Qed.

End load.

(** * Properties *)

Section properties.
Context `{Crypto} `{Rng} `{Build}.

(** The machine comes back up: the next calls succeed. *)
Definition reboot (w : world) : world :=
  {| w_parent := w_parent w; w_file := w_file w; w_durable := w_durable w;
     w_tmp := w_tmp w; w_script := [] |}.

(** C5: crash-safe saves. Starting from a store that holds one savable session,
    saving another one and then losing power, failing or succeeding at any system
    call leaves a store that loads either the old or the new session, never a
    torn one; a save that reports success has durably stored the new one. *)
Theorem save_is_crash_safe old new w :
  savable old → savable new →
  w_file w = Some {| content := envelope_of old; flushed := true |} →
  w_durable w = w_file w →
  let '(r, w') := save_session new w in
  ((load_session (reboot w')).1 = Ok (restored old) ∨
   (load_session (reboot w')).1 = Ok (restored new)) ∧
  (r = Ok tt → (load_session (reboot w')).1 = Ok (restored new) ∧ w_durable w' = w_file w').
Proof.
  intros Hold Hnew Hf Hd.
  pose proof (atomic_write_safe (w_file w) (envelope_of new)) as Hsafe.
  rewrite Hf in Hsafe at 1. specialize (Hsafe eq_refl w (conj eq_refl Hd)).
  change (save_session new) with (atomic_write (envelope_of new)).
  assert (∀ w1 s, w_file w1 = Some {| content := envelope_of s; flushed := true |} →
    savable s → (load_session (reboot w1)).1 = Ok (restored s)) as Hload.
  { intros w1 s Hw1 Hs. rewrite load_session_eq by done. simpl. rewrite Hw1.
    by apply read_envelope_savable. }
  unfold on_files, committed_entry, old_or_new in Hsafe.
  destruct (atomic_write _ w) as [[[]|e|] w'].
  - destruct Hsafe as [Hf' Hd']. split; [right; by apply Hload|].
    intros _. split; [by apply Hload|congruence].
  - split; [|done]. rewrite Hf in Hsafe. destruct Hsafe; [left|right]; by apply Hload.
  - split; [|done]. rewrite Hf in Hsafe. destruct Hsafe; [left|right]; by apply Hload.
Qed.

(** C20: loads fail closed. From arbitrary file contents a load never panics; if it
    succeeds, the file held an envelope with a bundle and a trusted line, and the
    session is the import of that bundle, well formed, with a commitment that
    verifies, and not behind that trusted line in any of its fields. *)
Theorem load_fails_closed w :
  readable w →
  no_panic (load_session w).1 ∧
  ∀ s, (load_session w).1 = Ok s →
    session_wf s ∧ Session.verify_anchor_commitment s = true ∧
    ∃ i bundle_bytes meta_bytes x m,
      w_file w = Some i ∧ decode_wal_envelope (content i) = Ok (bundle_bytes, meta_bytes) ∧
      decode_bundle bundle_bytes = Ok x ∧ Session.import_state x = Ok s ∧
      TrustedAnchorMeta.decode meta_bytes = Ok m ∧ not_behind s m.
Proof.
  intros Hr. rewrite load_session_eq by done. destruct (w_file w) as [i|]; [|done].
  unfold read_envelope.
  destruct (decode_wal_cases (content i)) as [[_ Hw]|[_ [e ->]]]; [|by destruct e].
  rewrite Hw. oc. destruct (wal_parts (content i)) as [bb mb].
  destruct (decode_bundle_cases bb) as [[Hg Hb]|[_ [e ->]]]; [|by destruct e].
  pose proof (encode_decode_bundle _ _ Hb) as [[Hx _] _]. rewrite Hb. oc.
  destruct (Session.import_state _) as [s|e|] eqn:Hi; [|done|].
  2: { pose proof (proj1 (import_untrusted_blob _ Hx)) as Hn. by rewrite Hi in Hn. }
  oc. destruct (verify_anchor s) eqn:Hv; oc; [|done].
  destruct (TrustedAnchorMeta.decode mb) as [m|e|] eqn:Hmeta; [|done|].
  2: { pose proof (proj2 (trusted_meta_roundtrip (meta_fields mb) mb)) as Hn.
       by rewrite Hmeta in Hn. }
  oc. destruct (assert_monotonic_vs_trusted s m) as [[]|e|] eqn:Hm; [|done|].
  - split; [done|]. intros s' [= <-]. split_and!; [by eapply import_wf|done|].
    apply assert_monotonic_Ok in Hm. by exists i, bb, mb, (bundle_fields bb), m.
  - exfalso. unfold assert_monotonic_vs_trusted, reject_if in Hm.
    by repeat (case_match; simpl in Hm).
Qed.

(** Progress that was not committed to the anchor is not silently lost: a
    session saved without [recompute_anchor_commitment] is refused on load with
    [CommitmentMismatch]. *)
Lemma uncommitted_progress_refused s w :
  session_wf s → Session.verify_anchor_commitment s = false → readable w →
  content <$> w_file w = Some (envelope_of s) →
  (load_session w).1 = Err CommitmentMismatch.
Proof.
  intros Hs Hv Hr Hf. rewrite load_session_eq by done.
  destruct (w_file w) as [i|]; [|done]. injection Hf as ->.
  by rewrite read_envelope_saved, Hv.
Qed.

(** C38: the trusted line travels in the same file as the session, so restoring an
    older copy of the whole file rolls the session back undetected, however far
    the counters had moved on. *)
Theorem whole_file_rollback_accepted older newer w :
  savable older → savable newer →
  Session.send_wire_counter older < Session.send_wire_counter newer →
  w_file w = Some {| content := envelope_of newer; flushed := true |} → readable w →
  let rolled_back :=
    set_files (Some {| content := envelope_of older; flushed := true |}) (w_durable w)
      (w_tmp w) w in
  (load_session w).1 = Ok (restored newer) ∧
  (load_session rolled_back).1 = Ok (restored older).
Proof.
  intros Ho Hn _ Hf Hr. cbv zeta. rewrite !load_session_eq by done. rewrite Hf. simpl.
  split; by apply read_envelope_savable.
Qed.

End properties.

(** ** Concrete instances *)

(** Alice before and after sending a record, with her anchor up to date. *)
Definition toy_saved0 : Session.t := Session.recompute_anchor_commitment toy_alice.
Definition toy_sent1 : Session.t := (Session.encrypt_data_plain512 (zeros 512) toy_alice).2.
Definition toy_saved1 : Session.t := Session.recompute_anchor_commitment toy_sent1.

Lemma toy_sent1_wf : session_wf toy_sent1.
Proof. apply (preserves_snd _ _ _ (encrypt_data_plain512_wf _)), toy_alice_wf. Qed.

Lemma toy_saved0_savable : savable toy_saved0.
Proof.
  split_and!; [apply recompute_wf, toy_alice_wf|vm_compute; reflexivity|done].
Qed.

Lemma toy_saved1_savable : savable toy_saved1.
Proof.
  split_and!; [apply recompute_wf, toy_sent1_wf|vm_compute; reflexivity|].
  vm_compute. discriminate.
Qed.

(** A store holding the first state; the machine loses power in the rename. *)
Definition toy_world (s : Session.t) (script : list verdict) : world :=
  let f := Some {| content := envelope_of s; flushed := true |} in
  {| w_parent := true; w_file := f; w_durable := f; w_tmp := None; w_script := script |}.
Definition toy_crash : list verdict :=
  [Done; Done; Done; Done; PowerLoss 0 false (zeros 3)].

Lemma save_is_crash_safe_witness :
  let w' := (save_session toy_saved1 (toy_world toy_saved0 toy_crash)).2 in
  (load_session (reboot w')).1 = Ok (restored toy_saved0) ∨
  (load_session (reboot w')).1 = Ok (restored toy_saved1).
Proof.
  pose proof (save_is_crash_safe toy_saved0 toy_saved1 (toy_world toy_saved0 toy_crash)
    toy_saved0_savable toy_saved1_savable eq_refl eq_refl) as Hsafe.
  cbv zeta. destruct (save_session _ _) as [r w']. exact (proj1 Hsafe).
Defined.

Lemma load_fails_closed_witness :
  no_panic (load_session (toy_world toy_saved0 [])).1.
Proof. exact (proj1 (load_fails_closed (toy_world toy_saved0 []) I)). Defined.

Lemma whole_file_rollback_accepted_witness :
  (load_session (set_files (Some {| content := envelope_of toy_saved0; flushed := true |})
     (w_durable (toy_world toy_saved1 [])) None (toy_world toy_saved1 []))).1 =
    Ok (restored toy_saved0).
Proof.
  refine (proj2 (whole_file_rollback_accepted toy_saved0 toy_saved1 (toy_world toy_saved1 [])
    toy_saved0_savable toy_saved1_savable _ eq_refl I)).
  vm_compute. reflexivity.
Defined.
