(* ===== verification/Device.v ===== *)
(** A device that keeps its session in the store: every call is followed by
    [recompute_anchor_commitment] and [save_session], and its result is used only
    once the save has reported success. The machine may fail or lose power at any
    system call of the save and then continues from what [load_session] returns.
    This is the usage docs/v0-state-integrity.md prescribes, composed of the engine
    (src/crates/libgary-core/src/engine) and the store (src/crates/libgary-storage/src). *)

From S2P Require Import Prelude Wire Pad Crypto Handshake Payload Ratchet Skipped Blob.
From S2P Require Import Engine Toy EngineInv EngineWf Restart EngineProps Bundle Wal.
From S2P Require Import TrustedMeta Store.

(** * Saves over any store *)

(** Whatever the visible and the durable entry are, they stay among the good ones. *)
Section entries.
Variables (C : inode → Prop) (data : bytes).
Hypothesis Hflushed : ∀ i, C i → flushed i = true.
Hypothesis Hnew : C {| content := data; flushed := true |}.

Definition entry_in (x : option inode) : Prop := from_option C False x.
Definition both_in : fprop := λ f d _, entry_in f ∧ entry_in d.
Definition ready : fprop := λ f d tm, both_in f d tm ∧ content <$> tm = Some data.
Definition sealed : fprop := λ f d tm,
  both_in f d tm ∧ tm = Some {| content := data; flushed := true |}.
Definition visible : fprop := λ f d tm,
  both_in f d tm ∧ f = Some {| content := data; flushed := true |}.
Definition saved : fprop := λ f d _,
  f = Some {| content := data; flushed := true |} ∧ d = f.

Lemma settle_in g x : entry_in x → settle g <$> x = x.
Proof.
  destruct x as [i|]; [|done]. simpl. intros Hi%Hflushed. unfold settle. by rewrite Hi.
Qed.

Lemma power_loss_in w r g : on_files both_in w → on_files both_in (power_loss r g w).
Proof.
  intros [Hf Hd]. unfold power_loss, on_files, both_in. simpl.
  destruct r; by rewrite settle_in.
Qed.

Lemma sys_in (p q : fprop) ok partial :
  (∀ f d tm, p f d tm → both_in f d tm) →
  (∀ w n, w_file (partial n w) = w_file w ∧ w_durable (partial n w) = w_durable w) →
  (∀ w, on_files p w → on_files q (ok w)) →
  triple (on_files p) (sys ok partial) (λ _, on_files q) (on_files both_in).
Proof.
  intros Hp Hpart Hok. apply sys_triple; [done|..].
  - intros w n Hw%Hp. destruct (Hpart w n) as [Hf Hd]. unfold on_files, both_in in *.
    by rewrite Hf, Hd.
  - intros w n r g Hw%Hp. destruct (Hpart w n) as [Hf Hd]. apply power_loss_in.
    unfold on_files, both_in in *. by rewrite Hf, Hd.
Qed.

Lemma atomic_write_in :
  triple (on_files both_in) (atomic_write data) (λ _, on_files saved) (on_files both_in).
Proof.
  unfold atomic_write, sync_dir.
  apply triple_bind_pres; [apply preserves_get|done|]. intros w0.
  apply triple_bind_lift; [done|]. intros _ _.
  eapply triple_bind; [by apply (sys_in both_in both_in)|]. intros [].
  eapply triple_bind; [by apply (sys_in both_in both_in)|]. intros [].
  eapply triple_bind; [by apply (sys_in both_in ready)|]. intros [].
  eapply triple_bind.
  { apply (sys_in ready sealed); [by intros ??? []|done|]. intros w [Hw Ht]. split; [done|].
    simpl. destruct (w_tmp w) as [[c fl]|]; [|done]. simpl in *. by injection Ht as ->. }
  intros []. eapply triple_bind.
  { apply (sys_in sealed visible); [by intros ??? []|done|]. intros w [[Hf Hd] Ht].
    unfold on_files, visible, both_in. simpl. rewrite Ht. by split_and!. }
  intros []. eapply triple_bind; [by apply (sys_in visible visible); [intros ??? []| |]|].
  intros []. apply (sys_in visible saved); [by intros ??? []|done|]. by intros w [_ Hf].
Qed.

End entries.

(** * The device *)

Section device.
Context `{Crypto} `{Rng} `{Build}.

Record device := { d_session : Session.t * rng_state; d_world : world }.

(** What leaves the library once it is safe: an accepted record or one to transmit. *)
Inductive release := Accepted (h : Header.t) | Transmitted (h : Header.t).

Definition released (o : op) (st : Session.t * rng_state) : option release :=
  match (exec o st).1 with
  | Ok (Some h) => Some (Accepted h)
  | _ => Transmitted <$> sent o st
  end.

(** What the operating system will answer next. *)
Definition facing (script : list verdict) (w : world) : world :=
  {| w_parent := w_parent w; w_file := w_file w; w_durable := w_durable w;
     w_tmp := w_tmp w; w_script := script |}.

(** One call of the engine, the save that must follow it, and the restart when the
    save did not succeed, with a new generator. A device whose store no longer loads
    is lost. *)
Definition device_step (o : op) (script : list verdict) (boot : rng_state) (d : device)
    : option release * option device :=
  let '(_, (s1, g1)) := exec o (d_session d) in
  let s2 := Session.recompute_anchor_commitment s1 in
  let '(saved, w) := save_session s2 (facing script (d_world d)) in
  match saved with
  | Ok _ => (released o (d_session d), Some {| d_session := (s2, g1); d_world := w |})
  | _ =>
      match (load_session (reboot w)).1 with
      | Ok s => (None, Some {| d_session := (s, boot); d_world := reboot w |})
      | _ => (None, None)
      end
  end.

Fixpoint device_run (ops : list (op * list verdict * rng_state)) (d : device)
    : list release * option device :=
  match ops with
  | [] => ([], Some d)
  | (o, script, boot) :: ops =>
      let '(r, d1) := device_step o script boot d in
      match d1 with
      | None => (option_list r, None)
      | Some d1 => let '(rs, d2) := device_run ops d1 in (option_list r ++ rs, d2)
      end
  end.

(** Every header the engine accepts on the way, released or lost with a failed save. *)
Definition accepted_by (o : op) (st : Session.t * rng_state) : option Header.t :=
  match (exec o st).1 with Ok r => r | _ => None end.

Fixpoint device_accepts (ops : list (op * list verdict * rng_state)) (d : device)
    : list Header.t :=
  match ops with
  | [] => []
  | (o, script, boot) :: ops =>
      option_list (accepted_by o (d_session d)) ++
      match (device_step o script boot d).2 with
      | None => []
      | Some d1 => device_accepts ops d1
      end
  end.

(** A device that has just stored [s]. *)
Definition fresh_device (s : Session.t) (g : rng_state) (w : world) : Prop :=
  savable s ∧ live s ∧
  w_file w = Some {| content := envelope_of s; flushed := true |} ∧ w_durable w = w_file w.

Definition accepted_data (rs : list release) : list Header.t :=
  omap (λ r, match r with
    | Accepted h => if Header.typ h =? 3 then Some h else None
    | Transmitted _ => None end) rs.
Definition transmitted (rs : list release) : list N :=
  omap (λ r, match r with Transmitted h => Some (Header.counter_be h) | Accepted _ => None end) rs.

(** * What a session must remember *)

(** The DATA headers released so far, and a bound below which all transmitted
    counters lie. *)
Definition remembers (seen : list Header.t) (n : N) (s : Session.t) : Prop :=
  live s ∧ Forall (λ h, Header.wf h ∧ low (Header.ratchet_pub h) (Header.counter_be h) s) seen ∧
  n <= Session.send_wire_counter s.

Definition good_entry (seen : list Header.t) (n : N) (i : inode) : Prop :=
  ∃ x, i = {| content := envelope_of x; flushed := true |} ∧ savable x ∧ remembers seen n x.

Definition device_ok (seen : list Header.t) (n : N) (d : device) : Prop :=
  remembers seen n (d_session d).1 ∧ on_files (both_in (good_entry seen n)) (d_world d).

Lemma recompute_remembers seen n s :
  remembers seen n s → remembers seen n (Session.recompute_anchor_commitment s).
Proof.
  intros ([Hs Hhw]&Hl&Hn). split; [split; [by apply recompute_wf|done]|]. by split.
Qed.

Lemma recompute_savable s :
  live s → savable (Session.recompute_anchor_commitment s).
Proof.
  intros [Hs Hhw]. split_and!; [by apply recompute_wf| |done].
  unfold Session.verify_anchor_commitment. by apply bool_decide_eq_true_2.
Qed.

Lemma restored_remembers seen n s : remembers seen n s → remembers seen n (restored s).
Proof.
  intros (Hlive&Hl&Hn). split; [by apply restored_live|]. split; [|done].
  eapply Forall_impl; [exact Hl|]. intros h [Hh Hlow]. split; [done|].
  apply restored_low; [apply Hlive|done].
Qed.

Lemma exec_remembers seen n o st :
  op_wf o → unreserved (option_list (accepted_by o st)) → remembers seen n st.1 →
  remembers seen n (exec o st).2.1.
Proof.
  unfold accepted_by. intros Ho Hc (Hlive&Hl&Hn).
  destruct (exec o st) as [r st'] eqn:He. split_and!.
  - eapply exec_live; [done|done|exact He|]. intros h ->. by apply Forall_cons in Hc as [? _].
  - eapply Forall_impl; [exact Hl|]. intros h [Hh Hlow]. split; [done|].
    pose proof Hh as (_&_&_&_&_&Hctr&Hq).
    pose proof (preserves_snd _ _ st (exec_low _ _ Hq o Hctr Ho) Hlow) as Hlow'.
    by rewrite He in Hlow'.
  - destruct (exec_sent o st) as [Hle _]. rewrite He in Hle. simpl in *. lia.
Qed.

(** ** Releases *)

(** What must be remembered after a release. *)
Definition after (r : option release) (seen : list Header.t) (n : N) : list Header.t * N :=
  match r with
  | Some (Accepted h) => (if Header.typ h =? 3 then h :: seen else seen, n)
  | Some (Transmitted h) => (seen, Header.counter_be h + 1)
  | None => (seen, n)
  end.

(** It is new. *)
Definition unseen (r : option release) (seen : list Header.t) (n : N) : Prop :=
  match r with
  | Some (Accepted h) => Header.typ h = 3 → h ∉ seen
  | Some (Transmitted h) => n <= Header.counter_be h
  | None => True
  end.

Lemma accepted_new seen n o st h st' :
  op_wf o → unreserved [h] → remembers seen n st.1 → exec o st = (Ok (Some h), st') →
  Header.typ h = 3 → (h ∉ seen) ∧ remembers (h :: seen) n st'.1.
Proof.
  intros Ho Hc Hm He Ht. pose proof Hm as (Hlive&Hl&Hn).
  pose proof (exec_remembers seen n o st Ho) as Hm'. unfold accepted_by in Hm'. rewrite He in Hm'.
  destruct (Hm' Hc Hm) as (Hlive'&Hl'&Hn').
  destruct (exec_accepts_data _ _ _ _ Ho He Ht) as (Hh&s0&ct&a&Hd&Hhw&Hsk).
  pose proof Hh as (_&_&_&_&_&_&Hq). split.
  - intros Hin. rewrite Forall_forall in Hl. destruct (Hl h Hin) as [_ Hlow].
    pose proof (decrypt_data_refused h ct Hq (s0, st.2)) as Hr. rewrite Hd in Hr.
    apply Hr. unfold on_sess, low, absent in *. simpl. by rewrite Hhw, Hsk.
  - split_and!; [done| |done]. apply Forall_cons. split; [|done]. split; [done|].
    pose proof (decrypt_data_becomes_low h ct Hh (s0, st.2) I) as Hb. by rewrite Hd in Hb.
Qed.

Lemma release_new seen n o st :
  op_wf o → unreserved (option_list (accepted_by o st)) → remembers seen n st.1 →
  unseen (released o st) seen n ∧
  let '(seen', n') := after (released o st) seen n in remembers seen' n' (exec o st).2.1.
Proof.
  intros Ho Hc Hm. pose proof (exec_remembers seen n o st Ho Hc Hm) as Hm'.
  pose proof (exec_sent o st) as [_ Hsent]. unfold released, accepted_by in *.
  assert (∀ h, sent o st = Some h →
    n <= Header.counter_be h ∧ remembers seen (Header.counter_be h + 1) (exec o st).2.1) as Htx.
  { intros h Hh. destruct (Hsent h Hh) as [-> Hlt]. destruct Hm as (_&_&Hn), Hm' as (?&?&_).
    split; [done|]. split_and!; [done..|lia]. }
  destruct (exec o st) as [r st'] eqn:He. simpl in *.
  destruct r as [[h|]|e|].
  2-4: destruct (sent o st) as [h|]; simpl; [by apply Htx|done].
  simpl. destruct (N.eqb_spec (Header.typ h) 3) as [Ht|Ht]; [|done].
  destruct (accepted_new seen n o st h st') as [??]; done.
Qed.

(** Remembering more implies remembering less. *)
Lemma remembers_weaken r seen n s :
  unseen r seen n → remembers (after r seen n).1 (after r seen n).2 s → remembers seen n s.
Proof.
  destruct r as [[h|h]|]; simpl; [|intros Hn (?&?&?); split_and!; [done..|lia]|done].
  intros _ (?&Hl&?). split_and!; [done| |done]. destruct (_ =? 3); [|done].
  by apply Forall_cons in Hl as [_ ?].
Qed.

(** ** One step *)

Lemma device_step_ok seen n o script boot d :
  op_wf o → unreserved (option_list (accepted_by o (d_session d))) → device_ok seen n d →
  ∃ r d', device_step o script boot d = (r, Some d') ∧ unseen r seen n ∧
    device_ok (after r seen n).1 (after r seen n).2 d'.
Proof.
  intros Ho Hc [Hm Hw]. unfold device_step.
  destruct (release_new seen n o (d_session d) Ho Hc Hm) as [Hun Hm'].
  destruct (exec o (d_session d)) as [r0 [s1 g1]] eqn:He. cbn [fst snd] in Hm'.
  set (s2 := Session.recompute_anchor_commitment s1).
  set (r := released o (d_session d)) in *.
  destruct (after r seen n) as [seen' n'] eqn:Ha. cbn [fst snd].
  assert (remembers seen' n' s2) as Hm2 by by apply recompute_remembers.
  assert (remembers seen n s2) as Hm2'
    by (apply (remembers_weaken r); [done|by rewrite Ha]).
  assert (savable s2) as Hsav by by apply recompute_savable, Hm'.
  pose proof (atomic_write_in (good_entry seen n) (envelope_of s2)) as Hsave.
  specialize (Hsave ltac:(by intros i (x&->&_)) ltac:(by exists s2)
    (facing script (d_world d)) Hw).
  change (save_session s2) with (atomic_write (envelope_of s2)).
  destruct (atomic_write (envelope_of s2) _) as [res w].
  assert (on_files (both_in (good_entry seen n)) w →
    ∃ s, (load_session (reboot w)).1 = Ok s ∧
      device_ok seen n {| d_session := (s, boot); d_world := reboot w |}) as Hload.
  { intros [Hf Hd]. pose proof Hf as Hf'. destruct (w_file w) as [i|] eqn:Hi; [|done].
    destruct Hf' as (x&->&Hx&Hmx). exists (restored x).
    rewrite load_session_eq by done. simpl. rewrite Hi. split; [by apply read_envelope_savable|].
    split; [by apply restored_remembers|]. unfold on_files, both_in. simpl. by rewrite Hi. }
  destruct res as [[]|e|].
  - exists r, {| d_session := (s2, g1); d_world := w |}. split_and!; [done..|].
    rewrite Ha. split; [done|]. destruct Hsave as [Hf Hd]. unfold on_files, both_in. simpl.
    rewrite Hd, Hf. split; by exists s2.
  - destruct (Hload Hsave) as (s&->&Hok). by eexists None, _.
  - destruct (Hload Hsave) as (s&->&Hok). by eexists None, _.
Qed.

Definition op_ok (x : op * list verdict * rng_state) : Prop := op_wf x.1.1.

Lemma device_run_ok seen n ops d :
  Forall op_ok ops → unreserved (device_accepts ops d) → device_ok seen n d →
  let '(rs, d') := device_run ops d in
  is_Some d' ∧ NoDup (accepted_data rs) ∧ (∀ h, h ∈ accepted_data rs → h ∉ seen) ∧
  StronglySorted N.lt (transmitted rs) ∧ Forall (N.le n) (transmitted rs).
Proof.
  intros Hops. revert seen n d; induction Hops as [|[[o script] boot] ops Ho _ IH];
    intros seen n d Hu Hd; simpl in *.
  { split_and!; [done|apply NoDup_nil_2|set_solver|constructor|constructor]. }
  apply Forall_app in Hu as [Hc Hu].
  destruct (device_step_ok seen n o script boot d Ho Hc Hd) as (r&d1&Hst&Hun&Hd1).
  rewrite Hst in *. specialize (IH _ _ _ Hu Hd1). destruct (device_run ops d1) as [rs d2].
  destruct IH as (Hsome&Hnd&Hnew&Hsort&Hge). destruct r as [[h|h]|]; simpl in *.
  - destruct (N.eqb_spec (Header.typ h) 3) as [Ht|Ht]; split_and!; try done.
    + apply NoDup_cons. split; [|done]. intros Hin. apply (Hnew h Hin). by left.
    + intros h' [->|Hin]%elem_of_cons; [by apply Hun|]. intros Hs. apply (Hnew h' Hin). by right.
  - split_and!; try done.
    + constructor; [done|]. eapply Forall_impl; [exact Hge|]. simpl. lia.
    + constructor; [done|]. eapply Forall_impl; [exact Hge|]. simpl. lia.
  - by split_and!.
Qed.

End device.

(** * Properties *)

(** C6: a device that saves before it acts survives what the machine does. Over every
    sequence of calls and hostile records, with I/O errors and power losses at any
    system call of the saves and a restart from the store after each of them: the
    store always loads; no DATA record is released to the application twice; and the
    counters of the records released to the network strictly increase, so no message
    key or nonce is used for two different records. The one condition is that the
    engine accepts no record with the counter [u64::MAX], which an authentic peer
    never sends; rejected records may carry it. *)
Theorem saved_device_is_durable `{Crypto} `{Rng} `{Build} s g w ops :
  let d0 := {| d_session := (s, g); d_world := w |} in
  fresh_device s g w → Forall op_ok ops → unreserved (device_accepts ops d0) →
  let '(rs, d) := device_run ops d0 in
  is_Some d ∧ NoDup (accepted_data rs) ∧ StronglySorted N.lt (transmitted rs).
Proof.
  intros d0 (Hsav&Hlive&Hf&Hd) Hops Hu.
  assert (remembers [] 0 s) as Hm by (split_and!; [done|constructor|lia]).
  pose proof (device_run_ok [] 0 ops d0 Hops Hu) as Hrun.
  destruct (device_run ops _) as [rs d]. destruct Hrun as (?&?&_&?&_); [|done].
  split; [done|]. unfold on_files, both_in. simpl. rewrite Hd, Hf. split; by exists s.
Qed.

(** C39: the reserved counter locks the session out of its own store. When the engine
    accepts a record with the counter [u64::MAX], the following save succeeds like any
    other, but what it stored is refused by every later load with [RollbackDetected]:
    the trusted line keeps the high-water mark while the bundle marks it as absent. *)
Theorem reserved_counter_locks_store `{Crypto} `{Rng} `{Build} s g w o h st' w' :
  fresh_device s g w → op_wf o → exec o (s, g) = (Ok (Some h), st') →
  Header.counter_be h = U64_MAX →
  save_session (Session.recompute_anchor_commitment st'.1) w = (Ok tt, w') →
  (load_session (reboot w')).1 = Err RollbackDetected.
Proof.
  intros ((Hs&_)&_&Hf&Hd) Ho He Hc Hsave.
  pose proof (exec_spec o (fixed s) (window s) (s, g) eq_refl) as Hx. rewrite He in Hx.
  destruct Hx as (_&_&[_ [_ Hhw]%pair_equal_spec]%pair_equal_spec). rewrite Hc in Hhw.
  pose proof (preserves_snd _ _ (s, g) (exec_wf o Ho) Hs) as Hs'. rewrite He in Hs'.
  set (s2 := Session.recompute_anchor_commitment st'.1) in *.
  pose proof (atomic_write_safe (w_file w) (envelope_of s2)) as Hsafe.
  rewrite Hf in Hsafe at 1. specialize (Hsafe eq_refl w (conj eq_refl Hd)).
  change (save_session s2) with (atomic_write (envelope_of s2)) in Hsave. rewrite Hsave in Hsafe.
  destruct Hsafe as [Hf' _]. rewrite load_session_eq by done. simpl. rewrite Hf'.
  apply read_envelope_reserved; [by apply recompute_wf|by apply bool_decide_eq_true_2|].
  change (Session.recv_high_water s2) with (Session.recv_high_water st'.1).
  rewrite Hhw. f_equal. pose proof (wf_window s Hs) as Hw. unfold window_wf in Hw. simpl in Hw.
  unfold window_high, window. simpl. destruct (Session.recv_high_water s) as [hw|]; [|done].
  destruct Hw as [Hw _]. unfold fits in Hw. simpl in Hw. unfold RECV_HIGH_WATER_NONE_SENTINEL, U64_MAX in *. lia.
Qed.

(** Alice sends a record, loses power while the second one is being saved, and sends
    again after the restart. *)
Definition toy_day : list (op * list verdict * rng_state) :=
  [(EncryptDataPlain512Outer (zeros 512), [], toy_seed 1);
   (EncryptDataPlain512Outer (zeros 512), toy_crash, toy_seed 2);
   (EncryptDataPlain512Outer (zeros 512), [], toy_seed 3)].

Lemma saved_device_is_durable_witness :
  let '(rs, d) := device_run toy_day
    {| d_session := (toy_saved0, toy_seed 0); d_world := toy_world toy_saved0 [] |} in
  is_Some d ∧ NoDup (accepted_data rs) ∧ StronglySorted N.lt (transmitted rs).
Proof.
  apply (saved_device_is_durable toy_saved0 (toy_seed 0) (toy_world toy_saved0 [])).
  - split_and!; [exact toy_saved0_savable|split; [apply toy_saved0_savable|done]|done..].
  - repeat constructor.
  - apply (bool_decide_unpack _). by vm_compute.
Defined.

(** A peer that holds the session keys can make a REKEY record with any counter. *)
Definition made {E} (r : outcome E bytes) : bytes := match r with Ok b => b | _ => [] end.
Definition toy_reserved_op : op :=
  let h := toy_header 5 U64_MAX in
  let ct := made (encrypt_ctrl_payload toy_okm h (made (ctrl_inner_padded256 (zeros 4)))) in
  DecryptRekeyCtrlOuter h (made (pad_outer (zeros 24 ++ ct) (toy_seed 1)).1).
Definition toy_saved_bob : Session.t := Session.recompute_anchor_commitment toy_bob.
Definition toy_locked : Session.t * rng_state :=
  (exec toy_reserved_op (toy_saved_bob, toy_seed 2)).2.

Lemma quiet_write data f d tmp :
  (atomic_write data {| w_parent := true; w_file := f; w_durable := d; w_tmp := tmp;
                        w_script := [] |}).1 = Ok tt.
Proof. reflexivity. Qed.

Lemma reserved_counter_locks_store_witness :
  (load_session (reboot (save_session (Session.recompute_anchor_commitment toy_locked.1)
    (toy_world toy_saved_bob [])).2)).1 = Err RollbackDetected.
Proof.
  apply (reserved_counter_locks_store toy_saved_bob (toy_seed 2) (toy_world toy_saved_bob [])
    toy_reserved_op (toy_header 5 U64_MAX) toy_locked).
  - assert (session_wf toy_saved_bob) as Hs by apply recompute_wf, toy_bob_wf.
    split_and!; [split_and!; [exact Hs|vm_compute; reflexivity|done]|by split|done..].
  - vm_compute. split_and!; reflexivity.
  - assert ((exec toy_reserved_op (toy_saved_bob, toy_seed 2)).1 =
      Ok (Some (toy_header 5 U64_MAX))) as Hr by (vm_compute; reflexivity).
    exact (eq_trans (surjective_pairing _) (f_equal2 pair Hr eq_refl)).
  - reflexivity.
  - exact (eq_trans (surjective_pairing _) (f_equal2 pair (quiet_write _ _ _ _) eq_refl)).
Defined.
