(* ===== verification/Handle.v ===== *)
(** The ship-facing wrapper of
    src/crates/libgary-core/src/engine/session_handle.rs. Every method delegates to
    the wrapped session. *)

From S2P Require Import Prelude Wire Pad Crypto Handshake Payload Ratchet Skipped Blob.
From S2P Require Import Engine Toy EngineInv EngineWf Bundle TrustedMeta.

Module SessionHandle.

Record t := make { session : Session.t }.

Section handle.
Context `{Crypto} `{Rng} `{Build}.

(** [self.session.method(..)] for a method that also takes the generator. *)
Definition on_inner {A} (m : ST (Session.t * rng_state) SessionError A)
    : ST (t * rng_state) SessionError A :=
  st_zoom (λ st, (session st.1, st.2)) (λ st' _, ({| session := st'.1 |}, st'.2)) m.
(** The same without a generator. *)
Definition on_plain {A} (m : ST Session.t SessionError A) : ST t SessionError A :=
  st_zoom session (λ s _, {| session := s |}) m.

Definition bootstrap_initiator {E} (okm session_id : bytes) (epoch : N)
    (ratchet_sk : bytes) (initial_peer_ratchet_pub : option bytes)
    (anchor : DeviceStateAnchorV1.t) : outcome E t :=
  s ← Session.bootstrap_initiator okm session_id epoch ratchet_sk
        initial_peer_ratchet_pub anchor;
  Ok {| session := s |}.

Definition bootstrap_responder {E} (okm session_id : bytes) (epoch : N)
    (ratchet_sk : bytes) (initial_peer_ratchet_pub : option bytes)
    (anchor : DeviceStateAnchorV1.t) : outcome E t :=
  s ← Session.bootstrap_responder okm session_id epoch ratchet_sk
        initial_peer_ratchet_pub anchor;
  Ok {| session := s |}.

Definition from_export (export : SessionExport) : outcome SessionError t :=
  make <$> Session.import_state export.

Definition handle_inbound_outer (record : OuterRecord.t) (now_ticks : N)
    : ST (t * rng_state) SessionError InboundInner :=
  on_inner (Session.handle_inbound_outer record now_ticks).
Definition send_data_plain512 (plaintext512 : bytes) : ST t SessionError (Header.t * bytes) :=
  on_plain (Session.encrypt_data_plain512 plaintext512).
Definition recv_data_plain512 (header : Header.t) (ciphertext : bytes)
    : ST (t * rng_state) SessionError bytes :=
  on_inner (Session.decrypt_data header ciphertext).
Definition send_data_plain512_outer (plaintext512 : bytes)
    : ST (t * rng_state) SessionError (Header.t * bytes) :=
  on_inner (Session.encrypt_data_plain512_outer plaintext512).
Definition recv_data_outer (header : Header.t) (padded_logical : bytes)
    : ST (t * rng_state) SessionError bytes :=
  on_inner (Session.decrypt_data_outer header padded_logical).
Definition send_rekey_ctrl_outer (rekey_body_leading_4 : bytes)
    : ST (t * rng_state) SessionError (Header.t * bytes) :=
  on_inner (Session.encrypt_rekey_ctrl_outer rekey_body_leading_4).
Definition recv_rekey_ctrl_outer (header : Header.t) (padded_logical : bytes)
    : ST (t * rng_state) SessionError bytes :=
  on_inner (Session.decrypt_rekey_ctrl_outer header padded_logical).

Definition export_state (h : t) : SessionExport := Session.export_state (session h).
Definition recompute_anchor_commitment (h : t) : t :=
  {| session := Session.recompute_anchor_commitment (session h) |}.
Definition verify_anchor_commitment (h : t) : bool :=
  Session.verify_anchor_commitment (session h).
Definition persistence_equivalence_digest (h : t) : bytes :=
  Session.persistence_equivalence_digest (session h).

(** The [protocol-test-api] methods. *)
Definition enter_reset_pending_after_rebootstrap (prior_epoch : N)
    (drain_until_ticks : option N) : ST t SessionError () :=
  on_plain (Session.enter_reset_pending_after_rebootstrap prior_epoch drain_until_ticks).
Definition reset_pending_to_bootstrapping : ST t SessionError () :=
  on_plain Session.reset_pending_to_bootstrapping.
Definition finish_reset_half_open_to_active : ST t SessionError () :=
  on_plain Session.finish_reset_half_open_to_active.
Definition recv_high_water (h : t) : option N := Session.recv_high_water (session h).
Definition recv_sym_idx (h : t) : N := Session.recv_sym_idx (session h).
Definition send_wire_counter (h : t) : N := Session.send_wire_counter (session h).
Definition session_id (h : t) : bytes := Session.session_id (session h).
Definition epoch (h : t) : N := Session.epoch (session h).
Definition ingress_mode (h : t) : SessionMode := Session.mode (session h).
Definition skipped_cache_len (h : t) : N := Session.skipped_cache_len (session h).

(** [impl SessionWalSource for SessionHandle]. *)
#[global] Instance handle_wal_source : SessionWalSource t := {|
  src_export_state := export_state;
  src_session_id h := Session.session_id (session h);
  src_epoch h := Session.epoch (session h);
  src_recv_high_water h := Session.recv_high_water (session h);
  src_send_wire_counter h := Session.send_wire_counter (session h);
  src_anchor h := Session.anchor (session h);
  src_verify_anchor_commitment := verify_anchor_commitment;
|}.

End handle.
End SessionHandle.

(** * The calls the public API exposes *)

Inductive handle_op :=
  | HInbound (record : OuterRecord.t) (now_ticks : N)
  | HSendData (plaintext512 : bytes)
  | HRecvData (header : Header.t) (ciphertext : bytes)
  | HSendDataOuter (plaintext512 : bytes)
  | HRecvDataOuter (header : Header.t) (padded_logical : bytes)
  | HSendRekeyOuter (body : bytes)
  | HRecvRekeyOuter (header : Header.t) (padded_logical : bytes)
  | HRecompute.

Section ops.
Context `{Crypto} `{Rng} `{Build}.

(** One call through the handle; the result is the header it accepted, if any. *)
Definition handle_exec (o : handle_op)
    : ST (SessionHandle.t * rng_state) SessionError (option Header.t) :=
  match o with
  | HInbound rec now =>
      _ ← SessionHandle.handle_inbound_outer rec now; mret (Some (OuterRecord.header rec))
  | HSendData pt =>
      _ ← st_zoom fst (λ h st, (h, st.2)) (SessionHandle.send_data_plain512 pt); mret None
  | HRecvData h ct => _ ← SessionHandle.recv_data_plain512 h ct; mret (Some h)
  | HSendDataOuter pt => _ ← SessionHandle.send_data_plain512_outer pt; mret None
  | HRecvDataOuter h b => _ ← SessionHandle.recv_data_outer h b; mret (Some h)
  | HSendRekeyOuter b => _ ← SessionHandle.send_rekey_ctrl_outer b; mret None
  | HRecvRekeyOuter h b => _ ← SessionHandle.recv_rekey_ctrl_outer h b; mret (Some h)
  | HRecompute =>
      _ ← st_modify (λ st, (SessionHandle.recompute_anchor_commitment st.1, st.2)); mret None
  end.

(** The engine call it stands for. *)
Definition engine_op (o : handle_op) : op :=
  match o with
  | HInbound rec now => HandleInboundOuter rec now
  | HSendData pt => EncryptDataPlain512 pt
  | HRecvData h ct => DecryptData h ct
  | HSendDataOuter pt => EncryptDataPlain512Outer pt
  | HRecvDataOuter h b => DecryptDataOuter h b
  | HSendRekeyOuter b => EncryptRekeyCtrlOuter b
  | HRecvRekeyOuter h b => DecryptRekeyCtrlOuter h b
  | HRecompute => RecomputeAnchorCommitment
  end.

Definition wrap (st : Session.t * rng_state) : SessionHandle.t * rng_state :=
  ({| SessionHandle.session := st.1 |}, st.2).

Lemma on_inner_wrap {A B} (m : ST (Session.t * rng_state) SessionError A) (b : B) st :
  (_ ← SessionHandle.on_inner m; mret b) (wrap st) =
    let '(r, st') := (_ ← m; mret b) st in (r, wrap st').
Proof.
  destruct st as [s g]. rewrite !st_bind_eq. unfold SessionHandle.on_inner, st_zoom, wrap. simpl.
  by destruct (m (s, g)) as [[a|e|] [s' g']].
Qed.

Lemma on_plain_wrap {A B} (m : ST Session.t SessionError A) (b : B) st :
  (_ ← st_zoom fst (λ h st, (h, st.2)) (SessionHandle.on_plain m); mret b) (wrap st) =
    let '(r, st') := (_ ← Session.on_session m; mret b) st in (r, wrap st').
Proof.
  destruct st as [s g]. rewrite !st_bind_eq.
  unfold SessionHandle.on_plain, Session.on_session, st_zoom, wrap. simpl.
  by destruct (m s) as [[a|e|] s'].
Qed.

(** The handle adds nothing and hides nothing: every public call is the engine
    call of the same name on the wrapped session, with the same result, generator
    state and successor state, so every theorem about runs of the engine holds of
    runs through the handle. *)
Lemma handle_refines_engine o st :
  handle_exec o (wrap st) = let '(r, st') := exec (engine_op o) st in (r, wrap st').
Proof.
  destruct o; simpl; first [apply on_inner_wrap|apply on_plain_wrap|done].
Qed.

End ops.
