(* ===== verification/Ffi.v ===== *)
(** The C ABI of src/crates/libgary-ffi/src (lib.rs and fixture.rs): the heap object
    behind the opaque pointer, error codes and messages latched in it, the null
    checks, and the panics stopped at the boundary.

    A pointer argument is [None] when null, otherwise the memory it points to. What
    [slice::from_raw_parts] leaves undefined (a null pointer or a length beyond the
    memory) is the result [None] of an entry point. A panic unwinds to
    [catch_unwind], where it becomes [GARY_CODE_PANIC]. *)

From S2P Require Import Prelude Wire Pad RelayEnvelope Crypto Handshake Payload Ratchet Skipped.
From S2P Require Import Blob Engine Toy EngineInv EngineWf Delivery EndToEnd Bundle TrustedMeta.
From S2P Require Import Handle.

(** Third-party code the boundary calls: [getrandom] on the operating system's
    entropy, [ChaCha12Rng::from_seed], [hex::decode_to_slice]. *)
Class Platform `{Rng} := {
  entropy : Type;
  getrandom : entropy → option bytes * entropy;
  from_seed : bytes → rng_state;
  hex_decode : bytes → option bytes;
}.

(** * Error codes *)

Definition GARY_CODE_OK : N := 0.
Definition GARY_CODE_NULL_POINTER : N := 1.
Definition GARY_CODE_PANIC : N := 2.
Definition GARY_CODE_WIRE_TRUNCATED : N := 10.
Definition GARY_CODE_WIRE_RECORD_LENGTH_MISMATCH : N := 11.
Definition GARY_CODE_WIRE_RECORD_TOO_LARGE : N := 12.
Definition GARY_CODE_WIRE_INVALID_HEADER_VERSION : N := 13.
Definition GARY_CODE_WIRE_INVALID_HEADER_TYPE : N := 14.
Definition GARY_CODE_WIRE_INVALID_HEADER_FLAGS : N := 15.
Definition GARY_CODE_WIRE_OTHER : N := 19.
Definition GARY_CODE_CONTENT_TOO_LARGE : N := 20.
Definition GARY_CODE_BUFFER_TOO_SMALL : N := 21.
Definition GARY_CODE_SESSION_REPLAY_REJECTED : N := 100.
Definition GARY_CODE_SESSION_STALE_EPOCH : N := 101.
Definition GARY_CODE_SESSION_DECRYPTION_FAILED : N := 102.
Definition GARY_CODE_SESSION_MAX_SKIP_EXCEEDED : N := 103.
Definition GARY_CODE_SESSION_INVALID_HEADER : N := 104.
Definition GARY_CODE_SESSION_UNKNOWN_SESSION : N := 105.
Definition GARY_CODE_SESSION_STATE_INTEGRITY : N := 106.
Definition GARY_CODE_SESSION_RESET_REQUIRED : N := 107.
Definition GARY_CODE_SESSION_LATE_DATA_AFTER_RESET : N := 108.
Definition GARY_CODE_SESSION_FUTURE_EPOCH : N := 109.

Definition wire_error_code (e : WireError) : N :=
  match e with
  | Truncated => GARY_CODE_WIRE_TRUNCATED
  | RecordLengthMismatch => GARY_CODE_WIRE_RECORD_LENGTH_MISMATCH
  | RecordTooLarge => GARY_CODE_WIRE_RECORD_TOO_LARGE
  | InvalidHeaderVersion => GARY_CODE_WIRE_INVALID_HEADER_VERSION
  | InvalidHeaderType => GARY_CODE_WIRE_INVALID_HEADER_TYPE
  | InvalidHeaderFlags => GARY_CODE_WIRE_INVALID_HEADER_FLAGS
  | InitReservedNonZero | LogicalTooLarge | PaddingBucketMismatch | PaddingLogicalMismatch
  | InvalidRelayVersion | RouteTokenTooLong | OpaqueLengthMismatch | OpaqueTooLarge =>
      GARY_CODE_WIRE_OTHER
  end.

Definition wire_error_static_msg (e : WireError) : bytes :=
  match e with
  | Truncated => bs "wire: truncated"
  | RecordLengthMismatch => bs "wire: record length mismatch"
  | RecordTooLarge => bs "wire: record too large"
  | InvalidHeaderVersion => bs "wire: invalid header version"
  | InvalidHeaderType => bs "wire: invalid header type"
  | InvalidHeaderFlags => bs "wire: invalid header flags"
  | InitReservedNonZero => bs "wire: init reserved non-zero"
  | LogicalTooLarge => bs "wire: logical too large"
  | PaddingBucketMismatch => bs "wire: padding bucket mismatch"
  | PaddingLogicalMismatch => bs "wire: padding logical mismatch"
  | InvalidRelayVersion => bs "wire: invalid relay version"
  | RouteTokenTooLong => bs "wire: route token too long"
  | OpaqueLengthMismatch => bs "wire: opaque length mismatch"
  | OpaqueTooLarge => bs "wire: opaque too large"
  end.

Definition session_error_code (e : SessionError) : N :=
  match e with
  | ReplayRejected => GARY_CODE_SESSION_REPLAY_REJECTED
  | StaleEpochRejected => GARY_CODE_SESSION_STALE_EPOCH
  | DecryptionFailed => GARY_CODE_SESSION_DECRYPTION_FAILED
  | MaxSkipExceeded => GARY_CODE_SESSION_MAX_SKIP_EXCEEDED
  | InvalidHeader => GARY_CODE_SESSION_INVALID_HEADER
  | UnknownSession => GARY_CODE_SESSION_UNKNOWN_SESSION
  | StateIntegrity => GARY_CODE_SESSION_STATE_INTEGRITY
  | ResetRequired => GARY_CODE_SESSION_RESET_REQUIRED
  | LateDataAfterReset => GARY_CODE_SESSION_LATE_DATA_AFTER_RESET
  | FutureEpoch => GARY_CODE_SESSION_FUTURE_EPOCH
  end.

Definition session_error_msg (e : SessionError) : bytes :=
  match e with
  | ReplayRejected => bs "session: replay rejected"
  | StaleEpochRejected => bs "session: stale epoch rejected"
  | DecryptionFailed => bs "session: decryption failed"
  | MaxSkipExceeded => bs "session: max skip exceeded"
  | InvalidHeader => bs "session: invalid header"
  | UnknownSession => bs "session: unknown session"
  | StateIntegrity => bs "session: state integrity"
  | ResetRequired => bs "session: reset required"
  | LateDataAfterReset => bs "session: late data after reset"
  | FutureEpoch => bs "session: future epoch"
  end.

(** * Text *)

(** [std::str::from_utf8]: the well-formed byte sequences of the Unicode standard
    (no overlong forms, no surrogates, nothing above U+10FFFF). *)
Definition in_range (lo hi : N) (b : byte) : bool :=
  (lo <=? Byte.to_N b) && (Byte.to_N b <=? hi).
Definition is_cont (b : byte) : bool := in_range 128 191 b.

Fixpoint utf8_valid (b : bytes) : bool :=
  match b with
  | [] => true
  | x :: r =>
      if in_range 0 127 x then utf8_valid r
      else match r with
      | [] => false
      | y :: r =>
          if in_range 194 223 x then is_cont y && utf8_valid r
          else match r with
          | [] => false
          | z :: r =>
              if in_range 224 239 x then
                (if in_range 224 224 x then in_range 160 191 y
                 else if in_range 237 237 x then in_range 128 159 y
                 else is_cont y) && is_cont z && utf8_valid r
              else match r with
              | [] => false
              | w :: r =>
                  in_range 240 244 x &&
                  (if in_range 240 240 x then in_range 144 191 y
                   else if in_range 244 244 x then in_range 128 143 y
                   else is_cont y) && is_cont z && is_cont w && utf8_valid r
              end
          end
      end
  end.

Definition decode_inner_semantic_utf8 (pt : bytes) : option bytes :=
  if negb (len pt =? DATA_INNER_FIXED) then None
  else
    let length := from_be (sub pt 4 8) in
    end_ ← checked_add USIZE_MAX 8 length;
    if DATA_INNER_FIXED <? end_ then None
    else
      let text := sub pt 8 end_ in
      if utf8_valid text then Some text else None.

Definition copy_static_msg (buf msg : bytes) : bytes :=
  let n := N.min (len msg) (len buf - 1) in
  let buf := put buf 0 (sub msg 0 n) in
  let buf := put buf n [x00] in
  put buf (n + 1) (zeros (len buf - (n + 1))).

(** * The heap object *)

Module FfiHandle.

Record t := mk {
  inner : SessionHandle.t;
  last_code : N;
  last_msg : bytes;
  last_inbound_utf8 : bytes;
}.

Definition new (inner : SessionHandle.t) : t :=
  {| inner := inner; last_code := GARY_CODE_OK; last_msg := zeros 256;
     last_inbound_utf8 := zeros 512 |}.

Definition set_inner (x : SessionHandle.t) (s : t) : t :=
  mk x (last_code s) (last_msg s) (last_inbound_utf8 s).

Definition clear_last_inbound (s : t) : t :=
  mk (inner s) (last_code s) (last_msg s) (zeros (len (last_inbound_utf8 s))).

Definition store_last_inbound_from_plain (pt : bytes) (s : t) : t :=
  let s := clear_last_inbound s in
  match decode_inner_semantic_utf8 pt with
  | None => s
  | Some text =>
      let buf := last_inbound_utf8 s in
      let n := N.min (len text) (len buf - 1) in
      let buf := put buf 0 (sub text 0 n) in
      mk (inner s) (last_code s) (last_msg s) (put buf n [x00])
  end.

Definition latch (code : N) (msg : bytes) (s : t) : t :=
  mk (inner s) code (copy_static_msg (last_msg s) msg) (last_inbound_utf8 s).

Definition latch_ok (s : t) : t :=
  mk (inner s) GARY_CODE_OK (put (last_msg s) 0 [x00]) (last_inbound_utf8 s).
Definition latch_wire (code : N) (msg : bytes) (s : t) : t := latch code msg s.
Definition latch_session_err (e : SessionError) (s : t) : t :=
  latch (session_error_code e) (session_error_msg e) s.

End FfiHandle.
Import FfiHandle.

(** * Operations on a live handle *)

Section ffi.
Context `{Crypto} `{Rng} `{!Platform} `{Build}.

(** Code run with [&mut SessionHandle]; the error type is the [i32] it returns
    early, so that [return code] is [st_fail code]. *)
#[local] Abbreviation F := (ST (t * entropy) N).

(** [match m { Ok(x) => x, Err(e) => { latch(e); return sess.last_code } }]. *)
Definition or_latch {E A} (latch : E → t → t) (m : ST (t * entropy) E A) : F A := λ st,
  match m st with
  | (Ok a, st') => (Ok a, st')
  | (Err e, (s, ent)) => let s := latch e s in (Err (last_code s), (s, ent))
  | (Panic, st') => (Panic, st')
  end.

Definition latch_wire_error (e : WireError) (s : t) : t :=
  latch_wire (wire_error_code e) (wire_error_static_msg e) s.

(** [getrandom(&mut seed)] into a 32-byte array. *)
Definition os_seed : F bytes := λ '(s, ent),
  let '(r, ent) := getrandom ent in
  match r with
  | Some seed => (Ok (fit 32 seed), (s, ent))
  | None =>
      let s := latch GARY_CODE_PANIC (bs "rng: getrandom failed") s in
      (Err (last_code s), (s, ent))
  end.

(** A method of [sess.inner] called with a fresh generator. *)
Definition on_core {A} (g : rng_state) (m : ST (SessionHandle.t * rng_state) SessionError A)
    : ST (t * entropy) SessionError A := λ '(s, ent),
  let '(r, (i, _)) := m (inner s, g) in (r, (set_inner i s, ent)).

Definition build_data_outer_record_bytes (utf8_slice : bytes) : F bytes :=
  plain ← or_latch
    (λ _, latch_wire GARY_CODE_CONTENT_TOO_LARGE (bs "session: DATA inner content too large"))
    (st_lift (data_inner_plaintext 1 1 utf8_slice));
  seed ← os_seed;
  let pad_rng := from_seed seed in
  '(hdr, pay) ← or_latch latch_session_err
    (on_core pad_rng (SessionHandle.send_data_plain512_outer plain));
  or_latch latch_wire_error
    (st_lift (OuterRecord.encode
      {| OuterRecord.header := hdr; OuterRecord.payload := pay |})).

Definition INGEST_SEED : bytes := replicate 32 x99.

Definition ingest_inner (slice : bytes) : F N :=
  record ← or_latch latch_wire_error (st_lift (OuterRecord.decode slice));
  _ ← st_modify (λ st, (clear_last_inbound st.1, st.2));
  let rng := from_seed INGEST_SEED in
  r ← or_latch latch_session_err (on_core rng (SessionHandle.handle_inbound_outer record 0));
  match r with
  | Data pt =>
      _ ← st_modify (λ st, (latch_ok (store_last_inbound_from_plain pt st.1), st.2));
      mret GARY_CODE_OK
  | RekeyPlain _ =>
      _ ← st_modify (λ st, (latch_ok st.1, st.2));
      mret GARY_CODE_OK
  end.

(** [catch_unwind(AssertUnwindSafe(..))] and the [match] on its result: a normal or
    early return keeps its code; after a panic the state is as the unwinding left it
    and the boundary records the panic. *)
Definition catch_unwind {S} (m : ST S N N) (on_panic : S → S) (st : S) : N * S :=
  match m st with
  | (Ok code, st) => (code, st)
  | (Err code, st) => (code, st)
  | (Panic, st) => (GARY_CODE_PANIC, on_panic st)
  end.

Definition panicked (msg : bytes) (st : t * entropy) : t * entropy :=
  (latch GARY_CODE_PANIC msg st.1, st.2).

(** * The exported functions *)

Definition is_null {A} (p : option A) : bool :=
  match p with Some _ => false | None => true end.

(** [std::slice::from_raw_parts]; [None] is undefined behaviour. *)
Definition from_raw_parts (p : option bytes) (n : N) : option bytes :=
  mem ← p; if n <=? len mem then Some (take_N n mem) else None.

(** A call in progress: the object, the entropy source, the [out_cap] bytes behind
    [out_buf] and the cell behind [out_written]. *)
Record call := {
  c_st : t * entropy;
  c_buf : bytes;
  c_written : N;
}.

Definition in_call {A} (m : F A) : ST call N A :=
  st_zoom c_st
    (λ st c, {| c_st := st; c_buf := c_buf c; c_written := c_written c |}) m.

(** [copy_nonoverlapping(wire, out_buf, wire.len()); *out_written = wire.len()]. *)
Definition write_out (wire : bytes) : ST call N () :=
  st_modify (λ c,
    {| c_st := c_st c; c_buf := put (c_buf c) 0 wire; c_written := len wire |}).

Definition return_if (cond : bool) (latch : t → t) : F () :=
  if cond then or_latch (λ _ : (), latch) (st_fail tt) else mret tt.

Definition set_ok : F () := st_modify (λ st, (latch_ok st.1, st.2)).

(** The bodies under [catch_unwind]. *)
Definition send_body (utf8_slice : bytes) (out_cap : N) : ST call N N :=
  wire ← in_call (build_data_outer_record_bytes utf8_slice);
  _ ← in_call (return_if (out_cap <? len wire)
        (latch_wire GARY_CODE_BUFFER_TOO_SMALL (bs "session: output buffer too small")));
  _ ← write_out wire;
  _ ← in_call set_ok;
  mret GARY_CODE_OK.

Definition relay_body (rt utf8_slice : bytes) (out_cap : N) : ST call N N :=
  opaque ← in_call (build_data_outer_record_bytes utf8_slice);
  let env := {| RelayOuterEnvelope.route_token := rt;
                RelayOuterEnvelope.opaque_bytes := opaque |} in
  seed2 ← in_call os_seed;
  let rng2 := from_seed seed2 in
  wire ← in_call (or_latch latch_wire_error
           (st_lift (RelayOuterEnvelope.encode_padded_wire env rng2).1));
  _ ← in_call (return_if (out_cap <? len wire)
        (latch_wire GARY_CODE_BUFFER_TOO_SMALL (bs "session: relay output buffer too small")));
  _ ← write_out wire;
  _ ← in_call set_ok;
  mret GARY_CODE_OK.

(** What a sending call leaves behind. *)
Record reply := {
  code : N;
  session : option t;
  out_buf : option bytes;
  out_written : option N;
  ent : entropy;
}.

(** Run a body on the caller's memory, of which it may write [out_cap] bytes. *)
Definition run_send (body : ST call N N) (msg : bytes) (s : t) (e : entropy)
    (buf : option bytes) (out_cap : N) : option reply :=
  mem ← buf;
  if len mem <? out_cap then None
  else
    let on_panic c := {| c_st := panicked msg (c_st c); c_buf := c_buf c;
                         c_written := c_written c |} in
    let '(code, c) := catch_unwind body on_panic
                        {| c_st := (s, e); c_buf := mem; c_written := 0 |} in
    Some {| code := code; session := Some (c_st c).1; out_buf := Some (c_buf c);
            out_written := Some (c_written c); ent := (c_st c).2 |}.

Definition null_reply (session : option t) (out_buf : option bytes) (out_written : option N)
    (ent : entropy) : option reply :=
  Some {| code := GARY_CODE_NULL_POINTER; session := session; out_buf := out_buf;
          out_written := out_written; ent := ent |}.

Definition gary_send_utf8_data_outer (session : option t) (utf8 : option bytes) (utf8_len : N)
    (out_buf : option bytes) (out_cap : N) (out_written : option N) (ent : entropy)
    : option reply :=
  match session with
  | None => null_reply session out_buf out_written ent
  | Some sess =>
      if is_null out_written then null_reply session out_buf out_written ent
      else if is_null utf8 && negb (utf8_len =? 0) then null_reply session out_buf (Some 0) ent
      else if is_null out_buf || (out_cap =? 0) then null_reply session out_buf (Some 0) ent
      else
        utf8_slice ← from_raw_parts utf8 utf8_len;
        run_send (send_body utf8_slice out_cap) (bs "rust panic while sending") sess ent
          out_buf out_cap
  end.

Definition gary_prepare_relay_outbound_utf8 (session : option t)
    (route_token : option bytes) (route_token_len : N) (utf8 : option bytes) (utf8_len : N)
    (out_buf : option bytes) (out_cap : N) (out_written : option N) (ent : entropy)
    : option reply :=
  match session with
  | None => null_reply session out_buf out_written ent
  | Some sess =>
      if is_null out_written then null_reply session out_buf out_written ent
      else if is_null route_token && negb (route_token_len =? 0)
      then null_reply session out_buf (Some 0) ent
      else if is_null utf8 && negb (utf8_len =? 0) then null_reply session out_buf (Some 0) ent
      else if is_null out_buf || (out_cap =? 0) then null_reply session out_buf (Some 0) ent
      else
        rt ← from_raw_parts route_token route_token_len;
        utf8_slice ← from_raw_parts utf8 utf8_len;
        run_send (relay_body rt utf8_slice out_cap)
          (bs "rust panic while preparing relay outbound") sess ent out_buf out_cap
  end.

Definition process_body (slice : bytes) : F N :=
  env ← or_latch latch_wire_error (st_lift (RelayOuterEnvelope.decode_padded_wire slice));
  ingest_inner (RelayOuterEnvelope.opaque_bytes env).

(** The two receivers differ in their body and panic message. *)
Definition receive_with (body : bytes → F N) (msg : bytes) (session : option t)
    (buf : option bytes) (n : N) (ent : entropy) : option (N * option t * entropy) :=
  match session with
  | None => Some (GARY_CODE_NULL_POINTER, None, ent)
  | Some sess =>
      if is_null buf && negb (n =? 0) then Some (GARY_CODE_NULL_POINTER, Some sess, ent)
      else
        slice ← from_raw_parts buf n;
        let '(code, (sess, ent)) := catch_unwind (body slice) (panicked msg) (sess, ent) in
        Some (code, Some sess, ent)
  end.

Definition gary_process_relay_inbound (session : option t) (buf : option bytes) (n : N)
    (ent : entropy) : option (N * option t * entropy) :=
  receive_with process_body (bs "rust panic while processing relay inbound") session buf n ent.

Definition gary_ingest_outer (session : option t) (buf : option bytes) (n : N)
    (ent : entropy) : option (N * option t * entropy) :=
  receive_with ingest_inner (bs "rust panic while ingesting") session buf n ent.

(** The memory behind the returned pointers. *)
Definition gary_last_inbound_utf8 (session : option t) : option bytes :=
  last_inbound_utf8 <$> session.
Definition gary_last_error (session : option t) : option bytes := last_msg <$> session.

Definition persistence_digest_copy (session : option t) (out32 : option bytes)
    : N * option bytes :=
  match session, out32 with
  | Some sess, Some out =>
      (GARY_CODE_OK, Some (put out 0 (SessionHandle.persistence_equivalence_digest (inner sess))))
  | _, _ => (GARY_CODE_NULL_POINTER, out32)
  end.
Definition gary_get_digest (session : option t) (out32 : option bytes) : option bytes :=
  (persistence_digest_copy session out32).2.

(** * fixture.rs *)

Definition DOC_HANDSHAKE_OKM_HEX : bytes :=
  bs "4bc45cc7fddf45d3e624d78e3805aa9f06309548b48d7a6dc382b950544930b0ca94f844ddf80d7c208a9b8c0345c87a63f9d5d46279df66972ed22406997130".
Definition DOC_ALICE_RATCHET_PUB_HEX : bytes :=
  bs "a736bf0fdc88494658777e47d321926950d321c3c98cbfa108ead46ba84ed25d".
Definition DOC_EK_A_SEED_HEX : bytes :=
  bs "78e2a3a56e1179a99946f2a1e21e0150863153f4051b3b34fcbe317d88221d07".

(** [hex::decode_to_slice(src, &mut [0; n]).expect(..)]: the lengths must agree. *)
Definition decode_to_slice (src : bytes) (n : N) : outcome SessionError bytes :=
  match hex_decode src with
  | Some b => if len b =? n then Ok b else Panic
  | None => Panic
  end.

(** [std::array::from_fn(|i| i.wrapping_add(3) as u8)]. *)
Definition fixture_bob_sk : bytes := (λ i, byte_of_N (N.of_nat i + 3)) <$> seq 0 32.

Definition epoch_policy_vector_responder : outcome SessionError SessionHandle.t :=
  okm ← decode_to_slice DOC_HANDSHAKE_OKM_HEX 64;
  alice_rp ← decode_to_slice DOC_ALICE_RATCHET_PUB_HEX 32;
  let session_id := replicate 16 x01 in
  let epoch := 7 in
  let anchor := DeviceStateAnchorV1.new_v0 901 in
  bob ← SessionHandle.bootstrap_responder okm session_id epoch fixture_bob_sk (Some alice_rp)
          anchor;
  Ok (SessionHandle.recompute_anchor_commitment bob).

Definition epoch_policy_vector_initiator : outcome SessionError SessionHandle.t :=
  okm ← decode_to_slice DOC_HANDSHAKE_OKM_HEX 64;
  alice_sk ← decode_to_slice DOC_EK_A_SEED_HEX 32;
  let bob_rp := fit 32 (x25519_public fixture_bob_sk) in
  let session_id := replicate 16 x01 in
  let epoch := 7 in
  let anchor := DeviceStateAnchorV1.new_v0 901 in
  alice ← SessionHandle.bootstrap_initiator okm session_id epoch alice_sk (Some bob_rp) anchor;
  Ok (SessionHandle.recompute_anchor_commitment alice).

(** A constructor that panics returns the null pointer. *)
Definition boxed (r : outcome SessionError SessionHandle.t) : option t :=
  match r with Ok inner => Some (new inner) | _ => None end.
Definition gary_session_new : option t := boxed epoch_policy_vector_responder.
Definition gary_session_new_initiator : option t := boxed epoch_policy_vector_initiator.

End ffi.
