(* ===== verification/Fuzz.v ===== *)
(** The fuzz harnesses of src/fuzz/fuzz_targets: what each target runs on the
    fuzzer's bytes. A target crashes when the code under test panics; the results
    themselves are discarded. *)

From S2P Require Import Prelude Wire Pad RelayEnvelope Crypto Handshake Payload Ratchet Skipped.
From S2P Require Import Blob Engine Toy EngineInv EngineWf EnginePanic Bundle TrustedMeta Handle.
From S2P Require Import Ffi.

(** [let _ = r;] *)
Definition discard {E A} (r : outcome E A) : outcome Empty_set () :=
  match r with Panic => Panic | _ => Ok tt end.

Lemma discard_Ok {E A} (r : outcome E A) : no_panic r → discard r = Ok tt.
Proof. by destruct r. Qed.

(** header_parse.rs, outer_record_decode.rs, relay_outer_decode.rs *)
Definition header_parse (data : bytes) : outcome Empty_set () :=
  discard (Header.parse_checked data).
Definition outer_record_decode (data : bytes) : outcome Empty_set () :=
  discard (OuterRecord.decode data).
Definition relay_outer_decode (data : bytes) : outcome Empty_set () :=
  discard (RelayOuterEnvelope.decode_padded_wire data).

(** [u64::from_le_bytes] *)
Definition from_le (b : bytes) : N := from_be (reverse b).

(** strip_outer_pad.rs *)
Definition strip_outer_pad_target (data : bytes) : outcome Empty_set () :=
  if len data <? 8 then Ok tt
  else
    prefix ← slice data 0 8;
    let logical := from_le prefix in
    rest ← slice_from data 8;
    discard (strip_outer_pad rest logical).

(** handle_inbound_outer.rs *)
Section handle_target.
Context `{Crypto} `{Rng} `{!Platform} `{Build}.

Definition ratchet_pub (sk : bytes) : bytes := fit 32 (x25519_public sk).

Definition fuzz_okm : bytes := (λ i, byte_of_N (N.of_nat i * 3)) <$> seq 0 64.
Definition fuzz_sid : bytes := replicate 16 x91.
Definition fuzz_alice_sk : bytes := (λ i, byte_of_N (N.of_nat i)) <$> seq 0 32.
Definition fuzz_bob_sk : bytes := (λ i, byte_of_N (N.of_nat i + 40)) <$> seq 0 32.

(** The responder every run starts from. *)
Definition fuzz_session : outcome Empty_set SessionHandle.t :=
  session ← SessionHandle.bootstrap_responder fuzz_okm fuzz_sid 0 fuzz_bob_sk
              (Some (ratchet_pub fuzz_alice_sk)) (DeviceStateAnchorV1.new_v0 4);
  Ok (SessionHandle.recompute_anchor_commitment session).

Definition handle_inbound_outer_target (data : bytes) : outcome Empty_set () :=
  session ← fuzz_session;
  match OuterRecord.decode data with
  | Panic => Panic
  | Err _ => Ok tt
  | Ok record =>
      let seed := zeros 32 in
      let n := N.min (len data) 32 in
      head ← slice data 0 n;
      let seed := put seed 0 head in
      let rng := from_seed seed in
      let ticks := match data with b :: _ => Byte.to_N b | [] => 0 end in
      discard (SessionHandle.handle_inbound_outer record ticks (session, rng)).1
  end.

End handle_target.

Lemma parse_checked_no_panic b : no_panic (Header.parse_checked b).
Proof.
  unfold Header.parse_checked. destruct (N.ltb_spec (len b) Header.LEN); [done|]. oc.
  unfold Header.LEN in *. rewrite slice_ok by lia. oc.
  pose proof (validate_v0_no_panic (Header.decode (sub b 0 63))).
  by destruct (Header.validate_v0 _).
Qed.

Lemma strip_target_ok data : strip_outer_pad_target data = Ok tt.
Proof.
  unfold strip_outer_pad_target, slice_from. destruct (N.ltb_spec (len data) 8); [done|].
  rewrite !slice_ok by lia. oc. apply discard_Ok, strip_no_panic.
Qed.

Section handle_target.
Context `{Crypto} `{Rng} `{!Platform} `{Build}.

(** A fresh session stores no skipped key. *)
Lemma fuzz_session_ok :
  ∃ s, fuzz_session = Ok {| SessionHandle.session := s |} ∧
    cache_len (Session.skipped s) = 0.
Proof.
  unfold fuzz_session, SessionHandle.bootstrap_responder, Session.bootstrap_responder.
  rewrite chain_bootstrap_ok. oc. eexists. by split.
Qed.

(** No record makes it panic, in no build. *)
Lemma fresh_handle_no_panic rec now s g :
  OuterRecord.wf rec → cache_len (Session.skipped s) = 0 →
  no_panic (SessionHandle.handle_inbound_outer rec now
    ({| SessionHandle.session := s |}, g)).1.
Proof.
  intros Hrec Hs.
  unfold SessionHandle.handle_inbound_outer, SessionHandle.on_inner, st_zoom.
  assert (no_panic (Session.handle_inbound_outer rec now (s, g)).1) as Hn.
  { apply no_panic_ne. intros (_&_&_&_&_&?&?)%handle_inbound_panics.
    destruct Hrec as (_&_&_&_&_&Hc&_). unfold fits, USIZE_MAX, U64_MAX in *.
    simpl in *. lia. }
  cbn [fst snd SessionHandle.session] in *.
  destruct (Session.handle_inbound_outer rec now (s, g)) as [r st']. exact Hn.
Qed.

Lemma handle_target_ok data : handle_inbound_outer_target data = Ok tt.
Proof.
  unfold handle_inbound_outer_target.
  destruct fuzz_session_ok as (s&->&Hs). oc.
  pose proof (outer_decode_no_panic data) as Hd.
  destruct (OuterRecord.decode data) as [rec|e|] eqn:Hrec; [|done..].
  rewrite slice_ok by lia. oc. apply discard_Ok, fresh_handle_no_panic; [|done].
  by apply OuterRecord_decode_Ok in Hrec as [? _].
Qed.

End handle_target.

(** * Properties *)

(** C21: no fuzz target ever crashes: whatever bytes the fuzzer chooses, under any
    cryptography, generator and build, the header parser, the two record decoders,
    the padding stripper and the ingress gate of a fresh session return. The one
    panic of the engine needs a session that already stores a skipped key, and the
    harness makes a new session for every input. *)
Theorem fuzz_targets_never_crash `{Crypto} `{Rng} `{!Platform} `{Build} data :
  header_parse data = Ok tt ∧ outer_record_decode data = Ok tt ∧
  relay_outer_decode data = Ok tt ∧ strip_outer_pad_target data = Ok tt ∧
  handle_inbound_outer_target data = Ok tt.
Proof.
  split_and!.
  - apply discard_Ok, parse_checked_no_panic.
  - apply discard_Ok, outer_decode_no_panic.
  - apply discard_Ok, relay_decode_no_panic.
  - apply strip_target_ok.
  - apply handle_target_ok.
Qed.
