(* ===== verification/FfiProps.v ===== *)
(** Properties of the C ABI of Ffi.v: what a C caller may rely on (defined results,
    terminated strings, latched codes, bounded writes), no replay through the
    boundary, delivery of texts between two handles, and a predictable secret. *)

From S2P Require Import Prelude Wire Pad RelayEnvelope Crypto Handshake Payload Ratchet Skipped.
From S2P Require Import Blob Engine Toy EngineInv EngineWf Delivery EndToEnd Bundle TrustedMeta.
From S2P Require Import Handle Ffi.
Import FfiHandle.

(** * Well-formed objects *)

(** Reading a C string: up to the first NUL; [None] when there is none, and the
    read leaves the buffer. *)
Fixpoint c_string (b : bytes) : option bytes :=
  match b with
  | [] => None
  | x :: b => if bool_decide (x = x00) then Some [] else cons x <$> c_string b
  end.

Lemma c_string_text txt b : x00 ∉ txt → c_string (txt ++ x00 :: b) = Some txt.
Proof.
  induction txt as [|x txt IH]; intros Hx; [done|]. apply not_elem_of_cons in Hx as [Hne Hx].
  simpl. by rewrite bool_decide_eq_false_2, IH by congruence.
Qed.

Lemma c_string_terminated pre b : is_Some (c_string (pre ++ x00 :: b)).
Proof.
  induction pre as [|x pre [s IH]]; simpl; [by eexists|].
  case_bool_decide; [by eexists|]. rewrite IH. by eexists.
Qed.

(** A buffer of [n] bytes whose last byte is a NUL. *)
Definition c_buffer (n : N) (b : bytes) : Prop := len b = n ∧ ∃ pre, b = pre ++ [x00].

Lemma c_buffer_string n b : c_buffer n b → is_Some (c_string b).
Proof. intros [_ [pre ->]]. apply c_string_terminated. Qed.

(** Text followed by zeros, the layout of both buffers. *)
Lemma c_buffer_text n txt : len txt < n → c_buffer n (txt ++ zeros (n - len txt)).
Proof.
  intros Hn. split; [len|]. exists (txt ++ zeros (n - len txt - 1)).
  rewrite <- app_assoc. f_equal. unfold zeros.
  replace (N.to_nat (n - len txt)) with (N.to_nat (n - len txt - 1) + 1)%nat by lia.
  by rewrite replicate_add.
Qed.

Lemma c_buffer_put0 n b : 1 < n → c_buffer n b → c_buffer n (put b 0 [x00]).
Proof.
  intros Hn [Hl [pre ->]]. rewrite <- (app_nil_l (pre ++ _)), put_app by done.
  destruct pre as [|x pre]; [by autorewrite with len in Hl; lia|].
  split; [autorewrite with len in *; lia|]. by exists (x00 :: pre).
Qed.

Lemma copy_static_msg_eq buf msg :
  len buf = 256 →
  copy_static_msg buf msg =
    take_N 255 msg ++ zeros (256 - len (take_N 255 msg)).
Proof.
  intros Hb. unfold copy_static_msg. rewrite Hb.
  assert (sub msg 0 (N.min (len msg) (256 - 1)) = take_N 255 msg) as Htk.
  { unfold sub, take_N, drop_N, len. rewrite drop_0.
    destruct (Nat.le_ge_cases (length msg) 255).
    - rewrite !take_ge by lia. done.
    - f_equal. lia. }
  rewrite Htk. set (n := N.min (len msg) (256 - 1)).
  assert (len (take_N 255 msg) = n) as Hn by len.
  rewrite <- (app_nil_l buf), (put_app [] buf) by done. rewrite app_nil_l.
  rewrite (put_app (take_N 255 msg) _ n), (put_app (take_N 255 msg ++ [x00]) _ (n + 1))
    by (autorewrite with len; unfold n; lia).
  assert (n <= 255) as Hle by (unfold n; lia). clearbody n. clear Htk.
  set (txt := take_N 255 msg) in *. clearbody txt.
  set (rest := drop_N (len [x00]) (drop_N (len txt) buf)).
  assert (len rest = 255 - n) as Hrest by (unfold rest; autorewrite with len; lia).
  assert (len ((txt ++ [x00]) ++ rest) - (n + 1) = 255 - n) as -> by (autorewrite with len; lia).
  rewrite (drop_all_N _ rest), app_nil_r by (autorewrite with len; lia).
  rewrite Hn, (zeros_succ (256 - n)), <- app_assoc by lia. cbn [app]. do 3 f_equal. lia.
Qed.

Section wf.
Context `{Crypto} `{Rng} `{!Platform} `{Build}.

#[local] Abbreviation F := (ST (t * entropy) N).

Definition core (s : t) : Session.t := SessionHandle.session (inner s).

Record handle_wf (s : t) : Prop := {
  hw_core : session_wf (core s);
  hw_msg : c_buffer 256 (last_msg s);
  hw_text : c_buffer 512 (last_inbound_utf8 s);
}.

Lemma latch_wf code msg s : handle_wf s → handle_wf (latch code msg s).
Proof.
  intros [Hc [Hm _] Ht]. split; [done| |done]. simpl. rewrite copy_static_msg_eq by done.
  apply c_buffer_text. len.
Qed.

Lemma latch_ok_wf s : handle_wf s → handle_wf (latch_ok s).
Proof. intros []. split; [done| |done]. by apply c_buffer_put0. Qed.

Lemma clear_wf s : handle_wf s → handle_wf (clear_last_inbound s).
Proof.
  intros [? ? [Ht _]]. split; [done..|]. simpl. rewrite Ht. apply (c_buffer_text 512 []). done.
Qed.

Lemma semantic_text_len pt text :
  decode_inner_semantic_utf8 pt = Some text → len text <= 504.
Proof.
  unfold decode_inner_semantic_utf8, checked_add, DATA_INNER_FIXED.
  destruct (N.eqb_spec (len pt) 512); [|done]. cbn [negb]. cbv zeta.
  destruct (N.leb_spec (8 + from_be (sub pt 4 8)) USIZE_MAX); [|done]. cbn [mbind option_bind].
  destruct (N.ltb_spec 512 (8 + from_be (sub pt 4 8))); [done|].
  destruct (utf8_valid _); [|done]. intros [= <-]. len.
Qed.

(** The text buffer after a DATA record: the text, then zeros. *)
Lemma store_text s pt text :
  len (last_inbound_utf8 s) = 512 → decode_inner_semantic_utf8 pt = Some text →
  last_inbound_utf8 (store_last_inbound_from_plain pt s) = text ++ zeros (512 - len text).
Proof.
  intros Hl Ht. pose proof (semantic_text_len _ _ Ht) as Hlen.
  unfold store_last_inbound_from_plain. rewrite Ht. simpl. rewrite Hl, len_zeros.
  replace (N.min (len text) (512 - 1)) with (len text) by lia.
  rewrite sub_all, put_zeros_nil by lia. rewrite put_zeros by len_goal.
  rewrite <- app_assoc. f_equal. rewrite (zeros_succ (512 - len text)) by lia. done.
Qed.

Lemma store_wf pt s : handle_wf s → handle_wf (store_last_inbound_from_plain pt s).
Proof.
  intros Hs. destruct (decode_inner_semantic_utf8 pt) as [text|] eqn:Ht.
  - destruct Hs as [? ? [Hl _]]. pose proof (semantic_text_len _ _ Ht).
    pose proof (store_text s pt text Hl Ht) as Hst.
    unfold store_last_inbound_from_plain in *. rewrite Ht in *. split; [done..|]. rewrite Hst.
    apply c_buffer_text. lia.
  - unfold store_last_inbound_from_plain. rewrite Ht. by apply clear_wf.
Qed.

(** * Codes *)

Definition wire_codes : list N := [10; 11; 12; 13; 14; 15; 19].
Definition session_codes : list N := [100; 101; 102; 103; 104; 105; 106; 107; 108; 109].

Lemma wire_error_code_in e : wire_error_code e ∈ wire_codes.
Proof. destruct e; set_solver. Qed.
Lemma session_error_code_in e : session_error_code e ∈ session_codes.
Proof. destruct e; set_solver. Qed.
Lemma session_error_code_inj : Inj (=) (=) session_error_code.
Proof. intros [] []; done. Qed.

(** An early return: the code is latched in a well-formed object. *)
Definition latched (c : N) (s : t) : Prop :=
  handle_wf s ∧ last_code s = c ∧ c ≠ GARY_CODE_OK.

(** Hoare triples for code under the boundary: early returns are latched. *)
Definition fspec {A} (P : t → Prop) (m : F A) (Q : A → t → Prop) : Prop := ∀ st,
  P st.1 →
  match m st with
  | (Ok a, st') => Q a st'.1
  | (Err c, st') => latched c st'.1
  | (Panic, st') => handle_wf st'.1
  end.

Lemma fspec_bind {A B} P (m : F A) (f : A → F B) Q R :
  fspec P m Q → (∀ a, fspec (Q a) (f a) R) → fspec P (m ≫= f) R.
Proof.
  intros Hm Hf st Hst. rewrite st_bind_eq. specialize (Hm st Hst).
  destruct (m st) as [[a|c|] st1]; [by apply Hf|done..].
Qed.

Lemma fspec_modify (P Q : t → Prop) f :
  (∀ s, P s → Q (f s)) → fspec P (st_modify (λ st, (f st.1, st.2))) (λ _, Q).
Proof. intros Hf st Hst. by apply Hf. Qed.

Lemma fspec_ret {A} (P : t → Prop) (a : A) Q : (∀ s, P s → Q a s) → fspec P (mret a) Q.
Proof. intros HQ st Hst. by apply HQ. Qed.

Lemma fspec_pure {A} (φ : Prop) P (m : F A) Q :
  (φ → fspec P m Q) → fspec (λ s, φ ∧ P s) m Q.
Proof. intros Hm st [Hφ Hst]. by apply Hm. Qed.

Lemma fspec_or_latch {E A} (l : E → t → t) (m : ST (t * entropy) E A) (Q : A → Prop) :
  (∀ st, handle_wf st.1 →
    match m st with (Ok a, st') => Q a ∧ handle_wf st'.1 | (_, st') => handle_wf st'.1 end) →
  (∀ e s, handle_wf s → latched (last_code (l e s)) (l e s)) →
  fspec handle_wf (or_latch l m) (λ a s, Q a ∧ handle_wf s).
Proof.
  intros Hm Hl st Hst. unfold or_latch. specialize (Hm st Hst).
  destruct (m st) as [[a|e|] [s ent']]; [done| |done]. by apply Hl.
Qed.

Lemma latch_wire_error_latched e s :
  handle_wf s → latched (last_code (latch_wire_error e s)) (latch_wire_error e s).
Proof. intros Hs. split_and!; [by apply latch_wf|done|by destruct e]. Qed.
Lemma latch_session_err_latched e s :
  handle_wf s → latched (last_code (latch_session_err e s)) (latch_session_err e s).
Proof. intros Hs. split_and!; [by apply latch_wf|done|by destruct e]. Qed.

Lemma os_seed_spec : fspec handle_wf os_seed (λ _, handle_wf).
Proof.
  intros [s e] Hs. unfold os_seed. destruct (getrandom e) as [[seed|] e']; [done|].
  split_and!; [by apply latch_wf|done..].
Qed.

(** A call into the engine keeps the object well formed. *)
Lemma on_core_spec {A} g (m : ST (Session.t * rng_state) SessionError A) st :
  preserves (on_sess session_wf) m → handle_wf st.1 →
  match on_core g (SessionHandle.on_inner m) st with
  | (Ok a, st') => True ∧ handle_wf st'.1
  | (_, st') => handle_wf st'.1
  end.
Proof.
  destruct st as [s e]. intros Hm [Hc Hmsg Htext]. unfold on_core, SessionHandle.on_inner, st_zoom.
  assert (∀ x, session_wf x → handle_wf (set_inner {| SessionHandle.session := x |} s)) as Hset
    by (by split).
  cbn [fst snd]. specialize (Hm (core s, g) Hc). unfold on_sess, core in Hm.
  destruct (m _) as [[a|e'|] [s' g']]; simpl in *; auto.
Qed.

(** ** Ingesting *)

Lemma ingest_inner_spec slice :
  fspec handle_wf (ingest_inner slice) (λ c s, handle_wf s ∧ last_code s = c ∧ c = GARY_CODE_OK).
Proof.
  unfold ingest_inner. eapply fspec_bind.
  { apply (fspec_or_latch _ _ OuterRecord.wf); [|apply latch_wire_error_latched].
    intros st Hst. unfold st_lift. destruct (OuterRecord.decode slice) eqn:Hd; [|done..].
    by apply OuterRecord_decode_Ok in Hd as [? _]. }
  intros rec. apply fspec_pure. intros Hrec. eapply fspec_bind.
  { apply (fspec_modify handle_wf handle_wf), clear_wf. }
  intros []. eapply fspec_bind.
  { apply (fspec_or_latch _ _ (λ _, True)); [|apply latch_session_err_latched].
    intros st Hst. apply on_core_spec; [by apply handle_inbound_wf|done]. }
  intros r. apply fspec_pure. intros _.
  destruct r as [pt|pt];
    (eapply (fspec_bind _ _ _ (λ _ s, handle_wf s ∧ last_code s = GARY_CODE_OK));
      [|intros []; by apply fspec_ret; naive_solver]).
  - apply (fspec_modify _ _ (λ s, latch_ok (store_last_inbound_from_plain pt s))).
    intros s Hs. split; [by apply latch_ok_wf, store_wf|done].
  - apply (fspec_modify _ _ latch_ok). intros s Hs. split; [by apply latch_ok_wf|done].
Qed.

Lemma process_body_spec slice :
  fspec handle_wf (process_body slice) (λ c s, handle_wf s ∧ last_code s = c ∧ c = GARY_CODE_OK).
Proof.
  unfold process_body. eapply fspec_bind; [|intros env; apply fspec_pure; intros _;
    apply ingest_inner_spec].
  apply (fspec_or_latch _ _ (λ _, True)); [|apply latch_wire_error_latched].
  intros st Hst. unfold st_lift. by destruct (RelayOuterEnvelope.decode_padded_wire slice).
Qed.

(** What a receiver leaves behind, whatever the bytes. *)
Lemma receive_with_spec body msg s buf n e :
  (∀ slice, fspec handle_wf (body slice) (λ c s, handle_wf s ∧ last_code s = c ∧ c = GARY_CODE_OK)) →
  handle_wf s → n <= len buf →
  ∃ c s' e', receive_with body msg (Some s) (Some buf) n e = Some (c, Some s', e') ∧
    handle_wf s' ∧ last_code s' = c.
Proof.
  intros Hbody Hs Hn. unfold receive_with, from_raw_parts. cbn [is_null andb mbind option_bind].
  rewrite leb_true by done. cbn [mbind option_bind]. unfold catch_unwind.
  specialize (Hbody (take_N n buf) (s, e) Hs).
  destruct (body (take_N n buf) (s, e)) as [[c|c|] [s' e']]; eexists _, _, _; (split; [done|]).
  - by destruct Hbody as (?&?&_).
  - by destruct Hbody as (?&?&_).
  - split; [by apply latch_wf|done].
Qed.

(** ** Sending *)

Lemma fspec_drop {A} (φ : A → Prop) P (m : F A) Q :
  fspec P m (λ a s, φ a ∧ Q s) → fspec P m (λ _, Q).
Proof.
  intros Hm st Hst. specialize (Hm st Hst).
  destruct (m st) as [[a|c|] st']; [by destruct Hm|done..].
Qed.

Lemma build_spec text :
  fspec handle_wf (build_data_outer_record_bytes text) (λ _, handle_wf).
Proof.
  unfold build_data_outer_record_bytes. eapply fspec_bind.
  { apply (fspec_drop (λ _, True)), fspec_or_latch.
    - intros st Hst. unfold st_lift. by destruct (data_inner_plaintext _ _ _).
    - intros e s Hs. split_and!; [by apply latch_wf|done..]. }
  intros plain. eapply fspec_bind; [apply os_seed_spec|]. intros seed. eapply fspec_bind.
  { apply (fspec_drop (λ _, True)), fspec_or_latch; [|apply latch_session_err_latched].
    intros st Hst. apply on_core_spec; [apply encrypt_data_outer_wf|done]. }
  intros [hdr pay].
  apply (fspec_drop (λ _, True)), fspec_or_latch; [|apply latch_wire_error_latched].
  intros st Hst. unfold st_lift. by destruct (OuterRecord.encode _).
Qed.

(** A body either reports success after writing at most [cap] bytes, or leaves the
    caller's memory alone. *)
Definition body_spec (cap : N) (m : ST call N N) : Prop := ∀ c,
  handle_wf (c_st c).1 →
  let untouched c' := c_buf c' = c_buf c ∧ c_written c' = c_written c in
  match m c with
  | (Ok code, c') =>
      code = GARY_CODE_OK ∧ handle_wf (c_st c').1 ∧ last_code (c_st c').1 = code ∧
      ∃ wire, len wire <= cap ∧ c_buf c' = put (c_buf c) 0 wire ∧ c_written c' = len wire
  | (Err code, c') => latched code (c_st c').1 ∧ untouched c'
  | (Panic, c') => handle_wf (c_st c').1 ∧ untouched c'
  end.

Lemma body_bind {A} cap (m : F A) (f : A → ST call N N) :
  fspec handle_wf m (λ _, handle_wf) → (∀ a, body_spec cap (f a)) →
  body_spec cap (in_call m ≫= f).
Proof.
  intros Hm Hf c Hc. rewrite st_bind_eq. unfold in_call, st_zoom. specialize (Hm (c_st c) Hc).
  destruct (m (c_st c)) as [[a|e|] st']; [|done..].
  exact (Hf a {| c_st := st'; c_buf := c_buf c; c_written := c_written c |} Hm).
Qed.

(** The end both bodies share. *)
Lemma body_emit cap msg wire :
  body_spec cap
    (_ ← in_call (return_if (cap <? len wire) (latch_wire GARY_CODE_BUFFER_TOO_SMALL msg));
     _ ← write_out wire;
     _ ← in_call set_ok;
     mret GARY_CODE_OK).
Proof.
  intros c Hc. rewrite st_bind_eq. unfold in_call at 1, st_zoom at 1, return_if.
  destruct (N.ltb_spec cap (len wire)) as [Hlt|Hle]; destruct c as [[s e] buf w]; simpl.
  - split; [|done]. split_and!; [by apply latch_wf|done..].
  - split_and!; [done|by apply latch_ok_wf|done|]. by exists wire.
Qed.

Lemma send_body_spec text cap : body_spec cap (send_body text cap).
Proof. apply body_bind; [apply build_spec|]. intros wire. apply body_emit. Qed.

Lemma relay_body_spec rt text cap : body_spec cap (relay_body rt text cap).
Proof.
  apply body_bind; [apply build_spec|]. intros opaque. cbv zeta.
  apply body_bind; [apply os_seed_spec|]. intros seed.
  apply body_bind; [|intros wire; apply body_emit].
  apply (fspec_drop (λ _, True)), fspec_or_latch; [|apply latch_wire_error_latched].
  intros st Hst. unfold st_lift. by destruct (RelayOuterEnvelope.encode_padded_wire _ _) as [[]].
Qed.

(** What a sending call promises about its reply. *)
Definition reply_ok (buf : bytes) (cap : N) (r : reply) : Prop :=
  ∃ s' buf' n, session r = Some s' ∧ out_buf r = Some buf' ∧ out_written r = Some n ∧
    handle_wf s' ∧ last_code s' = code r ∧
    n <= cap ∧ len buf' = len buf ∧ drop_N n buf' = drop_N n buf ∧
    (code r ≠ GARY_CODE_OK → n = 0 ∧ buf' = buf).

Lemma run_send_spec body msg s e buf cap :
  body_spec cap body → handle_wf s → cap <= len buf →
  ∃ r, run_send body msg s e (Some buf) cap = Some r ∧ reply_ok buf cap r.
Proof.
  intros Hb Hs Hcap. unfold run_send. cbn [mbind option_bind]. rewrite ltb_false by done.
  unfold catch_unwind. specialize (Hb {| c_st := (s, e); c_buf := buf; c_written := 0 |} Hs).
  destruct (body _) as [[c|c|] [[s' e'] buf' n]]; simpl in Hb;
    (eexists; split; [done|]); eexists _, _, _; simpl; do 3 (split; [done|]).
  - destruct Hb as (->&Hwf&Hlast&wire&Hw&->&->). split_and!; [done|done|done| | |done].
    + rewrite <- (app_nil_l buf), (put_app []), app_nil_l by done. autorewrite with len. lia.
    + rewrite <- (app_nil_l buf) at 1. rewrite (put_app []), app_nil_l by done.
      by rewrite drop_app_len.
  - destruct Hb as ((Hwf&Hlast&_)&->&->). split_and!; [done|done|lia|done|done|done].
  - destruct Hb as (Hwf&->&->). split_and!; [by apply latch_wf|done|lia|done|done|done].
Qed.

(** ** Every object a caller can hold *)

Inductive gary_op :=
  | GSend (text : bytes) (cap : N)
  | GPrepareRelay (rt text : bytes) (cap : N)
  | GIngest (buf : bytes)
  | GProcessRelay (buf : bytes).

(** The state after a call with buffers of exactly the announced sizes, and its
    return code. *)
Definition gary_call (o : gary_op) (st : t * entropy) : option (N * (t * entropy)) :=
  let '(s, e) := st in
  let of_reply (r : reply) := s' ← session r; Some (code r, (s', ent r)) in
  let of_recv r := let '(c, s', e') := r : N * option t * entropy in
                   s' ← s'; Some (c, (s', e')) in
  match o with
  | GSend text cap =>
      gary_send_utf8_data_outer (Some s) (Some text) (len text) (Some (zeros cap)) cap
        (Some 0) e ≫= of_reply
  | GPrepareRelay rt text cap =>
      gary_prepare_relay_outbound_utf8 (Some s) (Some rt) (len rt) (Some text) (len text)
        (Some (zeros cap)) cap (Some 0) e ≫= of_reply
  | GIngest buf => gary_ingest_outer (Some s) (Some buf) (len buf) e ≫= of_recv
  | GProcessRelay buf => gary_process_relay_inbound (Some s) (Some buf) (len buf) e ≫= of_recv
  end.

(** Objects obtained from the constructors and any sequence of calls. *)
Inductive live : t → Prop :=
  | live_new s : gary_session_new = Some s → live s
  | live_new_initiator s : gary_session_new_initiator = Some s → live s
  | live_call o s e c s' e' : live s → gary_call o (s, e) = Some (c, (s', e')) → live s'.

Lemma gary_send_spec s text n buf cap w e :
  handle_wf s → n <= len text → 0 < cap → cap <= len buf →
  ∃ r, gary_send_utf8_data_outer (Some s) (Some text) n (Some buf) cap (Some w) e = Some r ∧
       reply_ok buf cap r.
Proof.
  intros Hs Hn Hc Hb. unfold gary_send_utf8_data_outer, from_raw_parts.
  cbn [is_null andb orb mbind option_bind]. rewrite eqb_false, leb_true by lia.
  cbn [mbind option_bind]. by apply run_send_spec, Hb; [apply send_body_spec|].
Qed.

Lemma gary_prepare_spec s rt k text n buf cap w e :
  handle_wf s → k <= len rt → n <= len text → 0 < cap → cap <= len buf →
  ∃ r, gary_prepare_relay_outbound_utf8 (Some s) (Some rt) k (Some text) n (Some buf) cap
         (Some w) e = Some r ∧ reply_ok buf cap r.
Proof.
  intros Hs Hk Hn Hc Hb. unfold gary_prepare_relay_outbound_utf8, from_raw_parts.
  cbn [is_null andb orb mbind option_bind]. rewrite eqb_false, !leb_true by lia.
  cbn [mbind option_bind]. by apply run_send_spec, Hb; [apply relay_body_spec|].
Qed.

(** ** Null pointers and empty buffers *)

(** Input memory covers the length; the null pointer only with a non-zero length,
    which is reported as an error. *)
Definition legal_in (p : option bytes) (n : N) : Prop :=
  match p with Some m => n <= len m | None => n ≠ 0 end.
Definition legal_out (p : option bytes) (cap : N) : Prop :=
  match p with Some m => cap <= len m | None => True end.

Lemma from_raw_parts_legal p n :
  legal_in p n → (∃ m, p = Some m ∧ from_raw_parts p n = Some (take_N n m)) ∨
                 (p = None ∧ (is_null p && negb (n =? 0)) = true).
Proof.
  destruct p as [m|]; simpl; intros Hn.
  - left. exists m. split; [done|]. unfold from_raw_parts. simpl. by rewrite leb_true.
  - right. by rewrite eqb_false.
Qed.

(** The answer to a null pointer or an empty output buffer: nothing is latched, only
    [*out_written] is cleared. *)
Definition refused_reply (s : t) (out : option bytes) (w : option N) (e : entropy) : reply :=
  {| code := GARY_CODE_NULL_POINTER; session := Some s; out_buf := out;
     out_written := (λ _, 0) <$> w; ent := e |}.

Definition send_outcome (refused : bool) (s : t) (out : option bytes) (cap : N) (w : option N)
    (e : entropy) (r : reply) : Prop :=
  if refused then r = refused_reply s out w e
  else ∃ buf, out = Some buf ∧ reply_ok buf cap r.

Lemma gary_send_outcome s utf8 n out cap w e :
  handle_wf s → legal_in utf8 n → legal_out out cap →
  ∃ r, gary_send_utf8_data_outer (Some s) utf8 n out cap w e = Some r ∧
    send_outcome (is_null w || is_null utf8 || is_null out || (cap =? 0)) s out cap w e r.
Proof.
  intros Hs Hin Hout. unfold gary_send_utf8_data_outer, null_reply, send_outcome.
  destruct w as [w|]; [|by eexists]. cbn [is_null orb].
  destruct (from_raw_parts_legal _ _ Hin) as [(m&->&Hm)|[-> Hm]]; [|rewrite Hm; by eexists].
  cbn [is_null andb orb]. destruct out as [buf|]; [|by eexists]. cbn [is_null orb].
  destruct (cap =? 0); [by eexists|]. rewrite Hm. cbn [mbind option_bind].
  destruct (run_send_spec (send_body (take_N n m) cap) (bs "rust panic while sending") s e buf cap)
    as (r&Hr&Hok); [apply send_body_spec|done..|]. exists r. eauto.
Qed.

Lemma gary_prepare_outcome s rt k utf8 n out cap w e :
  handle_wf s → legal_in rt k → legal_in utf8 n → legal_out out cap →
  ∃ r, gary_prepare_relay_outbound_utf8 (Some s) rt k utf8 n out cap w e = Some r ∧
    send_outcome (is_null w || is_null rt || is_null utf8 || is_null out || (cap =? 0))
      s out cap w e r.
Proof.
  intros Hs Hrt Hin Hout. unfold gary_prepare_relay_outbound_utf8, null_reply, send_outcome.
  destruct w as [w|]; [|by eexists]. cbn [is_null orb].
  destruct (from_raw_parts_legal _ _ Hrt) as [(m1&->&Hm1)|[-> Hm1]]; [|rewrite Hm1; by eexists].
  cbn [is_null andb orb].
  destruct (from_raw_parts_legal _ _ Hin) as [(m&->&Hm)|[-> Hm]]; [|rewrite Hm; by eexists].
  cbn [is_null andb orb]. destruct out as [buf|]; [|by eexists]. cbn [is_null orb].
  destruct (cap =? 0); [by eexists|]. rewrite Hm1. cbn [mbind option_bind].
  rewrite Hm. cbn [mbind option_bind].
  destruct (run_send_spec (relay_body (take_N k m1) (take_N n m) cap)
    (bs "rust panic while preparing relay outbound") s e buf cap)
    as (r&Hr&Hok); [apply relay_body_spec|done..|]. exists r. eauto.
Qed.

Lemma gary_call_wf o s e c s' e' :
  handle_wf s → gary_call o (s, e) = Some (c, (s', e')) → handle_wf s'.
Proof.
  intros Hs. destruct o as [text cap|rt text cap|buf|buf]; unfold gary_call; cbv beta iota zeta.
  - destruct (N.eq_dec cap 0) as [->|?].
    { unfold gary_send_utf8_data_outer. simpl. by intros [= <- <- <-]. }
    destruct (gary_send_spec s text (len text) (zeros cap) cap 0 e)
      as (r&->&s1&b1&n1&Hr&_&_&Hwf&_); [done|lia|lia|len_goal|].
    cbn [mbind option_bind]. rewrite Hr. by intros [= _ <- _].
  - destruct (N.eq_dec cap 0) as [->|?].
    { unfold gary_prepare_relay_outbound_utf8. simpl. by intros [= <- <- <-]. }
    destruct (gary_prepare_spec s rt (len rt) text (len text) (zeros cap) cap 0 e)
      as (r&->&s1&b1&n1&Hr&_&_&Hwf&_); [done|lia|lia|lia|len_goal|].
    cbn [mbind option_bind]. rewrite Hr. by intros [= _ <- _].
  - destruct (receive_with_spec ingest_inner (bs "rust panic while ingesting") s buf (len buf) e)
      as (c1&s1&e1&Hr&Hwf&_); [apply ingest_inner_spec|done|lia|].
    unfold gary_ingest_outer. rewrite Hr. by intros [= _ <- _].
  - destruct (receive_with_spec process_body (bs "rust panic while processing relay inbound")
      s buf (len buf) e) as (c1&s1&e1&Hr&Hwf&_); [apply process_body_spec|done|lia|].
    unfold gary_process_relay_inbound. rewrite Hr. by intros [= _ <- _].
Qed.

Lemma new_handle_wf s : session_wf s → handle_wf (new {| SessionHandle.session := s |}).
Proof.
  intros Hs. split; [done|apply (c_buffer_text 256 []); done|apply (c_buffer_text 512 []); done].
Qed.

Lemma decode_to_slice_len src n b : decode_to_slice src n = Ok b → len b = n.
Proof.
  unfold decode_to_slice. destruct (hex_decode src) as [b'|]; [|done].
  destruct (N.eqb_spec (len b') n); [|done]. by intros [= <-].
Qed.

Lemma fixture_args_wf okm sk peer :
  len okm = 64 → len sk = 32 → len peer = 32 →
  bootstrap_args_wf okm (replicate 16 x01) 7 sk (Some peer) (DeviceStateAnchorV1.new_v0 901).
Proof.
  intros. split_and!; [done|done|by vm_compute|done|done|].
  split_and!; by vm_compute.
Qed.

Lemma constructors_wf s :
  gary_session_new = Some s ∨ gary_session_new_initiator = Some s → handle_wf s.
Proof.
  unfold gary_session_new, gary_session_new_initiator, epoch_policy_vector_responder,
    epoch_policy_vector_initiator.
  destruct (decode_to_slice DOC_HANDSHAKE_OKM_HEX 64) as [okm|e|] eqn:Ho; oc; [|naive_solver..].
  apply decode_to_slice_len in Ho. intros [Hs|Hs]; revert Hs.
  - destruct (decode_to_slice DOC_ALICE_RATCHET_PUB_HEX 32) as [rp|e|] eqn:Hr; oc; [|done..].
    unfold SessionHandle.bootstrap_responder.
    destruct (Session.bootstrap_responder _ _ _ _ _ _) as [b|e|] eqn:Hb; oc; [|done..].
    intros [= <-]. apply new_handle_wf, recompute_wf.
    eapply bootstrap_wf; [|by right]. apply decode_to_slice_len in Hr. by apply fixture_args_wf.
  - destruct (decode_to_slice DOC_EK_A_SEED_HEX 32) as [sk|e|] eqn:Hr; oc; [|done..].
    unfold SessionHandle.bootstrap_initiator.
    destruct (Session.bootstrap_initiator _ _ _ _ _ _) as [b|e|] eqn:Hb; oc; [|done..].
    intros [= <-]. apply new_handle_wf, recompute_wf.
    eapply bootstrap_wf; [|by left]. apply decode_to_slice_len in Hr.
    apply fixture_args_wf; [done|done|len_goal].
Qed.

Lemma live_wf s : live s → handle_wf s.
Proof. induction 1; eauto using constructors_wf, gary_call_wf. Qed.

(** ** What a call does to the wrapped session *)

Lemma ingest_inner_bad slice w s e :
  OuterRecord.decode slice = Err w →
  ingest_inner slice (s, e) = (Err (wire_error_code w), (latch_wire_error w s, e)).
Proof. intros Hd. unfold ingest_inner. rewrite st_bind_eq. unfold or_latch, st_lift. by rewrite Hd. Qed.

Lemma ingest_inner_eq slice rec s e :
  OuterRecord.decode slice = Ok rec →
  ingest_inner slice (s, e) =
    let '(r, (s0, _)) :=
      Session.handle_inbound_outer rec 0 (core s, from_seed INGEST_SEED) in
    let s1 := set_inner {| SessionHandle.session := s0 |} (clear_last_inbound s) in
    match r with
    | Ok (Data pt) => (Ok GARY_CODE_OK, (latch_ok (store_last_inbound_from_plain pt s1), e))
    | Ok (RekeyPlain _) => (Ok GARY_CODE_OK, (latch_ok s1, e))
    | Err er => (Err (session_error_code er), (latch_session_err er s1, e))
    | Panic => (Panic, (s1, e))
    end.
Proof.
  intros Hd. unfold ingest_inner. rewrite st_bind_eq. unfold or_latch at 1, st_lift. rewrite Hd.
  cbv zeta. rewrite st_bind_eq. cbn [st_modify fst snd].
  rewrite st_bind_eq. unfold or_latch, on_core, SessionHandle.handle_inbound_outer,
    SessionHandle.on_inner, st_zoom. cbn [fst snd]. unfold core.
  change (inner (clear_last_inbound s)) with (inner s).
  by destruct (Session.handle_inbound_outer rec 0 _) as [[[pt|pt]|er|] [s0 g0]].
Qed.

Lemma core_latch_ok s : core (latch_ok s) = core s.
Proof. done. Qed.

Lemma core_store pt s : core (store_last_inbound_from_plain pt s) = core s.
Proof. unfold store_last_inbound_from_plain. by destruct (decode_inner_semantic_utf8 pt). Qed.

(** Ingesting is one inbound call of the engine, or nothing. *)
Lemma ingest_core slice st r st' :
  ingest_inner slice st = (r, st') →
  match OuterRecord.decode slice with
  | Ok rec =>
      ∃ r0 g0, Session.handle_inbound_outer rec 0 (core st.1, from_seed INGEST_SEED) =
                 (r0, (core st'.1, g0)) ∧
        (r = Ok GARY_CODE_OK ↔ ∃ x, r0 = Ok x) ∧ r ≠ Err GARY_CODE_OK
  | _ => core st'.1 = core st.1 ∧ r ≠ Ok GARY_CODE_OK ∧ r ≠ Err GARY_CODE_OK
  end.
Proof.
  destruct st as [s e]. pose proof (outer_decode_no_panic slice) as Hnp.
  destruct (OuterRecord.decode slice) as [rec|w|] eqn:Hd; [| |done].
  - rewrite (ingest_inner_eq _ _ _ _ Hd). cbn [fst].
    destruct (Session.handle_inbound_outer rec 0 _) as [[[pt|pt]|er|] [s0 g0]];
      intros [= <- <-]; eexists _, g0; (split; [cbn [fst]; rewrite ?core_latch_ok, ?core_store; done|]);
      split; try done; try (by destruct er); naive_solver.
  - rewrite (ingest_inner_bad _ _ _ _ Hd). intros [= <- <-].
    split_and!; [done|done|by destruct w].
Qed.

(** The record a receiving call hands to the engine, if any. *)
Definition opened (o : gary_op) : option OuterRecord.t :=
  let decoded b := match OuterRecord.decode b with Ok rec => Some rec | _ => None end in
  match o with
  | GIngest b => decoded b
  | GProcessRelay b =>
      match RelayOuterEnvelope.decode_padded_wire b with
      | Ok env => decoded (RelayOuterEnvelope.opaque_bytes env)
      | _ => None
      end
  | _ => None
  end.

(** One call; it accepts its record when it reports [GARY_CODE_OK]. *)
Definition gary_step (o : gary_op) (st : t * entropy) : option Header.t * (t * entropy) :=
  match gary_call o st with
  | Some (c, st') =>
      (if c =? GARY_CODE_OK then OuterRecord.header <$> opened o else None, st')
  | None => (None, st)
  end.

Lemma receive_with_eq body msg s b e :
  receive_with body msg (Some s) (Some b) (len b) e =
    let '(c, (s', e')) := catch_unwind (body b) (panicked msg) (s, e) in Some (c, Some s', e').
Proof.
  unfold receive_with, from_raw_parts. cbn [is_null andb mbind option_bind].
  rewrite leb_true, take_all_N by lia. cbn [mbind option_bind]. done.
Qed.

(** The window after an inbound call of the engine. *)
Lemma handle_inbound_window rec now s g r s' g' :
  Session.handle_inbound_outer rec now (s, g) = (r, (s', g')) →
  let c := Header.counter_be (OuterRecord.header rec) in
  match r with
  | Ok _ => window_admits (window s) c ∧ window s' = window_accept c (window s)
  | _ => window s' = window s
  end.
Proof.
  intros He. pose proof (exec_step_spec (HandleInboundOuter rec now) (s, g)) as Hs.
  unfold exec_step in Hs. simpl in Hs. rewrite st_bind_eq, He in Hs.
  destruct r as [x|e|]; [by destruct Hs as (_&?&_&?)|by destruct Hs..].
Qed.

(** Both receivers, through [catch_unwind]. *)
Definition window_step (h : option Header.t) (s s' : t) : Prop :=
  match h with
  | Some h => window_admits (window (core s)) (Header.counter_be h) ∧
              window (core s') = window_accept (Header.counter_be h) (window (core s))
  | None => window (core s') = window (core s)
  end.

Lemma ingest_window b msg st :
  let '(c, st') := catch_unwind (ingest_inner b) (panicked msg) st in
  window_step (if c =? GARY_CODE_OK then OuterRecord.header <$> opened (GIngest b) else None)
    st.1 st'.1.
Proof.
  unfold catch_unwind. destruct (ingest_inner b st) as [r st'] eqn:Hi.
  apply ingest_core in Hi. cbn [opened].
  destruct (OuterRecord.decode b) as [rec|w|].
  - destruct Hi as (r0&g0&He%handle_inbound_window&Hok&Hne). cbv zeta in He.
    destruct r as [c|c|].
    + destruct (N.eqb_spec c GARY_CODE_OK) as [->|Hc].
      * destruct (proj1 Hok eq_refl) as [x ->]. done.
      * destruct r0 as [x|er|]; [|done..]. destruct Hc. naive_solver.
    + rewrite eqb_false by congruence. destruct r0 as [x|er|]; [|done..]. naive_solver.
    + destruct r0 as [x|er|]; [naive_solver|done..].
  - destruct Hi as (Hc&Hn1&Hn2). cbn [fmap option_fmap option_map].
    by destruct r as [c|c|]; try destruct (c =? _); apply (f_equal window) in Hc.
  - destruct Hi as (Hc&Hn1&Hn2). cbn [fmap option_fmap option_map].
    by destruct r as [c|c|]; try destruct (c =? _); apply (f_equal window) in Hc.
Qed.

(** Sending leaves the window alone. *)
Definition kept (w : gset N * option N) (st : t * entropy) : Prop := window (core st.1) = w.

Lemma kept_or_latch {E A} w (l : E → t → t) (m : ST (t * entropy) E A) :
  (∀ e s, core (l e s) = core s) → preserves (kept w) m → preserves (kept w) (or_latch l m).
Proof.
  intros Hl Hm st Hst. unfold or_latch. specialize (Hm st Hst).
  destruct (m st) as [[a|e|] [s' e']]; [done| |done]. unfold kept in *. simpl in *.
  by rewrite Hl.
Qed.

Lemma kept_os_seed w : preserves (kept w) os_seed.
Proof. intros [s e] Hs. unfold os_seed. by destruct (getrandom e) as [[seed|] e']. Qed.

Lemma kept_build w text : preserves (kept w) (build_data_outer_record_bytes text).
Proof.
  unfold build_data_outer_record_bytes.
  apply preserves_bind; [by apply kept_or_latch, preserves_lift|]. intros plain.
  apply preserves_bind; [apply kept_os_seed|]. intros seed.
  apply preserves_bind; [|intros [hdr pay]; by apply kept_or_latch, preserves_lift].
  apply kept_or_latch; [done|]. intros [s e] Hs. unfold kept in Hs. simpl in Hs.
  unfold on_core, SessionHandle.send_data_plain512_outer, SessionHandle.on_inner, st_zoom.
  pose proof (encrypt_data_outer_frame plain (frame (core s)) (core s, from_seed seed) eq_refl)
    as Hf. unfold on_sess, core in *. cbn [fst snd] in *.
  destruct (Session.encrypt_data_plain512_outer _ _) as [[a|er|] [s' g']];
    apply (f_equal snd) in Hf; by rewrite <- Hs.
Qed.

Lemma kept_in_call {A} w (m : F A) :
  preserves (kept w) m → preserves (λ c, kept w (c_st c)) (in_call m).
Proof. intros Hm. by apply preserves_zoom with (J := λ _, kept w). Qed.

Lemma kept_emit w cap msg wire :
  preserves (λ c, kept w (c_st c))
    (_ ← in_call (return_if (cap <? len wire) (latch_wire GARY_CODE_BUFFER_TOO_SMALL msg));
     _ ← write_out wire;
     _ ← in_call set_ok;
     mret GARY_CODE_OK).
Proof.
  apply preserves_bind.
  { apply kept_in_call. unfold return_if. destruct (cap <? len wire); [|apply preserves_ret].
    by apply kept_or_latch, preserves_fail. }
  intros _. apply preserves_bind; [by apply preserves_modify|]. intros _.
  apply preserves_bind; [by apply kept_in_call, preserves_modify|]. intros _. apply preserves_ret.
Qed.

Lemma kept_send_body w text cap : preserves (λ c, kept w (c_st c)) (send_body text cap).
Proof.
  apply preserves_bind; [apply kept_in_call, kept_build|]. intros wire. apply kept_emit.
Qed.

Lemma kept_relay_body w rt text cap : preserves (λ c, kept w (c_st c)) (relay_body rt text cap).
Proof.
  apply preserves_bind; [apply kept_in_call, kept_build|]. intros opaque. cbv zeta.
  apply preserves_bind; [apply kept_in_call, kept_os_seed|]. intros seed.
  apply preserves_bind; [|intros wire; apply kept_emit].
  by apply kept_in_call, kept_or_latch, preserves_lift.
Qed.

Lemma run_send_kept body msg s e buf cap r s' :
  (∀ w, preserves (λ c, kept w (c_st c)) body) →
  run_send body msg s e buf cap = Some r → session r = Some s' →
  window (core s') = window (core s).
Proof.
  intros Hb. unfold run_send. destruct buf as [mem|]; [|done]. cbn [mbind option_bind].
  destruct (len mem <? cap); [done|]. cbv zeta. unfold catch_unwind.
  specialize (Hb (window (core s)) {| c_st := (s, e); c_buf := mem; c_written := 0 |} eq_refl).
  by destruct (body _) as [[c|c|] c']; intros [= <-] [= <-].
Qed.

Lemma send_call_kept o st c st' :
  match o with GSend _ _ | GPrepareRelay _ _ _ => True | _ => False end →
  gary_call o st = Some (c, st') → window (core st'.1) = window (core st.1).
Proof.
  destruct st as [s e]. destruct o as [text cap|rt text cap|b|b]; [| |done..]; intros _;
    unfold gary_call; cbv beta iota zeta.
  - unfold gary_send_utf8_data_outer. cbn [is_null andb orb].
    destruct (cap =? 0); [by intros [= <- <-]|]. unfold from_raw_parts.
    cbn [mbind option_bind]. rewrite leb_true by lia. cbn [mbind option_bind].
    destruct (run_send _ _ _ _ _ _) as [r|] eqn:Hr; [|done]. cbn [mbind option_bind].
    destruct (session r) as [s'|] eqn:Hs; [|done]. intros [= <- <-].
    eapply run_send_kept; [|done|done]. intros. apply kept_send_body.
  - unfold gary_prepare_relay_outbound_utf8. cbn [is_null andb orb].
    destruct (cap =? 0); [by intros [= <- <-]|]. unfold from_raw_parts.
    cbn [mbind option_bind]. rewrite !leb_true by lia. cbn [mbind option_bind].
    destruct (run_send _ _ _ _ _ _) as [r|] eqn:Hr; [|done]. cbn [mbind option_bind].
    destruct (session r) as [s'|] eqn:Hs; [|done]. intros [= <- <-].
    eapply run_send_kept; [|done|done]. intros. apply kept_relay_body.
Qed.

Lemma receive_call_step o st :
  match o with GIngest _ | GProcessRelay _ => True | _ => False end →
  window_step (gary_step o st).1 st.1 (gary_step o st).2.1.
Proof.
  destruct st as [s e]. destruct o as [text cap|rt text cap|b|b]; [done|done|..]; intros _;
    unfold gary_step, gary_call; cbv beta iota zeta.
  - unfold gary_ingest_outer. rewrite receive_with_eq.
    pose proof (ingest_window b (bs "rust panic while ingesting") (s, e)) as Hw.
    by destruct (catch_unwind _ _ _) as [c [s' e']].
  - unfold gary_process_relay_inbound. rewrite receive_with_eq. cbn [opened].
    unfold process_body. destruct (RelayOuterEnvelope.decode_padded_wire b) as [env|w|] eqn:Hd.
    + pose proof (ingest_window (RelayOuterEnvelope.opaque_bytes env)
        (bs "rust panic while processing relay inbound") (s, e)) as Hw.
      unfold catch_unwind in *. rewrite st_bind_eq. unfold or_latch, st_lift.
      by destruct (ingest_inner _ _) as [[c|c|] [s' e']].
    + unfold catch_unwind. rewrite st_bind_eq. unfold or_latch, st_lift. by destruct w.
    + by destruct (relay_decode_no_panic b) as [_ Hnp]; rewrite Hd in Hnp.
Qed.

Lemma gary_step_window o st : window_step (gary_step o st).1 st.1 (gary_step o st).2.1.
Proof.
  destruct o as [text cap|rt text cap|b|b]; [| |by apply receive_call_step..];
    unfold gary_step; destruct (gary_call _ st) as [[c st']|] eqn:Hc; try done;
    simpl; destruct (c =? GARY_CODE_OK); by eapply send_call_kept in Hc.
Qed.

End wf.

(** * Secrets drawn while ingesting *)

Section secrets.
Context `{Crypto} `{Rng} `{Build}.
Variables (sk0 : bytes) (g0 : rng_state).

(** The ratchet secret is untouched, or the first draw from the generator. *)
Definition fresh_draw : bytes := fit 32 (rng_fill 32 g0).1.
Definition undrawn (st : Session.t * rng_state) : Prop :=
  Session.ratchet_sk st.1 = sk0 ∧ st.2 = g0.
Definition drawn_once (st : Session.t * rng_state) : Prop :=
  undrawn st ∨ Session.ratchet_sk st.1 = fresh_draw.

Lemma drawn_on_session {A} (m : ST Session.t SessionError A) :
  (∀ v, preserves (λ s, Session.ratchet_sk s = v) m) → preserves drawn_once (Session.on_session m).
Proof.
  intros Hm [s g] Hs. unfold Session.on_session, st_zoom. cbn [fst snd].
  specialize (Hm _ s eq_refl). unfold drawn_once, undrawn in *. simpl in *.
  destruct (m s) as [[a|e|] s']; simpl in *; by rewrite Hm.
Qed.

Lemma recv_step_mk_sk v : preserves (λ s, Session.ratchet_sk s = v) Session.recv_step_mk.
Proof. unfold Session.recv_step_mk. by pres. Qed.

Lemma recv_message_key_sk v p c :
  preserves (λ s, Session.ratchet_sk s = v) (Session.recv_message_key p c).
Proof.
  assert (∀ cnt n, preserves (λ s, Session.ratchet_sk s = v) (Session.fill_gap_loop p cnt n)) as Hloop.
  { intros cnt n. revert cnt; induction n as [|n IH]; intros cnt; simpl; pres;
      auto using recv_step_mk_sk.
    intros s1 Hs1. unfold Session.on_skipped, st_zoom.
    by destruct (SkippedKeyCache.insert _ _ _ _) as [[x|e|] c']. }
  assert (∀ b, preserves (λ s, Session.ratchet_sk s = v)
                 (Session.fill_recv_gap_to_counter p b c)) as Hfill
    by (intros b; unfold Session.fill_recv_gap_to_counter; pres; apply Hloop).
  unfold Session.recv_message_key. apply preserves_bind_get. intros s1 Hs1.
  destruct (SkippedKeyCache.take _ _ _) as [found rest].
  pres; auto using recv_step_mk_sk.
Qed.

Lemma bind_draws p :
  triple undrawn (Session.bind_or_dh_ratchet p) (λ _, drawn_once) drawn_once.
Proof.
  intros [s g] [Hsk Hg]. simpl in *. unfold Session.bind_or_dh_ratchet.
  erewrite st_bind_Ok by done. cbv beta iota.
  destruct (Session.peer_ratchet_pub s) as [q|]; [|by left].
  case_bool_decide; [by left|].
  unfold Session.apply_inbound_dh_ratchet, Session.random_static_secret, fill_bytes,
    Session.on_session, Session.on_rng, st_zoom, st_modify, st_get, st_lift, mbind, st_bind.
  cbn [fst snd]. rewrite dh_mix_ok. cbn [fst snd]. unfold drawn_once, fresh_draw. rewrite <- Hg.
  destruct (Session.role s); cbn [fst snd]; destruct (rng_fill 32 g) as [b g']; by right.
Qed.

Lemma bind_draws_then {A} p (k : () → ST (Session.t * rng_state) SessionError A) :
  (∀ u, preserves drawn_once (k u)) →
  triple undrawn (Session.bind_or_dh_ratchet p ≫= k) (λ _, drawn_once) drawn_once.
Proof. intros Hk. eapply triple_bind; [apply bind_draws|]. intros u. apply Hk. Qed.

Lemma accept_counter_draws c :
  preserves drawn_once (Session.on_session (st_modify (Session.accept_counter c))).
Proof. apply drawn_on_session. intros v. by apply preserves_modify. Qed.

Local Ltac checks := repeat
  lazymatch goal with
  | |- triple _ (mbind _ st_get) _ _ => apply triple_bind_get_keep; intros [? ?] _
  | |- triple _ (mbind _ (st_lift _)) _ _ => apply triple_bind_lift; [by left|]; intros ? _
  end.

Lemma decrypt_data_draws h ct :
  triple undrawn (Session.decrypt_data h ct) (λ _, drawn_once) drawn_once.
Proof.
  unfold Session.decrypt_data. checks. cbv zeta. checks. apply bind_draws_then. intros [].
  apply preserves_bind; [apply drawn_on_session; intros; apply recv_message_key_sk|]. intros mk.
  do 3 (apply preserves_bind; [apply preserves_lift|intros ?]).
  apply preserves_bind; [apply accept_counter_draws|]. intros. apply preserves_ret.
Qed.

Lemma decrypt_rekey_draws h p :
  triple undrawn (Session.decrypt_rekey_ctrl_outer h p) (λ _, drawn_once) drawn_once.
Proof.
  unfold Session.decrypt_rekey_ctrl_outer. checks. cbv zeta. checks.
  apply bind_draws_then. intros [].
  do 2 (apply preserves_bind; [apply preserves_lift|intros ?]).
  apply preserves_bind; [apply preserves_get|]. intros [s g].
  apply preserves_bind; [apply preserves_lift|]. intros pt.
  apply preserves_bind; [apply accept_counter_draws|]. intros. apply preserves_ret.
Qed.

Lemma handle_inbound_draws rec now :
  triple undrawn (Session.handle_inbound_outer rec now) (λ _, drawn_once) drawn_once.
Proof.
  assert (∀ {A B} (m : ST (Session.t * rng_state) SessionError A) (f : A → B),
    triple undrawn m (λ _, drawn_once) drawn_once →
    triple undrawn (x ← m; mret (f x)) (λ _, drawn_once) drawn_once) as Hret.
  { intros A B m f Hm. eapply triple_bind; [done|]. intros x. by apply triple_ret. }
  unfold Session.handle_inbound_outer. apply triple_bind_pres; [|by left|intros _].
  { apply preserves_zoom with (J := λ st s, undrawn (s, st.2)); [by intros []| |by intros []].
    intros [s g] _. apply preserves_modify. intros s' Hs'. unfold undrawn in *. simpl in *.
    unfold Session.maybe_expire_reset_pending. cbv zeta.
    by destruct (match Session.mode s' with Active _ => _ | _ => _ end). }
  checks. cbv zeta. destruct (_ =? 3); [|destruct (_ =? 5)].
  - apply Hret. unfold Session.decrypt_data_outer. cbv zeta. checks. apply decrypt_data_draws.
  - apply Hret, decrypt_rekey_draws.
  - apply triple_fail. by left.
Qed.

End secrets.

(** * Properties *)

Section properties.
Context `{Crypto} `{Rng} `{!Platform} `{Build}.

(** C13: the contract of the C ABI. On any object obtained from the constructors by
    any calls, with arbitrary bytes in the input memory, every receiving and sending
    function is defined and returns.
    - A null pointer, or a sender's [out_cap] of 0, is answered with
      [GARY_CODE_NULL_POINTER]: the object is untouched (the code is not latched),
      and all that is written is [*out_written = 0].
    - Otherwise the returned code is latched in the object, both strings a C caller
      may read are terminated inside their buffers, and a sender writes at most
      [out_cap] bytes, nothing at all unless it reports [GARY_CODE_OK].
    Input memory must cover the announced length; a null input with length 0, which
    the code passes on to [from_raw_parts], is excluded. *)
Theorem c_abi_contract s mem n e :
  live s → legal_in mem n →
  (∀ f, f ∈ [gary_ingest_outer; gary_process_relay_inbound] →
    f None mem n e = Some (GARY_CODE_NULL_POINTER, None, e) ∧
    if is_null mem then f (Some s) mem n e = Some (GARY_CODE_NULL_POINTER, Some s, e)
    else ∃ c s' e', f (Some s) mem n e = Some (c, Some s', e') ∧ last_code s' = c ∧
      is_Some (gary_last_error (Some s') ≫= c_string) ∧
      is_Some (gary_last_inbound_utf8 (Some s') ≫= c_string)) ∧
  (∀ rt k out cap w, legal_in rt k → legal_out out cap →
    ∃ r1 r2,
      gary_send_utf8_data_outer (Some s) mem n out cap w e = Some r1 ∧
      send_outcome (is_null w || is_null mem || is_null out || (cap =? 0)) s out cap w e r1 ∧
      gary_prepare_relay_outbound_utf8 (Some s) rt k mem n out cap w e = Some r2 ∧
      send_outcome (is_null w || is_null rt || is_null mem || is_null out || (cap =? 0))
        s out cap w e r2).
Proof.
  intros Hs%live_wf Hn. split.
  - intros f Hf. assert (∀ s', handle_wf s' → is_Some (gary_last_error (Some s') ≫= c_string) ∧
      is_Some (gary_last_inbound_utf8 (Some s') ≫= c_string)) as Hstr.
    { intros s' [_ Hm Ht]. split; by eapply c_buffer_string. }
    split; [set_unfold in Hf; destruct Hf as [->|[->|[]]]; done|].
    destruct mem as [m|]; cbn [is_null].
    2: { set_unfold in Hf; destruct Hf as [->|[->|[]]];
           unfold gary_ingest_outer, gary_process_relay_inbound, receive_with;
           cbn [is_null andb]; by rewrite eqb_false. }
    assert (∃ c s' e', f (Some s) (Some m) n e = Some (c, Some s', e') ∧
      handle_wf s' ∧ last_code s' = c) as (c&s'&e'&Hr&Hwf&Hc).
    { set_unfold in Hf. destruct Hf as [->|[->|[]]]; apply receive_with_spec;
        auto using ingest_inner_spec, process_body_spec. }
    exists c, s', e'. destruct (Hstr s' Hwf). by split_and!.
  - intros rt k out cap w Hrt Hout.
    destruct (gary_send_outcome s mem n out cap w e) as (r1&Hr1&Hok1); [done..|].
    destruct (gary_prepare_outcome s rt k mem n out cap w e) as (r2&Hr2&Hok2); [done..|].
    by exists r1, r2.
Qed.

(** C14: no replay through the C ABI. Whatever sequence of sending and receiving
    calls is made on an object, with whatever bytes, no wire counter is reported as
    accepted twice. *)
Theorem c_abi_no_replay ops st :
  NoDup (Header.counter_be <$> (log gary_step ops st).1).
Proof.
  apply (log_NoDup gary_step (λ st, window (core st.1))). intros o st0.
  pose proof (gary_step_window o st0) as Hw. by destruct (gary_step o st0) as [[h|] st1].
Qed.

(** C32: ratchet secrets drawn on ingest are predictable. [ingest_inner] seeds its
    generator with a constant, so whatever object, record and entropy are involved,
    an ingest either leaves the ratchet secret as it was or replaces it by one and
    the same value, computable from the source code alone. *)
Theorem ingest_ratchet_secret_predictable s b e c s' e' :
  gary_ingest_outer (Some s) (Some b) (len b) e = Some (c, Some s', e') →
  Session.ratchet_sk (core s') = Session.ratchet_sk (core s) ∨
  Session.ratchet_sk (core s') = fit 32 (rng_fill 32 (from_seed INGEST_SEED)).1.
Proof.
  unfold gary_ingest_outer. rewrite receive_with_eq. unfold catch_unwind.
  destruct (ingest_inner b (s, e)) as [r [s1 e1]] eqn:Hi. apply ingest_core in Hi. cbn [fst] in Hi.
  intros Hr. assert (core s' = core s1) as -> by (by destruct r; injection Hr as _ <- _).
  destruct (OuterRecord.decode b) as [rec|w|]; [|destruct Hi as [-> _]; by left..].
  destruct Hi as (r0&g0&He&_).
  pose proof (handle_inbound_draws (Session.ratchet_sk (core s)) (from_seed INGEST_SEED) rec 0
    (core s, from_seed INGEST_SEED) (conj eq_refl eq_refl)) as Hd.
  rewrite He in Hd. unfold drawn_once, undrawn in Hd. simpl in Hd.
  destruct r0; destruct Hd as [[Hd _]|Hd]; auto.
Qed.

End properties.

(** ** Concrete instances *)

(** Hexadecimal digits and an entropy source that counts. *)
Definition hex_digit (b : byte) : option N :=
  let n := Byte.to_N b in
  if in_range 48 57 b then Some (n - 48)
  else if in_range 97 102 b then Some (n - 87)
  else None.

Fixpoint hex_bytes (b : bytes) : option bytes :=
  match b with
  | [] => Some []
  | x :: y :: b =>
      hi ← hex_digit x; lo ← hex_digit y; rest ← hex_bytes b;
      Some (byte_of_N (16 * hi + lo) :: rest)
  | _ => None
  end.

#[global] Instance toy_platform : Platform := {|
  entropy := N;
  getrandom e := (Some (be_bytes 32 e), e + 1);
  from_seed seed := from_be seed;
  hex_decode := hex_bytes;
|}.

Definition toy_entropy (n : N) : entropy (Platform:=toy_platform) := n.
Definition toy_handle (s : Session.t) : SessionHandle.t := {| SessionHandle.session := s |}.

Definition toy_ffi_bob : t :=
  default (new (toy_handle toy_bob)) gary_session_new.

Lemma c_abi_contract_witness :
  ∃ c s' e', gary_process_relay_inbound (Some toy_ffi_bob) (Some (bs "junk")) 4 (toy_entropy 0) =
      Some (c, Some s', e') ∧ last_code s' = c ∧
    is_Some (gary_last_error (Some s') ≫= c_string) ∧
    is_Some (gary_last_inbound_utf8 (Some s') ≫= c_string).
Proof.
  refine (proj2 (proj1 (c_abi_contract toy_ffi_bob (Some (bs "junk")) 4 (toy_entropy 0) _ _) _ _)).
  - apply live_new. vm_compute. reflexivity.
  - vm_compute. discriminate.
  - right. left.
Defined.

(** A forged record under a ratchet key nobody owns. *)
Definition toy_forged : bytes :=
  match OuterRecord.encode
    {| OuterRecord.header :=
         {| Header.version := 1; Header.typ := 3; Header.flags := 0; Header.epoch_be := 7;
            Header.session_id := toy_sid; Header.counter_be := 0;
            Header.ratchet_pub := replicate 32 x07 |};
       OuterRecord.payload := zeros 1024 |} with
  | Ok b => b
  | _ => []
  end.

Definition toy_ingested : option (N * option t * entropy) :=
  gary_ingest_outer (Some (new (toy_handle toy_bob))) (Some toy_forged) (len toy_forged)
    (toy_entropy 0).

Lemma toy_ingested_rotates :
  match toy_ingested with
  | Some (c, Some s', _) =>
      (c =? GARY_CODE_SESSION_DECRYPTION_FAILED) &&
      bool_decide (Session.ratchet_sk (core s') ≠ toy_bob_sk)
  | _ => false
  end = true.
Proof. by vm_compute. Qed.

Lemma ingest_ratchet_secret_predictable_witness :
  ∃ s' e', toy_ingested = Some (GARY_CODE_SESSION_DECRYPTION_FAILED, Some s', e') ∧
    Session.ratchet_sk (core s') ≠ toy_bob_sk ∧
    Session.ratchet_sk (core s') = fit 32 (rng_fill 32 (from_seed INGEST_SEED)).1.
Proof.
  pose proof toy_ingested_rotates as Hr.
  destruct toy_ingested as [[[c [s'|]] e']|] eqn:He; [|discriminate..].
  apply andb_prop in Hr as [Hc Hne]. apply N.eqb_eq in Hc as ->.
  apply bool_decide_eq_true_1 in Hne.
  exists s', e'. split; [reflexivity|]. split; [exact Hne|].
  destruct (ingest_ratchet_secret_predictable _ _ _ _ _ _ He) as [Hsk|Hsk]; [|exact Hsk].
  destruct Hne. rewrite Hsk. reflexivity.
Defined.
