(* ===== verification/FfiHeap.v ===== *)
(** The C caller's view of src/crates/libgary-ffi/src/lib.rs: session objects live
    in a heap and are named by addresses, [gary_session_new] boxes a new one and
    [gary_session_free] drops it. A call through a stale or invented address is
    undefined; the theorems say which programs never make one, and that calls on
    different handles do not disturb each other. *)

From S2P Require Import Prelude Wire Pad RelayEnvelope Crypto Handshake Payload Ratchet Skipped.
From S2P Require Import Blob Engine Toy EngineInv EngineWf Delivery EndToEnd Bundle TrustedMeta.
From S2P Require Import Handle Ffi FfiProps.
Import FfiHandle.

(** [Box::into_raw(Box::new(..))]: an address that is not null and not in use. The
    allocator may hand out an address again after it has been freed. *)
Class Allocator := {
  malloc : gset N → N;
  malloc_fresh used : malloc used ∉ used;
  malloc_nonnull used : malloc used ≠ 0;
}.

(** What a C program can call. *)
Inductive c_call :=
  | CNew
  | CNewInitiator
  | CFree (handle : N)
  | CIngest (session : N) (buf : option bytes) (n : N)
  | CProcessRelay (session : N) (buf : option bytes) (n : N)
  | CSend (session : N) (utf8 : option bytes) (utf8_len : N)
      (out_buf : option bytes) (out_cap : N) (out_written : option N)
  | CPrepareRelay (session : N) (route_token : option bytes) (route_token_len : N)
      (utf8 : option bytes) (utf8_len : N)
      (out_buf : option bytes) (out_cap : N) (out_written : option N)
  | CLastInbound (session : N)
  | CLastError (session : N)
  | CGetDigest (session : N) (out32 : option bytes).

Inductive c_result :=
  | RUnit
  | RPointer (p : N)
  | RCode (code : N)
  | RSent (code : N) (out_buf : option bytes) (out_written : option N)
  | RString (s : option bytes)
  | RDigest (out32 : option bytes).

Section heap.
Context `{Crypto} `{Rng} `{!Platform} `{Build} `{!Allocator}.

Record heap := Heap { objects : gmap N t; os : entropy }.

(** [ptr.as_mut()] and [ptr.as_ref()]: null is [None]; the outer [None] is a pointer
    that does not point to a live object. *)
Definition deref (p : N) (h : heap) : option (option t) :=
  if p =? 0 then Some None else Some <$> objects h !! p.

(** The object as the call left it. *)
Definition write_back (p : N) (s : option t) (e : entropy) (h : heap) : heap :=
  match s with
  | Some s => {| objects := <[p := s]> (objects h); os := e |}
  | None => {| objects := objects h; os := e |}
  end.

Definition box_into_raw (s : option t) (h : heap) : N * heap :=
  match s with
  | None => (0, h)
  | Some s =>
      let p := malloc (dom (objects h)) in
      (p, {| objects := <[p := s]> (objects h); os := os h |})
  end.

Definition gary_session_free (handle : N) (h : heap) : option heap :=
  if handle =? 0 then Some h
  else
    _ ← objects h !! handle;
    Some {| objects := delete handle (objects h); os := os h |}.

(** A receiving and a sending call, on the object behind the address. *)
Definition receive_at (f : option t → entropy → option (N * option t * entropy))
    (p : N) (h : heap) : option (c_result * heap) :=
  s ← deref p h;
  '(code, s', e) ← f s (os h);
  Some (RCode code, write_back p s' e h).

Definition send_at (f : option t → entropy → option reply) (p : N) (h : heap)
    : option (c_result * heap) :=
  s ← deref p h;
  r ← f s (os h);
  Some (RSent (code r) (out_buf r) (out_written r), write_back p (session r) (ent r) h).

Definition c_exec (c : c_call) (h : heap) : option (c_result * heap) :=
  match c with
  | CNew => let '(p, h) := box_into_raw gary_session_new h in Some (RPointer p, h)
  | CNewInitiator =>
      let '(p, h) := box_into_raw gary_session_new_initiator h in Some (RPointer p, h)
  | CFree p => h ← gary_session_free p h; Some (RUnit, h)
  | CIngest p buf n => receive_at (λ s e, gary_ingest_outer s buf n e) p h
  | CProcessRelay p buf n => receive_at (λ s e, gary_process_relay_inbound s buf n e) p h
  | CSend p utf8 n out cap w =>
      send_at (λ s e, gary_send_utf8_data_outer s utf8 n out cap w e) p h
  | CPrepareRelay p rt k utf8 n out cap w =>
      send_at (λ s e, gary_prepare_relay_outbound_utf8 s rt k utf8 n out cap w e) p h
  | CLastInbound p => s ← deref p h; Some (RString (gary_last_inbound_utf8 s), h)
  | CLastError p => s ← deref p h; Some (RString (gary_last_error s), h)
  | CGetDigest p out32 => s ← deref p h; Some (RDigest (gary_get_digest s out32), h)
  end.

(** A program is a sequence of calls chosen from the results so far; it stops at the
    first undefined call. *)
Fixpoint c_run (next : list c_result → option c_call) (fuel : nat) (seen : list c_result)
    (h : heap) : option (list c_result * heap) :=
  match fuel with
  | O => Some (seen, h)
  | S fuel =>
      match next seen with
      | None => Some (seen, h)
      | Some c => '(r, h) ← c_exec c h; c_run next fuel (seen ++ [r]) h
      end
  end.

(** ** What a caller must respect *)

Definition pointer_of (c : c_call) : N :=
  match c with
  | CNew | CNewInitiator => 0
  | CFree p | CIngest p _ _ | CProcessRelay p _ _ | CSend p _ _ _ _ _
  | CPrepareRelay p _ _ _ _ _ _ _ | CLastInbound p | CLastError p | CGetDigest p _ => p
  end.

Definition buffers_ok (c : c_call) : Prop :=
  match c with
  | CIngest _ buf n | CProcessRelay _ buf n => legal_in buf n
  | CSend _ utf8 n out cap _ => legal_in utf8 n ∧ legal_out out cap
  | CPrepareRelay _ rt k utf8 n out cap _ => legal_in rt k ∧ legal_in utf8 n ∧ legal_out out cap
  | CGetDigest _ out32 => legal_out out32 32
  | _ => True
  end.

Definition legal (live : gset N) (c : c_call) : Prop :=
  (pointer_of c = 0 ∨ pointer_of c ∈ live) ∧ buffers_ok c.

(** The handles a program owns, computed from its own calls and their results. *)
Definition owned_step (live : gset N) (c : c_call) (r : c_result) : gset N :=
  match c, r with
  | CNew, RPointer p | CNewInitiator, RPointer p => if p =? 0 then live else {[p]} ∪ live
  | CFree p, _ => live ∖ {[p]}
  | _, _ => live
  end.

(** Every call is legal for the handles owned at that point, whatever the results. *)
Fixpoint disciplined (next : list c_result → option c_call) (fuel : nat)
    (seen : list c_result) (live : gset N) : Prop :=
  match fuel with
  | O => True
  | S fuel =>
      match next seen with
      | None => True
      | Some c =>
          legal live c ∧
          ∀ r, disciplined next fuel (seen ++ [r]) (owned_step live c r)
      end
  end.

(** ** Every legal call is defined *)

Definition heap_wf (h : heap) : Prop :=
  map_Forall (λ _ s, handle_wf s) (objects h) ∧ objects h !! 0 = None.

(** [s'] is what a call may leave of the object [s]. *)
Definition succeeds (s s' : option t) : Prop :=
  match s, s' with
  | Some _, Some s' => handle_wf s'
  | None, None => True
  | _, _ => False
  end.

Lemma receive_total body msg s buf n e :
  (∀ slice, fspec handle_wf (body slice) (λ c s, handle_wf s ∧ last_code s = c ∧ c = GARY_CODE_OK)) →
  from_option handle_wf True s → legal_in buf n →
  ∃ c s' e', receive_with body msg s buf n e = Some (c, s', e') ∧ succeeds s s'.
Proof.
  intros Hb Hs Hin. destruct s as [s|]; [|by eexists _, _, _].
  destruct buf as [m|]; simpl in Hin.
  - destruct (receive_with_spec body msg s m n e) as (c&s'&e'&Hr&Hwf&_); [done..|].
    by exists c, (Some s'), e'.
  - unfold receive_with. simpl is_null. rewrite eqb_false by done. by eexists _, _, _.
Qed.

Lemma outcome_succeeds refused s out cap w e r :
  handle_wf s → send_outcome refused s out cap w e r → succeeds (Some s) (session r).
Proof.
  intros Hs. unfold send_outcome. destruct refused; [by intros ->|].
  intros (buf&_&s'&_&_&->&_&_&Hwf&_). done.
Qed.

Lemma send_total s utf8 n out cap w e :
  from_option handle_wf True s → legal_in utf8 n → legal_out out cap →
  ∃ r, gary_send_utf8_data_outer s utf8 n out cap w e = Some r ∧ succeeds s (session r).
Proof.
  intros Hs Hin Hout. destruct s as [s|]; [|by eexists].
  destruct (gary_send_outcome s utf8 n out cap w e) as (r&Hr&Ho); [done..|].
  exists r. split; [done|by eapply outcome_succeeds].
Qed.

Lemma prepare_total s rt k utf8 n out cap w e :
  from_option handle_wf True s → legal_in rt k → legal_in utf8 n → legal_out out cap →
  ∃ r, gary_prepare_relay_outbound_utf8 s rt k utf8 n out cap w e = Some r ∧
    succeeds s (session r).
Proof.
  intros Hs Hrt Hin Hout. destruct s as [s|]; [|by eexists].
  destruct (gary_prepare_outcome s rt k utf8 n out cap w e) as (r&Hr&Ho); [done..|].
  exists r. split; [done|by eapply outcome_succeeds].
Qed.

(** What a defined call does to the heap: the objects stay well formed, the live
    addresses are those the caller owns, and every other object is untouched. *)
Definition call_ok (c : c_call) (h : heap) (r : c_result) (h' : heap) : Prop :=
  heap_wf h' ∧ dom (objects h') = owned_step (dom (objects h)) c r ∧
  ∀ q, q ∈ dom (objects h) → q ≠ pointer_of c → objects h' !! q = objects h !! q.

Lemma deref_legal p h :
  heap_wf h → p = 0 ∨ p ∈ dom (objects h) →
  ∃ s, deref p h = Some s ∧ from_option handle_wf True s ∧
    (s = None ∧ p = 0 ∨ ∃ x, s = Some x ∧ objects h !! p = Some x ∧ p ≠ 0).
Proof.
  intros [Hwf Hnull] Hp. unfold deref. destruct (N.eqb_spec p 0) as [->|Hne].
  { exists None. split_and!; [done|done|by left]. }
  destruct Hp as [?|[x Hx]%elem_of_dom]; [done|]. rewrite Hx. exists (Some x). simpl.
  split; [done|]. split; [by apply (Hwf p)|eauto].
Qed.

Lemma write_back_ok p s s' e h :
  heap_wf h → succeeds s s' →
  (s = None ∧ p = 0 ∨ ∃ x, s = Some x ∧ objects h !! p = Some x ∧ p ≠ 0) →
  heap_wf (write_back p s' e h) ∧ dom (objects (write_back p s' e h)) = dom (objects h) ∧
  ∀ q, q ∈ dom (objects h) → q ≠ p → objects (write_back p s' e h) !! q = objects h !! q.
Proof.
  intros [Hwf Hnull] Hs [[-> ->]|(x&->&Hx&Hp)].
  - by destruct s'.
  - destruct s' as [s'|]; [|done]. simpl. split; [split|split].
    + by apply map_Forall_insert_2.
    + simpl. by rewrite lookup_insert_ne.
    + simpl. rewrite dom_insert_lookup_L; [done|]. by eexists.
    + intros q _ Hq. by rewrite lookup_insert_ne.
Qed.

Lemma box_ok s h p h' :
  heap_wf h → from_option handle_wf True s → box_into_raw s h = (p, h') →
  heap_wf h' ∧ dom (objects h') = (if p =? 0 then dom (objects h) else {[p]} ∪ dom (objects h)) ∧
  ∀ q, q ∈ dom (objects h) → objects h' !! q = objects h !! q.
Proof.
  intros [Hwf Hnull] Hs. destruct s as [s|]; simpl; intros [= <- <-]; [|done].
  pose proof (malloc_fresh (dom (objects h))) as Hf.
  pose proof (malloc_nonnull (dom (objects h))) as Hn. rewrite eqb_false by done.
  split; [split|split].
  - by apply map_Forall_insert_2.
  - simpl. by rewrite lookup_insert_ne.
  - simpl. by rewrite dom_insert_L.
  - intros q Hq. simpl. rewrite lookup_insert_ne; [done|]. by intros <-.
Qed.

Lemma constructor_ok s :
  s = gary_session_new ∨ s = gary_session_new_initiator → from_option handle_wf True s.
Proof.
  intros Hs. destruct s as [x|]; [|done]. simpl. apply constructors_wf.
  destruct Hs; [by left|by right].
Qed.

Lemma c_exec_ok c h :
  heap_wf h → legal (dom (objects h)) c →
  ∃ r h', c_exec c h = Some (r, h') ∧ call_ok c h r h'.
Proof.
  intros Hwf [Hp Hb]. unfold call_ok.
  destruct c; simpl in Hp, Hb; simpl pointer_of; unfold c_exec.
  1, 2: destruct (box_into_raw _ h) as [p h'] eqn:Hbox;
    apply box_ok in Hbox as (?&?&?); [|done|apply constructor_ok; by auto];
    exists (RPointer p), h'; split_and!; [done..|by intros q ? _; auto].
  1: { unfold gary_session_free. destruct (N.eqb_spec handle 0) as [->|Hne].
       - exists RUnit, h. split_and!; [done|done| |done]. simpl.
         assert (0 ∉ dom (objects h)) by (apply not_elem_of_dom, Hwf). set_solver.
       - destruct Hp as [?|[x Hx]%elem_of_dom]; [done|]. rewrite Hx. simpl.
         eexists _, _. split; [done|]. destruct Hwf as [Hwf Hnull]. split_and!; [split|..]; simpl.
         + by apply map_Forall_delete.
         + by rewrite lookup_delete_None; right.
         + apply dom_delete_L.
         + intros q _ Hq. by rewrite lookup_delete_ne. }
  all: destruct (deref_legal _ _ Hwf Hp) as (s&Hd&Hs&Hcase);
    unfold receive_at, send_at; rewrite Hd; cbn [mbind option_bind].
  - destruct (receive_total ingest_inner (bs "rust panic while ingesting") s buf n (os h))
      as (c&s'&e'&Hr&Hsucc); [apply ingest_inner_spec|done..|].
    unfold gary_ingest_outer. rewrite Hr. cbn [mbind option_bind].
    eexists _, _. split; [done|]. by eapply write_back_ok.
  - destruct (receive_total process_body (bs "rust panic while processing relay inbound")
      s buf n (os h)) as (c&s'&e'&Hr&Hsucc); [apply process_body_spec|done..|].
    unfold gary_process_relay_inbound. rewrite Hr. cbn [mbind option_bind].
    eexists _, _. split; [done|]. by eapply write_back_ok.
  - destruct Hb as [Hin Hout].
    destruct (send_total s utf8 utf8_len out_buf out_cap out_written (os h))
      as (r&Hr&Hsucc); [done..|]. rewrite Hr. cbn [mbind option_bind].
    eexists _, _. split; [done|]. by eapply write_back_ok.
  - destruct Hb as (Hrt&Hin&Hout).
    destruct (prepare_total s route_token route_token_len utf8 utf8_len out_buf out_cap
      out_written (os h)) as (r&Hr&Hsucc); [done..|]. rewrite Hr. cbn [mbind option_bind].
    eexists _, _. split; [done|]. by eapply write_back_ok.
  - by eexists _, _.
  - by eexists _, _.
  - by eexists _, _.
Qed.

Lemma c_run_ok next fuel seen h :
  heap_wf h → disciplined next fuel seen (dom (objects h)) →
  ∃ seen' h', c_run next fuel seen h = Some (seen', h') ∧ heap_wf h'.
Proof.
  revert seen h; induction fuel as [|fuel IH]; intros seen h Hwf Hd; simpl in *; [by eexists _, _|].
  destruct (next seen) as [c|]; [|by eexists _, _]. destruct Hd as [Hl Hd].
  destruct (c_exec_ok c h Hwf Hl) as (r&h'&He&Hwf'&Hdom&_). rewrite He. cbn [mbind option_bind].
  apply IH; [done|]. rewrite Hdom. apply Hd.
Qed.

Lemma stale_undefined p h c :
  p ≠ 0 → objects h !! p = None → pointer_of c = p → c_exec c h = None.
Proof.
  intros Hp Hn Hc. assert (deref p h = None) as Hd.
  { unfold deref. rewrite eqb_false by done. by rewrite Hn. }
  destruct c; simpl in Hc; subst; simpl; unfold receive_at, send_at; rewrite ?Hd; try done.
  unfold gary_session_free. rewrite eqb_false by done. by rewrite Hn.
Qed.

End heap.

(** * Properties *)

(** C15: memory safety for C callers. A program that passes only null or handles it
    was given and has not freed, with buffers of the stated lengths, runs to
    completion: no call is undefined, every object stays well formed, and a call
    changes no object but the one it names. The discipline is needed: after
    [gary_session_free] every call on the freed address, a second free included, is
    undefined until the allocator hands the address out again. *)
Theorem disciplined_c_program_safe `{Crypto} `{Rng} `{!Platform} `{Build} `{!Allocator}
    next fuel e :
  disciplined next fuel [] ∅ →
  (∃ rs h', c_run next fuel [] {| objects := ∅; os := e |} = Some (rs, h') ∧ heap_wf h') ∧
  (∀ c h, heap_wf h → legal (dom (objects h)) c →
    ∃ r h', c_exec c h = Some (r, h') ∧
      ∀ q, q ∈ dom (objects h) → q ≠ pointer_of c → objects h' !! q = objects h !! q) ∧
  (∀ p h h' c, p ≠ 0 → gary_session_free p h = Some h' → pointer_of c = p →
    c_exec c h' = None).
Proof.
  intros Hd. split_and!.
  - apply c_run_ok; [|done]. split; [apply map_Forall_empty|done].
  - intros c h Hwf Hl. destruct (c_exec_ok c h Hwf Hl) as (r&h'&He&_&_&Hq). eauto.
  - intros p h h' c Hp Hf Hc. unfold gary_session_free in Hf. rewrite eqb_false in Hf by done.
    destruct (objects h !! p); simplify_eq/=. eapply stale_undefined; [done| |done].
    apply lookup_delete_eq.
Qed.

(** An allocator that takes the first address above those in use. *)
Definition above (used : gset N) : N := N.succ (set_fold N.max 0 used).

Lemma above_gt used x : x ∈ used → x < above used.
Proof.
  unfold above. rewrite N.lt_succ_r. revert x.
  apply (set_fold_ind_L (λ m used, ∀ x, x ∈ used → x <= m)); [set_solver|].
  intros y used' m Hy IH x [->%elem_of_singleton|Hx]%elem_of_union; [lia|].
  specialize (IH x Hx). lia.
Qed.

#[export, refine] Instance toy_allocator : Allocator := {| malloc := above |}.
Proof.
  - intros used Hin%above_gt. lia.
  - intros used. unfold above. lia.
Defined.

(** Open a session, hand it four bytes from the network, close it. *)
Definition toy_program (seen : list c_result) : option c_call :=
  match seen with
  | [] => Some CNew
  | [RPointer p] => Some (CIngest p (Some (bs "junk")) 4)
  | [RPointer p; RCode _] => Some (CFree p)
  | _ => None
  end.

Lemma disciplined_c_program_safe_witness :
  ∃ rs h', c_run toy_program 9 [] {| objects := ∅; os := toy_entropy 0 |} = Some (rs, h') ∧
    heap_wf h'.
Proof.
  refine (proj1 (disciplined_c_program_safe toy_program 9 (toy_entropy 0) _)).
  split; [split; [by left|done]|]. intros [|p| | | |]; try exact I.
  split; [split; [|vm_compute; discriminate]|].
  - simpl. destruct (N.eqb_spec p 0) as [->|Hp]; [by left|right; set_solver].
  - intros [| |c| | |]; try exact I. split; [split; [|exact I]|by intros [| | | | |]].
    simpl. destruct (N.eqb_spec p 0) as [->|Hp]; [by left|right; set_solver].
Defined.

Lemma toy_program_runs :
  fst <$> c_run toy_program 9 [] {| objects := ∅; os := toy_entropy 0 |} =
    Some [RPointer 1; RCode GARY_CODE_WIRE_RECORD_TOO_LARGE; RUnit].
Proof. vm_compute. reflexivity. Qed.
