(* ===== verification/Hub.v ===== *)
(** The relay server of src/crates/libgary-relay/src/main.rs: admission of a
    connection, the room table shared by the connection tasks, and the forwarding
    loop of a pair. Tasks interleave at their lock acquisitions and awaits; each
    [run] below is what a task does between two such points. *)

From S2P Require Import Prelude.

(** * Rust strings *)

(** A [String] as its sequence of Unicode scalar values. *)
Abbreviation str := (list N).

Definition str_of (s : string) : str := Byte.to_N <$> bs s.

Definition utf8_char (c : N) : list N :=
  if c <? 128 then [c]
  else if c <? 2048 then [192 + c / 64; 128 + c mod 64]
  else if c <? 65536 then [224 + c / 4096; 128 + (c / 64) mod 64; 128 + c mod 64]
  else [240 + c / 262144; 128 + (c / 4096) mod 64; 128 + (c / 64) mod 64; 128 + c mod 64].

(** [s.bytes()] and [s.len()]. *)
Definition str_bytes (s : str) : list N := s ≫= utf8_char.
Definition str_len (s : str) : N := len (str_bytes s).

(** [char::is_whitespace]: the White_Space property. *)
Definition is_whitespace (c : N) : bool :=
  (9 <=? c) && (c <=? 13) || bool_decide (c ∈ [32; 133; 160; 5760; 8232; 8233; 8239; 8287; 12288])
  || (8192 <=? c) && (c <=? 8202).

Fixpoint trim_start (s : str) : str :=
  match s with
  | c :: r => if is_whitespace c then trim_start r else s
  | [] => []
  end.
Definition trim (s : str) : str := reverse (trim_start (reverse (trim_start s))).

Definition to_ascii_lowercase (s : str) : str :=
  (λ c, if (65 <=? c) && (c <=? 90) then c + 32 else c) <$> s.

(** * Admission *)

Inductive Role := Host | Guest.

Record JoinBody := { room : str; pin_tag : str; role : Role }.

Inductive Message :=
  | Text (t : str)
  | Binary (data : bytes)
  | Ping (v : bytes)
  | Pong (v : bytes)
  | Close (frame : option bytes).

(** [socket.next().await]: end of stream, a transport error, or a message. *)
Inductive received := Eof | RecvError | Received (m : Message).

(** The WebSocket library: what [next()] yields for a message the peer sent, when the
    socket was accepted with the given frame and message size limits. *)
Class Sockets := { ws_deliver : N → N → Message → received }.

Definition payload_len (m : Message) : N :=
  match m with
  | Text t => len (t ≫= utf8_char)
  | Binary d | Ping d | Pong d => len d
  | Close f => len (default [] f)
  end.

(** Messages within both limits arrive unchanged. *)
Class SocketLaws `(Sockets) : Prop := {
  ws_deliver_small : ∀ frame message m,
    payload_len m <= frame → payload_len m <= message → ws_deliver frame message m = Received m;
}.

(** The limits [ws_upgrade] sets on every socket it hands to [handle_socket]. *)
Definition ws_upgrade `{Sockets} (m : Message) : received :=
  ws_deliver (1024 * 1024) (1024 * 1024) m.

(** Third-party parsers: [serde_json::from_str::<JoinBody>] and the uuid crate. *)
Class Parsers := {
  Uuid : Type;
  join_from_str : str → option JoinBody;
  uuid_parse_str : str → option Uuid;
  as_hyphenated : Uuid → str;
}.

(** The hyphenated form has 36 characters and determines the identifier. *)
Class UuidLaws `(Parsers) : Prop := {
  hyphenated_len : ∀ u, length (as_hyphenated u) = 36%nat;
  hyphenated_inj : Inj (=) (=) as_hyphenated;
}.

Definition is_tag_byte (b : N) : bool :=
  (48 <=? b) && (b <=? 57) || (97 <=? b) && (b <=? 102).

Definition validate_pin_tag (raw : str) : option str :=
  let s := to_ascii_lowercase (trim raw) in
  if negb (str_len s =? 16) then None
  else if negb (forallb is_tag_byte (str_bytes s)) then None
  else Some s.

Section admission.
Context `{Parsers}.

Definition room_key (room : Uuid) (pin_tag : str) : str :=
  as_hyphenated room ++ [124] ++ pin_tag.

(** How the first message is answered: the connection is dropped, refused with an
    error code, or goes on to [handle_role]. *)
Inductive admission :=
  | Dropped
  | Refused (error : string)
  | Accepted (key : str) (is_host : bool).

Definition handle_socket (first : received) : admission :=
  match first with
  | Received (Text join_msg) =>
      match join_from_str join_msg with
      | None => Refused "invalid_join_json"
      | Some join =>
          match uuid_parse_str (trim (room join)) with
          | None => Refused "invalid_room_uuid"
          | Some room =>
              match validate_pin_tag (pin_tag join) with
              | None => Refused "invalid_pin_tag"
              | Some pin_tag =>
                  let key := room_key room pin_tag in
                  match role join with
                  | Host => Accepted key true
                  | Guest => Accepted key false
                  end
              end
          end
      end
  | Received (Binary _) => Refused "expected_text_join_first"
  | Received (Close _) | Eof => Dropped
  | RecvError => Dropped
  | Received (Ping _) | Received (Pong _) => Refused "expected_text_join_first"
  end.

End admission.

(** * The forwarding loop *)

(** A message sent to a side, or its socket closed. *)
Inductive action := SendMsg (m : Message) | CloseSocket.

(** One round of the [select!] loop: which side produced what, and whether the send
    that follows succeeds. *)
Definition turn : Type := side * received * bool.

Definition close_both : list (side * action) := [(SideA, CloseSocket); (SideB, CloseSocket)].

(** What a round does, and whether the loop goes on after it. *)
Definition relay_turn (tn : turn) : list (side * action) * bool :=
  let '(x, msg, ok) := tn in
  match msg with
  | Received (Binary data) =>
      ((other x, SendMsg (Binary data)) :: (if ok then [] else close_both), ok)
  | Received (Ping v) => ([(x, SendMsg (Pong v))], true)
  | Received (Pong _) => ([], true)
  | Received (Close frame) => ((other x, SendMsg (Close frame)) :: close_both, false)
  | Received (Text _) => (close_both, false)
  | RecvError | Eof => (close_both, false)
  end.

Definition goes_on (tn : turn) : bool := (relay_turn tn).2.

Fixpoint relay_pair (turns : list turn) : list (side * action) :=
  match turns with
  | [] => []
  | tn :: turns =>
      let '(acts, on) := relay_turn tn in acts ++ (if on then relay_pair turns else [])
  end.

(** * The room table *)

(** A task is named by its connection; a waiting entry holds the connection's
    socket and the [Notify] its task will wait on. *)
Inductive RoomEntry :=
  | HostWaiting (ws notify : N)
  | GuestWaiting (ws notify : N).

Definition entry_ws (e : RoomEntry) : N :=
  match e with HostWaiting ws _ | GuestWaiting ws _ => ws end.
Definition entry_notify (e : RoomEntry) : N :=
  match e with HostWaiting _ n | GuestWaiting _ n => n end.
Definition entry_is_host (e : RoomEntry) : bool :=
  match e with HostWaiting _ _ => true | GuestWaiting _ _ => false end.

(** Where a task of [handle_role] stands: before the first lock, after it with a
    peer to notify, before the second lock, before and after [notified()] has been
    polled, in [relay_pair], or returned. *)
Inductive phase :=
  | Joining
  | Notifying (peer notify : N)
  | Acking
  | Parking
  | Parked
  | Relaying (a b : N)
  | Returned.

(** The JSON acknowledgement sent to a socket. *)
Record JoinAck := { ok : bool; waiting : option bool; error : option string }.

Definition ack_paired : JoinAck := {| ok := true; waiting := Some false; error := None |}.
Definition ack_waiting : JoinAck := {| ok := true; waiting := Some true; error := None |}.
(** [send_join_err]; the socket is closed after it. *)
Definition send_join_err (code : string) : JoinAck :=
  {| ok := false; waiting := None; error := Some code |}.

Record task := { t_key : str; t_host : bool; t_phase : phase }.

(** The server: the table, the tasks, the acknowledgements sent so far, and what the
    forwarding loop of each task has done so far. *)
Record hub := {
  rooms : gmap str RoomEntry;
  tasks : gmap N task;
  sent : list (N * JoinAck);
  wire : list (N * (side * action));
}.

Definition empty_hub : hub := {| rooms := ∅; tasks := ∅; sent := []; wire := [] |}.

Definition with_phase (p : phase) (t : task) : task :=
  {| t_key := t_key t; t_host := t_host t; t_phase := p |}.
Definition set_phase (i : N) (p : phase) (h : hub) : hub :=
  match tasks h !! i with
  | None => h
  | Some t =>
      {| rooms := rooms h; tasks := <[i := with_phase p t]> (tasks h); sent := sent h;
         wire := wire h |}
  end.
Definition set_rooms (r : gmap str RoomEntry) (h : hub) : hub :=
  {| rooms := r; tasks := tasks h; sent := sent h; wire := wire h |}.
Definition send (ws : N) (a : JoinAck) (h : hub) : hub :=
  {| rooms := rooms h; tasks := tasks h; sent := sent h ++ [(ws, a)]; wire := wire h |}.
Definition forward (i : N) (acts : list (side * action)) (h : hub) : hub :=
  {| rooms := rooms h; tasks := tasks h; sent := sent h; wire := wire h ++ (pair i <$> acts) |}.

Definition new_entry (is_host : bool) (i : N) : RoomEntry :=
  if is_host then HostWaiting i i else GuestWaiting i i.

(** [notify_waiters] wakes a task only if it is already waiting. *)
Definition notify_waiters (n : N) (h : hub) : hub :=
  match t_phase <$> tasks h !! n with
  | Some Parked => set_phase n Returned h
  | _ => h
  end.

(** The first critical section. *)
Definition join_section (i : N) (key : str) (is_host : bool) (h : hub) : hub :=
  match rooms h !! key with
  | Some e =>
      if eqb (entry_is_host e) is_host
      then set_phase i Returned
             (send i (send_join_err (if is_host then "duplicate_host" else "duplicate_guest")) h)
      else set_phase i (Notifying (entry_ws e) (entry_notify e))
             (set_rooms (delete key (rooms h)) h)
  | None =>
      set_phase i Acking (set_rooms (<[key := new_entry is_host i]> (rooms h)) h)
  end.

(** The second critical section; [send_ok] is the result of the send. *)
Definition ack_section (i : N) (key : str) (send_ok : bool) (h : hub) : hub :=
  match rooms h !! key with
  | None => set_phase i Returned h
  | Some e =>
      let h := send (entry_ws e) ack_waiting h in
      if send_ok then set_phase i Parking h
      else set_phase i Returned (set_rooms (delete key (rooms h)) h)
  end.

(** What task [i] does next. In [relay_pair] it waits for the sockets. *)
Definition run (i : N) (ok : bool) (h : hub) : hub :=
  match tasks h !! i with
  | None => h
  | Some t =>
      match t_phase t with
      | Joining => join_section i (t_key t) (t_host t) h
      | Notifying peer n =>
          let h := send i ack_paired (notify_waiters n h) in
          set_phase i (if t_host t then Relaying i peer else Relaying peer i) h
      | Acking => ack_section i (t_key t) ok h
      | Parking => set_phase i Parked h
      | Parked => h
      | Relaying _ _ => h
      | Returned => h
      end
  end.

(** A socket of task [i]'s pair has something: one round of its forwarding loop. *)
Definition run_turn (i : N) (tn : turn) (h : hub) : hub :=
  match t_phase <$> tasks h !! i with
  | Some (Relaying _ _) =>
      let '(acts, on) := relay_turn tn in
      let h := forward i acts h in
      if on then h else set_phase i Returned h
  | _ => h
  end.

(** A new connection that passed admission. *)
Definition connect (i : N) (key : str) (is_host : bool) (h : hub) : hub :=
  match tasks h !! i with
  | Some _ => h
  | None =>
      {| rooms := rooms h;
         tasks := <[i := {| t_key := key; t_host := is_host; t_phase := Joining |}]> (tasks h);
         sent := sent h; wire := wire h |}
  end.

Inductive event :=
  | Connect (i : N) (key : str) (is_host : bool)
  | Run (i : N) (ok : bool)
  | Turn (i : N) (tn : turn).

Definition hub_step (e : event) (h : hub) : hub :=
  match e with
  | Connect i key is_host => connect i key is_host h
  | Run i ok => run i ok h
  | Turn i tn => run_turn i tn h
  end.

Definition hub_run (es : list event) (h : hub) : hub := foldl (λ h e, hub_step e h) h es.

(** * Who holds which socket *)

(** The socket task [i] took out of the table. *)
Definition partner (i : N) (p : phase) : option N :=
  match p with
  | Notifying peer _ => Some peer
  | Relaying a b => Some (if a =? i then b else a)
  | _ => None
  end.

(** Phases after the own socket has been given to the table. *)
Definition waits (p : phase) : bool :=
  match p with Acking | Parking | Parked => true | _ => false end.
Definition gave_up (p : phase) : bool :=
  match p with Acking | Parking | Parked | Returned => true | _ => false end.

Definition well_shaped (i : N) (is_host : bool) (p : phase) : Prop :=
  match p with
  | Notifying peer n => n = peer
  | Relaying a b => if is_host then a = i else b = i ∧ a ≠ i
  | _ => True
  end.

(** [e] is the entry of the waiting task [t]. *)
Definition entry_of (e : RoomEntry) (key : str) (t : task) : Prop :=
  entry_notify e = entry_ws e ∧ t_key t = key ∧ t_host t = entry_is_host e ∧
  waits (t_phase t) = true.

(** [u] is the other half of [t]'s pair. *)
Definition paired (t u : task) : Prop :=
  t_key u = t_key t ∧ t_host u = negb (t_host t) ∧ gave_up (t_phase u) = true.

Record hub_inv (h : hub) : Prop := {
  inv_rooms : ∀ k e, rooms h !! k = Some e →
    ∃ t, tasks h !! entry_ws e = Some t ∧ entry_of e k t;
  inv_shape : ∀ i t, tasks h !! i = Some t → well_shaped i (t_host t) (t_phase t);
  inv_pair : ∀ i t j, tasks h !! i = Some t → partner i (t_phase t) = Some j →
    (∃ u, tasks h !! j = Some u ∧ paired t u) ∧
    ∀ k e, rooms h !! k = Some e → entry_ws e ≠ j;
  inv_excl : ∀ i1 i2 t1 t2 j, tasks h !! i1 = Some t1 → tasks h !! i2 = Some t2 →
    partner i1 (t_phase t1) = Some j → partner i2 (t_phase t2) = Some j → i1 = i2;
}.

(** One task moves to a new phase, and the table changes to [R]. *)
Section update.
Variables (h : hub) (i : N) (t : task) (p : phase) (R : gmap str RoomEntry)
  (log : list (N * JoinAck)).
Hypotheses (Hinv : hub_inv h) (Ht : tasks h !! i = Some t).
(** Every entry was there before or is the task's own. *)
Hypothesis Hrooms : ∀ k e, R !! k = Some e →
  rooms h !! k = Some e ∧ entry_ws e ≠ i ∨
  entry_ws e = i ∧ entry_of e k (with_phase p t) ∧
    (rooms h !! k = Some e ∨ gave_up (t_phase t) = false).
Hypothesis Hshape : well_shaped i (t_host t) p.
Hypothesis Hgave : gave_up (t_phase t) = true → gave_up p = true.
(** A partner is kept, or is the waiting entry just removed. *)
Hypothesis Hpartner : ∀ j, partner i p = Some j →
  partner i (t_phase t) = Some j ∨
  ∃ e, rooms h !! t_key t = Some e ∧ entry_ws e = j ∧ entry_is_host e = negb (t_host t) ∧
       gave_up (t_phase t) = false ∧ R !! t_key t = None.

Definition updated : hub :=
  {| rooms := R; tasks := <[i := with_phase p t]> (tasks h); sent := log; wire := wire h |}.

Lemma updated_task j u :
  tasks updated !! j = Some u →
  (j = i ∧ u = with_phase p t) ∨ (j ≠ i ∧ tasks h !! j = Some u).
Proof.
  simpl. destruct (decide (j = i)) as [->|Hne].
  - rewrite lookup_insert_eq. intros [= <-]. by left.
  - rewrite lookup_insert_ne by done. by right.
Qed.

Lemma updated_rooms_inv k e :
  R !! k = Some e → ∃ u, tasks updated !! entry_ws e = Some u ∧ entry_of e k u.
Proof.
  intros He. destruct (Hrooms k e He) as [[Hold Hne]|(Hi&Hof&_)].
  - destruct (inv_rooms h Hinv k e Hold) as (u&Hu&Hof). exists u. simpl.
    by rewrite lookup_insert_ne.
  - exists (with_phase p t). simpl. rewrite Hi. by rewrite lookup_insert_eq.
Qed.

(** Whoever was paired with some task still is, in whatever phase it moved to. *)
Lemma updated_paired t1 j u :
  tasks h !! j = Some u → paired t1 u → ∃ u', tasks updated !! j = Some u' ∧ paired t1 u'.
Proof.
  intros Hu (?&?&?). simpl. destruct (decide (j = i)) as [->|Hne].
  - rewrite lookup_insert_eq. eexists. split; [done|]. simplify_eq. split_and!; [done..|].
    by apply Hgave.
  - rewrite lookup_insert_ne by done. by exists u.
Qed.

(** A socket some task holds does not come back into the table. *)
Lemma updated_not_waiting i1 t1 j k e :
  tasks h !! i1 = Some t1 → partner i1 (t_phase t1) = Some j → R !! k = Some e →
  entry_ws e ≠ j.
Proof.
  intros Ht1 Hp1 He Hj. destruct (inv_pair h Hinv i1 t1 j Ht1 Hp1) as [(u&Hu&_&_&Hg) Hno].
  destruct (Hrooms k e He) as [[Hold _]|(Hi&_&[Hold|Hn])]; [by eapply Hno..|].
  subst j. rewrite Hi in Hu. congruence.
Qed.

(** The entry a task takes belonged to nobody else's pair. *)
Lemma taken_unheld i1 t1 e :
  tasks h !! i1 = Some t1 → rooms h !! t_key t = Some e →
  partner i1 (t_phase t1) ≠ Some (entry_ws e).
Proof.
  intros Ht1 He Hp1. destruct (inv_pair h Hinv i1 t1 _ Ht1 Hp1) as [_ Hno]. by eapply Hno.
Qed.

Lemma updated_pair_inv i1 t1 j :
  tasks updated !! i1 = Some t1 → partner i1 (t_phase t1) = Some j →
  (∃ u, tasks updated !! j = Some u ∧ paired t1 u) ∧ ∀ k e, R !! k = Some e → entry_ws e ≠ j.
Proof.
  intros [[-> ->]|[Hne Ht1]]%updated_task Hp1.
  - destruct (Hpartner j Hp1) as [Hold|(e&He&<-&Hrole&Hn&HR)].
    + destruct (inv_pair h Hinv i t j Ht Hold) as [(u&Hu&Hpu) _]. split.
      * by apply (updated_paired (with_phase p t) j u).
      * intros k e. by apply (updated_not_waiting i t).
    + destruct (inv_rooms h Hinv _ _ He) as (u&Hu&Hnot&Hk&Hh&Hw). split.
      * apply (updated_paired (with_phase p t) _ u); [done|]. split_and!; [done|by rewrite Hh, Hrole|].
        by destruct (t_phase u).
      * intros k e' He' Hws. destruct (Hrooms k e' He') as [[Hold _]|(Hi&_)].
        -- destruct (inv_rooms h Hinv _ _ Hold) as (u'&Hu'&_&Hk'&_).
           rewrite Hws, Hu in Hu'. injection Hu' as <-. congruence.
        -- rewrite <- Hws, Hi, Ht in Hu. injection Hu as <-. by destruct (t_phase t).
  - destruct (inv_pair h Hinv i1 t1 j Ht1 Hp1) as [(u&Hu&Hpu) _]. split.
    + by apply (updated_paired t1 j u).
    + intros k e. by apply (updated_not_waiting i1 t1).
Qed.

Lemma updated_inv : hub_inv updated.
Proof.
  split.
  - apply updated_rooms_inv.
  - intros j u [[-> ->]|[_ Hu]]%updated_task; [done|by apply (inv_shape h Hinv)].
  - apply updated_pair_inv.
  - assert (∀ i2 t2 j, tasks h !! i2 = Some t2 → i2 ≠ i → partner i p = Some j →
      partner i2 (t_phase t2) ≠ Some j) as Hother.
    { intros i2 t2 j Ht2 Hne Hp Hp2. destruct (Hpartner j Hp) as [Hold|(e&He&<-&_)].
      - by apply Hne, (inv_excl h Hinv i2 i t2 t j).
      - by apply (taken_unheld i2 t2 e). }
    intros i1 i2 t1 t2 j [[-> ->]|[Hne1 Ht1]]%updated_task [[-> ->]|[Hne2 Ht2]]%updated_task
      Hp1 Hp2; [done| | |by apply (inv_excl h Hinv i1 i2 t1 t2 j)].
    + by destruct (Hother i2 t2 j).
    + by destruct (Hother i1 t1 j).
Qed.

End update.

(** ** Every step keeps the invariant *)

Lemma set_phase_eq i p h t :
  tasks h !! i = Some t → set_phase i p h = updated h i t p (rooms h) (sent h).
Proof. intros Ht. unfold set_phase. by rewrite Ht. Qed.

(** A task that moves on without touching the table. *)
Lemma phase_inv h i t p log :
  hub_inv h → tasks h !! i = Some t →
  (waits (t_phase t) = true → waits p = true ∨ rooms h !! t_key t = None) →
  well_shaped i (t_host t) p → (gave_up (t_phase t) = true → gave_up p = true) →
  (∀ j, partner i p = Some j → partner i (t_phase t) = Some j) →
  hub_inv (updated h i t p (rooms h) log).
Proof.
  intros Hinv Ht Hw Hs Hg Hp. apply updated_inv; try done.
  - intros k e He. destruct (inv_rooms h Hinv k e He) as (u&Hu&Hof).
    destruct (decide (entry_ws e = i)) as [Hi|Hne]; [|by left].
    right. rewrite Hi in Hu. simplify_eq. destruct Hof as (?&?&?&Hwt).
    split_and!; [done| |by left]. destruct (Hw Hwt) as [?|Hnone]; [by split_and!|].
    by simplify_eq.
  - intros j Hj. left. by apply Hp.
Qed.

Lemma join_inv h i t ok :
  hub_inv h → tasks h !! i = Some t → t_phase t = Joining → hub_inv (run i ok h).
Proof.
  intros Hinv Ht Hph. unfold run, join_section. rewrite Ht, Hph.
  assert (∀ k e, rooms h !! k = Some e → entry_ws e ≠ i) as Hno.
  { intros k e He Hi. destruct (inv_rooms h Hinv k e He) as (u&Hu&_&_&_&Hw).
    rewrite Hi in Hu. simplify_eq. by rewrite Hph in Hw. }
  destruct (rooms h !! t_key t) as [e|] eqn:He.
  - destruct (eqb (entry_is_host e) (t_host t)) eqn:Hrole.
    + erewrite set_phase_eq by done. by apply (phase_inv h); rewrite ?Hph.
    + erewrite set_phase_eq by done. apply (updated_inv h i t); try done.
      * intros k e' He'. simpl in He'. apply lookup_delete_Some in He' as [Hne He']. left. split; [done|by eapply Hno].
      * destruct (inv_rooms h Hinv _ _ He) as (u&_&Hn&_). done.
      * by rewrite Hph.
      * intros j [= <-]. right. exists e. split_and!; [done|done| |by rewrite Hph|].
        -- by destruct (entry_is_host e), (t_host t).
        -- apply lookup_delete_eq.
  - erewrite set_phase_eq by done. apply (updated_inv h i t); try done.
    intros k e He'. simpl in He'. apply lookup_insert_Some in He' as [[<- <-]|[Hne He']].
    + right. rewrite Hph. unfold entry_of. simpl. split_and!; try by destruct (t_host t). by right.
    + left. split; [done|by eapply Hno].
Qed.

Lemma ack_inv h i t ok :
  hub_inv h → tasks h !! i = Some t → t_phase t = Acking → hub_inv (run i ok h).
Proof.
  intros Hinv Ht Hph. unfold run, ack_section. rewrite Ht, Hph.
  destruct (rooms h !! t_key t) as [e|] eqn:He.
  - destruct ok; erewrite set_phase_eq by done.
    + by apply (phase_inv h); rewrite ?Hph; auto.
    + apply (updated_inv h i t); try done.
      intros k e' He'. simpl in He'. apply lookup_delete_Some in He' as [Hne He'].
      left. split; [done|]. intros Hi.
      destruct (inv_rooms h Hinv k e' He') as (u&Hu&_&Hk&_). rewrite Hi in Hu. simplify_eq.
  - erewrite set_phase_eq by done. by apply (phase_inv h); rewrite ?Hph; auto.
Qed.

(** Waking a task whose socket is in a pair. *)
Lemma notify_inv h n :
  hub_inv h → (∀ k e, rooms h !! k = Some e → entry_ws e ≠ n) → hub_inv (notify_waiters n h).
Proof.
  intros Hinv Hno. unfold notify_waiters. destruct (tasks h !! n) as [t|] eqn:Ht; [|done].
  simpl. destruct (t_phase t) eqn:Hph; try done.
  erewrite set_phase_eq by done. apply (updated_inv h n t); try done.
  intros k e He. left. split; [done|by eapply Hno].
Qed.

Lemma notify_rooms n h : rooms (notify_waiters n h) = rooms h.
Proof.
  unfold notify_waiters, set_phase. destruct (tasks h !! n) as [t|]; [|done]. simpl.
  by destruct (t_phase t).
Qed.

Lemma notify_other n h i : i ≠ n → tasks (notify_waiters n h) !! i = tasks h !! i.
Proof.
  intros Hne. unfold notify_waiters, set_phase. destruct (tasks h !! n) as [t|]; [|done]. simpl.
  destruct (t_phase t); try done. simpl. by rewrite lookup_insert_ne.
Qed.

Lemma relay_inv h i t peer n ok :
  hub_inv h → tasks h !! i = Some t → t_phase t = Notifying peer n → hub_inv (run i ok h).
Proof.
  intros Hinv Ht Hph. unfold run. rewrite Ht, Hph. cbv zeta.
  pose proof (inv_shape h Hinv i t Ht) as Hsh. rewrite Hph in Hsh. simpl in Hsh. subst n.
  destruct (inv_pair h Hinv i t peer Ht) as [(u&Hu&_&_&Hg) Hno]; [by rewrite Hph|].
  assert (i ≠ peer) as Hne by (intros ->; simplify_eq; by rewrite Hph in Hg).
  pose proof (notify_inv h peer Hinv Hno) as Hinv'.
  assert (tasks (notify_waiters peer h) !! i = Some t) as Ht' by by rewrite notify_other.
  erewrite set_phase_eq by done. apply (phase_inv (notify_waiters peer h)); try done;
    rewrite ?Hph; try done.
  - destruct (t_host t); simpl; [done|]. split; congruence.
  - intros j. destruct (t_host t); simpl.
    + by rewrite N.eqb_refl.
    + by rewrite eqb_false by congruence.
Qed.

Lemma run_inv i ok h : hub_inv h → hub_inv (run i ok h).
Proof.
  intros Hinv. destruct (tasks h !! i) as [t|] eqn:Ht; [|by unfold run; rewrite Ht].
  destruct (t_phase t) eqn:Hph; eauto using join_inv, ack_inv, relay_inv;
    unfold run; rewrite Ht, Hph; try done; erewrite set_phase_eq by done.
  by apply (phase_inv h); rewrite ?Hph; auto.
Qed.

Lemma forward_inv i acts h : hub_inv h → hub_inv (forward i acts h).
Proof. by intros []. Qed.

Lemma run_turn_inv i tn h : hub_inv h → hub_inv (run_turn i tn h).
Proof.
  intros Hinv. unfold run_turn. destruct (tasks h !! i) as [t|] eqn:Ht; [|done]. simpl.
  destruct (t_phase t) eqn:Hph; try done. destruct (relay_turn tn) as [acts on].
  pose proof (forward_inv i acts h Hinv) as Hinv'. cbv zeta. destruct on; [done|].
  erewrite set_phase_eq by done. by apply (phase_inv (forward i acts h)); rewrite ?Hph.
Qed.

Lemma connect_inv i key is_host h : hub_inv h → hub_inv (connect i key is_host h).
Proof.
  intros Hinv. unfold connect. destruct (tasks h !! i) as [t|] eqn:Ht; [done|].
  assert (∀ j u t0, tasks h !! j = Some u → <[i := t0]> (tasks h) !! j = Some u) as Hold.
  { intros j u t0 Hu. rewrite lookup_insert_ne; [done|]. intros ->. congruence. }
  split; simpl.
  - intros k e He. destruct (inv_rooms h Hinv k e He) as (u&Hu&Hof). exists u.
    split; [by apply Hold|done].
  - intros j u [[<- <-]|[_ Hu]]%lookup_insert_Some; [done|by apply (inv_shape h Hinv)].
  - intros i1 t1 j [[<- <-]|[_ Ht1]]%lookup_insert_Some Hp; [done|].
    destruct (inv_pair h Hinv i1 t1 j Ht1 Hp) as [(u&Hu&Hpu) Hno]. split; [|done].
    exists u. split; [by apply Hold|done].
  - intros i1 i2 t1 t2 j [[<- <-]|[_ Ht1]]%lookup_insert_Some
      [[<- <-]|[_ Ht2]]%lookup_insert_Some Hp1 Hp2; try done.
    by apply (inv_excl h Hinv i1 i2 t1 t2 j).
Qed.

Lemma empty_hub_inv : hub_inv empty_hub.
Proof. by split; simpl. Qed.

Lemma hub_run_inv es h : hub_inv h → hub_inv (hub_run es h).
Proof.
  revert h; induction es as [|[i key r|i ok|i tn] es IH]; intros h Hh; [done|..]; apply IH; simpl;
    auto using run_inv, run_turn_inv, connect_inv.
Qed.

(** * Tasks nobody will wake *)

(** Task [i] waits, but its entry is gone and nobody is about to notify it. *)
Definition orphan (i : N) (h : hub) : Prop :=
  (∃ t, tasks h !! i = Some t ∧ t_phase t = Parked) ∧
  (∀ k e, rooms h !! k = Some e → entry_notify e ≠ i) ∧
  (∀ j t peer n, tasks h !! j = Some t → t_phase t = Notifying peer n → n ≠ i).

(** Another task moves on; it may only add its own entry and take over a notify
    other than [i]. *)
Lemma orphan_update i h j t p R log :
  orphan i h → tasks h !! j = Some t → j ≠ i →
  (∀ k e, R !! k = Some e → rooms h !! k = Some e ∨ entry_notify e = j) →
  (∀ peer n, p = Notifying peer n → n ≠ i) →
  orphan i (updated h j t p R log).
Proof.
  intros ((u&Hu&Hph)&Hr&Hn) Ht Hne HR Hp. split_and!; simpl.
  - exists u. by rewrite lookup_insert_ne.
  - intros k e [Hold| ->]%HR; [by eapply Hr|done].
  - intros j' t' peer n [[<- <-]|[_ Ht']]%lookup_insert_Some Hph'; [by eapply Hp|by eapply Hn].
Qed.

Lemma orphan_notify i n h : orphan i h → n ≠ i → orphan i (notify_waiters n h).
Proof.
  intros Ho Hne. unfold notify_waiters. destruct (tasks h !! n) as [t|] eqn:Ht; [|done].
  simpl. destruct (t_phase t); try done. erewrite set_phase_eq by done.
  apply orphan_update; try done. by left.
Qed.

Lemma orphan_run i j ok h : orphan i h → orphan i (run j ok h).
Proof.
  intros Ho. unfold run. destruct (tasks h !! j) as [t|] eqn:Ht; [|done].
  pose proof Ho as ((u&Hu&Hph)&Hr&Hn).
  destruct (decide (j = i)) as [->|Hne]; [by simplify_eq; rewrite Hph|].
  assert (∀ p R log, (∀ k e, R !! k = Some e → rooms h !! k = Some e ∨ entry_notify e = j) →
    (∀ peer n, p = Notifying peer n → n ≠ i) → orphan i (updated h j t p R log)) as Hup
    by (intros; by apply orphan_update).
  assert (∀ k k' e, delete k (rooms h) !! k' = Some e →
    rooms h !! k' = Some e ∨ entry_notify e = j) as Hdel
    by (intros k k' e [_ ?]%lookup_delete_Some; by left).
  destruct (t_phase t) as [|peer n| | | |a b|] eqn:Hpt; try done; unfold join_section, ack_section.
  - destruct (rooms h !! t_key t) as [e|] eqn:He.
    + destruct (eqb _ _); erewrite set_phase_eq by done.
      * apply Hup; [by left|done].
      * apply Hup; [apply Hdel|]. intros peer n [= <- <-]. by eapply Hr.
    + erewrite set_phase_eq by done. apply Hup; [|done].
      intros k e He'. simpl in He'. apply lookup_insert_Some in He' as [[<- <-]|[_ ?]];
        [right; by destruct (t_host t)|by left].
  - cbv zeta. pose proof (Hn j t peer n Ht Hpt) as Hni.
    destruct (decide (n = j)) as [->|Hnj].
    + assert (notify_waiters j h = h) as -> by (unfold notify_waiters; by rewrite Ht; simpl; rewrite Hpt).
      erewrite set_phase_eq by done. apply Hup; [by left|]. by destruct (t_host t).
    + pose proof (orphan_notify i n h Ho Hni) as Ho'.
      erewrite set_phase_eq by (simpl; rewrite notify_other by done; done).
      apply (orphan_update i (notify_waiters n h)); try done.
      * by rewrite notify_other.
      * by left.
      * by destruct (t_host t).
  - destruct (rooms h !! t_key t) as [e|]; [destruct ok|]; erewrite set_phase_eq by done;
      (apply Hup; [first [apply Hdel|by left]|done]).
  - erewrite set_phase_eq by done. apply Hup; [by left|done].
Qed.

Lemma orphan_turn i j tn h : orphan i h → orphan i (run_turn j tn h).
Proof.
  intros Ho. unfold run_turn. destruct (tasks h !! j) as [t|] eqn:Ht; [|done]. simpl.
  destruct (t_phase t) eqn:Hpt; try done. destruct (relay_turn tn) as [acts on].
  assert (orphan i (forward j acts h)) as Ho' by done. cbv zeta. destruct on; [done|].
  erewrite set_phase_eq by done. apply orphan_update; try done; [|by left].
  intros ->. destruct Ho as ((u&Hu&Hph)&_). congruence.
Qed.

Lemma orphan_connect i j key r h : orphan i h → orphan i (connect j key r h).
Proof.
  intros ((u&Hu&Hph)&Hr&Hn). unfold connect. destruct (tasks h !! j) as [t|] eqn:Ht.
  { split_and!; eauto. }
  split_and!; simpl; [|done|].
  - exists u. rewrite lookup_insert_ne by congruence. done.
  - intros j' t' peer n [[<- <-]|[_ Ht']]%lookup_insert_Some Hph'; [done|by eapply Hn].
Qed.

Lemma orphan_forever i es h : orphan i h → orphan i (hub_run es h).
Proof.
  revert h; induction es as [|[j key r|j ok|j tn] es IH]; intros h Hh; [done|..]; apply IH; simpl;
    auto using orphan_run, orphan_turn, orphan_connect.
Qed.

(** * Tags and keys *)

Lemma tag_char c : forallb is_tag_byte (utf8_char c) = is_tag_byte c.
Proof.
  unfold utf8_char. destruct (N.ltb_spec c 128); [by simpl; rewrite andb_true_r|].
  assert (∀ x l, 192 <= x → forallb is_tag_byte (x :: l) = false) as Hlead.
  { intros x l Hx. simpl. unfold is_tag_byte. by rewrite (leb_false x 57), (leb_false x 102), !andb_false_r by lia. }
  assert (is_tag_byte c = false) as ->
    by (unfold is_tag_byte; by rewrite (leb_false c 57), (leb_false c 102), !andb_false_r by lia).
  destruct (c <? 2048); [|destruct (c <? 65536)]; apply Hlead;
    (etrans; [|apply N.le_add_r]); lia.
Qed.

(** A string of tag bytes is its own UTF-8 encoding. *)
Lemma tag_bytes s :
  forallb is_tag_byte (str_bytes s) = forallb is_tag_byte s ∧
  (forallb is_tag_byte s = true → str_bytes s = s).
Proof.
  induction s as [|c s [IH1 IH2]]; [done|]. unfold str_bytes in *. cbn [mbind list_bind].
  rewrite forallb_app, tag_char, IH1. split; [done|].
  cbn [forallb]. intros [Hc Hs]%andb_true_iff. rewrite IH2 by done.
  unfold utf8_char. rewrite ltb_true; [done|].
  unfold is_tag_byte in Hc. destruct (N.leb_spec c 57); [lia|].
  destruct (N.leb_spec c 102); [lia|]. by rewrite !andb_false_r in Hc.
Qed.

(** A valid tag is exactly sixteen lower-case hexadecimal characters after trimming
    and lower-casing. *)
Lemma validate_pin_tag_Some raw tag :
  validate_pin_tag raw = Some tag ↔
    tag = to_ascii_lowercase (trim raw) ∧ length tag = 16%nat ∧ forallb is_tag_byte tag = true.
Proof.
  unfold validate_pin_tag. cbv zeta. set (s := to_ascii_lowercase (trim raw)).
  destruct (tag_bytes s) as [Hall Hid]. unfold str_len. rewrite Hall.
  destruct (forallb is_tag_byte s) eqn:Hs.
  - rewrite Hid by done. unfold len.
    destruct (N.eqb_spec (N.of_nat (length s)) 16) as [Hl|Hl]; simpl.
    + split; [intros [= <-]; split_and!; [done|lia|done]|by intros (->&_)].
    + split; [done|]. intros (->&?&_). lia.
  - destruct (_ =? 16); simpl; (split; [done|]); intros (->&_&?); congruence.
Qed.

(** * Properties *)

(** C8: pairing. Under every interleaving of connection tasks, failing sends
    included, a running pair joins one host and one guest that asked for the same
    key, neither of their sockets is still in the room table, and no socket is in
    two pairs. *)
Theorem relay_pairs_exclusive es i t a b :
  let h := hub_run es empty_hub in
  tasks h !! i = Some t → t_phase t = Relaying a b →
  (∃ ta tb, tasks h !! a = Some ta ∧ tasks h !! b = Some tb ∧
     t_key ta = t_key tb ∧ t_host ta = true ∧ t_host tb = false) ∧
  (∀ k e, rooms h !! k = Some e → entry_ws e ≠ a ∧ entry_ws e ≠ b) ∧
  (∀ i' t' a' b', tasks h !! i' = Some t' → t_phase t' = Relaying a' b' →
     a = a' ∨ a = b' ∨ b = a' ∨ b = b' → i = i').
Proof.
  cbv zeta. set (h := hub_run es empty_hub).
  assert (hub_inv h) as Hinv by apply hub_run_inv, empty_hub_inv.
  (* a relaying task is one half of its pair and the other half gave its socket away *)
  assert (∀ i t a b, tasks h !! i = Some t → t_phase t = Relaying a b →
    ∃ j u, tasks h !! j = Some u ∧ paired t u ∧ partner i (t_phase t) = Some j ∧
      (a, b) = (if t_host t then (i, j) else (j, i))) as Hpair.
  { intros i0 t0 a0 b0 Ht0 Hph0. pose proof (inv_shape h Hinv i0 t0 Ht0) as Hsh.
    rewrite Hph0 in Hsh. simpl in Hsh.
    assert (partner i0 (t_phase t0) = Some (if t_host t0 then b0 else a0)) as Hp.
    { rewrite Hph0. simpl. destruct (t_host t0); [by rewrite Hsh, N.eqb_refl|].
      destruct Hsh. by rewrite eqb_false. }
    destruct (inv_pair h Hinv i0 t0 _ Ht0 Hp) as [(u&Hu&Hpu) _]. eexists _, u.
    split_and!; [done..|]. destruct (t_host t0); naive_solver. }
  intros Ht Hph. destruct (Hpair i t a b Ht Hph) as (j&u&Hu&(Hk&Hr&Hg)&Hp&Hab).
  destruct (inv_pair h Hinv i t j Ht Hp) as [_ Hno].
  assert (∀ k e, rooms h !! k = Some e → entry_ws e ≠ i) as Hno_i.
  { intros k e He Hi. destruct (inv_rooms h Hinv k e He) as (v&Hv&_&_&_&Hw).
    rewrite Hi, Ht in Hv. injection Hv as <-. by rewrite Hph in Hw. }
  split_and!.
  - destruct (t_host t) eqn:Hth; injection Hab as -> ->; [exists t, u|exists u, t];
      rewrite ?Hth in Hr; split_and!; done.
  - intros k e He. destruct (t_host t); injection Hab as -> ->; split; by eauto.
  - intros i' t' a' b' Ht' Hph' Hshare.
    destruct (Hpair i' t' a' b' Ht' Hph') as (j'&u'&Hu'&(Hk'&Hr'&Hg')&Hp'&Hab').
    assert (i = i' ∨ i = j' ∨ j = i' ∨ j = j') as [?|[-> |[-> | ->]]]
      by (destruct (t_host t), (t_host t'); injection Hab as -> ->; injection Hab' as -> ->; tauto).
    + done.
    + rewrite Ht in Hu'. injection Hu' as <-. by rewrite Hph in Hg'.
    + rewrite Ht' in Hu. injection Hu as <-. by rewrite Hph' in Hg.
    + by apply (inv_excl h Hinv i i' t t' j').
Qed.

(** C28: rooms. Two connections are admitted under the same key only if they named
    the same room and the same tag, and a tag is always sixteen lower-case
    hexadecimal digits, whatever the client typed around them. *)
Theorem same_key_same_room_and_tag {P : Parsers} {HP : UuidLaws P} first1 first2 key host1 host2 :
  handle_socket first1 = Accepted key host1 → handle_socket first2 = Accepted key host2 →
  ∃ m1 m2 j1 j2 u tag,
    first1 = Received (Text m1) ∧ first2 = Received (Text m2) ∧
    join_from_str m1 = Some j1 ∧ join_from_str m2 = Some j2 ∧
    uuid_parse_str (trim (room j1)) = Some u ∧ uuid_parse_str (trim (room j2)) = Some u ∧
    to_ascii_lowercase (trim (pin_tag j1)) = tag ∧
    to_ascii_lowercase (trim (pin_tag j2)) = tag ∧
    length tag = 16%nat ∧ forallb is_tag_byte tag = true.
Proof.
  assert (∀ first k host, handle_socket first = Accepted k host → ∃ m j u tag,
    first = Received (Text m) ∧ join_from_str m = Some j ∧
    uuid_parse_str (trim (room j)) = Some u ∧ validate_pin_tag (pin_tag j) = Some tag ∧
    k = room_key u tag) as Hadm.
  { intros first k host. unfold handle_socket. destruct first as [| |[m| | | |]]; try done.
    destruct (join_from_str m) as [j|] eqn:Hj; [|done].
    destruct (uuid_parse_str _) as [u|] eqn:Hu; [|done].
    destruct (validate_pin_tag _) as [tag|] eqn:Htag; [|done].
    intros Heq. exists m, j, u, tag. split_and!; try done.
    by destruct (role j); injection Heq. }
  intros (m1&j1&u1&tag1&->&Hj1&Hu1&Ht1&->)%Hadm (m2&j2&u2&tag2&->&Hj2&Hu2&Ht2&Hk)%Hadm.
  unfold room_key in Hk. apply app_inj_1 in Hk as [Hu Ht]; [|by rewrite !hyphenated_len].
  apply hyphenated_inj in Hu as ->. apply (app_inv_head [124]) in Ht as ->.
  apply validate_pin_tag_Some in Ht1 as (->&Hl&Hf). apply validate_pin_tag_Some in Ht2 as (Heq&_).
  by exists m1, m2, j1, j2, u2, (to_ascii_lowercase (trim (pin_tag j1))).
Qed.

(** ** Forwarding *)

(** The payloads of the binary messages a list of actions sends to one side. *)
Definition binaries_to (y : side) (acts : list (side * action)) : list bytes :=
  omap (λ '(x, a), match a with
    | SendMsg (Binary d) => match x, y with SideA, SideA | SideB, SideB => Some d | _, _ => None end
    | _ => None end) acts.

(** The payloads of the binary messages one side produced. *)
Definition binaries_from (x : side) (turns : list turn) : list bytes :=
  omap (λ '(y, msg, _), match msg with
    | Received (Binary d) => match x, y with SideA, SideA | SideB, SideB => Some d | _, _ => None end
    | _ => None end) turns.

(** The turns the loop takes: up to and including the one that ends it. *)
Fixpoint taken (turns : list turn) : list turn :=
  match turns with
  | [] => []
  | tn :: turns => if goes_on tn then tn :: taken turns else [tn]
  end.

(** The relay is transparent and nothing more. In every run of the loop each
    side is sent exactly the binary payloads the other side produced, unchanged and
    in order, up to the turn that ends the loop; no text is ever forwarded; and
    once a turn ends the loop both sockets are closed. *)
Lemma relay_pair_transparent turns :
  (∀ x, binaries_to (other x) (relay_pair turns) = binaries_from x (taken turns)) ∧
  (∀ y m, (y, SendMsg (Text m)) ∉ relay_pair turns) ∧
  (existsb (negb ∘ goes_on) turns = true → suffix close_both (relay_pair turns)).
Proof.
  induction turns as [|[[y msg] ok] turns (IH1&IH2&IH3)].
  { split_and!; [done|intros; apply not_elem_of_nil|done]. }
  assert (∀ y m, (y, SendMsg (Text m)) ∉ close_both) as Hno by (intros y' m'; set_solver).
  assert (∀ act, suffix close_both (relay_pair turns) →
    suffix close_both (act :: relay_pair turns)) as Hsuf
    by (intros act Hs; by apply suffix_cons_r).
  cbn [relay_pair taken existsb compose relay_turn]. unfold goes_on. cbn [relay_turn snd].
  destruct msg as [| |[m|d|v|v|f]]; cbn [snd negb orb app].
  4: destruct ok; cbn [negb orb app].
  all: split_and!.
  all: try (intros x; destruct x, y;
    first [reflexivity | exact (IH1 SideA) | exact (IH1 SideB)
          | exact (f_equal (cons _) (IH1 SideA)) | exact (f_equal (cons _) (IH1 SideB))]).
  all: try (intros y' m'; rewrite ?not_elem_of_cons; by auto).
  all: intros; eauto using suffix_cons_r.
Qed.

Definition notifies (i : N) (p : phase) : bool :=
  match p with Notifying _ n => n =? i | _ => false end.

(** A host enters the table, a guest pairs with it before it has sent its own
    acknowledgement, and a second host takes the freed slot. *)
Definition race : list event :=
  let k := str_of "room|0123456789abcdef" in
  [ Connect 1 k true; Run 1 true;   (* host 1 stored, about to acknowledge *)
    Connect 2 k false; Run 2 true;  (* guest 2 takes host 1's socket *)
    Run 2 true;                     (* notifies: host 1 is not waiting yet *)
    Connect 3 k true; Run 3 true;   (* host 3 stored under the same key *)
    Run 1 true;                     (* task 1 acknowledges on socket 3 *)
    Run 1 true; Run 3 true ].       (* task 1 waits; task 3 acknowledges too *)

(** C37: the acknowledgement race. In this interleaving the waiting acknowledgement
    meant for the first host goes to the second one, which receives it twice, and
    the first host's task misses its notification: it stays parked for ever, under
    every continuation. *)
Theorem lost_wakeup_leaks_task es :
  let h := hub_run race empty_hub in
  sent h = [(2, ack_paired); (3, ack_waiting); (3, ack_waiting)] ∧
  t_phase <$> tasks h !! 2 = Some (Relaying 1 2) ∧
  t_phase <$> tasks (hub_run es h) !! 1 = Some Parked.
Proof.
  cbv zeta. split_and!; [by vm_compute..|].
  destruct (orphan_forever 1 es (hub_run race empty_hub)) as [(t&Ht&Hph) _].
  - split_and!.
    + eexists. split; [vm_compute; reflexivity|done].
    + assert (map_Forall (λ _ e, entry_notify e ≠ 1) (rooms (hub_run race empty_hub))) as Hr
        by (apply (bool_decide_unpack _); by vm_compute).
      intros k e He. by apply (Hr k e).
    + assert (map_Forall (λ _ t, notifies 1 (t_phase t) = false)
        (tasks (hub_run race empty_hub))) as Hr
        by (apply (bool_decide_unpack _); by vm_compute).
      intros j t peer n Ht Hph ->. pose proof (Hr j t Ht) as Hj. simpl in Hj. by rewrite Hph in Hj.
  - rewrite Ht. simpl. by rewrite Hph.
Qed.

(** ** Concrete instances *)

Lemma relay_pairs_exclusive_witness :
  ∃ ta tb, tasks (hub_run race empty_hub) !! 1 = Some ta ∧
    tasks (hub_run race empty_hub) !! 2 = Some tb ∧
    t_key ta = t_key tb ∧ t_host ta = true ∧ t_host tb = false.
Proof.
  destruct (tasks (hub_run race empty_hub) !! 2) as [t|] eqn:Ht; [|vm_compute in Ht; discriminate].
  refine (eq_rect _ (λ x, ∃ ta tb, _ ∧ x = Some tb ∧ _ ∧ _ ∧ _) _ _ Ht).
  refine (proj1 (relay_pairs_exclusive race 2 t 1 2 Ht _)).
  vm_compute in Ht. injection Ht as <-. reflexivity.
Defined.

(** Parsers for evaluation: the message is the tag, identifiers print as 36 equal
    characters. *)
#[local] Instance toy_parsers : Parsers := {|
  Uuid := N;
  join_from_str m := Some {| room := [97]; pin_tag := m; role := Guest |};
  uuid_parse_str s := head s;
  as_hyphenated u := replicate 36 u;
|}.
#[local] Instance toy_parsers_laws : UuidLaws toy_parsers.
Proof. split; [intros u; apply length_replicate|]. intros u v. by intros [= ->]. Qed.

Lemma same_key_same_room_and_tag_witness :
  ∃ m1 m2 j1 j2 u tag,
    Received (Text (str_of " ABCDEF0123456789 ")) = Received (Text m1) ∧
    Received (Text (str_of "abcdef0123456789")) = Received (Text m2) ∧
    join_from_str m1 = Some j1 ∧ join_from_str m2 = Some j2 ∧
    uuid_parse_str (trim (room j1)) = Some u ∧ uuid_parse_str (trim (room j2)) = Some u ∧
    to_ascii_lowercase (trim (pin_tag j1)) = tag ∧
    to_ascii_lowercase (trim (pin_tag j2)) = tag ∧
    length tag = 16%nat ∧ forallb is_tag_byte tag = true.
Proof.
  refine (same_key_same_room_and_tag _ _
    (replicate 36 97 ++ [124] ++ str_of "abcdef0123456789") false false _ _);
    vm_compute; reflexivity.
Defined.

