(* ===== verification/HubLive.v ===== *)
(** Progress of the relay server of src/crates/libgary-relay/src/main.rs: every
    connection task is waiting, forwarding or done after a bounded number of its own
    steps, a host and a guest of one room meet however the tasks interleave, and what
    start-up and the plain HTTP routes do. *)

From S2P Require Import Prelude Hub.

(** * Steps a task has left *)

(** Until it is parked, waiting to be notified, in its forwarding loop, or has
    returned. *)
Definition left (p : phase) : nat :=
  match p with
  | Joining => 3
  | Acking => 2
  | Notifying _ _ | Parking => 1
  | Parked | Relaying _ _ | Returned => 0
  end.

Definition settled (p : phase) : bool :=
  match p with Parked | Relaying _ _ | Returned => true | _ => false end.

Lemma left_settled p : left p = 0%nat → settled p = true.
Proof. by destruct p. Qed.

(** The phase of task [i], if it exists. *)
Definition phase_of (i : N) (h : hub) : option phase := t_phase <$> tasks h !! i.

Lemma phase_set_phase i p j h :
  phase_of i (set_phase j p h) =
    if bool_decide (i = j) then (λ _, p) <$> phase_of i h else phase_of i h.
Proof.
  unfold phase_of, set_phase. case_bool_decide as Hij.
  - subst j. destruct (tasks h !! i) as [t|] eqn:Ht; simpl; rewrite ?lookup_insert_eq, ?Ht; done.
  - destruct (tasks h !! j) as [t|]; [|done]. simpl. by rewrite lookup_insert_ne.
Qed.

Lemma phase_notify i n h :
  phase_of i (notify_waiters n h) = phase_of i h ∨
  i = n ∧ phase_of i h = Some Parked ∧ phase_of i (notify_waiters n h) = Some Returned.
Proof.
  unfold notify_waiters. fold (phase_of n h). destruct (phase_of n h) as [[]|] eqn:Hn; auto.
  rewrite phase_set_phase. case_bool_decide; [|by left]. subst. right. by rewrite Hn.
Qed.

(** A step of the task itself uses one up. *)
Lemma run_self_left i ok h p :
  phase_of i h = Some p → ∃ p', phase_of i (run i ok h) = Some p' ∧ (left p' <= pred (left p))%nat.
Proof.
  intros Hp. pose proof Hp as Hp'. unfold phase_of in Hp'.
  destruct (tasks h !! i) as [t|] eqn:Ht; [|done]. injection Hp' as Hp'.
  assert (∀ q h', phase_of i h' = Some p → phase_of i (set_phase i q h') = Some q) as Hset.
  { intros q h' Hh. rewrite phase_set_phase, bool_decide_eq_true_2 by done. by rewrite Hh. }
  unfold run. rewrite Ht, Hp'. unfold join_section, ack_section.
  destruct p as [|peer n| | | |a b|]; try (eexists; split; [first [exact Hp|apply Hset; exact Hp]|simpl; lia]).
  - destruct (rooms h !! t_key t) as [e|]; [case_match|]; eexists; (split; [apply Hset; exact Hp|simpl; lia]).
  - cbv zeta. exists (if t_host t then Relaying i peer else Relaying peer i).
    split; [|destruct (t_host t); simpl; lia]. apply Hset. change (phase_of i (send ?a ?b ?c)) with (phase_of i c).
    destruct (phase_notify i n h) as [He|(->&Hn&_)]; [by rewrite He|congruence].
  - destruct (rooms h !! t_key t) as [e|]; [destruct ok|]; eexists; (split; [apply Hset; exact Hp|simpl; lia]).
Qed.

(** A step of another task leaves them, but may wake it. *)
Lemma run_other_left i j ok h p :
  i ≠ j → phase_of i h = Some p →
  ∃ p', phase_of i (run j ok h) = Some p' ∧ left p' = left p ∧
    (p' = p ∨ p = Parked ∧ p' = Returned).
Proof.
  intros Hne Hp. assert (∀ q h', phase_of i (set_phase j q h') = phase_of i h') as Hset.
  { intros q h'. by rewrite phase_set_phase, bool_decide_eq_false_2. }
  unfold run. destruct (tasks h !! j) as [t|]; [|eauto].
  unfold join_section, ack_section.
  destruct (t_phase t) as [|peer n| | | |a b|]; repeat case_match; rewrite ?Hset; eauto.
  all: cbv zeta; change (phase_of i (send ?a ?b ?c)) with (phase_of i c);
    destruct (phase_notify i n h) as [->|(->&Hn&->)]; [by eauto|];
    rewrite Hn in Hp; injection Hp as <-; by eauto 6.
Qed.

(** A round of a forwarding loop. *)
Lemma phase_turn i j tn h :
  phase_of i (run_turn j tn h) =
    match phase_of i h with
    | Some (Relaying a b) =>
        Some (if bool_decide (i = j) && negb (goes_on tn) then Returned else Relaying a b)
    | p => p
    end.
Proof.
  unfold run_turn, goes_on. fold (phase_of j h).
  destruct (relay_turn tn) as [acts on] eqn:Htn. cbn [snd].
  destruct (decide (i = j)) as [->|Hne].
  - rewrite bool_decide_eq_true_2 by done.
    destruct (phase_of j h) as [[]|] eqn:Hj; try done. destruct on; [done|].
    rewrite phase_set_phase, bool_decide_eq_true_2 by done.
    change (phase_of j (forward j acts h)) with (phase_of j h). by rewrite Hj.
  - rewrite (bool_decide_eq_false_2 (i = j)) by done. simpl.
    transitivity (phase_of i h); [|by destruct (phase_of i h) as [[]|]].
    destruct (phase_of j h) as [[]|]; try done. destruct on; [done|].
    by rewrite phase_set_phase, bool_decide_eq_false_2.
Qed.

Lemma connect_phase i j key r h p :
  phase_of i h = Some p → phase_of i (connect j key r h) = Some p.
Proof.
  unfold phase_of, connect. intros Hp. destruct (tasks h !! j) as [t|] eqn:Hj; [done|].
  simpl. rewrite lookup_insert_ne; [done|]. intros ->. by rewrite Hj in Hp.
Qed.

(** How often task [i] is scheduled. *)
Fixpoint runs_of (i : N) (es : list event) : nat :=
  match es with
  | [] => 0
  | Run j _ :: es => (if j =? i then 1 else 0) + runs_of i es
  | Connect _ _ _ :: es | Turn _ _ :: es => runs_of i es
  end.

(** The rounds of its forwarding loop. *)
Definition turns_of (i : N) (es : list event) : list turn :=
  omap (λ e, match e with Turn j tn => if j =? i then Some tn else None | _ => None end) es.

Lemma hub_run_left i es h p :
  phase_of i h = Some p →
  ∃ p', phase_of i (hub_run es h) = Some p' ∧ (left p' <= left p - runs_of i es)%nat.
Proof.
  revert h p; induction es as [|e es IH]; intros h p Hp.
  { exists p. split; [done|]. simpl. lia. }
  change (hub_run (e :: es) h) with (hub_run es (hub_step e h)).
  destruct e as [j key r|j ok|j tn]; simpl hub_step; simpl runs_of.
  - by apply (connect_phase _ j key r), IH in Hp.
  - destruct (N.eqb_spec j i) as [->|Hne].
    + destruct (run_self_left i ok h p Hp) as (p1&Hp1&Hl1).
      destruct (IH _ _ Hp1) as (p'&Hp'&Hl). exists p'. split; [done|]. lia.
    + destruct (run_other_left i j ok h p) as (p1&Hp1&Hl1&_); [done..|].
      destruct (IH _ _ Hp1) as (p'&Hp'&Hl). exists p'. split; [done|]. lia.
  - assert (∃ p1, phase_of i (run_turn j tn h) = Some p1 ∧ left p1 = left p) as (p1&Hp1&Hl1).
    { rewrite phase_turn, Hp. destruct p; try (by eexists). eexists. split; [done|].
      by destruct (_ && _). }
    destruct (IH _ _ Hp1) as (p'&Hp'&Hl). exists p'. split; [done|]. lia.
Qed.

(** What can become of a settled task: a parked one may be woken, a forwarding one
    goes on until a round ends its loop. *)
Definition continues (p : phase) (turns : list turn) (q : option phase) : Prop :=
  match p with
  | Parked => q = Some Parked ∨ q = Some Returned
  | Relaying _ _ => q = Some (if forallb goes_on turns then p else Returned)
  | _ => q = Some p
  end.

Lemma settled_run_self i ok h p :
  phase_of i h = Some p → settled p = true → run i ok h = h.
Proof.
  unfold run, phase_of. destruct (tasks h !! i) as [t|]; [|done]. intros [= ->]. by destruct p.
Qed.

Lemma returned_stays i es h :
  phase_of i h = Some Returned → phase_of i (hub_run es h) = Some Returned.
Proof.
  revert h; induction es as [|e es IH]; intros h Hp; [done|].
  change (hub_run (e :: es) h) with (hub_run es (hub_step e h)). apply IH.
  destruct e as [j key r|j ok|j tn]; simpl hub_step.
  - by apply connect_phase.
  - destruct (decide (i = j)) as [<-|Hne]; [by rewrite (settled_run_self i ok h _ Hp)|].
    by destruct (run_other_left i j ok h Returned) as (p1&Hp1&_&[->|[]]).
  - by rewrite phase_turn, Hp.
Qed.

Lemma settled_stays i es h p :
  phase_of i h = Some p → settled p = true →
  continues p (turns_of i es) (phase_of i (hub_run es h)).
Proof.
  revert h; induction es as [|e es IH]; intros h Hp Hs.
  { destruct p; try done. by left. }
  change (hub_run (e :: es) h) with (hub_run es (hub_step e h)).
  destruct e as [j key r|j ok|j tn]; simpl hub_step; simpl turns_of.
  - by apply IH; [apply connect_phase|].
  - destruct (decide (i = j)) as [<-|Hne]; [rewrite (settled_run_self i ok h p); auto|].
    destruct (run_other_left i j ok h p) as (p1&Hp1&_&[->|[-> ->]]); [done..|by apply IH|].
    right. by apply returned_stays.
  - pose proof (phase_turn i j tn h) as Ht. rewrite Hp in Ht.
    destruct p as [|peer n| | | |a b|]; try done; try by apply IH.
    unfold turns_of. cbn [omap list_omap]. destruct (N.eqb_spec j i) as [->|Hne].
    + rewrite bool_decide_eq_true_2 in Ht by done. cbn [andb forallb continues] in *.
      destruct (goes_on tn); [by apply IH|]. by apply returned_stays.
    + rewrite bool_decide_eq_false_2 in Ht by done. by apply IH.
Qed.

(** ** What the forwarding loop of a task does *)

Definition wire_of (i : N) (h : hub) : list (side * action) :=
  (filter (λ x, x.1 = i) (wire h)).*2.

Lemma wire_set_phase j p h : wire (set_phase j p h) = wire h.
Proof. unfold set_phase. by destruct (tasks h !! j). Qed.

Lemma wire_run j ok h : wire (run j ok h) = wire h.
Proof.
  assert (∀ n h', wire (notify_waiters n h') = wire h') as Hn.
  { intros n h'. unfold notify_waiters.
    destruct (t_phase <$> tasks h' !! n) as [[]|]; try done. apply wire_set_phase. }
  unfold run. destruct (tasks h !! j) as [t|]; [|done]. unfold join_section, ack_section.
  destruct (t_phase t); repeat case_match; try done; rewrite ?wire_set_phase; simpl;
    by rewrite ?Hn.
Qed.

Lemma wire_turn i j tn h :
  wire_of i (run_turn j tn h) =
    wire_of i h ++ match phase_of i h with
                   | Some (Relaying _ _) => if j =? i then (relay_turn tn).1 else []
                   | _ => []
                   end.
Proof.
  assert (∀ acts, wire_of i (forward j acts h) = wire_of i h ++ if j =? i then acts else []) as Hf.
  { intros acts. unfold wire_of. simpl. rewrite filter_app, fmap_app. f_equal.
    destruct (N.eqb_spec j i) as [->|Hne]; induction acts as [|x acts IH]; try done; simpl;
      [rewrite filter_cons_True by done; simpl; by f_equal|by rewrite filter_cons_False]. }
  unfold run_turn. fold (phase_of j h). destruct (N.eqb_spec j i) as [->|Hne].
  - destruct (phase_of i h) as [[]|]; rewrite ?app_nil_r; try done.
    destruct (relay_turn tn) as [acts on]. cbv zeta. destruct on; [apply Hf|].
    unfold wire_of at 1. rewrite wire_set_phase. apply Hf.
  - assert (∀ acts, wire_of i (forward j acts h) = wire_of i h) as Hf'.
    { intros acts. rewrite Hf. apply app_nil_r. }
    transitivity (wire_of i h); [|by destruct (phase_of i h) as [[]|]; rewrite app_nil_r].
    destruct (phase_of j h) as [[]|]; try done.
    destruct (relay_turn tn) as [acts on]. cbv zeta.
    destruct on; [by apply Hf'|]. unfold wire_of at 1. rewrite wire_set_phase. apply Hf'.
Qed.

Lemma wire_step i e h :
  wire_of i (hub_step e h) =
    wire_of i h ++ match phase_of i h with
                   | Some (Relaying _ _) => (relay_turn <$> turns_of i [e]) ≫= fst
                   | _ => []
                   end.
Proof.
  destruct e as [j key r|j ok|j tn]; simpl hub_step.
  - unfold wire_of, connect. by destruct (tasks h !! j), (phase_of i h) as [[]|]; rewrite app_nil_r.
  - unfold wire_of at 1. rewrite wire_run. by destruct (phase_of i h) as [[]|]; rewrite app_nil_r.
  - rewrite wire_turn. unfold turns_of. cbn [omap list_omap].
    destruct (phase_of i h) as [[]|]; try done. destruct (j =? i); [|done].
    simpl. by rewrite app_nil_r.
Qed.

Lemma returned_wire i es h :
  phase_of i h = Some Returned → wire_of i (hub_run es h) = wire_of i h.
Proof.
  revert h; induction es as [|e es IH]; intros h Hp; [done|].
  change (hub_run (e :: es) h) with (hub_run es (hub_step e h)).
  rewrite IH by by apply (returned_stays i [e]). by rewrite wire_step, Hp, app_nil_r.
Qed.

(** A pair in the table of tasks forwards exactly as [relay_pair] on its rounds. *)
Lemma relaying_wire i es h a b :
  phase_of i h = Some (Relaying a b) →
  wire_of i (hub_run es h) = wire_of i h ++ relay_pair (turns_of i es).
Proof.
  revert h; induction es as [|e es IH]; intros h Hp; [by rewrite app_nil_r|].
  change (hub_run (e :: es) h) with (hub_run es (hub_step e h)).
  pose proof (settled_stays i [e] h _ Hp eq_refl) as Hc. cbn [continues] in Hc.
  change (hub_run [e] h) with (hub_step e h) in Hc.
  pose proof (wire_step i e h) as Hw. rewrite Hp in Hw.
  change (turns_of i (e :: es)) with (omap (λ e, match e with Turn j tn =>
    if j =? i then Some tn else None | _ => None end) ([e] ++ es)).
  rewrite omap_app. fold (turns_of i [e]) (turns_of i es).
  assert (turns_of i [e] = [] ∨ ∃ tn, turns_of i [e] = [tn]) as [Ht|[tn Ht]].
  { destruct e as [| |j tn]; try by left. unfold turns_of. cbn [omap list_omap].
    destruct (j =? i); [right; by exists tn|by left]. }
  - rewrite Ht in *. cbn [forallb fmap list_fmap mbind list_bind app] in *.
    rewrite app_nil_r in Hw. rewrite IH by done. by rewrite Hw.
  - rewrite Ht in *. cbn [forallb fmap list_fmap mbind list_bind app relay_pair andb] in *.
    rewrite andb_true_r in Hc. rewrite app_nil_r in Hw. unfold goes_on in Hc.
    destruct (relay_turn tn) as [acts on]. cbn [fst snd] in *. destruct on.
    + rewrite IH by done. by rewrite Hw, app_assoc.
    + rewrite returned_wire by done. by rewrite Hw, app_nil_r.
Qed.

(** * What a step may touch *)

(** Keys and roles never change, and no task disappears. *)
Definition rephased (h h' : hub) : Prop :=
  ∀ x, ∃ p, tasks h' !! x = with_phase p <$> tasks h !! x.

Lemma with_phase_id t : with_phase (t_phase t) t = t.
Proof. by destruct t. Qed.

Lemma rephased_refl h : rephased h h.
Proof.
  intros x. destruct (tasks h !! x) as [t|]; [|by exists Returned].
  exists (t_phase t). simpl. by rewrite with_phase_id.
Qed.

Lemma rephased_trans h1 h2 h3 : rephased h1 h2 → rephased h2 h3 → rephased h1 h3.
Proof.
  intros H12 H23 x. destruct (H12 x) as [p Hp], (H23 x) as [q Hq]. exists q.
  rewrite Hq, Hp. by destruct (tasks h1 !! x).
Qed.

Lemma rephased_set_phase j p h h' : tasks h' = tasks h → rephased h (set_phase j p h').
Proof.
  intros He x. unfold set_phase. rewrite He.
  destruct (tasks h !! j) as [t|] eqn:Ht; [|rewrite He; apply rephased_refl].
  simpl. destruct (decide (x = j)) as [->|Hne].
  - exists p. by rewrite lookup_insert_eq, Ht.
  - rewrite lookup_insert_ne by done. apply rephased_refl.
Qed.

Lemma rephased_notify n h : rephased h (notify_waiters n h).
Proof.
  unfold notify_waiters.
  destruct (t_phase <$> tasks h !! n) as [[]|]; auto using rephased_refl, rephased_set_phase.
Qed.

Lemma rephased_run j ok h : rephased h (run j ok h).
Proof.
  unfold run. destruct (tasks h !! j) as [t|]; [|apply rephased_refl].
  unfold join_section, ack_section. destruct (t_phase t) as [|peer n| | | |a b|];
    repeat case_match; try apply rephased_refl; try by apply rephased_set_phase.
  all: eapply rephased_trans; [apply (rephased_notify n)|]; by apply rephased_set_phase.
Qed.

(** A round of a forwarding loop touches its own task only, and only to end it. *)
Lemma turn_keeps j tn h :
  rooms (run_turn j tn h) = rooms h ∧ sent (run_turn j tn h) = sent h ∧
  (goes_on tn = true → tasks (run_turn j tn h) = tasks h) ∧
  rephased h (run_turn j tn h) ∧ ∀ x, x ≠ j → tasks (run_turn j tn h) !! x = tasks h !! x.
Proof.
  unfold run_turn, goes_on. destruct (t_phase <$> tasks h !! j) as [[]|];
    try (split_and!; done || apply rephased_refl).
  destruct (relay_turn tn) as [acts on]. cbv zeta. destruct on.
  { split_and!; [done..|apply (rephased_refl h)|done]. }
  assert (rephased h (set_phase j Returned (forward j acts h))) as Hr
    by by apply rephased_set_phase.
  unfold set_phase in *. destruct (tasks (forward j acts h) !! j); split_and!; try done.
  intros x Hx. simpl. by rewrite lookup_insert_ne.
Qed.

(** Acknowledgements are only added. *)
Lemma sent_set_phase j p h : sent (set_phase j p h) = sent h.
Proof. unfold set_phase. by destruct (tasks h !! j). Qed.
Lemma sent_notify n h : sent (notify_waiters n h) = sent h.
Proof.
  unfold notify_waiters. destruct (t_phase <$> tasks h !! n) as [[]|]; try done.
  apply sent_set_phase.
Qed.

Lemma sent_run j ok h x : x ∈ sent h → x ∈ sent (run j ok h).
Proof.
  intros Hx. unfold run. destruct (tasks h !! j) as [t|]; [|done].
  unfold join_section, ack_section. destruct (t_phase t);
    repeat case_match; try done; rewrite ?sent_set_phase; simpl; rewrite ?sent_notify; set_solver.
Qed.

(** Another task can only wake us, and only touches its own room. *)
Lemma rooms_set_phase j p h : rooms (set_phase j p h) = rooms h.
Proof. unfold set_phase. by destruct (tasks h !! j). Qed.

Lemma rooms_run j ok h t k :
  tasks h !! j = Some t → t_key t ≠ k → rooms (run j ok h) !! k = rooms h !! k.
Proof.
  intros Ht Hk. unfold run. rewrite Ht. unfold join_section, ack_section.
  destruct (t_phase t); repeat case_match; try done; rewrite ?rooms_set_phase; simpl;
    rewrite ?notify_rooms, ?lookup_delete_ne, ?lookup_insert_ne by done; done.
Qed.

Lemma tasks_set_phase x j p h : x ≠ j → tasks (set_phase j p h) !! x = tasks h !! x.
Proof.
  intros Hne. unfold set_phase. destruct (tasks h !! j) as [t|]; [|done]. simpl.
  by rewrite lookup_insert_ne.
Qed.

Lemma tasks_run x j ok h :
  x ≠ j →
  tasks (run j ok h) !! x = tasks h !! x ∨
  ∃ t peer, tasks h !! j = Some t ∧ t_phase t = Notifying peer x.
Proof.
  intros Hne. unfold run. destruct (tasks h !! j) as [t|] eqn:Ht; [|by left].
  destruct (t_phase t) as [|peer n| | | |a b|] eqn:Hp.
  2: { destruct (decide (n = x)) as [->|Hn]; [by eauto|]. left. cbv zeta.
       rewrite tasks_set_phase by done. by apply notify_other. }
  all: left; unfold join_section, ack_section; repeat case_match; try done;
    by rewrite tasks_set_phase.
Qed.

(** * A host and a guest of one room *)

Section meeting.
Variables (k : str) (i j : N).
Hypothesis Hij : i ≠ j.

(** The two tasks, in either order. *)
Definition ends (x y : N) : Prop := x = i ∧ y = j ∨ x = j ∧ y = i.

Lemma ends_member x y : ends x y → (x = i ∨ x = j) ∧ (y = i ∨ y = j).
Proof. intros [[-> ->]|[-> ->]]; auto. Qed.
Lemma ends_roles x y : ends x y → bool_decide (y = i) = negb (bool_decide (x = i)).
Proof.
  rewrite <- bool_decide_not. intros [[-> ->]|[-> ->]]; apply bool_decide_ext; naive_solver.
Qed.

(** Task [x] of this room, the host being [i]. *)
Definition member (x : N) (t : task) : Prop := t_key t = k ∧ t_host t = bool_decide (x = i).

(** Nobody else of this room is still around. *)
Definition others_away (h : hub) : Prop :=
  ∀ u t, tasks h !! u = Some t → u ≠ i → u ≠ j → t_key t = k → t_phase t = Returned.

Definition both_there (h : hub) : Prop :=
  ∀ x, x = i ∨ x = j → ∃ t, tasks h !! x = Some t ∧ member x t.

(** How far they have got: nobody has joined, one waits in the table, the other has
    taken its entry, it has said so and forwards between the two sockets. *)
Definition stage (h : hub) : Prop :=
  (phase_of i h = Some Joining ∧ phase_of j h = Some Joining ∧ rooms h !! k = None) ∨
  (∃ x y p, ends x y ∧ phase_of x h = Some p ∧ waits p = true ∧ phase_of y h = Some Joining ∧
     rooms h !! k = Some (new_entry (bool_decide (x = i)) x)) ∨
  (∃ x y, ends x y ∧ phase_of y h = Some (Notifying x x)) ∨
  (∃ x y, ends x y ∧ phase_of y h = Some (Relaying i j) ∧ (y, ack_paired) ∈ sent h).

Definition meeting (h : hub) : Prop :=
  hub_inv h ∧ others_away h ∧ both_there h ∧ stage h.

(** Sends on the two sockets succeed, neither of them ends the forwarding loop, and
    nobody else comes to the room. *)
Definition undisturbed (e : event) : Prop :=
  match e with
  | Connect _ key _ => key ≠ k
  | Run x ok => x = i ∨ x = j → ok = true
  | Turn x tn => x = i ∨ x = j → goes_on tn = true
  end.

Lemma others_away_step e h :
  rephased h (hub_step e h) → others_away h → others_away (hub_step e h).
Proof.
  intros Hre Ho u t Hu Hi Hj Hk. destruct (Hre u) as [p Hp].
  rewrite Hp in Hu. destruct (tasks h !! u) as [t0|] eqn:Ht0; [|done]. injection Hu as <-.
  simpl in *. specialize (Ho u t0 Ht0 Hi Hj Hk).
  assert (phase_of u (hub_step e h) = Some Returned) as Hph.
  { apply (returned_stays u [e] h). unfold phase_of. by rewrite Ht0; simpl; rewrite Ho. }
  unfold phase_of in Hph. rewrite Hp in Hph. by injection Hph.
Qed.

Lemma both_there_step h h' : rephased h h' → both_there h → both_there h'.
Proof.
  intros Hre Hb y Hy. destruct (Hb y Hy) as (t&Ht&Hm). destruct (Hre y) as [p Hp].
  rewrite Ht in Hp. by eexists.
Qed.

(** The stage depends on the two tasks, their room and the acknowledgements only. *)
Lemma stage_keeps h h' :
  (∀ x, x = i ∨ x = j → phase_of x h' = phase_of x h) → rooms h' !! k = rooms h !! k →
  (∀ x, x ∈ sent h → x ∈ sent h') → stage h → stage h'.
Proof.
  intros Hph Hr Hse. unfold stage. rewrite Hr, !Hph by auto.
  intros [?|[(x&y&p&He&Hx&Hw&Hy&Hroom)|[(x&y&He&Hy)|(x&y&He&Hy&Hs)]]]; [by left|..].
  - right; left. exists x, y, p. rewrite !Hph by (destruct He as [[]|[]]; auto). auto.
  - right; right; left. exists x, y. rewrite Hph by (destruct He as [[]|[]]; auto). auto.
  - right; right; right. exists x, y. rewrite Hph by (destruct He as [[]|[]]; auto). auto.
Qed.

Lemma connect_meeting u key r h : key ≠ k → meeting h → meeting (connect u key r h).
Proof.
  intros Hk (Hinv&Ho&Hb&Hs). unfold meeting. split; [by apply connect_inv|].
  assert (rooms (connect u key r h) = rooms h ∧ sent (connect u key r h) = sent h) as [Hr Hse]
    by (unfold connect; by destruct (tasks h !! u)).
  split_and!.
  - intros v t Hv Hi Hj. unfold connect in Hv. destruct (tasks h !! u) eqn:Hu; [by apply (Ho v t)|].
    simpl in Hv. apply lookup_insert_Some in Hv as [[<- <-]|[_ Hv]]; [done|by apply (Ho v t)].
  - intros x Hx. destruct (Hb x Hx) as (t&Ht&Hm). exists t. split; [|done]. unfold connect.
    destruct (tasks h !! u) eqn:Hu; [done|]. simpl. rewrite lookup_insert_ne; [done|]. congruence.
  - apply (stage_keeps h); [|by rewrite Hr|by rewrite Hse|done].
    intros x Hx. destruct (Hb x Hx) as (t&Ht&_).
    assert (phase_of x h = Some (t_phase t)) as Hp by (unfold phase_of; by rewrite Ht).
    rewrite Hp. by apply connect_phase.
Qed.

(** A step of a third task leaves the two alone. *)
Lemma third_stage u ok h :
  hub_inv h → others_away h → both_there h → u ≠ i → u ≠ j → stage h → stage (run u ok h).
Proof.
  intros Hinv Ho Hb Hi Hj Hs. destruct (tasks h !! u) as [t|] eqn:Ht.
  2: { unfold run. by rewrite Ht. }
  destruct (decide (t_key t = k)) as [Hk|Hk].
  { specialize (Ho u t Ht Hi Hj Hk). unfold run. by rewrite Ht, Ho. }
  assert (∀ x, x = i ∨ x = j → phase_of x (run u ok h) = phase_of x h) as Hph.
  { intros x Hx. unfold phase_of. destruct (tasks_run x u ok h) as [->|(t'&peer&Ht'&Hp)]; [|done|].
    - intros ->. by destruct Hx.
    - rewrite Ht in Ht'. injection Ht' as <-.
      pose proof (inv_shape h Hinv u t Ht) as Hsh. rewrite Hp in Hsh. simpl in Hsh. subst peer.
      destruct (inv_pair h Hinv u t x Ht) as [(w&Hw&Hkey&_) _]; [by rewrite Hp|].
      destruct (Hb x Hx) as (tx&Htx&[Hkx _]). congruence. }
  apply (stage_keeps h); [done|by apply (rooms_run u ok h t k)|intros; by apply sent_run|done].
Qed.

Lemma ends_ne x y : ends x y → x ≠ y.
Proof. intros [[-> ->]|[-> ->]]; congruence. Qed.
(** The three moves that matter. *)
Lemma join_first x y h :
  both_there h → ends x y → phase_of x h = Some Joining → phase_of y h = Some Joining →
  rooms h !! k = None → stage (run x true h).
Proof.
  intros Hb He Hx Hy Hr. destruct (Hb x) as (t&Ht&Hk&Hh); [by destruct (ends_member _ _ He)|].
  pose proof (ends_ne _ _ He) as Hne.
  assert (t_phase t = Joining) as Hp by (unfold phase_of in Hx; rewrite Ht in Hx; by injection Hx).
  right; left. exists x, y, Acking. unfold run, join_section. rewrite Ht, Hp, Hk, Hr, Hh.
  split_and!; [done| |done| |].
  - rewrite phase_set_phase, bool_decide_eq_true_2 by done. change (phase_of x (set_rooms ?r h)) with (phase_of x h). by rewrite Hx.
  - by rewrite phase_set_phase, bool_decide_eq_false_2 by done.
  - rewrite rooms_set_phase. apply lookup_insert_eq.
Qed.

Lemma join_second x y h :
  both_there h → ends x y → phase_of y h = Some Joining →
  rooms h !! k = Some (new_entry (bool_decide (x = i)) x) →
  phase_of y (run y true h) = Some (Notifying x x).
Proof.
  intros Hb He Hy Hr. destruct (Hb y) as (t&Ht&Hk&Hh); [by destruct (ends_member _ _ He)|].
  assert (t_phase t = Joining) as Hp by (unfold phase_of in Hy; rewrite Ht in Hy; by injection Hy).
  unfold run, join_section. rewrite Ht, Hp, Hk, Hr, Hh, (ends_roles x y He).
  destruct (bool_decide (x = i)); simpl;
    rewrite phase_set_phase, bool_decide_eq_true_2 by done; unfold phase_of; simpl; by rewrite Ht.
Qed.

Lemma wait_on x y p h :
  both_there h → ends x y → phase_of x h = Some p → waits p = true →
  phase_of y h = Some Joining → rooms h !! k = Some (new_entry (bool_decide (x = i)) x) →
  stage (run x true h).
Proof.
  intros Hb He Hx Hw Hy Hr. destruct (Hb x) as (t&Ht&Hk&Hh); [by destruct (ends_member _ _ He)|].
  pose proof (ends_ne _ _ He) as Hne.
  assert (t_phase t = p) as Hp by (unfold phase_of in Hx; rewrite Ht in Hx; by injection Hx).
  assert (∀ q h', waits q = true → tasks h' = tasks h → rooms h' = rooms h →
    stage (set_phase x q h')) as Hset.
  { intros q h' Hq Htasks Hrooms. right; left. exists x, y, q.
    rewrite !phase_set_phase, bool_decide_eq_true_2, bool_decide_eq_false_2 by done.
    unfold phase_of in *. rewrite Htasks, Ht, rooms_set_phase, Hrooms. split_and!; done. }
  unfold run, ack_section. rewrite Ht, Hp, Hk, Hr.
  destruct p; try done; [by apply Hset|by apply Hset|]. right; left. by exists x, y, Parked.
Qed.

Lemma take_up x y ok h :
  hub_inv h → both_there h → ends x y → phase_of y h = Some (Notifying x x) →
  phase_of y (run y ok h) = Some (Relaying i j) ∧ (y, ack_paired) ∈ sent (run y ok h).
Proof.
  intros Hinv Hb He Hy. destruct (Hb y) as (t&Ht&_&Hh); [by destruct (ends_member _ _ He)|].
  pose proof (ends_ne _ _ He) as Hne. unfold run. pose proof Hy as Hy'. unfold phase_of in Hy'.
  rewrite Ht in *. injection Hy' as ->. cbv zeta. split.
  - rewrite phase_set_phase, bool_decide_eq_true_2 by done.
    change (phase_of y (send ?a ?b ?c)) with (phase_of y c). unfold phase_of.
    rewrite notify_other, Ht, Hh by done. simpl.
    destruct He as [[-> ->]|[-> ->]]; [rewrite bool_decide_eq_false_2 by congruence|
      rewrite bool_decide_eq_true_2 by done]; done.
  - rewrite sent_set_phase. simpl. set_solver.
Qed.

(** The partner that has been found does not disturb the finder. *)
Lemma found_on x y p ok h :
  hub_inv h → both_there h → ends x y → phase_of y h = Some p → partner y p = Some x →
  phase_of y (run x ok h) = Some p.
Proof.
  intros Hinv Hb He Hy Hpart. destruct (Hb y) as (ty&Hty&_); [by destruct (ends_member _ _ He)|].
  assert (t_phase ty = p) as Hp by (unfold phase_of in Hy; rewrite Hty in Hy; by injection Hy).
  destruct (inv_pair h Hinv y ty x Hty) as [(tx&Htx&_&_&Hg) _]; [by rewrite Hp|].
  unfold phase_of. destruct (tasks_run y x ok h) as [->|(t&peer&Ht&Hn)].
  - by apply not_eq_sym, ends_ne.
  - by rewrite Hty; simpl; rewrite Hp.
  - rewrite Ht in Htx. injection Htx as <-. by rewrite Hn in Hg.
Qed.

Lemma ends_partner x y : ends x y → partner y (Relaying i j) = Some x.
Proof.
  intros [[-> ->]|[-> ->]]; simpl; [by rewrite eqb_false|by rewrite N.eqb_refl].
Qed.

Lemma own_stage x h :
  hub_inv h → both_there h → x = i ∨ x = j → stage h → stage (run x true h).
Proof.
  intros Hinv Hb Hx [(Hi&Hj&Hr)|[(x0&y0&p&He&Hp&Hw&Hy&Hr)|[(x0&y0&He&Hy)|(x0&y0&He&Hy&Hs)]]].
  - destruct Hx as [->| ->]; [apply (join_first i j)|apply (join_first j i)]; auto;
      [by left|by right].
  - assert (x = x0 ∨ x = y0) as [->| ->] by (destruct He as [[-> ->]|[-> ->]]; tauto).
    + by eapply wait_on.
    + right; right; left. exists x0, y0. split; [done|]. by eapply join_second.
  - assert (x = x0 ∨ x = y0) as [->| ->] by (destruct He as [[-> ->]|[-> ->]]; tauto).
    + right; right; left. exists x0, y0. split; [done|]. by apply found_on.
    + right; right; right. exists x0, y0. destruct (take_up x0 y0 true h Hinv Hb He Hy). auto.
  - right; right; right. exists x0, y0. split_and!; [done| |by apply sent_run].
    assert (x = x0 ∨ x = y0) as [->| ->] by (destruct He as [[-> ->]|[-> ->]]; tauto).
    + apply found_on; auto using ends_partner.
    + by rewrite (settled_run_self y0 true h _ Hy).
Qed.

Lemma turn_stage u tn h :
  others_away h → (u = i ∨ u = j → goes_on tn = true) → stage h → stage (run_turn u tn h).
Proof.
  intros Ho Hg Hs. destruct (turn_keeps u tn h) as (Hr&Hse&Ht&_&Hx).
  apply (stage_keeps h); [|by rewrite Hr|by rewrite Hse|done].
  intros x Hxij. unfold phase_of. destruct (decide (x = u)) as [->|Hne]; [|by rewrite Hx].
  by rewrite (Ht (Hg Hxij)).
Qed.

Lemma meeting_run es h : Forall undisturbed es → meeting h → meeting (hub_run es h).
Proof.
  intros Hes. revert h; induction Hes as [|e es He Hes IH]; intros h Hm; [done|].
  apply IH. destruct e as [u key r|u ok|u tn]; simpl in He; [by apply connect_meeting|..];
    destruct Hm as (Hinv&Ho&Hb&Hs); unfold meeting.
  - pose proof (rephased_run u ok h) as Hre.
    split_and!; [by apply run_inv|by apply (others_away_step (Run u ok))|
      by eapply both_there_step|].
    destruct (decide (u = i ∨ u = j)) as [Hu|Hu].
    + simpl. rewrite He by done. by apply own_stage.
    + apply third_stage; auto.
  - pose proof (turn_keeps u tn h) as (_&_&_&Hre&_).
    split_and!; [by apply run_turn_inv|by apply (others_away_step (Turn u tn))|
      by eapply both_there_step|by apply turn_stage].
Qed.

(** When both have settled, they have met. *)
Lemma settled_met h pi pj :
  meeting h → phase_of i h = Some pi → phase_of j h = Some pj → left pi = 0%nat →
  left pj = 0%nat →
  ∃ y, (y = i ∨ y = j) ∧ phase_of y h = Some (Relaying i j) ∧ (y, ack_paired) ∈ sent h.
Proof.
  intros (_&_&_&[(Hi&_)|[(x&y&p&He&_&_&Hy&_)|[(x&y&He&Hy)|(x&y&He&Hy&Hs)]]]) Hpi Hpj Hli Hlj.
  - by simplify_eq.
  - destruct He as [[-> ->]|[-> ->]]; by simplify_eq.
  - destruct He as [[-> ->]|[-> ->]]; by simplify_eq.
  - exists y. split; [by destruct (ends_member _ _ He)|done].
Qed.

End meeting.

(** * Start-up and the plain routes *)

(** [s.parse::<u16>()]: an optional plus sign, then decimal digits in range. *)
Definition to_digit (c : N) : option N :=
  if (48 <=? c) && (c <=? 57) then Some (c - 48) else None.

Fixpoint parse_digits (acc : N) (s : str) : option N :=
  match s with
  | [] => Some acc
  | c :: s =>
      d ← to_digit c;
      let acc := acc * 10 + d in
      if acc <=? 65535 then parse_digits acc s else None
  end.

Definition parse_u16 (s : str) : option N :=
  match s with
  | [] => None
  | c :: r => parse_digits 0 (if (c =? 43) && negb (bool_decide (r = [])) then r else s)
  end.

(** [std::env::var("PORT").ok().and_then(|s| s.parse().ok()).unwrap_or(8080)] *)
Definition listen_port (var : option str) : N := default 8080 (var ≫= parse_u16).

Inductive handler := RootHandler | HealthHandler | WsHandler.

Definition routes : list (string * handler) :=
  [("/", RootHandler); ("/health", HealthHandler); ("/ws", WsHandler)]%string.

Definition health : string := "ok".

(** The JSON object of [root], as paths and their string values. *)
Definition root (version : string) : list (list string * string) :=
  [(["service"], "libgary-relay"); (["version"], version); (["ws_path"], "/ws");
   (["join_schema"; "first_message_text_json"; "room"], "uuid string");
   (["join_schema"; "first_message_text_json"; "pin_tag"],
    "16 hex chars (same as Bonjour PIN discovery tag)");
   (["join_schema"; "first_message_text_json"; "role"], "host | guest")]%string.

Lemma parse_digits_range acc s n : acc <= 65535 → parse_digits acc s = Some n → n <= 65535.
Proof.
  revert acc; induction s as [|c s IH]; intros acc Hacc; simpl; [by intros [= <-]|].
  destruct (to_digit c) as [d|]; [|done]. simpl.
  destruct (N.leb_spec (acc * 10 + d) 65535); [by apply IH|done].
Qed.

(** Whatever the environment says, the port is a [u16]. *)
Lemma listen_port_range var : u16_ok (listen_port var).
Proof.
  unfold listen_port. destruct (var ≫= parse_u16) as [n|] eqn:Hn; [|by vm_compute].
  destruct var as [[|c r]|]; simpl in Hn; try done.
  apply parse_digits_range in Hn; [|done]. unfold fits. simpl. lia.
Qed.

Lemma listen_port_examples :
  listen_port None = 8080 ∧ listen_port (Some (str_of "9000")) = 9000 ∧
  listen_port (Some (str_of "+443")) = 443 ∧ listen_port (Some (str_of "65536")) = 8080 ∧
  listen_port (Some (str_of "+")) = 8080 ∧ listen_port (Some (str_of "80 ")) = 8080.
Proof. split_and!; by vm_compute. Qed.

(** The advertised WebSocket path is the one that upgrades. *)
Lemma advertised_ws_path version path :
  (["ws_path"%string], path) ∈ root version → (path, WsHandler) ∈ routes.
Proof. intros Hin. set_unfold in Hin. destruct_or?; simplify_eq. set_solver. Qed.

(** * Properties *)


(** C9: a host and a guest meet. From every reachable state of the server in which a
    host [i] and a guest [j] of one room and tag have been admitted and nobody else of
    that room is active, and however their tasks and those of other rooms are
    interleaved, once both have been scheduled three times one of them is forwarding
    between the two sockets and has been told that it is paired; and from then on,
    under every continuation, it does exactly what [relay_pair] does on the rounds it
    sees. The conditions on the schedule so far: sends on the two sockets succeed
    (after a failed waiting acknowledgement the first one gives up), neither socket
    has ended the loop again, and nobody else has joined the room. *)
Theorem host_and_guest_meet es0 es k i j ti tj :
  let h := hub_run es0 empty_hub in
  tasks h !! i = Some ti → t_key ti = k → t_host ti = true → t_phase ti = Joining →
  tasks h !! j = Some tj → t_key tj = k → t_host tj = false → t_phase tj = Joining →
  rooms h !! k = None → others_away k i j h →
  Forall (undisturbed k i j) es → (3 <= runs_of i es)%nat → (3 <= runs_of j es)%nat →
  let h' := hub_run es h in
  ∃ y, (y = i ∨ y = j) ∧ phase_of y h' = Some (Relaying i j) ∧ (y, ack_paired) ∈ sent h' ∧
    ∀ es', wire_of y (hub_run es' h') = wire_of y h' ++ relay_pair (turns_of y es').
Proof.
  intros h Hi Hki Hhi Hpi Hj Hkj Hhj Hpj Hr Ho Hes Hni Hnj h'.
  assert (i ≠ j) as Hij by congruence.
  assert (phase_of i h = Some Joining ∧ phase_of j h = Some Joining) as [Hphi Hphj]
    by (unfold phase_of; rewrite Hi, Hj; simpl; by rewrite Hpi, Hpj).
  assert (meeting k i j h) as Hm.
  { split_and!; [apply hub_run_inv, empty_hub_inv|done| |by left].
    intros x [->| ->]; eexists; (split; [done|]); split; try done.
    - by rewrite bool_decide_eq_true_2.
    - by rewrite bool_decide_eq_false_2. }
  apply (meeting_run k i j Hij es) in Hm; [|done].
  destruct (hub_run_left i es h _ Hphi) as (pi&Hpi'&Hli).
  destruct (hub_run_left j es h _ Hphj) as (pj&Hpj'&Hlj). simpl in Hli, Hlj.
  destruct (settled_met k i j Hij h' pi pj) as (y&Hy&Hph&Hse); [done..|lia|lia|].
  exists y. split_and!; [done..|]. intros es'. by eapply relaying_wire.
Qed.

(** ** Concrete instances *)

Definition toy_room : str := str_of "room|0123456789abcdef".
Definition toy_arrivals : list event := [Connect 1 toy_room true; Connect 2 toy_room false].
Definition toy_schedule : list event :=
  [Run 2 true; Run 1 true; Run 2 true; Run 1 true; Run 2 true; Run 1 true].


Lemma host_and_guest_meet_witness :
  let h' := hub_run toy_schedule (hub_run toy_arrivals empty_hub) in
  ∃ y, (y = 1 ∨ y = 2) ∧ phase_of y h' = Some (Relaying 1 2) ∧ (y, ack_paired) ∈ sent h' ∧
    ∀ es', wire_of y (hub_run es' h') = wire_of y h' ++ relay_pair (turns_of y es').
Proof.
  apply (host_and_guest_meet toy_arrivals toy_schedule toy_room 1 2
    {| t_key := toy_room; t_host := true; t_phase := Joining |}
    {| t_key := toy_room; t_host := false; t_phase := Joining |});
    try (vm_compute; reflexivity); try (simpl; lia).
  - assert (map_Forall (λ u _, u = 1 ∨ u = 2) (tasks (hub_run toy_arrivals empty_hub))) as Hall
      by (apply (bool_decide_unpack _); vm_compute; exact I).
    intros u t Hu H1 H2. destruct (Hall u t Hu); contradiction.
  - repeat constructor.
Defined.
