(* ===== verification/Conversation.v ===== *)
(** Two C handles talking through the relay server, end to end through every layer:
    plaintext layout, ratchet, record framing, relay envelope and padding, the
    WebSocket limits and the forwarding loop, and back. *)

From S2P Require Import Prelude Wire Pad RelayEnvelope Crypto Handshake Payload Ratchet Skipped.
From S2P Require Import Hub Blob Engine Toy EngineInv EngineWf Delivery EndToEnd Duplex.
From S2P Require Import Bundle TrustedMeta Handle Ffi FfiProps.
Import FfiHandle.

Section conversation.
Context `{Crypto} `{Rng} `{!Platform} `{Build} `{Sockets}.

(** Two handles and their entropy sources. *)
Definition peers : Type := (t * entropy) * (t * entropy).

(** Prepare a text for the relay: the bytes written for the caller. *)
Definition prepare (rt : bytes) (cap : N) (text : bytes) (st : t * entropy)
    : option (bytes * (t * entropy)) :=
  r ← gary_prepare_relay_outbound_utf8 (Some st.1) (Some rt) (len rt) (Some text) (len text)
        (Some (zeros cap)) cap (Some 0) st.2;
  s ← session r;
  buf ← out_buf r;
  n ← out_written r;
  if code r =? GARY_CODE_OK then Some (take_N n buf, (s, ent r)) else None.

(** The frame as the relay's loop forwards it, from the socket of [x] to the other. *)
Definition forward (x : side) (frame : bytes) : option bytes :=
  head (binaries_to (other x) (relay_pair [(x, ws_upgrade (Binary frame), true)])).

(** Process a frame from the relay and read the text as a C string. *)
Definition process (frame : bytes) (st : t * entropy) : option (bytes * (t * entropy)) :=
  '(c, s, e) ← gary_process_relay_inbound (Some st.1) (Some frame) (len frame) st.2;
  s ← s;
  txt ← gary_last_inbound_utf8 (Some s) ≫= c_string;
  if c =? GARY_CODE_OK then Some (txt, (s, e)) else None.

(** One text from the first peer to the second; [None] if anything fails. *)
Definition hop (x : side) (rt : bytes) (cap : N) (text : bytes) (w : peers)
    : option (bytes * peers) :=
  '(frame, me) ← prepare rt cap text w.1;
  frame ← forward x frame;
  '(txt, peer) ← process frame w.2;
  Some (txt, (me, peer)).

(** A dialogue: who speaks, and what arrives on the other side. *)
Fixpoint converse (rt : bytes) (cap : N) (script : list (side * bytes)) (w : peers)
    : option (list bytes) :=
  match script with
  | [] => Some []
  | (x, text) :: script =>
      '(txt, w) ← match x with
        | SideA => hop x rt cap text w
        | SideB => '(txt, w) ← hop x rt cap text (swap w); Some (txt, swap w)
        end;
      rest ← converse rt cap script w;
      Some (txt :: rest)
  end.

(** A text the boundary can carry. *)
Definition sendable (text : bytes) : Prop :=
  len text <= 504 ∧ utf8_valid text = true ∧ x00 ∉ text.
#[global] Instance sendable_dec text : Decision (sendable text).
Proof. unfold sendable. apply _. Defined.

(** ** One hop *)

Lemma semantic_roundtrip text :
  len text <= 504 → utf8_valid text = true →
  ∃ plain, data_inner_plaintext 1 1 text = Ok plain ∧ len plain = DATA_INNER_FIXED ∧
    decode_inner_semantic_utf8 plain = Some text.
Proof.
  intros Hl Hu. rewrite data_inner_plaintext_ok by done. eexists. split; [done|].
  assert (len (data_semantic 1 1 text ++
    hkdf ZERO32 (data_semantic 1 1 text) INFO_DATA_INNER_PAD_V1 (504 - len text)) = 512) as Hlen
    by len_goal.
  split; [done|]. unfold decode_inner_semantic_utf8, DATA_INNER_FIXED. rewrite eqb_true by done.
  cbn [negb]. cbv zeta. unfold data_semantic. rewrite <- !app_assoc.
  assert (∀ x, sub (be_bytes 2 1 ++ be_bytes 2 1 ++ be_bytes 4 (len text) ++ x) 4 8 =
    be_bytes 4 (len text)) as Hsub by (intros; by cut_fields).
  rewrite Hsub, from_be_bytes by (unfold fits; simpl; lia).
  rewrite checked_add_ok by (unfold USIZE_MAX, U64_MAX; lia). cbn [mbind option_bind].
  rewrite ltb_false by lia.
  assert (∀ x, sub (be_bytes 2 1 ++ be_bytes 2 1 ++ be_bytes 4 (len text) ++ text ++ x) 8
    (8 + len text) = text) as -> by (intros; by cut_fields).
  by rewrite Hu.
Qed.

(** The operating system's generator delivers. *)
Definition entropy_total : Prop := ∀ e, ∃ seed e', getrandom e = (Some seed, e').

Lemma os_seed_total s e :
  entropy_total → ∃ seed e', os_seed (s, e) = (Ok seed, (s, e')).
Proof.
  intros Ht. destruct (Ht e) as (seed&e'&He). exists (fit 32 seed), e'. unfold os_seed.
  by rewrite He.
Qed.

Lemma strip_bucket padded k l :
  strip_outer_pad padded k = Ok l → smallest_padding_bucket k = Some (len padded).
Proof.
  unfold strip_outer_pad. destruct (smallest_padding_bucket k) as [b|]; oc; [|done].
  by destruct (N.eqb_spec (len padded) b) as [->|]; oc.
Qed.

(** One direction after [n] texts. *)
Definition in_sync (n : nat) (w : peers) : Prop :=
  ∃ sid ep p ck0, len sid = 16 ∧ u32_ok ep ∧ len p = 32 ∧
    send_inv sid ep p ck0 (N.of_nat n) (core w.1.1) ∧
    (∃ ch, recv_inv sid ep p ck0 ch (core w.2.1) ∧ received_upto n ch) ∧
    len (last_inbound_utf8 w.2.1) = 512.

Section hop.
Context `{!CryptoLaws _} (Hent : entropy_total).
Variables (sid : bytes) (ep : N) (p ck0 : bytes).

Lemma genuine_frame n rec plain :
  len sid = 16 → u32_ok ep → len p = 32 → u64_ok n → genuine_outer sid ep p ck0 n rec plain →
  ∃ b, OuterRecord.encode rec = Ok b ∧ OuterRecord.decode b = Ok rec ∧ len b = 1091.
Proof.
  intros Hsid Hep Hp Hn (nonce&ct&[]&_&Hval&Hstrip). apply strip_bucket in Hstrip.
  change (smallest_padding_bucket (24 + DATA_INNER_FIXED + 16)) with (Some 1024) in Hstrip.
  injection Hstrip as Hlen.
  assert (Header.wf (OuterRecord.header rec)) as Hwf.
  { pose proof (proj1 (validate_v0_Ok _ _) Hval) as (Hv&Hf&_). unfold Header.wf.
    rewrite Hv, Hf, gen_typ, gen_epoch, gen_sid, gen_counter, gen_pub. by split_and!. }
  assert (OuterRecord.record_body_len rec <= MAX_RECORD_BODY_LEN) as Hmax
    by (unfold OuterRecord.record_body_len, Header.LEN, MAX_RECORD_BODY_LEN; lia).
  exists (OuterRecord_layout rec). split_and!.
  - by apply OuterRecord_encode_Ok.
  - by apply OuterRecord_decode_layout.
  - unfold OuterRecord_layout. rewrite !len_app, len_be_bytes, Header_encode_len by done.
    unfold Header.LEN. lia.
Qed.

Lemma build_genuine n a ea text :
  len sid = 16 → u32_ok ep → len p = 32 → send_inv sid ep p ck0 n (core a) → n < U64_MAX →
  sendable text →
  ∃ b rec a' ea' plain,
    build_data_outer_record_bytes text (a, ea) = (Ok b, (a', ea')) ∧
    OuterRecord.decode b = Ok rec ∧ len b = 1091 ∧
    genuine_outer sid ep p ck0 n rec plain ∧
    decode_inner_semantic_utf8 plain = Some text ∧
    send_inv sid ep p ck0 (n + 1) (core a') ∧ recv_view (core a') = recv_view (core a) ∧
    last_inbound_utf8 a' = last_inbound_utf8 a.
Proof.
  intros Hsid Hep Hp Hs Hn (Hl&Hu&_).
  destruct (semantic_roundtrip text Hl Hu) as (plain&Hplain&Hlen&Hsem).
  destruct (os_seed_total a ea Hent) as (seed&ea'&Hseed).
  destruct (encrypt_data_outer_genuine sid ep p ck0 Hp n (core a) (from_seed seed) plain)
    as (h&pl&s'&g'&He&Hg&Hs'); [done..|].
  assert (u64_ok n) as Hn64 by (unfold fits; simpl; unfold U64_MAX in Hn; lia).
  destruct (genuine_frame n _ plain Hsid Hep Hp Hn64 Hg) as (b&Henc&Hdec&Hb).
  eexists b, _, (set_inner {| SessionHandle.session := s' |} a), ea', plain.
  pose proof (preserves_snd _ _ (core a, from_seed seed)
    (encrypt_recv_view plain (recv_view (core a))) eq_refl) as Hv. rewrite He in Hv.
  split_and!; [|done..]. clear Hv.
  unfold build_data_outer_record_bytes.
  rewrite (st_bind_Ok _ _ _ plain (a, ea)) by (unfold or_latch, st_lift; by rewrite Hplain).
  rewrite (st_bind_Ok _ _ _ _ _ Hseed). cbv zeta.
  rewrite (st_bind_Ok _ _ _ (h, pl) (set_inner {| SessionHandle.session := s' |} a, ea')).
  2: { unfold or_latch, on_core, SessionHandle.send_data_plain512_outer, SessionHandle.on_inner,
         st_zoom. cbn [fst snd]. unfold core in He. by rewrite He. }
  unfold or_latch, st_lift. by rewrite Henc.
Qed.

Lemma relay_body_total rt cap n a ea text buf w :
  len sid = 16 → u32_ok ep → len p = 32 → send_inv sid ep p ck0 n (core a) → n < U64_MAX →
  sendable text → len rt <= MAX_ROUTE_TOKEN_LEN → 2048 <= cap →
  ∃ wire b rec plain a' ea',
    relay_body rt text cap {| c_st := (a, ea); c_buf := buf; c_written := w |} =
      (Ok GARY_CODE_OK,
       {| c_st := (a', ea'); c_buf := put buf 0 wire; c_written := len wire |}) ∧
    len wire <= 2048 ∧
    RelayOuterEnvelope.decode_padded_wire wire =
      Ok {| RelayOuterEnvelope.route_token := rt; RelayOuterEnvelope.opaque_bytes := b |} ∧
    OuterRecord.decode b = Ok rec ∧ genuine_outer sid ep p ck0 n rec plain ∧
    decode_inner_semantic_utf8 plain = Some text ∧ send_inv sid ep p ck0 (n + 1) (core a') ∧
    recv_view (core a') = recv_view (core a) ∧ last_inbound_utf8 a' = last_inbound_utf8 a.
Proof.
  intros Hsid Hep Hp Hs Hn Htext Hrt Hcap. unfold MAX_ROUTE_TOKEN_LEN in Hrt.
  destruct (build_genuine n a ea text) as (b&rec&a1&ea1&plain&Hb&Hdec&Hlen&Hg&Hsem&Hs1&Hv1&Ht1); [done..|].
  destruct (os_seed_total a1 ea1 Hent) as (seed&ea2&Hseed).
  set (env := {| RelayOuterEnvelope.route_token := rt; RelayOuterEnvelope.opaque_bytes := b |}).
  assert (env_ok env) as Henv.
  { unfold env_ok, MAX_ROUTE_TOKEN_LEN, MAX_OUTER_RECORD_SERIALIZED, MAX_RECORD_BODY_LEN.
    simpl. lia. }
  assert (len (env_layout env) <= 1610) as Hll by (rewrite env_layout_len; simpl; lia).
  destruct (encode_padded_decodes env (from_seed seed) Henv) as (wire&g'&Hw&Hdw&Hbk); [lia|].
  apply bucket_spec in Hbk as (_&_&Hmin).
  specialize (Hmin 2048 ltac:(set_solver) ltac:(lia)).
  exists wire, b, rec, plain, (latch_ok a1), ea2. split_and!; [|done..].
  unfold relay_body, in_call, st_zoom, return_if, set_ok, write_out.
  repeat (rewrite st_bind_eq; cbn [c_st c_buf c_written st_modify mret st_ret fst snd];
    rewrite ?Hb, ?Hseed; cbv beta iota zeta).
  fold env. unfold or_latch, st_lift. rewrite Hw. cbn [fst].
  rewrite ltb_false by lia. done.
Qed.

(** The receiving half. *)
Lemma process_total n wire rt bb rec plain text b eb ch :
  u32_ok ep → len p = 32 → recv_inv sid ep p ck0 ch (core b) → received_upto n ch →
  len (last_inbound_utf8 b) = 512 → N.of_nat n + MAX_SKIP <= U64_MAX →
  RelayOuterEnvelope.decode_padded_wire wire =
    Ok {| RelayOuterEnvelope.route_token := rt; RelayOuterEnvelope.opaque_bytes := bb |} →
  OuterRecord.decode bb = Ok rec → genuine_outer sid ep p ck0 (N.of_nat n) rec plain →
  decode_inner_semantic_utf8 plain = Some text →
  ∃ b', process_body wire (b, eb) = (Ok GARY_CODE_OK, (b', eb)) ∧
    last_inbound_utf8 b' = text ++ zeros (512 - len text) ∧
    send_view (core b') = send_view (core b) ∧
    ∃ ch', recv_inv sid ep p ck0 ch' (core b') ∧ received_upto (S n) ch'.
Proof.
  intros Hep Hp Hrecv Hch Hbuf Hn Hdw Hdec Hg Hsem.
  destruct (handle_inbound_refines sid ep p ck0 Hp ch (core b) (from_seed INGEST_SEED)
    (N.of_nat n) rec 0 plain) as (s'&Hin&Hrecv'); [done..|].
  destruct (channel_recv_next n ch Hch) as (ch'&Hcr&Hch'). rewrite Hcr in Hin, Hrecv'.
  unfold process_body.
  rewrite (st_bind_Ok _ _ _ _ (b, eb)) by (unfold or_latch, st_lift; by rewrite Hdw).
  cbn [RelayOuterEnvelope.opaque_bytes]. rewrite (ingest_inner_eq _ _ _ _ Hdec), Hin.
  cbn [fst snd fmap outcome_fmap]. cbv zeta. eexists. split; [done|].
  split; [by apply store_text; [simpl; rewrite Hbuf|]|].
  rewrite core_latch_ok, core_store. split; [|by exists ch'].
  destruct Hg as (nonce&ct&[]&_).
  pose proof (preserves_snd _ _ (core b, from_seed INGEST_SEED)
    (handle_inbound_sending p (send_view (core b)) rec 0 ltac:(done) ltac:(done))
    (conj eq_refl (ri_peer _ _ _ _ _ _ Hrecv))) as [Hv _]. by rewrite Hin in Hv.
Qed.

End hop.

(** The relay's loop passes a frame of the library on unchanged. *)
Lemma forward_small `{!SocketLaws _} x frame : len frame <= 2048 → forward x frame = Some frame.
Proof.
  intros Hl. unfold forward, ws_upgrade.
  rewrite ws_deliver_small by (simpl payload_len; lia). by destruct x.
Qed.

Lemma hop_step `{!CryptoLaws _} `{!SocketLaws _} x rt cap n m text w :
  entropy_total → in_sync n w → in_sync m (swap w) → N.of_nat n + MAX_SKIP <= U64_MAX →
  sendable text → len rt <= MAX_ROUTE_TOKEN_LEN → 2048 <= cap →
  ∃ w', hop x rt cap text w = Some (text, w') ∧ in_sync (S n) w' ∧ in_sync m (swap w').
Proof.
  destruct w as [[a ea] [b eb]].
  intros Hent (sid&ep&p&ck0&Hsid&Hep&Hp&Hs&(ch&Hrecv&Hch)&Hbuf) Hback Hn Htext Hrt Hcap.
  simpl in *. pose proof Hn as Hn'. unfold MAX_SKIP in Hn'.
  destruct (relay_body_total Hent sid ep p ck0 rt cap (N.of_nat n) a ea text (zeros cap) 0)
    as (wire&bb&rec&plain&a'&ea'&Hbody&Hwl&Hdw&Hdec&Hg&Hsem&Hs'&Hva&Hta); [done..|lia|done|done|done|].
  destruct (process_total Hent sid ep p ck0 n wire rt bb rec plain text b eb ch)
    as (b'&Hproc&Htxt&Hvb&ch'&Hrecv'&Hch'); [done..|].
  pose proof Htext as (Hl&_&Hnul).
  exists ((a', ea'), (b', eb)). split_and!.
  - unfold hop, prepare, gary_prepare_relay_outbound_utf8, from_raw_parts, run_send.
    cbn [fst snd is_null andb orb mbind option_bind]. rewrite eqb_false, !leb_true by lia.
    cbn [mbind option_bind]. rewrite ltb_false, !take_all_N by len_goal. unfold catch_unwind.
    rewrite Hbody. cbn [c_st c_buf c_written fst snd session out_buf out_written code ent mbind option_bind].
    rewrite put_zeros_nil, N.eqb_refl, take_app_len by len_goal. cbn [mbind option_bind].
    rewrite forward_small by done. cbn [mbind option_bind].
    unfold process, gary_process_relay_inbound. rewrite receive_with_eq. unfold catch_unwind.
    cbn [fst snd]. rewrite Hproc.
    cbn [mbind option_bind gary_last_inbound_utf8 fmap option_fmap option_map].
    rewrite Htxt, zeros_succ, c_string_text by (done || lia). done.
  - exists sid, ep, p, ck0. simpl. rewrite Htxt. split_and!; [done|done|done| |by exists ch'|len_goal].
    by replace (N.of_nat (S n)) with (N.of_nat n + 1) by lia.
  - destruct Hback as (sid2&ep2&p2&ck2&?&?&?&Hs2&(ch2&Hr2&?)&?). simpl in *.
    exists sid2, ep2, p2, ck2. simpl. rewrite Hta. split_and!; [done|done|done| | |done].
    + by eapply send_inv_view.
    + exists ch2. split; [by eapply recv_inv_view|done].
Qed.

Lemma converse_total `{!CryptoLaws _} `{!SocketLaws _} rt cap script n m w :
  entropy_total → in_sync n w → in_sync m (swap w) →
  N.of_nat n + len script + MAX_SKIP <= U64_MAX → N.of_nat m + len script + MAX_SKIP <= U64_MAX →
  Forall sendable script.*2 → len rt <= MAX_ROUTE_TOKEN_LEN → 2048 <= cap →
  converse rt cap script w = Some script.*2.
Proof.
  intros Hent Hw Hback Hn Hm Hscript Hrt Hcap. revert n m w Hw Hback Hn Hm Hscript.
  induction script as [|[x text] script IH]; intros n m w Hw Hback Hn Hm Hscript; [done|].
  rewrite len_cons in Hn, Hm. apply Forall_cons in Hscript as [Htext Hscript]. simpl. destruct x.
  - destruct (hop_step SideA rt cap n m text w) as (w'&Hhop&Hw'&Hb'); [done|done|done|lia|done..|].
    rewrite Hhop. cbn [mbind option_bind]. by rewrite (IH (S n) m w') by (done || lia).
  - destruct (hop_step SideB rt cap m n text (swap w)) as (w'&Hhop&Hw'&Hb');
      [done|done|by rewrite swap_swap|lia|done..|].
    rewrite Hhop. cbn [mbind option_bind].
    by rewrite (IH n (S m) (swap w')) by (done || lia || by rewrite swap_swap).
Qed.

Lemma fresh_in_sync a b ea eb :
  fresh_pair (SessionHandle.session a) (SessionHandle.session b) →
  session_wf (SessionHandle.session a) →
  in_sync 0 ((new a, ea), (new b, eb)).
Proof.
  intros (sid&ep&p&ck0&Hep&Hp&Hs&Hr)%fresh_pair_inv Hwf. exists sid, ep, p, ck0. simpl.
  split_and!; [|done..| |by vm_compute].
  - rewrite <- (si_sid _ _ _ _ _ _ Hs). apply Hwf.
  - exists Channel.empty. split; [done|apply received_upto_empty].
Qed.

(** C4: texts arrive. Between the handles of a host and a guest of one handshake,
    every dialogue of valid UTF-8 texts of at most 504 bytes without NUL, spoken by
    either side in any order, is read back on the other side as exactly those texts:
    each is prepared for the relay, sent as a WebSocket message within the server's
    limits, forwarded by the relay's loop, and processed by the peer, through every
    layer of the library, and every call reports [GARY_CODE_OK]. A 2048-byte buffer
    is enough for any legal route token. *)
Theorem relayed_dialogue_delivers `{!CryptoLaws _} `{!SocketLaws _} a b ea eb rt cap script :
  entropy_total →
  fresh_pair (SessionHandle.session a) (SessionHandle.session b) →
  fresh_pair (SessionHandle.session b) (SessionHandle.session a) →
  session_wf (SessionHandle.session a) → session_wf (SessionHandle.session b) →
  Forall sendable script.*2 → len script + MAX_SKIP <= U64_MAX →
  len rt <= MAX_ROUTE_TOKEN_LEN → 2048 <= cap →
  converse rt cap script ((new a, ea), (new b, eb)) = Some script.*2.
Proof.
  intros Hent Hab Hba Ha Hb Hscript Hn Hrt Hcap.
  apply (converse_total rt cap script 0 0); try done; try lia; by apply fresh_in_sync.
Qed.

End conversation.

(** ** Concrete instances *)

(** Sockets that refuse what is over a limit. *)
#[local] Instance toy_sockets : Sockets := {|
  ws_deliver frame message m :=
    if (payload_len m <=? frame) && (payload_len m <=? message) then Received m else RecvError;
|}.
#[local] Instance toy_sockets_laws : SocketLaws toy_sockets.
Proof. split. intros. simpl. by rewrite !leb_true. Qed.

Definition toy_script : list (side * bytes) :=
  [(SideA, bs "hello"); (SideB, bs ""); (SideB, bs "relay"); (SideA, bs "bye")].

Lemma relayed_dialogue_delivers_witness :
  converse (bs "token") 32768 toy_script
    ((new (toy_handle toy_alice), toy_entropy 1), (new (toy_handle toy_bob), toy_entropy 9)) =
  Some [bs "hello"; bs ""; bs "relay"; bs "bye"].
Proof.
  apply (relayed_dialogue_delivers (toy_handle toy_alice) (toy_handle toy_bob) _ _ (bs "token")
    32768 toy_script).
  - intros e. by eexists _, _.
  - apply toy_fresh_pair.
  - apply toy_fresh_pair_back.
  - apply toy_alice_wf.
  - apply toy_bob_wf.
  - apply (bool_decide_unpack _). by vm_compute.
  - by vm_compute.
  - by vm_compute.
  - by vm_compute.
Defined.
